(* ===== verification/_CoqProject ===== *)
-Q . S2P
Prelude.v
CxxString.v
Utf8.v
Utf16.v
Utf8Iterator.v
Utf8Unchecked.v
StdMap.v
Boost.v
RequestCommon.v
RequestInfo.v
MultiThreadQueue.v
QueueCounters.v
UrlCodec.v
DupConf.v
Filters.v
Substitution.v
CurlCall.v
RequestProcessor.v
Deserialize.v
ThreadPool.v
Workers.v
ModDup.v
Apache.v
FiltersDup.v
Migrate.v
DiffPrinter.v
MultilineDiffPrinter.v
JsonDiffPrinter.v
Dtl.v
DtlSearch.v
DtlScript.v
DtlRounds.v
Diff3.v
UnifiedFormat.v
DtlModes.v
MapCompare.v
StringCompare.v
Log.v
ResponseDiff.v
ModCompare.v
FiltersCompare.v
Wire.v
EndToEnd.v
SharedMutex.v
Hooks.v
