(* ===== verification/Prelude.v ===== *)
(** * The verification of mod_dup

    Three Apache modules. mod_dup duplicates requests: its filters collect a request
    and its answer, and a pool of worker threads sends the duplicates that the
    configured filters select, changed by the configured substitutions, to other
    servers. mod_compare runs on such a server: it takes the serialised request apart,
    lets the handler answer it, compares the answer with the one mod_dup sent along and
    reports the differences. mod_migrate sets environment variables from the parts of a
    request. This file is the prelude of the development, below; the other files model
    one part each, in the names of the source (src/ is the directory src/src/ of the
    repository).

    ** How the parts meet

    A request of mod_dup goes through FiltersDup (filters_dup.cc), which makes one
    [RequestInfo] (RequestInfo), fills it bucket by bucket, and pushes its address on
    the queue of the pool (MultiThreadQueue, ThreadPool). A worker is [run] of
    RequestProcessor: for each request it takes, [runOne] matches the filters of the
    location (Filters), and per destination that matched draws the number of duplicates,
    substitutes (Substitution, UrlCodec), sets a curl handle up and performs the
    transfer (CurlCall). The body of a duplicate with its answer is written by
    [sendDupFormat] (CurlCall) and read back by [deserializeBody] (Deserialize) in the
    input filter of mod_compare (FiltersCompare). Its output filters compare headers
    (MapCompare) and bodies (StringCompare, over the difference library: Dtl, DtlSearch,
    DtlScript, DtlRounds, UnifiedFormat) into a printer (DiffPrinter, and its implementations
    MultilineDiffPrinter and JsonDiffPrinter, the latter over Utf8), and ResponseDiff
    writes the report to a file or to syslog (Log), under a mutex that the processes of
    Apache share (SharedMutex). The configurations are those of DupConf and ModDup,
    ModCompare, and Migrate; Hooks is what the modules register. EndToEnd follows a
    request from mod_dup to the report of mod_compare, over the wire (Wire).

    ** Files and sources

    - CxxString, StdMap: the standard library as the modules use it; Boost, Apache:
      the interfaces of what is outside the repository, with Utils.hh/.cc in Apache;
    - RequestCommon, RequestInfo, UrlCodec, Deserialize, MultiThreadQueue, ThreadPool,
      Log: the source files of these names; QueueCounters: getCounters of
      MultiThreadQueue.cc, access by access;
    - DupConf, ModDup: mod_dup.hh, mod_dup.cc; FiltersDup: filters_dup.cc;
    - Filters, Substitution, CurlCall, RequestProcessor: RequestProcessor.hh/.cc;
    - Migrate: mod_migrate.hh/.cc, filters_migrate.cc;
    - DiffPrinter, MultilineDiffPrinter, JsonDiffPrinter: libws_diff/DiffPrinter/;
      MapCompare, StringCompare: libws_diff/;
    - Dtl, DtlSearch, DtlScript, DtlRounds, UnifiedFormat, DtlModes, Diff3:
      extern/dtl-cpp;
      Utf8, Utf16, Utf8Iterator, Utf8Unchecked: extern/utf8;
    - ResponseDiff: response_diff.cc, CassandraDiff.h/.cc; ModCompare: mod_compare.hh/.cc;
      FiltersCompare: filters_compare.cc; SharedMutex: the functions on the mutex in
      mod_compare.cc, and the critical sections of response_diff.cc between processes;
    - Hooks: the ends of mod_dup.cc, mod_compare.cc and mod_migrate.cc;
    - Workers: no source of its own, the pool with its workers, manager and requests at
      work together; Wire, EndToEnd: no source of their own either, the two modules put
      together.

    In each file the definitions come first, one per function of the source, then the
    specifications and the lemmas, then the properties, then a module of examples. The
    claims of the manifest are marked by their numbers in brackets.

    ** How the program is modelled

    A function that may throw returns an [outcome]; one that may wait has no result
    ([None]). Globals and objects are records passed along; objects shared through
    pointers are in a store indexed by addresses (FiltersDup, FiltersCompare). Threads
    are step relations with one step per critical section (MultiThreadQueue), or per
    statement between which another thread can run (ThreadPool), or per access where the
    code shares a variable without a lock: the counters of the queue (QueueCounters) and the
    text a filter matched, [mMatch], that all workers write (Workers). Such an access is
    taken as a whole, although C++ leaves accesses that race undefined. [unsigned], [size_t]
    and [int] are wrapped where the code computes with values it does not bound. The
    effects of mod_compare on the outside are the events of a trace, locks included; to put
    text in the stream of a file ([Insert]) and to flush it ([Flush]) are two events.
    Library code outside the repository is an argument: classes of operations ([BoostString],
    [BoostRegex], [AprTable], [Curl], [Json], [Host], [ReqRandom], ...) with, where a
    theorem relies on it, a class of laws stating its documented behaviour. Each class
    of laws used has an instance (modules [Reference], [TableList], [Percent], [Tree],
    [Trace]), so that the laws can hold and every definition evaluates.

    ** What the theorems show

    - mod_dup: the filters select what an abstract specification selects; [runOne]
      follows a plan computed from the configuration; a transfer carries what the
      duplication type asks for, and announces the length of its body, besides those the
      request spelled otherwise than [Content-Length], which the code copies; the number of duplicates is bounded by the percentages;
      a worker ends at a poison; a request is queued or sent at most once, with its body
      and the whole answer; a substituted query parses back; directives either are
      rejected and change nothing or leave a well-formed configuration.
    - the pool: whatever the interleaving, it never has more threads than its maximum, and
      while it runs never fewer than its minimum, unless workers are lost because
      [curl_easy_init] fails; stopping ends the workers, the queue is first in first out, its
      counters account for what went through, but for the increments that race with
      [getCounters], and no wake-up is lost. With the workers at work (Workers): every
      request taken is handled exactly once, by the plan of the configuration, in whatever
      order the threads proceed, except for the texts of [mMatch], which may be those of
      another request; only a pill on a full queue makes one disappear.
    - from mod_dup to mod_compare: what [sendDupFormat] writes is what [deserializeBody]
      reads; the handler of the duplicate reads the original body, whatever the sizes of
      its reads, and sees the original method, content type and headers; of the headers
      mod_dup adds, four are taken out again. Put together
      (EndToEnd): the transfer of a prepared request, as libcurl, HTTP and Apache deliver
      it, makes mod_compare compare the answer of the first server with that of the
      second, with the status of the first, and nothing mod_dup wrote can make it fail.
    - mod_compare: from the first brigade of an answer to its report; the report says
      exactly the headers that differ and the unified difference of the bodies, is
      written whole, once, under the mutex and flushed before it is given back, or by the text
      printer in pieces that fit syslog (the JSON printers log it in one entry, without the
      mutex, and archives are not flushed); the text printer writes all it is told, in the
      order of the code, the JSON printers keep every difference of the database,
      and the default one writes valid UTF-8. Between processes: whatever the order of
      their events and whichever of them die, the file is a sequence of whole reports,
      cut only by deaths; the shared mutex is initialised at most once, and all that get
      one get the same. At a location, a request has the filters of the active modules, once, the
      one that keeps an answer before the one that uses it.
    - the difference library: the script found transforms one sequence into the other,
      in both modes and at any lengths, the searches that start again at the limit of
      coordinates included, and below that limit none is shorter; every array access is
      in bounds; its hunks patch the source
      into the destination; the mode for the distance only finds the same distance; a
      script printed and read back is the same script; and the three-way merge is the one
      that the gaps of the two scripts define.
    - the UTF-8 library: valid text is exactly what encodes code points; the replacement
      of invalid text, UTF-16, the iterators as cursors in the sequence of code points,
      and the unchecked functions against the checked ones.
    - mod_migrate: the variables set, the body given back to the handler, and what
      the directives of a location declare.

    ** Bounds and fuel

    Loops that are not structural have a fuel that the theorems show to be enough:
    one more than the length of the shorter sequence for the turns of the search of Dtl
    ([onp_spec], [compose_spec]: there is always a result), the length of the second
    sequence for its rounds ([rounds_spec]), the length of the string for
    the loops over characters (Utf8, [facility_loop]), the number of digits for
    [string_of_N], the number of members plus one for [free_name]. The lengths of
    sections of a serialised request are assumed within the 8 decimal digits that write
    them, the bodies below 2^31 where the code stores a length in an [int].

    ** Not modelled

    What Apache does with what the modules register; in ResponseDiff, where the mutex
    comes from and whether its owner died (the class [Host]: SharedMutex has the functions
    that get it and the processes that lock it); the text of log lines at the debug
    level; the time and the randomness (the values of the clock and the draws are
    arguments); the iterators of utf8 that point to no text; the demonstration of the
    comparison library (tools/libws_diff), which only times it, and the tests. *)
From Stdlib Require Export Ascii String ZArith NArith Lia Sorting.Sorted.
From stdpp Require Export base tactics list sets relations strings numbers.
Export list_basics.list list_relations.list list_monad.list list_misc.list list_tactics.list list_numbers.list.

#[export] Set Default Goal Selector "!".

(** ** C++ exceptions as values

    A function that may throw returns an [outcome]; [Throw e] carries the
    exception the source raises, which the caller either propagates (the [let!]
    notation) or catches (a [match]). *)

Inductive exn : Type :=
  | OutOfRange (what : string)    (** [std::out_of_range] *)
  | BadLexicalCast                (** [boost::bad_lexical_cast] *)
  | BadExpression                 (** [boost::bad_expression] *)
  | LogicError (what : string)    (** [std::logic_error] *)
  | NotEnoughRoom                 (** [utf8::not_enough_room] *)
  | InvalidCodePoint (cp : N)     (** [utf8::invalid_code_point] *)
  | InvalidUtf8 (oc : N)          (** [utf8::invalid_utf8], its octet *)
  | InvalidUtf16 (w : N)          (** [utf8::invalid_utf16], its word *)
  | StdException.                 (** a plain [std::exception] *)

#[export] Instance exn_eq_dec : EqDecision exn.
Proof. solve_decision. Defined.

Inductive outcome (A : Type) : Type :=
  | Ret (a : A)
  | Throw (e : exn).
Arguments Ret {A} a.
Arguments Throw {A} e.

#[export] Instance outcome_eq_dec {A} `{EqDecision A} : EqDecision (outcome A).
Proof. solve_decision. Defined.

Definition obind {A B} (m : outcome A) (k : A -> outcome B) : outcome B :=
  match m with Ret a => k a | Throw e => Throw e end.

Definition of_option {A} (e : exn) (o : option A) : outcome A :=
  match o with Some a => Ret a | None => Throw e end.

(** The value of a call that returned, read by evaluation. *)
Definition is_ret {A} (m : outcome A) : bool :=
  match m with Ret _ => true | Throw _ => false end.

Definition get_ret {A} (d : A) (m : outcome A) : A :=
  match m with Ret a => a | Throw _ => d end.

Lemma ret_get {A} (d : A) (m : outcome A) : is_ret m = true -> m = Ret (get_ret d m).
Proof. by destruct m. Qed.

Definition is_inl {A B} (m : A + B) : bool := match m with inl _ => true | inr _ => false end.
Definition get_inl {A B} (d : A) (m : A + B) : A := match m with inl a => a | inr _ => d end.

Lemma inl_get {A B} (d : A) (m : A + B) : is_inl m = true -> m = inl (get_inl d m).
Proof. by destruct m. Qed.

Lemma filter_filter {A} (p q : A -> bool) (l : list A) :
  List.filter p (List.filter q l) = List.filter (fun x => q x && p x) l.
Proof.
  induction l as [|x l IH]; simpl; [done|]. destruct (q x); simpl; [|done].
  destruct (p x); by rewrite IH.
Qed.

Lemma StronglySorted_filter_bool {A} (R : A -> A -> Prop) (f : A -> bool) (l : list A) :
  StronglySorted R l -> StronglySorted R (List.filter f l).
Proof.
  induction 1 as [|e l _ IH Hlt]; cbn; [constructor|]. destruct (f e); [|done]. constructor; [done|].
  rewrite List.Forall_forall in Hlt |- *. intros a [Ha _]%filter_In. by apply Hlt.
Qed.

Lemma Forall_of_forallb {A} (f : A -> bool) (P : A -> Prop) (l : list A) :
  (forall x, f x = true -> P x) -> forallb f l = true -> Forall P l.
Proof.
  intros Hf. induction l as [|x l IH]; [by constructor|]. cbn [forallb].
  intros [Hx Hl]%andb_prop. constructor; auto.
Qed.

Declare Scope cxx_scope.
Delimit Scope cxx_scope with cxx.
Notation "'let!' x ':=' m 'in' k" := (obind m (fun x => k))
  (at level 10, x binder, m at level 100, k at level 200) : cxx_scope.
Notation "'let!' ' p ':=' m 'in' k" := (obind m (fun p => k))
  (at level 10, p strict pattern, m at level 100, k at level 200) : cxx_scope.
Open Scope cxx_scope.

Local Open Scope N_scope.

(** ** Machine integers

    [size_t] and [unsigned] values are [N]; where the code's result can leave
    the range of the type, the wrap is written out with these. *)

(** The sum of the sizes of some reads. *)
Definition zsum (ks : list Z) : Z := foldr Z.add 0%Z ks.

Lemma zsum_nonneg ks : Forall (fun k => 0 < k)%Z ks -> (0 <= zsum ks)%Z.
Proof. unfold zsum. induction 1; cbn; lia. Qed.

Definition u32_modulus : N := 4294967296.
Definition u64_modulus : N := 18446744073709551616.
Definition u32 (n : N) : N := N.modulo n u32_modulus.
Definition u64 (n : N) : N := N.modulo n u64_modulus.
(** [a - b] on [unsigned] (32 bits) and [size_t] (64 bits). *)
Definition u32_sub (a b : N) : N := u32 (a + u32_modulus - u32 b).
Definition u64_sub (a b : N) : N := u64 (a + u64_modulus - u64 b).

(** No wrap when the result is in range. *)
Lemma mod_sub_le m a b : b <= a -> a < m -> (a + m - b mod m) mod m = a - b.
Proof.
  intros Hb Ha. rewrite (N.mod_small b) by lia.
  replace (a + m - b) with ((a - b) + 1 * m) by lia.
  rewrite N.Div0.mod_add. apply N.mod_small. lia.
Qed.

Lemma u32_sub_le a b : b <= a -> a < u32_modulus -> u32_sub a b = a - b.
Proof. apply mod_sub_le. Qed.

Lemma u64_sub_le a b : b <= a -> a < u64_modulus -> u64_sub a b = a - b.
Proof. apply mod_sub_le. Qed.

(** One more copy, at the end. *)
Lemma concat_replicate_snoc {A} n (l : list A) :
  concat (replicate n l) ++ l = concat (replicate (S n) l).
Proof.
  induction n as [|n IH]; cbn; [by rewrite app_nil_r|].
  rewrite <- app_assoc. f_equal. exact IH.
Qed.
