(* ===== verification/CxxString.v ===== *)
(** * std::string and the C character functions

    The operations of the C++ standard library the modules use on
    [std::string] and [char *]: [find], [substr], [std::getline], [toupper],
    [std::setw]/[std::setfill] output of a number, [strcmp], [strcasecmp],
    [atoi], with the lemmas the components share. [size_t] positions are [N]. *)
From S2P Require Import Prelude.
Local Open Scope N_scope.

Create Rewrite HintDb cxx_str.

(** ** Length, prefix and suffix *)

Fixpoint str_len (s : string) : N :=
  match s with
  | EmptyString => 0
  | String _ t => N.succ (str_len t)
  end.

Fixpoint str_take (n : N) (s : string) : string :=
  match s with
  | EmptyString => EmptyString
  | String c t => if n =? 0 then EmptyString else String c (str_take (N.pred n) t)
  end.

Fixpoint str_drop (n : N) (s : string) : string :=
  match s with
  | EmptyString => EmptyString
  | String c t => if n =? 0 then s else str_drop (N.pred n) t
  end.

Definition str_empty (s : string) : bool :=
  match s with EmptyString => true | _ => false end.

(** [s.substr(pos, n)]: throws when [pos > size()], stops at the end of [s]. *)
Definition substr (s : string) (pos n : N) : outcome string :=
  if str_len s <? pos then Throw (OutOfRange "basic_string::substr")
  else Ret (str_take n (str_drop pos s)).

(** ** Search *)

Fixpoint starts_with (p s : string) : bool :=
  match p, s with
  | EmptyString, _ => true
  | String a p', String b s' => Ascii.eqb a b && starts_with p' s'
  | String _ _, EmptyString => false
  end.

(** [s.find(p)]; [None] is [npos]. *)
Fixpoint find_sub (p s : string) : option N :=
  if starts_with p s then Some 0
  else match s with
       | EmptyString => None
       | String _ t => N.succ <$> find_sub p t
       end.

(** [s.find(c)]. *)
Fixpoint find_char (c : ascii) (s : string) : option N :=
  match s with
  | EmptyString => None
  | String a t => if Ascii.eqb a c then Some 0 else N.succ <$> find_char c t
  end.

Fixpoint has_char (c : ascii) (s : string) : bool :=
  match s with
  | EmptyString => false
  | String a t => Ascii.eqb a c || has_char c t
  end.

Fixpoint string_map (f : ascii -> ascii) (s : string) : string :=
  match s with
  | EmptyString => EmptyString
  | String c t => String (f c) (string_map f t)
  end.

Fixpoint string_filter (f : ascii -> bool) (s : string) : string :=
  match s with
  | EmptyString => EmptyString
  | String c t => if f c then String c (string_filter f t) else string_filter f t
  end.

(** The C string at [s.c_str()]: what precedes the first NUL. *)
Fixpoint cstr (s : string) : string :=
  match s with
  | EmptyString => EmptyString
  | String c t => if Ascii.eqb c "000" then EmptyString else String c (cstr t)
  end.

(** ** Characters (the "C" locale) *)

Definition toupper (c : ascii) : ascii :=
  let n := N_of_ascii c in
  if (97 <=? n) && (n <=? 122) then ascii_of_N (n - 32) else c.

Definition tolower (c : ascii) : ascii :=
  let n := N_of_ascii c in
  if (65 <=? n) && (n <=? 90) then ascii_of_N (n + 32) else c.

Definition lower (s : string) : string := string_map tolower s.

(** [strcasecmp(a, b) == 0]. *)
Definition strcaseeq (a b : string) : bool := String.eqb (lower a) (lower b).

(** [a < b] for [std::string]: lexicographic on [unsigned char]. *)
Fixpoint str_ltb (a b : string) : bool :=
  match a, b with
  | _, EmptyString => false
  | EmptyString, String _ _ => true
  | String x a', String y b' =>
      if N_of_ascii x <? N_of_ascii y then true
      else if N_of_ascii y <? N_of_ascii x then false
      else str_ltb a' b'
  end.

(** ** Lines: [while (std::getline(stm, line))] collects these lines. *)

Definition newline : ascii := "010"%char.
Definition endl : string := String newline EmptyString.

Fixpoint getlines (s : string) : list string :=
  match s with
  | EmptyString => []
  | String c t =>
      if Ascii.eqb c newline then EmptyString :: getlines t
      else match t with
           | EmptyString => [String c EmptyString]
           | _ => match getlines t with
                  | [] => [String c EmptyString]
                  | l :: ls => String c l :: ls
                  end
           end
  end.

Fixpoint str_concat (l : list string) : string :=
  match l with
  | [] => EmptyString
  | s :: l' => s +:+ str_concat l'
  end.

(** ** Decimal numbers *)

Definition digit_char (d : N) : ascii := ascii_of_N (48 + d).

Definition digit_value (c : ascii) : option N :=
  let n := N_of_ascii c in
  if (48 <=? n) && (n <=? 57) then Some (n - 48) else None.

Fixpoint dec_digits (fuel : nat) (n : N) (acc : string) : string :=
  match fuel with
  | O => acc
  | S f =>
      let acc' := String (digit_char (n mod 10)) acc in
      if n <? 10 then acc' else dec_digits f (n / 10) acc'
  end.

(** [stream << n], [std::to_string(n)]. *)
Definition string_of_N (n : N) : string := dec_digits (S (N.to_nat (N.log2 n))) n EmptyString.

Definition string_of_Z (z : Z) : string :=
  match z with
  | Z0 => string_of_N 0
  | Zpos p => string_of_N (Npos p)
  | Zneg p => String "-" (string_of_N (Npos p))
  end.

Fixpoint digits_value (acc : N) (s : string) : option N :=
  match s with
  | EmptyString => Some acc
  | String c t =>
      match digit_value c with
      | Some d => digits_value (10 * acc + d) t
      | None => None
      end
  end.

(** The leading digits of a string, as [atoi] reads them. *)
Fixpoint leading_value (acc : N) (s : string) : N :=
  match s with
  | EmptyString => acc
  | String c t =>
      match digit_value c with
      | Some d => leading_value (10 * acc + d) t
      | None => acc
      end
  end.

Fixpoint skip_blanks (s : string) : string :=
  match s with
  | EmptyString => EmptyString
  | String c t =>
      let n := N_of_ascii c in
      if (n =? 32) || ((9 <=? n) && (n <=? 13)) then skip_blanks t else s
  end.

(** [atoi(s)]: leading blanks, an optional sign, then digits. The result is the
    mathematical value; the C standard leaves a value outside [int] undefined. *)
Definition atoi (s : string) : Z :=
  match skip_blanks s with
  | String "-" t => (- Z.of_N (leading_value 0 t))%Z
  | String "+" t => Z.of_N (leading_value 0 t)
  | t => Z.of_N (leading_value 0 t)
  end.

Fixpoint repeat_char (n : nat) (c : ascii) : string :=
  match n with O => EmptyString | S k => String c (repeat_char k c) end.

(** [stream << std::setfill('0') << std::setw(w) << n]: pads on the left, never
    truncates. *)
Definition setw0 (w n : N) : string :=
  let s := string_of_N n in
  repeat_char (N.to_nat (w - str_len s)) "0"%char +:+ s.

(** ** Lemmas *)

Lemma sapp_assoc (a b c : string) : (a +:+ b) +:+ c = a +:+ b +:+ c.
Proof. induction a as [|x a IH]; [done|]. change (String x ((a +:+ b) +:+ c) = String x (a +:+ b +:+ c)). by rewrite IH. Qed.

Lemma sapp_nil_r (a : string) : a +:+ EmptyString = a.
Proof. induction a as [|x a IH]; [done|]. change (String x (a +:+ EmptyString) = String x a). by rewrite IH. Qed.

Lemma sapp_cons c (a b : string) : String c a +:+ b = String c (a +:+ b).
Proof. done. Qed.

Lemma sapp_nil_l (b : string) : EmptyString +:+ b = b.
Proof. done. Qed.

Lemma str_len_app a b : str_len (a +:+ b) = str_len a + str_len b.
Proof. induction a as [|x a IH]; [done|]. rewrite ?sapp_cons. simpl. lia. Qed.

Lemma str_take_app a b : str_take (str_len a) (a +:+ b) = a.
Proof.
  induction a as [|x a IH]; simpl.
  - rewrite ?sapp_nil_l. by destruct b.
  - rewrite ?sapp_cons. simpl. destruct (N.eqb_spec (N.succ (str_len a)) 0); [lia|].
    by rewrite N.pred_succ, IH.
Qed.

Lemma str_drop_app a b : str_drop (str_len a) (a +:+ b) = b.
Proof.
  induction a as [|x a IH]; simpl.
  - rewrite ?sapp_nil_l. by destruct b.
  - rewrite ?sapp_cons. simpl. destruct (N.eqb_spec (N.succ (str_len a)) 0); [lia|].
    by rewrite N.pred_succ.
Qed.

Lemma str_take_all n s : str_len s <= n -> str_take n s = s.
Proof.
  revert n. induction s as [|c s IH]; intros n; simpl; [done|].
  intros. destruct (N.eqb_spec n 0); [lia|]. by rewrite IH by lia.
Qed.

Lemma str_drop_all n s : str_len s <= n -> str_drop n s = EmptyString.
Proof.
  revert n. induction s as [|c s IH]; intros n; simpl; [done|].
  intros. destruct (N.eqb_spec n 0); [lia|]. by rewrite IH by lia.
Qed.

Lemma str_take_drop n s : str_take n s +:+ str_drop n s = s.
Proof.
  revert n. induction s as [|c s IH]; intros n; simpl; [done|].
  destruct (n =? 0); [done|]. by rewrite ?sapp_cons, IH.
Qed.

Lemma str_len_take n s : str_len (str_take n s) = N.min n (str_len s).
Proof.
  revert n. induction s as [|c s IH]; intros n; simpl; [lia|].
  destruct (N.eqb_spec n 0); simpl; [lia|]. rewrite IH. lia.
Qed.

Lemma str_len_drop n s : str_len (str_drop n s) = str_len s - n.
Proof.
  revert n. induction s as [|c s IH]; intros n; simpl; [lia|].
  destruct (N.eqb_spec n 0); simpl; [lia|]. rewrite IH. lia.
Qed.

Lemma str_drop_drop n m s : str_drop n (str_drop m s) = str_drop (n + m) s.
Proof.
  revert n m. induction s as [|c s IH]; intros n m; simpl; [done|].
  destruct (N.eqb_spec m 0) as [->|]; simpl.
  - by rewrite N.add_0_r.
  - rewrite IH. destruct (N.eqb_spec (n + m) 0); [lia|]. f_equal. lia.
Qed.

Lemma str_take_add n m s : str_take n s +:+ str_take m (str_drop n s) = str_take (n + m) s.
Proof.
  revert n m. induction s as [|c s IH]; intros n m; [done|].
  destruct (N.eqb_spec n 0) as [->|Hn]; [done|].
  cbn [str_take str_drop]. replace (n + m =? 0) with false by (symmetry; apply N.eqb_neq; lia).
  rewrite (proj2 (N.eqb_neq n 0) Hn), sapp_cons, IH. f_equal. f_equal. lia.
Qed.

Lemma str_len_0 s : str_len s = 0 -> s = EmptyString.
Proof. destruct s; simpl; [done|lia]. Qed.

(** Reading the middle of a concatenation. *)
Lemma substr_mid a b c n :
  n = str_len b -> substr (a +:+ b +:+ c) (str_len a) n = Ret b.
Proof.
  intros ->. unfold substr. rewrite str_drop_app, str_take_app, !str_len_app.
  destruct (N.ltb_spec (str_len a + (str_len b + str_len c)) (str_len a)); [lia|done].
Qed.

#[export] Hint Rewrite sapp_assoc sapp_nil_r sapp_nil_l sapp_cons str_len_app : cxx_str.

Lemma has_char_app c a b : has_char c (a +:+ b) = has_char c a || has_char c b.
Proof. induction a as [|x a IH]; [done|]. rewrite ?sapp_cons. simpl. by rewrite IH, orb_assoc. Qed.

(** *** The order of [std::string] *)

Lemma N_of_ascii_inj a b : N_of_ascii a = N_of_ascii b -> a = b.
Proof. intros H. rewrite <- (ascii_N_embedding a), <- (ascii_N_embedding b). by f_equal. Qed.

Lemma str_ltb_irrefl a : str_ltb a a = false.
Proof. induction a as [|x a IH]; simpl; [done|]. by rewrite N.ltb_irrefl. Qed.

Lemma str_ltb_trans a b c : str_ltb a b = true -> str_ltb b c = true -> str_ltb a c = true.
Proof.
  revert b c. induction a as [|x a IH]; intros [|y b] [|z c]; simpl; try done.
  repeat match goal with |- context[N.ltb ?u ?v] => destruct (N.ltb_spec u v) end;
    try done; try lia; eauto.
Qed.

Lemma str_ltb_total a b : str_ltb a b = false -> str_ltb b a = false -> a = b.
Proof.
  revert b. induction a as [|x a IH]; intros [|y b]; simpl; try done.
  destruct (N.ltb_spec (N_of_ascii x) (N_of_ascii y)); [done|].
  destruct (N.ltb_spec (N_of_ascii y) (N_of_ascii x)); [done|].
  intros. f_equal; [apply N_of_ascii_inj; lia|eauto].
Qed.

(** *** Lines *)

Lemma getlines_line l r :
  has_char newline l = false -> getlines (l +:+ endl +:+ r) = l :: getlines r.
Proof.
  induction l as [|c l IH]; simpl; [done|]. rewrite ?sapp_cons.
  intros [Hc Hl]%orb_false_iff. simpl. rewrite Hc. rewrite (IH Hl).
  by destruct (l +:+ endl +:+ r) eqn:E; [destruct l|].
Qed.

Lemma getlines_concat ls :
  Forall (fun l => has_char newline l = false) ls ->
  getlines (str_concat ((fun l => l +:+ endl) <$> ls)) = ls.
Proof.
  induction 1 as [|l ls Hl _ IH]; [done|].
  cbn [fmap list_fmap str_concat]. rewrite sapp_assoc, getlines_line by done. by f_equal.
Qed.

(** *** Decimal numbers *)

Lemma digit_value_char d : d < 10 -> digit_value (digit_char d) = Some d.
Proof.
  intros H. unfold digit_value, digit_char. rewrite N_ascii_embedding by lia.
  destruct (N.leb_spec 48 (48 + d)); [|lia].
  destruct (N.leb_spec (48 + d) 57); [|lia]. simpl. f_equal. lia.
Qed.

Lemma digits_value_zeros k s : digits_value 0 (repeat_char k "0" +:+ s) = digits_value 0 s.
Proof. induction k as [|k IH]; [done|]. cbn -[N.add N.mul]. exact IH. Qed.

(** The digits [dec_digits] writes, read back in front of [s]. *)
Lemma digits_value_dec fuel n acc s :
  n < 10 ^ N.of_nat fuel ->
  exists k, digits_value acc (dec_digits fuel n s) = digits_value (acc * 10 ^ k + n) s
            /\ str_len (dec_digits fuel n s) = k + str_len s
            /\ (forall w, 1 <= w -> n < 10 ^ w -> k <= w).
Proof.
  revert n acc s. induction fuel as [|f IH]; intros n acc s Hn.
  - exists 0. simpl in *. rewrite N.pow_0_r in *. repeat split; [f_equal; lia|lia..].
  - cbn [dec_digits]. destruct (N.ltb_spec n 10) as [Hlt|Hge].
    + exists 1. cbn [digits_value str_len]. rewrite N.mod_small, digit_value_char by done.
      repeat split; [f_equal; lia|lia..].
    + rewrite Nnat.Nat2N.inj_succ, N.pow_succ_r' in Hn.
      assert (Hdiv : n / 10 < 10 ^ N.of_nat f) by (apply N.Div0.div_lt_upper_bound; lia).
      destruct (IH (n / 10) acc (String (digit_char (n mod 10)) s) Hdiv) as (k & Hv & Hl & Hw).
      exists (N.succ k). rewrite Hv, Hl. cbn [digits_value str_len].
      rewrite digit_value_char by (apply N.mod_lt; lia).
      repeat split.
      * f_equal. rewrite N.pow_succ_r'. pose proof (N.div_mod n 10 ltac:(lia)). lia.
      * lia.
      * intros w Hw1 Hnw. assert (2 <= w).
        { destruct (N.eq_dec w 1) as [->|]; [rewrite N.pow_1_r in Hnw; lia|lia]. }
        replace w with (N.succ (N.pred w)) in * by lia.
        rewrite N.pow_succ_r' in Hnw.
        assert (k <= N.pred w); [|lia]. apply Hw; [lia|].
        apply N.Div0.div_lt_upper_bound. lia.
Qed.

Lemma string_of_N_fuel n : n < 10 ^ N.of_nat (S (N.to_nat (N.log2 n))).
Proof.
  rewrite Nnat.Nat2N.inj_succ, Nnat.N2Nat.id.
  destruct (N.eq_dec n 0) as [->|]; [done|].
  pose proof (N.log2_spec n ltac:(lia)) as [_ H].
  pose proof (N.pow_le_mono_l 2 10 (N.succ (N.log2 n)) ltac:(lia)). lia.
Qed.

Lemma digits_value_string_of_N n : digits_value 0 (string_of_N n) = Some n.
Proof.
  unfold string_of_N.
  destruct (digits_value_dec _ n 0 EmptyString (string_of_N_fuel n)) as (k & -> & _ & _).
  by rewrite N.mul_0_l.
Qed.

Lemma str_len_string_of_N n w : 1 <= w -> n < 10 ^ w -> str_len (string_of_N n) <= w.
Proof.
  intros Hw Hn. unfold string_of_N.
  destruct (digits_value_dec _ n 0 EmptyString (string_of_N_fuel n)) as (k & _ & -> & Hk).
  specialize (Hk w Hw Hn). simpl. lia.
Qed.

Lemma string_of_N_inj n m : string_of_N n = string_of_N m -> n = m.
Proof.
  intros H. apply (f_equal (digits_value 0)) in H.
  rewrite !digits_value_string_of_N in H. congruence.
Qed.

Lemma str_len_repeat n c : str_len (repeat_char n c) = N.of_nat n.
Proof. induction n; simpl; lia. Qed.

Lemma setw0_value w n : digits_value 0 (setw0 w n) = Some n.
Proof. unfold setw0. by rewrite digits_value_zeros, digits_value_string_of_N. Qed.

Lemma setw0_len w n : 1 <= w -> n < 10 ^ w -> str_len (setw0 w n) = w.
Proof.
  intros Hw Hn. unfold setw0. rewrite str_len_app, str_len_repeat.
  pose proof (str_len_string_of_N n w Hw Hn). lia.
Qed.

(** *** Searching for a delimiter of two characters, as header lines use *)

Lemma fmap_None_inv {A B} (f : A -> B) (o : option A) : f <$> o = None -> o = None.
Proof. by destruct o. Qed.

Lemma find_sub_two a b k v :
  a <> b -> find_sub (String a (String b EmptyString)) k = None ->
  find_sub (String a (String b EmptyString)) (k +:+ String a (String b v)) = Some (str_len k).
Proof.
  intros Hab. induction k as [|c k IH]; intros Hk.
  - simpl. by rewrite !Ascii.eqb_refl.
  - rewrite ?sapp_cons. cbn [find_sub] in Hk |- *.
    destruct (starts_with _ (String c k)) eqn:Hs; [discriminate Hk|].
    apply fmap_None_inv in Hk. rewrite (IH Hk).
    enough (starts_with (String a (String b EmptyString))
              (String c (k +:+ String a (String b v))) = false) as -> by done.
    cbn [starts_with] in Hs |- *. destruct (Ascii.eqb_spec a c) as [->|]; [|done].
    cbn in Hs |- *. destruct k as [|d k]; cbn in Hs |- *; [|exact Hs].
    rewrite sapp_nil_l. destruct (Ascii.eqb_spec b c); [congruence|done].
Qed.

Lemma cstr_id s : has_char "000" s = false -> cstr s = s.
Proof.
  induction s as [|c s IH]; simpl; [done|]. intros [-> H]%orb_false_iff. by rewrite IH.
Qed.

(** *** Searching for a character *)

Lemma find_char_None c s : has_char c s = false -> find_char c s = None.
Proof. induction s as [|a s IH]; simpl; [done|]. intros [-> Hs]%orb_false_iff. by rewrite IH. Qed.

Lemma find_char_app c a b :
  has_char c a = false -> find_char c (a +:+ String c b) = Some (str_len a).
Proof.
  induction a as [|x a IH].
  - intros _. rewrite sapp_nil_l. simpl. by rewrite Ascii.eqb_refl.
  - rewrite sapp_cons. cbn [has_char find_char str_len]. intros [-> Ha]%orb_false_iff.
    by rewrite IH.
Qed.

Lemma find_char_take c s i : find_char c s = Some i -> has_char c (str_take i s) = false.
Proof.
  revert i. induction s as [|a s IH]; intros i; simpl; [done|].
  destruct (Ascii.eqb a c) eqn:E; [by intros [= <-]|].
  destruct (find_char c s) as [j|]; [|done]. intros [= <-].
  destruct (N.eqb_spec (N.succ j) 0); [lia|]. rewrite N.pred_succ. simpl. by rewrite E, IH.
Qed.

Lemma has_char_string_map c f s :
  (forall a, Ascii.eqb (f a) c = Ascii.eqb a c) -> has_char c (string_map f s) = has_char c s.
Proof. intros Hf. induction s as [|a s IH]; simpl; [done|]. by rewrite Hf, IH. Qed.

Lemma toupper_idem a : toupper (toupper a) = toupper a.
Proof. by destruct a as [[] [] [] [] [] [] [] []]. Qed.

Lemma string_map_toupper_idem s : string_map toupper (string_map toupper s) = string_map toupper s.
Proof. induction s as [|a s IH]; simpl; [done|]. by rewrite toupper_idem, IH. Qed.

Lemma str_drop_sep a c s : str_drop (str_len a + 1) (a +:+ String c s) = s.
Proof.
  rewrite N.add_comm, <- str_drop_drop, str_drop_app. simpl. by destruct s.
Qed.

Lemma cstr_app a b : has_char "000" a = false -> cstr (a +:+ b) = a +:+ cstr b.
Proof.
  induction a as [|x a IH]; [done|]. rewrite sapp_cons. cbn [has_char cstr].
  intros [-> Ha]%orb_false_iff. by rewrite IH.
Qed.

(** A character that is not a digit does not appear in a number. *)
Lemma has_char_dec_digits c fuel n acc :
  digit_value c = None -> has_char c (dec_digits fuel n acc) = has_char c acc.
Proof.
  intros Hc. assert (Hd : forall d, d < 10 -> Ascii.eqb (digit_char d) c = false).
  { intros d Hd. destruct (Ascii.eqb_spec (digit_char d) c) as [<-|]; [|done].
    by rewrite digit_value_char in Hc. }
  revert n acc. induction fuel as [|f IH]; intros n acc; [done|]. cbn [dec_digits].
  assert (Hn : n mod 10 < 10) by (apply N.mod_lt; lia).
  destruct (n <? 10); [|rewrite IH]; cbn [has_char]; by rewrite Hd.
Qed.

Lemma has_char_string_of_N c n : digit_value c = None -> has_char c (string_of_N n) = false.
Proof. intros Hc. unfold string_of_N. by rewrite has_char_dec_digits. Qed.

(** [atoi] reads back what [to_string] writes. *)
Lemma leading_value_digits acc s n : digits_value acc s = Some n -> leading_value acc s = n.
Proof.
  revert acc. induction s as [|c s IH]; intros acc; cbn; [congruence|].
  destruct (digit_value c); [apply IH|done].
Qed.

Lemma atoi_digits s n : digits_value 0 s = Some n -> atoi s = Z.of_N n.
Proof.
  destruct s as [|c s]; [by intros [= <-]|]. intros Hd.
  assert (Hc : is_Some (digit_value c)).
  { cbn in Hd. destruct (digit_value c); [by eexists|done]. }
  assert (Hb : skip_blanks (String c s) = String c s).
  { clear Hd. cbn [skip_blanks]. destruct Hc as [d Hc]. unfold digit_value in Hc.
    destruct ((48 <=? N_of_ascii c) && (N_of_ascii c <=? 57)) eqn:E; [|done].
    apply andb_prop in E as [E1%N.leb_le E2%N.leb_le].
    destruct (N.eqb_spec (N_of_ascii c) 32); [lia|]. cbn [orb].
    destruct (N.leb_spec (N_of_ascii c) 13); [lia|]. by rewrite andb_false_r. }
  unfold atoi. rewrite Hb. apply leading_value_digits in Hd.
  destruct c as [[] [] [] [] [] [] [] []]; try (by rewrite Hd); by destruct Hc.
Qed.

Lemma atoi_string_of_Z z : atoi (string_of_Z z) = z.
Proof.
  destruct z as [|p|p]; cbn [string_of_Z].
  - done.
  - by rewrite (atoi_digits _ _ (digits_value_string_of_N _)).
  - change (atoi (String "-" (string_of_N (Npos p))))
      with (- Z.of_N (leading_value 0 (string_of_N (Npos p))))%Z.
    pose proof (leading_value_digits _ _ _ (digits_value_string_of_N (Npos p))) as Hl.
    by rewrite Hl.
Qed.

Lemma str_concat_app a b : str_concat (a ++ b) = str_concat a +:+ str_concat b.
Proof. induction a as [|x a IH]; [done|]. cbn [app str_concat]. by rewrite IH, sapp_assoc. Qed.
