(* ===== verification/Utf8.v ===== *)
(** * Utf8

    The UTF-8 library of extern/utf8 (core.h, checked.h), as far as
    utf8JsonDiffPrinter.cc uses it, with its decoding and encoding loops. An
    iterator is the string from it to the end; the octets are characters, read as
    numbers below 256, and code points are [uint32_t]. *)
From Stdlib Require Import ZifyN.
From S2P Require Import Prelude CxxString.
Local Open Scope N_scope.

Definition LEAD_SURROGATE_MIN : N := 0xd800.
Definition TRAIL_SURROGATE_MAX : N := 0xdfff.
Definition CODE_POINT_MAX : N := 0x10ffff.

Definition mask8 (oc : ascii) : N := N.land 0xff (N_of_ascii oc).

Definition is_trail (oc : ascii) : bool := N.shiftr (mask8 oc) 6 =? 2.

Definition is_surrogate (cp : N) : bool := (LEAD_SURROGATE_MIN <=? cp) && (cp <=? TRAIL_SURROGATE_MAX).

Definition is_code_point_valid (cp : N) : bool := (cp <=? CODE_POINT_MAX) && negb (is_surrogate cp).

Definition sequence_length (lead : ascii) : N :=
  let lead := mask8 lead in
  if lead <? 0x80 then 1
  else if N.shiftr lead 5 =? 6 then 2
  else if N.shiftr lead 4 =? 0xe then 3
  else if N.shiftr lead 3 =? 0x1e then 4
  else 0.

Definition is_overlong_sequence (cp length : N) : bool :=
  if cp <? 0x80 then negb (length =? 1)
  else if cp <? 0x800 then negb (length =? 2)
  else if cp <? 0x10000 then negb (length =? 3)
  else false.

(** The errors of [utf_error]; [UTF8_OK] is the left of a sum. *)
Inductive utf_error : Type :=
  | NOT_ENOUGH_ROOM
  | INVALID_LEAD
  | INCOMPLETE_SEQUENCE
  | OVERLONG_SEQUENCE
  | INVALID_CODE_POINT.

#[export] Instance utf_error_eq_dec : EqDecision utf_error.
Proof. solve_decision. Defined.

(** [increase_safely], then [k] with the octet reached and the string from it; [rest]
    is what follows the current octet. *)
Definition increase_safely {A} (rest : string) (k : ascii -> string -> A + utf_error) : A + utf_error :=
  match rest with
  | EmptyString => inr NOT_ENOUGH_ROOM
  | String oc t => if is_trail oc then k oc t else inr INCOMPLETE_SEQUENCE
  end.

Definition get_sequence_1 (it : string) : N + utf_error :=
  match it with
  | EmptyString => inr NOT_ENOUGH_ROOM
  | String a _ => inl (mask8 a)
  end.

Definition get_sequence_2 (it : string) : N + utf_error :=
  match it with
  | EmptyString => inr NOT_ENOUGH_ROOM
  | String a t =>
      increase_safely t (fun b _ =>
        inl (N.land (N.shiftl (mask8 a) 6) 0x7ff + N.land (N_of_ascii b) 0x3f))
  end.

Definition get_sequence_3 (it : string) : N + utf_error :=
  match it with
  | EmptyString => inr NOT_ENOUGH_ROOM
  | String a t =>
      increase_safely t (fun b t =>
        let code_point := N.land (N.shiftl (mask8 a) 12) 0xffff + N.land (N.shiftl (mask8 b) 6) 0xfff in
        increase_safely t (fun c _ => inl (code_point + N.land (N_of_ascii c) 0x3f)))
  end.

Definition get_sequence_4 (it : string) : N + utf_error :=
  match it with
  | EmptyString => inr NOT_ENOUGH_ROOM
  | String a t =>
      increase_safely t (fun b t =>
        let code_point :=
          N.land (N.shiftl (mask8 a) 18) 0x1fffff + N.land (N.shiftl (mask8 b) 12) 0x3ffff in
        increase_safely t (fun c t =>
          let code_point := code_point + N.land (N.shiftl (mask8 c) 6) 0xfff in
          increase_safely t (fun d _ => inl (code_point + N.land (N_of_ascii d) 0x3f))))
  end.

(** [validate_next]: the code point and the number of octets to advance, or the
    error, which leaves the iterator where it was. [it] is not the end. *)
Definition validate_next (it : string) : (N * N) + utf_error :=
  match it with
  | EmptyString => inr NOT_ENOUGH_ROOM
  | String lead _ =>
      let length := sequence_length lead in
      if length =? 0 then inr INVALID_LEAD
      else
        match (if length =? 1 then get_sequence_1 it
               else if length =? 2 then get_sequence_2 it
               else if length =? 3 then get_sequence_3 it
               else get_sequence_4 it) with
        | inr err => inr err
        | inl cp =>
            if is_code_point_valid cp then
              if negb (is_overlong_sequence cp length) then inl (cp, length)
              else inr OVERLONG_SEQUENCE
            else inr INVALID_CODE_POINT
        end
  end.

(** The loops advance at least one octet: the length of the string is enough fuel. *)
Fixpoint find_invalid_fuel (fuel : nat) (result : string) : string :=
  match fuel, result with
  | S fuel, String _ _ =>
      match validate_next result with
      | inl (_, n) => find_invalid_fuel fuel (str_drop n result)
      | inr _ => result
      end
  | _, _ => result
  end.

Definition find_invalid (s : string) : string := find_invalid_fuel (String.length s) s.

Definition is_valid (s : string) : bool := str_empty (find_invalid s).

Definition octet (n : N) : ascii := ascii_of_N n.

Definition append (cp : N) : outcome string :=
  if negb (is_code_point_valid cp) then Throw (InvalidCodePoint cp)
  else if cp <? 0x80 then Ret (String (octet cp) "")
  else if cp <? 0x800 then
    Ret (String (octet (N.lor (N.shiftr cp 6) 0xc0))
        (String (octet (N.lor (N.land cp 0x3f) 0x80)) ""))
  else if cp <? 0x10000 then
    Ret (String (octet (N.lor (N.shiftr cp 12) 0xe0))
        (String (octet (N.lor (N.land (N.shiftr cp 6) 0x3f) 0x80))
        (String (octet (N.lor (N.land cp 0x3f) 0x80)) "")))
  else
    Ret (String (octet (N.lor (N.shiftr cp 18) 0xf0))
        (String (octet (N.lor (N.land (N.shiftr cp 12) 0x3f) 0x80))
        (String (octet (N.lor (N.land (N.shiftr cp 6) 0x3f) 0x80))
        (String (octet (N.lor (N.land cp 0x3f) 0x80)) "")))).

(** [while (start != end && is_trail( *start)) ++start]. *)
Fixpoint skip_trail (s : string) : string :=
  match s with
  | String oc t => if is_trail oc then skip_trail t else s
  | EmptyString => EmptyString
  end.

Fixpoint replace_invalid_fuel (fuel : nat) (start : string) (out : string) (replacement : N) :
    outcome string :=
  match fuel, start with
  | S fuel, String _ t =>
      match validate_next start with
      | inl (_, n) => replace_invalid_fuel fuel (str_drop n start) (out +:+ str_take n start) replacement
      | inr NOT_ENOUGH_ROOM => Throw NotEnoughRoom
      | inr INVALID_LEAD =>
          let! mark := append replacement in
          replace_invalid_fuel fuel t (out +:+ mark) replacement
      | inr _ =>
          let! mark := append replacement in
          replace_invalid_fuel fuel (skip_trail t) (out +:+ mark) replacement
      end
  | _, _ => Ret out
  end.

Definition replacement_marker : N := N.land 0xffff 0xfffd.

(** The text written, or the exception [not_enough_room]. *)
Definition replace_invalid (s : string) : outcome string :=
  replace_invalid_fuel (String.length s) s "" replacement_marker.

(** The conversion loops, to and from code points. *)
Fixpoint utf32to8 (cps : list N) (result : string) : outcome string :=
  match cps with
  | [] => Ret result
  | cp :: cps => let! e := append cp in utf32to8 cps (result +:+ e)
  end.

(** [*it], read as an unsigned octet. *)
Definition first_octet (it : string) : N :=
  match it with String c _ => mask8 c | EmptyString => 0 end.

(** A failure of [validate_next] does not set the code point that [next] declares: the
    exception for an invalid code point always holds 0. *)
Definition next (it : string) : outcome (N * string) :=
  match validate_next it with
  | inl (cp, n) => Ret (cp, str_drop n it)
  | inr NOT_ENOUGH_ROOM => Throw NotEnoughRoom
  | inr INVALID_CODE_POINT => Throw (InvalidCodePoint 0)
  | inr _ => Throw (InvalidUtf8 (first_octet it))
  end.

Fixpoint utf8to32_fuel (fuel : nat) (start : string) (result : list N) : outcome (list N) :=
  match fuel, start with
  | S fuel, String _ _ =>
      let! '(cp, start) := next start in utf8to32_fuel fuel start (result ++ [cp])
  | _, _ => Ret result
  end.

Definition utf8to32 (s : string) : outcome (list N) := utf8to32_fuel (String.length s) s [].

(** ** The bits as arithmetic *)

Lemma byte_bound a : N_of_ascii a < 256.
Proof. apply N_ascii_bounded. Qed.

Lemma octet_value n : n < 256 -> N_of_ascii (octet n) = n.
Proof. apply N_ascii_embedding. Qed.

Lemma mask8_value a : mask8 a = N_of_ascii a.
Proof.
  unfold mask8. rewrite N.land_comm. change 0xff with (N.ones 8). rewrite N.land_ones.
  apply N.mod_small, byte_bound.
Qed.

(** A marker above the low bits is added. *)
Lemma lor_add x h k : x < 2 ^ k -> N.lor x (h * 2 ^ k) = h * 2 ^ k + x.
Proof.
  intros Hx. rewrite <- N.shiftl_mul_pow2, N.lor_comm.
  assert (Hl : N.land (N.shiftl h k) x = 0).
  { apply N.bits_inj_0. intros i. rewrite N.land_spec. destruct (N.lt_ge_cases i k) as [Hi|Hi].
    - by rewrite N.shiftl_spec_low.
    - rewrite <- (N.mod_small x (2 ^ k)), N.mod_pow2_bits_high by done. apply andb_false_r. }
  by rewrite <- N.lxor_lor, N.add_nocarry_lxor.
Qed.

(** ** Decoding what was encoded *)

(** From here on [lia] knows division and remainder. *)
#[local] Ltac Zify.zify_post_hook ::= Z.div_mod_to_equations.

(** The encoding of a valid code point. *)
Definition encode (cp : N) : string := get_ret "" (append cp).

(** Octets as numbers. *)
Fixpoint octets (l : list N) : string :=
  match l with [] => EmptyString | n :: l => String (octet n) (octets l) end.

Lemma is_trail_iff a : is_trail a = true <-> 128 <= N_of_ascii a < 192.
Proof.
  unfold is_trail. rewrite mask8_value, N.shiftr_div_pow2, N.eqb_eq. pose proof (byte_bound a).
  change (2 ^ 6) with 64. lia.
Qed.

(** The three markers of a leading octet and the one of a trailing octet. *)
Lemma mark_trail x : N.lor (N.land x 0x3f) 0x80 = 128 + x mod 64.
Proof.
  change 0x3f with (N.ones 6). rewrite N.land_ones. change 0x80 with (2 * 2 ^ 6).
  rewrite lor_add; [done|by apply N.mod_lt].
Qed.

Lemma mark_2 x : x < 32 -> N.lor x 0xc0 = 192 + x.
Proof. intros. change 0xc0 with (6 * 2 ^ 5). by rewrite lor_add. Qed.

Lemma mark_3 x : x < 16 -> N.lor x 0xe0 = 224 + x.
Proof. intros. change 0xe0 with (14 * 2 ^ 4). by rewrite lor_add. Qed.

Lemma mark_4 x : x < 8 -> N.lor x 0xf0 = 240 + x.
Proof. intros. change 0xf0 with (30 * 2 ^ 3). by rewrite lor_add. Qed.

Lemma append_octets cp :
  is_code_point_valid cp = true ->
  append cp = Ret (octets
    (if cp <? 128 then [cp]
     else if cp <? 2048 then [192 + cp / 64; 128 + cp mod 64]
     else if cp <? 65536 then [224 + cp / 4096; 128 + (cp / 64) mod 64; 128 + cp mod 64]
     else [240 + cp / 262144; 128 + (cp / 4096) mod 64; 128 + (cp / 64) mod 64; 128 + cp mod 64])).
Proof.
  unfold append. intros Hv. rewrite Hv. cbn [negb].
  unfold is_code_point_valid in Hv. apply andb_prop in Hv as [Hm%N.leb_le _].
  change CODE_POINT_MAX with 1114111 in Hm. rewrite !mark_trail, !N.shiftr_div_pow2.
  change (2 ^ 6) with 64. change (2 ^ 12) with 4096. change (2 ^ 18) with 262144.
  destruct (N.ltb_spec cp 128); [done|].
  destruct (N.ltb_spec cp 2048); [rewrite mark_2 by lia; done|].
  destruct (N.ltb_spec cp 65536); [rewrite mark_3 by lia; done|].
  rewrite mark_4 by lia. done.
Qed.

Lemma octet_of a : octet (N_of_ascii a) = a.
Proof. apply ascii_N_embedding. Qed.

(** The length an octet announces, as a table of ranges. *)
Lemma sequence_length_value a :
  let v := N_of_ascii a in
  sequence_length a
  = if v <? 128 then 1 else if v <? 192 then 0 else if v <? 224 then 2
    else if v <? 240 then 3 else if v <? 248 then 4 else 0.
Proof.
  cbv zeta. unfold sequence_length. rewrite mask8_value, !N.shiftr_div_pow2.
  pose proof (byte_bound a) as Hb. change (2 ^ 5) with 32. change (2 ^ 4) with 16. change (2 ^ 3) with 8.
  repeat match goal with |- context [?x <? ?y] => destruct (N.ltb_spec x y) end;
  repeat match goal with |- context [?x =? ?y] => destruct (N.eqb_spec x y) end; lia.
Qed.

Lemma low_bits a : is_trail a = true -> N.land (N_of_ascii a) 0x3f = N_of_ascii a - 128.
Proof. intros Ht%is_trail_iff. change 0x3f with (N.ones 6). rewrite N.land_ones. change (2 ^ 6) with 64. lia. Qed.

(** The code point the octets of each length stand for. *)
Definition cp2 (a b : N) : N := (a - 192) * 64 + (b - 128).
Definition cp3 (a b c : N) : N := (a - 224) * 4096 + (b - 128) * 64 + (c - 128).
Definition cp4 (a b c d : N) : N :=
  (a - 240) * 262144 + (b - 128) * 4096 + (c - 128) * 64 + (d - 128).

Ltac shifted_bits :=
  rewrite ?mask8_value, ?N.shiftl_mul_pow2;
  repeat match goal with
         | |- context [N.land ?x 0x7ff] => change (N.land x 0x7ff) with (N.land x (N.ones 11))
         | |- context [N.land ?x 0xfff] => change (N.land x 0xfff) with (N.land x (N.ones 12))
         | |- context [N.land ?x 0xffff] => change (N.land x 0xffff) with (N.land x (N.ones 16))
         | |- context [N.land ?x 0x3ffff] => change (N.land x 0x3ffff) with (N.land x (N.ones 18))
         | |- context [N.land ?x 0x1fffff] => change (N.land x 0x1fffff) with (N.land x (N.ones 21))
         end;
  rewrite ?N.land_ones.

Lemma get_sequence_2_value a b t :
  192 <= N_of_ascii a < 224 -> is_trail b = true ->
  get_sequence_2 (String a (String b t)) = inl (cp2 (N_of_ascii a) (N_of_ascii b)).
Proof.
  intros Ha Hb. cbn [get_sequence_2 increase_safely]. rewrite Hb, low_bits by done. f_equal.
  apply is_trail_iff in Hb. unfold cp2. shifted_bits. change (2 ^ 6) with 64. change (2 ^ 11) with 2048. lia.
Qed.

Lemma get_sequence_3_value a b c t :
  224 <= N_of_ascii a < 240 -> is_trail b = true -> is_trail c = true ->
  get_sequence_3 (String a (String b (String c t))) = inl (cp3 (N_of_ascii a) (N_of_ascii b) (N_of_ascii c)).
Proof.
  intros Ha Hb Hc. cbn [get_sequence_3 increase_safely]. rewrite Hb, Hc, low_bits by done. f_equal.
  apply is_trail_iff in Hb, Hc. unfold cp3. shifted_bits.
  change (2 ^ 6) with 64. change (2 ^ 12) with 4096. change (2 ^ 16) with 65536. lia.
Qed.

Lemma get_sequence_4_value a b c d t :
  240 <= N_of_ascii a < 248 -> is_trail b = true -> is_trail c = true -> is_trail d = true ->
  get_sequence_4 (String a (String b (String c (String d t))))
  = inl (cp4 (N_of_ascii a) (N_of_ascii b) (N_of_ascii c) (N_of_ascii d)).
Proof.
  intros Ha Hb Hc Hd. cbn [get_sequence_4 increase_safely]. rewrite Hb, Hc, Hd, low_bits by done. f_equal.
  apply is_trail_iff in Hb, Hc, Hd. unfold cp4. shifted_bits.
  change (2 ^ 6) with 64. change (2 ^ 12) with 4096. change (2 ^ 18) with 262144. change (2 ^ 21) with 2097152.
  lia.
Qed.

Lemma encode_octets cp :
  is_code_point_valid cp = true ->
  encode cp = octets
    (if cp <? 128 then [cp]
     else if cp <? 2048 then [192 + cp / 64; 128 + cp mod 64]
     else if cp <? 65536 then [224 + cp / 4096; 128 + (cp / 64) mod 64; 128 + cp mod 64]
     else [240 + cp / 262144; 128 + (cp / 4096) mod 64; 128 + (cp / 64) mod 64; 128 + cp mod 64]).
Proof. intros Hv. unfold encode. by rewrite append_octets. Qed.

Lemma valid_bound cp : is_code_point_valid cp = true -> cp <= 1114111.
Proof. intros [Hm%N.leb_le _]%andb_prop. exact Hm. Qed.

Lemma is_trail_octet n : n < 64 -> is_trail (octet (128 + n)) = true.
Proof. intros Hn. apply is_trail_iff. rewrite octet_value by lia. lia. Qed.

(** [validate_next] once the length and the code point of the sequence are known. *)
Lemma validate_next_eq a t n cp :
  sequence_length a = n -> n <> 0 ->
  (if n =? 1 then get_sequence_1 (String a t) else if n =? 2 then get_sequence_2 (String a t)
   else if n =? 3 then get_sequence_3 (String a t) else get_sequence_4 (String a t)) = inl cp ->
  validate_next (String a t)
  = if is_code_point_valid cp then
      if negb (is_overlong_sequence cp n) then inl (cp, n) else inr OVERLONG_SEQUENCE
    else inr INVALID_CODE_POINT.
Proof.
  intros Hn Hn0 Hs. unfold validate_next. rewrite Hn, (proj2 (N.eqb_neq n 0) Hn0), Hs. done.
Qed.

(** A step of the decoder accepts the encoding of every valid code point. *)
Lemma validate_encode cp t :
  is_code_point_valid cp = true ->
  validate_next (encode cp +:+ t) = inl (cp, str_len (encode cp)).
Proof.
  intros Hv. rewrite encode_octets by done. pose proof (valid_bound cp Hv) as Hb.
  destruct (N.ltb_spec cp 128) as [H1|H1]; [|destruct (N.ltb_spec cp 2048) as [H2|H2];
    [|destruct (N.ltb_spec cp 65536) as [H3|H3]]];
    cbn [octets]; rewrite !sapp_cons, sapp_nil_l.
  - rewrite (validate_next_eq _ _ 1 cp), Hv; [| |done|].
    + unfold is_overlong_sequence. change 0x80 with 128. by rewrite (proj2 (N.ltb_lt cp 128) H1).
    + rewrite sequence_length_value, octet_value by lia. by rewrite (proj2 (N.ltb_lt cp 128) H1).
    + cbn. by rewrite mask8_value, octet_value by lia.
  - rewrite (validate_next_eq _ _ 2 cp), Hv; [| |done|].
    + unfold is_overlong_sequence. change 0x80 with 128. change 0x800 with 2048.
      by rewrite (proj2 (N.ltb_ge cp 128) H1), (proj2 (N.ltb_lt cp 2048) H2).
    + rewrite sequence_length_value, octet_value by lia.
      repeat match goal with |- context [?x <? ?y] => destruct (N.ltb_spec x y) end; lia.
    + cbv [N.eqb Pos.eqb]. rewrite get_sequence_2_value;
        [unfold cp2; rewrite !octet_value by lia; f_equal; lia|rewrite octet_value by lia; lia|].
      apply is_trail_octet. lia.
  - rewrite (validate_next_eq _ _ 3 cp), Hv; [| |done|].
    + unfold is_overlong_sequence. change 0x80 with 128. change 0x800 with 2048. change 0x10000 with 65536.
      by rewrite (proj2 (N.ltb_ge cp 128) H1), (proj2 (N.ltb_ge cp 2048) H2), (proj2 (N.ltb_lt cp 65536) H3).
    + rewrite sequence_length_value, octet_value by lia.
      repeat match goal with |- context [?x <? ?y] => destruct (N.ltb_spec x y) end; lia.
    + cbv [N.eqb Pos.eqb]. rewrite get_sequence_3_value;
        [unfold cp3; rewrite !octet_value by lia; f_equal; lia|rewrite octet_value by lia; lia|..];
      apply is_trail_octet; lia.
  - rewrite (validate_next_eq _ _ 4 cp), Hv; [| |done|].
    + unfold is_overlong_sequence. change 0x80 with 128. change 0x800 with 2048. change 0x10000 with 65536.
      by rewrite (proj2 (N.ltb_ge cp 128) H1), (proj2 (N.ltb_ge cp 2048) H2), (proj2 (N.ltb_ge cp 65536) H3).
    + rewrite sequence_length_value, octet_value by lia.
      repeat match goal with |- context [?x <? ?y] => destruct (N.ltb_spec x y) end; lia.
    + cbv [N.eqb Pos.eqb]. rewrite get_sequence_4_value;
        [unfold cp4; rewrite !octet_value by lia; f_equal; lia|rewrite octet_value by lia; lia|..];
      apply is_trail_octet; lia.
Qed.

Lemma increase_safely_inl {A} t (k : ascii -> string -> A + utf_error) x :
  increase_safely t k = inl x -> exists b t', t = String b t' /\ is_trail b = true /\ k b t' = inl x.
Proof.
  destruct t as [|b t']; [done|]. cbn. destruct (is_trail b) eqn:E; [|done]. intros Hk. by exists b, t'.
Qed.

Lemma octet_eq n a : n = N_of_ascii a -> octet n = a.
Proof. intros ->. apply octet_of. Qed.

(** Decides the comparisons of a code point, keeping the ranges that are possible. *)
Ltac case_ranges :=
  repeat match goal with |- context [?x <? ?y] => destruct (N.ltb_spec x y) end;
  try (by intros); try lia.

(** What a step of the decoder accepts is the encoding of the code point it returns. *)
Lemma validate_sound a t cp n :
  validate_next (String a t) = inl (cp, n) ->
  is_code_point_valid cp = true /\ exists t', String a t = encode cp +:+ t' /\ n = str_len (encode cp).
Proof.
  unfold validate_next. rewrite sequence_length_value. pose proof (byte_bound a) as Ha.
  destruct (N.ltb_spec (N_of_ascii a) 128) as [H1|H1];
    [|destruct (N.ltb_spec (N_of_ascii a) 192) as [H2|H2]; [done|];
      destruct (N.ltb_spec (N_of_ascii a) 224) as [H3|H3];
      [|destruct (N.ltb_spec (N_of_ascii a) 240) as [H4|H4];
        [|destruct (N.ltb_spec (N_of_ascii a) 248) as [H5|H5]; [|done]]]]; cbv [N.eqb Pos.eqb];
    match goal with |- match ?g with _ => _ end = _ -> _ => destruct g as [cp'|e] eqn:Hg; [|done] end;
    destruct (is_code_point_valid cp') eqn:Hv; try done;
    destruct (is_overlong_sequence cp' _) eqn:Ho; cbn [negb]; try done; intros [= <- <-];
    (split; [done|]); rewrite (encode_octets cp' Hv); unfold is_overlong_sequence in Ho;
    change 0x80 with 128 in Ho; change 0x800 with 2048 in Ho; change 0x10000 with 65536 in Ho.
  - injection Hg as <-. exists t. rewrite mask8_value, (proj2 (N.ltb_lt _ 128) H1).
    cbn [octets]. by rewrite octet_of.
  - pose proof Hg as Hk. apply increase_safely_inl in Hk as (b & t' & -> & Hb & _).
    rewrite get_sequence_2_value in Hg by done. injection Hg as <-. apply is_trail_iff in Hb. exists t'.
    revert Ho. unfold cp2. case_ranges. intros _. cbn [octets].
    rewrite (octet_eq _ a), (octet_eq _ b) by lia. done.
  - pose proof Hg as Hk. apply increase_safely_inl in Hk as (b & t' & -> & Hb & Hk).
    apply increase_safely_inl in Hk as (c & t'' & -> & Hc & _).
    rewrite get_sequence_3_value in Hg by done. injection Hg as <-. apply is_trail_iff in Hb, Hc. exists t''.
    revert Ho. unfold cp3. case_ranges. intros _. cbn [octets].
    rewrite (octet_eq _ a), (octet_eq _ b), (octet_eq _ c) by lia. done.
  - pose proof Hg as Hk. apply increase_safely_inl in Hk as (b & t' & -> & Hb & Hk).
    apply increase_safely_inl in Hk as (c & t'' & -> & Hc & Hk).
    apply increase_safely_inl in Hk as (d & t3 & -> & Hd & _).
    rewrite get_sequence_4_value in Hg by done. injection Hg as <-. apply is_trail_iff in Hb, Hc, Hd. exists t3.
    revert Ho. unfold cp4. case_ranges. intros _. cbn [octets].
    rewrite (octet_eq _ a), (octet_eq _ b), (octet_eq _ c), (octet_eq _ d) by lia. done.
Qed.

(** ** Whole strings *)

Definition encode_all (cps : list N) : string := str_concat (encode <$> cps).

Definition all_valid (cps : list N) : Prop := Forall (fun cp => is_code_point_valid cp = true) cps.

Lemma encode_cons cp : is_code_point_valid cp = true -> exists a t, encode cp = String a t.
Proof. intros Hv. rewrite encode_octets by done. repeat case_match; by do 2 eexists. Qed.

Lemma length_app_lt a t s : (String.length s < String.length (String a t +:+ s))%nat.
Proof.
  rewrite sapp_cons. cbn [String.length].
  induction t as [|c t IH]; [rewrite sapp_nil_l; lia|]. rewrite sapp_cons. cbn [String.length]. lia.
Qed.

(** The step of every loop over a valid string. *)
Lemma step_encode cp s :
  is_code_point_valid cp = true ->
  exists a t, encode cp +:+ s = String a t /\ validate_next (String a t) = inl (cp, str_len (encode cp)) /\
    str_drop (str_len (encode cp)) (String a t) = s /\ str_take (str_len (encode cp)) (String a t) = encode cp /\
    (String.length s < String.length (String a t))%nat.
Proof.
  intros Hv. destruct (encode_cons cp Hv) as (a & t & He).
  exists a, (t +:+ s). rewrite <- sapp_cons, <- He.
  split_and!; [done|by apply validate_encode|apply str_drop_app|apply str_take_app|].
  rewrite He. apply length_app_lt.
Qed.

Lemma find_invalid_encoded fuel cps :
  all_valid cps -> (String.length (encode_all cps) <= fuel)%nat ->
  find_invalid_fuel fuel (encode_all cps) = EmptyString.
Proof.
  intros Hv. revert fuel. induction Hv as [|cp cps Hcp Hv IH]; intros fuel Hf; [by destruct fuel|].
  unfold encode_all in *. cbn [fmap list_fmap str_concat] in *.
  destruct (step_encode cp (str_concat (encode <$> cps)) Hcp) as (a & t & He & Hs & Hd & _ & Hl).
  rewrite He in Hf |- *. destruct fuel as [|fuel]; [cbn in Hf; lia|].
  cbn [find_invalid_fuel]. rewrite Hs, Hd. apply IH. lia.
Qed.

Lemma find_invalid_decodes fuel s :
  (String.length s <= fuel)%nat -> find_invalid_fuel fuel s = EmptyString ->
  exists cps, all_valid cps /\ s = encode_all cps.
Proof.
  revert s. induction fuel as [|fuel IH]; intros s Hf Hs.
  - destruct s; [|cbn in Hf; lia]. exists []. split; [constructor|done].
  - destruct s as [|a t]; [exists []; split; [constructor|done]|]. cbn [find_invalid_fuel] in Hs.
    destruct (validate_next (String a t)) as [[cp n]|e] eqn:Hn; [|done].
    apply validate_sound in Hn as (Hv & t' & He & ->).
    rewrite He, str_drop_app in Hs. destruct (IH t') as (cps & Hcps & ->); [|done|].
    + destruct (encode_cons cp Hv) as (b & u & Hb). rewrite Hb in He.
      pose proof (length_app_lt b u t') as Hl. rewrite <- He in Hl. cbn [String.length] in Hl, Hf. lia.
    + exists (cp :: cps). split; [by constructor|exact He].
Qed.

Lemma is_valid_iff s : is_valid s = true <-> exists cps, all_valid cps /\ s = encode_all cps.
Proof.
  unfold is_valid, find_invalid. split.
  - intros Hs. apply (find_invalid_decodes (String.length s)); [done|].
    by destruct (find_invalid_fuel _ s).
  - intros (cps & Hv & ->). by rewrite find_invalid_encoded.
Qed.

Lemma utf32to8_encodes cps out : all_valid cps -> utf32to8 cps out = Ret (out +:+ encode_all cps).
Proof.
  intros Hv. revert out. induction Hv as [|cp cps Hcp _ IH]; intros out; cbn [utf32to8].
  - by rewrite sapp_nil_r.
  - unfold encode_all. cbn [fmap list_fmap str_concat]. unfold encode at 1. rewrite append_octets by done.
    cbn [obind get_ret]. by rewrite IH, sapp_assoc.
Qed.

Lemma utf8to32_decodes fuel cps acc :
  all_valid cps -> (String.length (encode_all cps) <= fuel)%nat ->
  utf8to32_fuel fuel (encode_all cps) acc = Ret (acc ++ cps).
Proof.
  intros Hv. revert fuel acc. induction Hv as [|cp cps Hcp Hv IH]; intros fuel acc Hf.
  - rewrite app_nil_r. by destruct fuel.
  - unfold encode_all in *. cbn [fmap list_fmap str_concat] in *.
    destruct (step_encode cp (str_concat (encode <$> cps)) Hcp) as (a & t & He & Hs & Hd & _ & Hl).
    rewrite He in Hf |- *. destruct fuel as [|fuel]; [cbn in Hf; lia|].
    cbn [utf8to32_fuel]. unfold next. rewrite Hs. cbn [obind]. rewrite Hd, IH by lia.
    by rewrite <- app_assoc.
Qed.

(** The strings the validator accepts are exactly the encodings of the sequences of
    Unicode scalar values (no surrogate, nothing above 0x10ffff, no overlong form);
    decoding such a string gives that sequence, and encoding it the string. *)
Theorem valid_strings_are_encodings (s : string) :
  (is_valid s = true <-> exists cps, all_valid cps /\ utf32to8 cps EmptyString = Ret s) /\
  (forall cps, all_valid cps -> utf32to8 cps EmptyString = Ret s -> utf8to32 s = Ret cps).
Proof.
  split.
  - rewrite is_valid_iff. split; intros (cps & Hv & He); exists cps; (split; [done|]).
    + by rewrite utf32to8_encodes, sapp_nil_l, He.
    + rewrite utf32to8_encodes, sapp_nil_l in He by done. by injection He.
  - intros cps Hv. rewrite utf32to8_encodes, sapp_nil_l by done. intros [= <-].
    unfold utf8to32. by rewrite utf8to32_decodes.
Qed.

(** ** Replacing what is invalid *)

(** The text is not cut in the middle of a sequence: it is empty or ends with an
    ASCII character. *)
Fixpoint ends_ascii (s : string) : bool :=
  match s with
  | EmptyString => true
  | String c EmptyString => N_of_ascii c <? 128
  | String _ t => ends_ascii t
  end.

Lemma ends_ascii_tail c t : ends_ascii (String c t) = true -> ends_ascii t = true.
Proof. by destruct t. Qed.

Lemma ends_ascii_app a b : ends_ascii (a +:+ b) = true -> ends_ascii b = true.
Proof. induction a as [|c a IH]; [done|]. rewrite sapp_cons. intros ?%ends_ascii_tail. auto. Qed.

Lemma ends_ascii_skip s : ends_ascii s = true -> ends_ascii (skip_trail s) = true.
Proof.
  induction s as [|c s IH]; [done|]. intros Hs. cbn [skip_trail]. case_match; [|done].
  by apply IH, (ends_ascii_tail c).
Qed.

Lemma skip_trail_length s : (String.length (skip_trail s) <= String.length s)%nat.
Proof. induction s as [|c s IH]; cbn; [lia|]. case_match; cbn; lia. Qed.

(** Room only runs out when the text ends in the middle of a sequence. *)
Lemma increase_safely_room {A} c t (k : ascii -> string -> A + utf_error) :
  increase_safely t k = inr NOT_ENOUGH_ROOM -> 128 <= N_of_ascii c -> ends_ascii (String c t) = true ->
  exists b t', t = String b t' /\ 128 <= N_of_ascii b /\ k b t' = inr NOT_ENOUGH_ROOM /\ ends_ascii t = true.
Proof.
  destruct t as [|b t']; [intros _ Hc Hn%N.ltb_lt; lia|]. cbn [increase_safely].
  destruct (is_trail b) eqn:E; [|done]. intros Hk Hc He. apply is_trail_iff in E.
  exists b, t'. by split_and!; [|lia| |].
Qed.

Lemma validate_room a t :
  ends_ascii (String a t) = true -> validate_next (String a t) <> inr NOT_ENOUGH_ROOM.
Proof.
  intros He. unfold validate_next. rewrite sequence_length_value.
  repeat match goal with |- context [?x <? ?y] => destruct (N.ltb_spec x y) end; cbv [N.eqb Pos.eqb]; try done;
  match goal with |- match ?g with _ => _ end <> _ => destruct g as [cp|e] eqn:Hg end;
    try (repeat case_match; congruence); intros [= ->].
  - done.
  - apply (increase_safely_room a) in Hg as (b & t' & -> & Hb & Hk & He'); [|lia|done]. done.
  - apply (increase_safely_room a) in Hg as (b & t' & -> & Hb & Hk & He'); [|lia|done].
    by apply (increase_safely_room b) in Hk as (c & t'' & -> & Hc & Hk & He'').
  - apply (increase_safely_room a) in Hg as (b & t' & -> & Hb & Hk & He'); [|lia|done].
    apply (increase_safely_room b) in Hk as (c & t'' & -> & Hc & Hk & He''); [|done..].
    by apply (increase_safely_room c) in Hk as (d & t3 & -> & Hd & Hk & _).
Qed.

Lemma replace_invalid_valid fuel s out :
  (String.length s <= fuel)%nat -> ends_ascii s = true ->
  exists cps, all_valid cps /\ replace_invalid_fuel fuel s out replacement_marker = Ret (out +:+ encode_all cps).
Proof.
  assert (Hmark : append replacement_marker = Ret (encode replacement_marker)) by reflexivity.
  assert (Hm : is_code_point_valid replacement_marker = true) by reflexivity.
  revert s out. induction fuel as [|fuel IH]; intros s out Hf He.
  { destruct s; [|cbn in Hf; lia]. exists []. split; [constructor|]. cbn. by rewrite sapp_nil_r. }
  destruct s as [|a t]; [exists []; split; [constructor|]; cbn; by rewrite sapp_nil_r|].
  cbn [String.length] in Hf. cbn [replace_invalid_fuel].
  assert (Hgo : forall t' cp, (String.length t' <= fuel)%nat -> ends_ascii t' = true ->
    is_code_point_valid cp = true -> exists cps, all_valid cps /\
    replace_invalid_fuel fuel t' (out +:+ encode cp) replacement_marker = Ret (out +:+ encode_all cps)).
  { intros t' cp Hl Ht Hcp. destruct (IH t' (out +:+ encode cp) Hl Ht) as (cps & Hv & ->).
    exists (cp :: cps). split; [by constructor|]. by rewrite sapp_assoc. }
  pose proof (ends_ascii_tail _ _ He) as Ht. pose proof (skip_trail_length t) as Hsk.
  destruct (validate_next (String a t)) as [[cp n]|[]] eqn:Hn.
  - apply validate_sound in Hn as (Hv & t' & Heq & ->). rewrite Heq, str_drop_app, str_take_app.
    apply Hgo; [|by apply (ends_ascii_app (encode cp)); rewrite <- Heq|done].
    destruct (encode_cons cp Hv) as (b & u & Hb). rewrite Hb in Heq.
    pose proof (length_app_lt b u t') as Hl. rewrite <- Heq in Hl. cbn [String.length] in Hl. lia.
  - by apply validate_room in Hn.
  - rewrite Hmark. cbn [obind]. by apply Hgo; [lia| |].
  - rewrite Hmark. cbn [obind]. by apply Hgo; [lia|apply ends_ascii_skip|].
  - rewrite Hmark. cbn [obind]. by apply Hgo; [lia|apply ends_ascii_skip|].
  - rewrite Hmark. cbn [obind]. by apply Hgo; [lia|apply ends_ascii_skip|].
Qed.

Lemma replace_invalid_id fuel cps out :
  all_valid cps -> (String.length (encode_all cps) <= fuel)%nat ->
  replace_invalid_fuel fuel (encode_all cps) out replacement_marker = Ret (out +:+ encode_all cps).
Proof.
  intros Hv. revert fuel out. induction Hv as [|cp cps Hcp Hv IH]; intros fuel out Hf.
  - cbn. rewrite sapp_nil_r. by destruct fuel.
  - unfold encode_all in *. cbn [fmap list_fmap str_concat] in *.
    destruct (step_encode cp (str_concat (encode <$> cps)) Hcp) as (a & t & He & Hs & Hd & Ht & Hl).
    rewrite <- sapp_assoc. rewrite He in Hf |- *. destruct fuel as [|fuel]; [cbn in Hf; lia|].
    cbn [replace_invalid_fuel]. rewrite Hs, Hd, Ht. apply IH. lia.
Qed.

Lemma replace_invalid_spec s :
  (ends_ascii s = true -> exists out, replace_invalid s = Ret out /\ is_valid out = true) /\
  (is_valid s = true -> replace_invalid s = Ret s).
Proof.
  unfold replace_invalid. split.
  - intros He. destruct (replace_invalid_valid (String.length s) s "" (le_n _) He) as (cps & Hv & ->).
    eexists. split; [reflexivity|]. apply is_valid_iff. by exists cps.
  - intros (cps & Hv & ->)%is_valid_iff. by rewrite replace_invalid_id.
Qed.

(** [C32] A text that ends with an ASCII character, as a line of JSON does, is always
    turned into valid UTF-8 without an exception, whatever its octets; text that is
    valid already is not changed. *)
Theorem replace_invalid_correct (s : string) :
  (ends_ascii s = true -> exists out, replace_invalid s = Ret out /\ is_valid out = true) /\
  (is_valid s = true -> replace_invalid s = Ret s).
Proof. apply replace_invalid_spec. Qed.

(** *** Concrete texts *)

Definition bad : string := String (octet 233) "t".

Example bad_replaced : replace_invalid bad = Ret (octets [239; 191; 189; 116]).
Proof. reflexivity. Qed.

(** A sequence cut by the end of the text is not replaced: the loop throws. *)
Example cut_throws : replace_invalid (String "a" (octets [226; 130])) = Throw NotEnoughRoom.
Proof. reflexivity. Qed.

Example euro_decodes : utf8to32 (octets [226; 130; 172; 33]) = Ret [0x20ac; 33].
Proof. reflexivity. Qed.
