(* ===== verification/Utf16.v ===== *)
(** * Utf16

    The UTF-16 conversions of extern/utf8 (checked.h, the constants and tests of core.h).
    Words of 16 bits are numbers, masked as the code masks them; the arithmetic on
    surrogates is that of [uint32_t], wrapped where it wraps. What an exception leaves in
    the output is not kept. *)
From Stdlib Require Import ZifyN.
From S2P Require Import Prelude CxxString Utf8.
Local Open Scope N_scope.

Definition LEAD_SURROGATE_MAX : N := 0xdbff.
Definition TRAIL_SURROGATE_MIN : N := 0xdc00.

(** A [uint16_t]. *)
Definition u16 (n : N) : N := n mod 65536.

Definition LEAD_OFFSET : N := u16 (LEAD_SURROGATE_MIN - N.shiftr 0x10000 10).

Definition SURROGATE_OFFSET : N :=
  u32_sub (u32_sub 0x10000 (N.shiftl LEAD_SURROGATE_MIN 10)) TRAIL_SURROGATE_MIN.

Definition mask16 (oc : N) : N := N.land 0xffff oc.

Definition is_lead_surrogate (cp : N) : bool := (LEAD_SURROGATE_MIN <=? cp) && (cp <=? LEAD_SURROGATE_MAX).

Definition is_trail_surrogate (cp : N) : bool := (TRAIL_SURROGATE_MIN <=? cp) && (cp <=? TRAIL_SURROGATE_MAX).

(** [(cp << 10) + trail_surrogate + SURROGATE_OFFSET] *)
Definition join_surrogates (cp trail_surrogate : N) : N :=
  u32 (u32 (N.shiftl cp 10) + trail_surrogate + SURROGATE_OFFSET).

Fixpoint utf16to8 (start : list N) (result : string) : outcome string :=
  match start with
  | [] => Ret result
  | w :: start =>
      let cp := mask16 w in
      if is_lead_surrogate cp then
        match start with
        | t :: start =>
            let trail_surrogate := mask16 t in
            if is_trail_surrogate trail_surrogate then
              let! e := append (join_surrogates cp trail_surrogate) in utf16to8 start (result +:+ e)
            else Throw (InvalidUtf16 trail_surrogate)
        | [] => Throw (InvalidUtf16 cp)
        end
      else if is_trail_surrogate cp then Throw (InvalidUtf16 cp)
      else let! e := append cp in utf16to8 start (result +:+ e)
  end.

(** The words written for a code point. *)
Definition put_words (cp : N) : list N :=
  if 0xffff <? cp then
    [u16 (u32 (N.shiftr cp 10 + LEAD_OFFSET)); u16 (u32 (N.land cp 0x3ff + TRAIL_SURROGATE_MIN))]
  else [u16 cp].

Fixpoint utf8to16_fuel (fuel : nat) (start : string) (result : list N) : outcome (list N) :=
  match fuel, start with
  | S fuel, String _ _ =>
      let! '(cp, start) := next start in utf8to16_fuel fuel start (result ++ put_words cp)
  | _, _ => Ret result
  end.

(** [next] advances: the length of the text is enough fuel. *)
Definition utf8to16 (start : string) (result : list N) : outcome (list N) :=
  utf8to16_fuel (String.length start) start result.

(** ** UTF-16 as the standard defines it *)

Definition words (cp : N) : list N :=
  if cp <? 0x10000 then [cp]
  else [0xd800 + (cp - 0x10000) / 0x400; 0xdc00 + (cp - 0x10000) mod 0x400].

Definition words_all (cps : list N) : list N := concat (words <$> cps).

#[local] Ltac Zify.zify_post_hook ::= Z.div_mod_to_equations.

Lemma mask16_value w : mask16 w = w mod 65536.
Proof. unfold mask16. rewrite N.land_comm. change 0xffff with (N.ones 16). apply N.land_ones. Qed.

(** The ranges, as [lia] reads them. *)
Ltac decide_ranges :=
  repeat match goal with
         | |- context [?x <=? ?y] => destruct (N.leb_spec x y)
         | |- context [?x <? ?y] => destruct (N.ltb_spec x y)
         | H : context [?x <=? ?y] |- _ => destruct (N.leb_spec x y)
         | H : context [?x <? ?y] |- _ => destruct (N.ltb_spec x y)
         end.

Lemma is_lead_iff w : is_lead_surrogate w = true <-> 0xd800 <= w < 0xdc00.
Proof.
  unfold is_lead_surrogate, LEAD_SURROGATE_MIN, LEAD_SURROGATE_MAX. rewrite andb_true_iff, !N.leb_le. lia.
Qed.

Lemma is_trail_surrogate_iff w : is_trail_surrogate w = true <-> 0xdc00 <= w < 0xe000.
Proof.
  unfold is_trail_surrogate, TRAIL_SURROGATE_MIN, TRAIL_SURROGATE_MAX. rewrite andb_true_iff, !N.leb_le. lia.
Qed.

Lemma is_code_point_valid_iff cp :
  is_code_point_valid cp = true <-> cp < 0xd800 \/ 0xe000 <= cp < 0x110000.
Proof.
  unfold is_code_point_valid, is_surrogate, CODE_POINT_MAX, LEAD_SURROGATE_MIN, TRAIL_SURROGATE_MAX.
  decide_ranges; cbn; split; try done; lia.
Qed.

(** A pair joined is the code point it stands for, which is valid. *)
Lemma join_surrogates_value lead trail :
  0xd800 <= lead < 0xdc00 -> 0xdc00 <= trail < 0xe000 ->
  join_surrogates lead trail = 0x10000 + (lead - 0xd800) * 0x400 + (trail - 0xdc00).
Proof.
  intros Hl Ht. unfold join_surrogates. rewrite N.shiftl_mul_pow2. change (2 ^ 10) with 1024.
  change SURROGATE_OFFSET with 4238353408. unfold u32, u32_modulus. lia.
Qed.

Lemma put_words_value cp : is_code_point_valid cp = true -> put_words cp = words cp.
Proof.
  intros Hv%is_code_point_valid_iff. unfold put_words, words, u16, u32, u32_modulus.
  change LEAD_OFFSET with 55232. change TRAIL_SURROGATE_MIN with 56320.
  change 0x3ff with (N.ones 10). rewrite N.land_ones, N.shiftr_div_pow2.
  change (2 ^ 10) with 1024. decide_ranges; try lia; repeat f_equal; lia.
Qed.

(** ** From words to octets *)

(** A word that is not a surrogate, then the rest. *)
Lemma utf16to8_word w ws out :
  mask16 w = w -> is_code_point_valid w = true ->
  utf16to8 (w :: ws) out = utf16to8 ws (out +:+ encode w).
Proof.
  intros Hm Hv. cbn [utf16to8]. rewrite Hm. pose proof (append_octets w Hv) as Ha.
  apply is_code_point_valid_iff in Hv.
  destruct (is_lead_surrogate w) eqn:El; [apply is_lead_iff in El; lia|].
  destruct (is_trail_surrogate w) eqn:Et; [apply is_trail_surrogate_iff in Et; lia|].
  unfold encode. by rewrite Ha.
Qed.

(** Whatever the words, the step of the loop reads the words of a valid code point or
    stops at a word of the text. *)
Lemma utf16to8_step w ws out :
  (exists cp ws', is_code_point_valid cp = true /\ mask16 <$> w :: ws = words cp ++ (mask16 <$> ws') /\
     (length ws' <= length ws)%nat /\ utf16to8 (w :: ws) out = utf16to8 ws' (out +:+ encode cp)) \/
  (exists u, u ∈ (mask16 <$> w :: ws) /\ utf16to8 (w :: ws) out = Throw (InvalidUtf16 u)).
Proof.
  cbn [utf16to8 fmap list_fmap].
  destruct (is_lead_surrogate (mask16 w)) eqn:El.
  - destruct ws as [|t ws]; [right; exists (mask16 w); split; [set_solver|done]|].
    destruct (is_trail_surrogate (mask16 t)) eqn:Et; [|right; exists (mask16 t); split; [set_solver|done]].
    left. apply is_lead_iff in El. apply is_trail_surrogate_iff in Et.
    exists (join_surrogates (mask16 w) (mask16 t)), ws.
    rewrite (join_surrogates_value _ _ El Et).
    assert (Hv : is_code_point_valid (0x10000 + (mask16 w - 0xd800) * 0x400 + (mask16 t - 0xdc00)) = true)
      by (apply is_code_point_valid_iff; lia).
    split_and!; [done| |cbn; lia|by unfold encode; rewrite append_octets].
    cbn [fmap list_fmap]. unfold words. decide_ranges; [lia|]. cbn [app]. repeat f_equal; lia.
  - destruct (is_trail_surrogate (mask16 w)) eqn:Et; [right; exists (mask16 w); split; [set_solver|done]|].
    assert (Hr : ~ (0xd800 <= mask16 w < 0xdc00)) by (rewrite <- is_lead_iff; congruence).
    assert (Hr' : ~ (0xdc00 <= mask16 w < 0xe000)) by (rewrite <- is_trail_surrogate_iff; congruence).
    pose proof (mask16_value w) as Hm. left. exists (mask16 w), ws.
    assert (Hv : is_code_point_valid (mask16 w) = true) by (apply is_code_point_valid_iff; lia).
    split_and!; [done| |lia|by unfold encode; rewrite append_octets].
    unfold words. decide_ranges; [done|lia].
Qed.

(** The loop on the words of some code points, before any others. *)
Lemma utf16to8_words cp ws out :
  is_code_point_valid cp = true -> utf16to8 (words cp ++ ws) out = utf16to8 ws (out +:+ encode cp).
Proof.
  intros Hv. pose proof (proj1 (is_code_point_valid_iff cp) Hv) as Hr. unfold words. decide_ranges.
  - cbn [app]. apply utf16to8_word; [rewrite mask16_value; lia|done].
  - cbn [app utf16to8]. rewrite !mask16_value, !(N.mod_small _ 65536) by lia.
    rewrite (proj2 (is_lead_iff _)), (proj2 (is_trail_surrogate_iff _)) by lia.
    rewrite join_surrogates_value by lia. unfold encode.
    replace (_ + _ + _) with cp by lia. by rewrite append_octets.
Qed.

Lemma utf16to8_words_all cps out :
  all_valid cps -> utf16to8 (words_all cps) out = Ret (out +:+ encode_all cps).
Proof.
  intros Hv. revert out. induction Hv as [|cp cps Hcp _ IH]; intros out.
  - cbn. by rewrite sapp_nil_r.
  - change (words_all (cp :: cps)) with (words cp ++ words_all cps).
    rewrite utf16to8_words, IH by done. by rewrite sapp_assoc.
Qed.

(** The loop answers for all words: it read the words of some code points, or stopped at
    a word of the text. *)
Lemma utf16to8_total n ws out :
  (length ws <= n)%nat ->
  (exists cps, all_valid cps /\ mask16 <$> ws = words_all cps /\
     utf16to8 ws out = Ret (out +:+ encode_all cps)) \/
  (exists u, u ∈ (mask16 <$> ws) /\ utf16to8 ws out = Throw (InvalidUtf16 u)).
Proof.
  revert ws out. induction n as [|n IH]; intros ws out Hn;
    (destruct ws as [|w ws]; [left; exists []; split_and!; [constructor|done|by rewrite sapp_nil_r]|]);
    [cbn in Hn; lia|].
  destruct (utf16to8_step w ws out) as [(cp & ws' & Hv & Hw & Hl & ->)|(u & Hu & ->)]; [|right; by exists u].
  cbn in Hn. destruct (IH ws' (out +:+ encode cp)) as [(cps & Hvs & Hws & ->)|(u & Hu & ->)]; [lia| |].
  - left. exists (cp :: cps). split_and!; [by constructor|by rewrite Hw, Hws|by rewrite sapp_assoc].
  - right. exists u. split; [|done]. rewrite Hw. set_solver.
Qed.

(** ** From octets to words *)

Lemma next_encode cp s : is_code_point_valid cp = true -> next (encode cp +:+ s) = Ret (cp, s).
Proof. intros Hv. unfold next. by rewrite validate_encode, str_drop_app. Qed.

Lemma utf8to16_words fuel cps out :
  all_valid cps -> (String.length (encode_all cps) <= fuel)%nat ->
  utf8to16_fuel fuel (encode_all cps) out = Ret (out ++ words_all cps).
Proof.
  intros Hv. revert fuel out. induction Hv as [|cp cps Hcp Hv IH]; intros fuel out Hf.
  - rewrite app_nil_r. by destruct fuel.
  - change (encode_all (cp :: cps)) with (encode cp +:+ encode_all cps) in *.
    destruct (step_encode cp (encode_all cps) Hcp) as (a & t & He & _ & _ & _ & Hl).
    rewrite He in Hf |- *. destruct fuel as [|fuel]; [cbn in Hf; lia|].
    cbn [utf8to16_fuel]. rewrite <- He, next_encode by done. cbn [obind].
    rewrite put_words_value, IH by (done || lia). by rewrite <- app_assoc.
Qed.

(** ** Properties *)

(** UTF-16: valid text becomes the words that Unicode defines for its code points; words
    become text exactly when they are the words of some code points, the text that those
    code points are encoded to; and all other words are rejected, with a word of the text in
    the exception. *)
Theorem utf16_roundtrip :
  (forall cps, all_valid cps ->
     utf8to16 (encode_all cps) [] = Ret (words_all cps) /\
     utf16to8 (words_all cps) EmptyString = Ret (encode_all cps)) /\
  (forall ws s, utf16to8 ws EmptyString = Ret s ->
     is_valid s = true /\ utf8to16 s [] = Ret (mask16 <$> ws)) /\
  (forall ws e, utf16to8 ws EmptyString = Throw e -> exists w, e = InvalidUtf16 w /\ w ∈ (mask16 <$> ws)).
Proof.
  split_and!.
  - intros cps Hv. unfold utf8to16. by rewrite utf8to16_words, utf16to8_words_all.
  - intros ws s Hs. destruct (utf16to8_total (length ws) ws EmptyString (le_n _)) as [(cps & Hv & Hw & He)|(u & _ & He)];
      rewrite Hs in He; [|done].
    injection He as ->. rewrite sapp_nil_l. split; [apply is_valid_iff; by exists cps|].
    rewrite Hw. unfold utf8to16. by rewrite utf8to16_words.
  - intros ws e Hs. destruct (utf16to8_total (length ws) ws EmptyString (le_n _)) as [(cps & Hv & Hw & He)|(u & Hu & He)];
      rewrite Hs in He; [done|]. injection He as ->. by exists u.
Qed.

(** *** Concrete words *)

Module Utf16Examples.
Example smiley : utf8to16 (octets [240; 159; 152; 128; 33]) [] = Ret [0xd83d; 0xde00; 33].
Proof. reflexivity. Qed.

Example smiley_back : utf16to8 [0xd83d; 0xde00; 33] EmptyString = Ret (octets [240; 159; 152; 128; 33]).
Proof. reflexivity. Qed.

(** The exception for a lead surrogate with no trail holds the word after it, here a
    letter that is no surrogate. *)
Example lone_lead : utf16to8 [0xd83d; 97] EmptyString = Throw (InvalidUtf16 97).
Proof. reflexivity. Qed.

Lemma utf16_roundtrip_witness :
  (all_valid [0x1f600; 33] /\ utf8to16 (encode_all [0x1f600; 33]) [] = Ret [0xd83d; 0xde00; 33]) /\
  utf8to16 (octets [240; 159; 152; 128; 33]) [] = Ret (mask16 <$> [0xd83d; 0xde00; 33]).
Proof.
  split; [split; [by repeat constructor|]|].
  - apply (proj1 utf16_roundtrip [0x1f600; 33]). by repeat constructor.
  - apply (proj1 (proj2 utf16_roundtrip) [0xd83d; 0xde00; 33]). reflexivity.
Defined.
End Utf16Examples.
