(* ===== verification/Utf8Iterator.v ===== *)
(** * Utf8Iterator

    The rest of extern/utf8, checked.h: going back in a text ([prior], [previous]), going
    over many code points ([advance], [distance]), the byte order mark of core.h, and the
    class [iterator]. A [cursor] is an octet iterator between the octets behind it, the
    nearest first, and the octets ahead of it; the positions of the class [iterator],
    which compares them, are offsets in a text. *)
From Stdlib Require Import ZifyN.
From S2P Require Import Prelude CxxString Utf8.
Local Open Scope N_scope.

(** ** The byte order mark *)

Definition bom : list N := [0xef; 0xbb; 0xbf].

(** Each test advances [it], and compares no octet past [end]. *)
Definition starts_with_bom (it : string) : bool :=
  match it with
  | String a it =>
      (mask8 a =? 0xef) &&
      match it with
      | String b it =>
          (mask8 b =? 0xbb) && match it with String c _ => mask8 c =? 0xbf | EmptyString => false end
      | EmptyString => false
      end
  | EmptyString => false
  end.

(** [is_bom] knows no end: no result when it reads past the text. *)
Definition is_bom (it : string) : option bool :=
  match it with
  | String a it =>
      if mask8 a =? 0xef then
        match it with
        | String b it =>
            if mask8 b =? 0xbb then
              match it with String c _ => Some (mask8 c =? 0xbf) | EmptyString => None end
            else Some false
        | EmptyString => None
        end
      else Some false
  | EmptyString => None
  end.

(** ** Moving over a text *)

Record cursor : Type := mkCursor { behind : list ascii; ahead : string }.

#[export] Instance cursor_eq_dec : EqDecision cursor.
Proof. solve_decision. Defined.

(** [n] octets forward. *)
Fixpoint forward (n : nat) (c : cursor) : cursor :=
  match n, ahead c with
  | S n, String oc t => forward n (mkCursor (oc :: behind c) t)
  | _, _ => c
  end.

(** [next] on a cursor: the code point, and [it] after it. *)
Definition next_at (c : cursor) : cursor * outcome N :=
  match next (ahead c) with
  | Ret (cp, rest) => (forward (String.length (ahead c) - String.length rest) c, Ret cp)
  | Throw e => (c, Throw e)
  end.

Definition peek_next (it : string) : outcome N := let! '(cp, _) := next it in Ret cp.

(** [while (is_trail( *(--it))) if (it == start) throw invalid_utf8( *it)]: [oc] is the octet
    stepped onto, [seq] the octets between it and the [end] of the sequence. *)
Fixpoint back (oc : ascii) (behind : list ascii) (seq : string) : (list ascii * string) * outcome unit :=
  let seq := String oc seq in
  if is_trail oc then
    match behind with
    | [] => (([], seq), Throw (InvalidUtf8 (mask8 oc)))
    | oc :: behind => back oc behind seq
    end
  else ((behind, seq), Ret tt).

(** The body that [prior] and [previous] share once there is an octet behind. *)
Definition back_and_decode (oc : ascii) (rest : list ascii) (c : cursor) : cursor * outcome N :=
  let '((rest, seq), found) := back oc rest EmptyString in
  (mkCursor rest (seq +:+ ahead c), let! _ := found in peek_next seq).

Definition prior (c : cursor) : cursor * outcome N :=
  match behind c with
  | [] => (c, Throw NotEnoughRoom)
  | oc :: rest => back_and_decode oc rest c
  end.

(** [previous] has no test for the beginning: no result when it reads before the text. *)
Definition previous (c : cursor) : option (cursor * outcome N) :=
  match behind c with
  | [] => None
  | oc :: rest => Some (back_and_decode oc rest c)
  end.

Fixpoint advance (n : nat) (c : cursor) : cursor * outcome unit :=
  match n with
  | O => (c, Ret tt)
  | S n =>
      match next_at c with
      | (c, Ret _) => advance n c
      | (c, Throw e) => (c, Throw e)
      end
  end.

(** [first < last]: the text from [first] to [last] is not empty. *)
Fixpoint distance_fuel (fuel : nat) (first : string) (dist : N) : outcome N :=
  match fuel, first with
  | S fuel, String _ _ => let! '(_, first) := next first in distance_fuel fuel first (dist + 1)
  | _, _ => Ret dist
  end.

Definition distance (first : string) : outcome N := distance_fuel (String.length first) first 0.

(** ** The class iterator *)

Section Iterator.
(** The text that the positions point into. *)
Context (buffer : string).

(** The octets between two positions. *)
Definition between (first last : N) : string := str_take (last - first) (str_drop first buffer).

Record iterator : Type := mkIterator { it : N; range_start : N; range_end : N }.

Definition new_iterator (octet_it range_start range_end : N) : outcome iterator :=
  if (octet_it <? range_start) || (range_end <? octet_it)
  then Throw (OutOfRange "Invalid utf-8 iterator position")
  else Ret (mkIterator octet_it range_start range_end).

Definition base (x : iterator) : N := it x.

(** [operator *]: a copy of [it] moves. *)
Definition deref (x : iterator) : outcome N := peek_next (between (it x) (range_end x)).

Definition equal (x rhs : iterator) : outcome bool :=
  if negb (range_start x =? range_start rhs) || negb (range_end x =? range_end rhs)
  then Throw (LogicError "Comparing utf-8 iterators defined with different ranges")
  else Ret (it x =? it rhs).

Definition not_equal (x rhs : iterator) : outcome bool := let! b := equal x rhs in Ret (negb b).

(** [++it] *)
Definition increment (x : iterator) : iterator * outcome unit :=
  match next (between (it x) (range_end x)) with
  | Ret (_, rest) => (mkIterator (range_end x - str_len rest) (range_start x) (range_end x), Ret tt)
  | Throw e => (x, Throw e)
  end.

(** [it++]: the iterator moved and the copy returned. *)
Definition post_increment (x : iterator) : iterator * outcome iterator :=
  let '(y, r) := increment x in (y, let! _ := r in Ret x).

(** [it] between its range's ends, as [prior] sees it. *)
Definition cursor_of (x : iterator) : cursor :=
  mkCursor (rev (String.list_ascii_of_string (between (range_start x) (it x)))) (between (it x) (range_end x)).

Definition decrement (x : iterator) : iterator * outcome unit :=
  let '(c, r) := prior (cursor_of x) in
  (mkIterator (range_start x + N.of_nat (length (behind c))) (range_start x) (range_end x),
   let! _ := r in Ret tt).

Definition post_decrement (x : iterator) : iterator * outcome iterator :=
  let '(y, r) := decrement x in (y, let! _ := r in Ret x).
End Iterator.

(** ** Lemmas on cursors *)

(** The octets behind a cursor that has come over a text. *)
Definition behind_of (s : string) : list ascii := rev (String.list_ascii_of_string s).

Lemma behind_of_app a b : behind_of (a +:+ b) = behind_of b ++ behind_of a.
Proof.
  unfold behind_of. rewrite <- rev_app_distr. f_equal.
  induction a as [|c a IH]; [by rewrite sapp_nil_l|]. rewrite sapp_cons. cbn. by rewrite IH.
Qed.

Lemma behind_of_length s : N.of_nat (length (behind_of s)) = str_len s.
Proof.
  unfold behind_of. rewrite length_rev. induction s as [|c s IH]; [done|]. cbn. lia.
Qed.

Lemma forward_app a b l :
  forward (String.length a) (mkCursor l (a +:+ b)) = mkCursor (behind_of a ++ l) b.
Proof.
  revert l. induction a as [|c a IH]; intros l; [done|]. rewrite sapp_cons. cbn [String.length forward ahead behind].
  rewrite IH. unfold behind_of. cbn. by rewrite <- app_assoc.
Qed.

Lemma length_app_string a b : String.length (a +:+ b) = (String.length a + String.length b)%nat.
Proof. induction a as [|c a IH]; [done|]. rewrite sapp_cons. cbn. by rewrite IH. Qed.

Lemma next_encoded cp s : is_code_point_valid cp = true -> next (encode cp +:+ s) = Ret (cp, s).
Proof. intros Hv. unfold next. by rewrite validate_encode, str_drop_app. Qed.

Lemma next_at_encoded cp s l :
  is_code_point_valid cp = true ->
  next_at (mkCursor l (encode cp +:+ s)) = (mkCursor (behind_of (encode cp) ++ l) s, Ret cp).
Proof.
  intros Hv. unfold next_at. cbn [ahead]. rewrite next_encoded, length_app_string by done.
  by rewrite Nat.add_sub, forward_app.
Qed.

(** A leading octet, then trailing octets. *)
Definition lead_then_trails (s : string) : Prop :=
  exists a t, s = String a t /\ is_trail a = false /\
    Forall (fun b => is_trail b = true) (String.list_ascii_of_string t).

Lemma is_trail_octet_lead n : n < 256 -> ~ (128 <= n < 192) -> is_trail (octet n) = false.
Proof.
  intros Hn Hr. destruct (is_trail (octet n)) eqn:E; [|done]. apply is_trail_iff in E.
  rewrite octet_value in E by done. lia.
Qed.

#[local] Ltac Zify.zify_post_hook ::= Z.div_mod_to_equations.

Lemma encode_lead cp : is_code_point_valid cp = true -> lead_then_trails (encode cp).
Proof.
  intros Hv. rewrite encode_octets by done. pose proof (valid_bound cp Hv) as Hb.
  destruct (N.ltb_spec cp 128); [|destruct (N.ltb_spec cp 2048); [|destruct (N.ltb_spec cp 65536)]];
    cbn [octets]; (eexists _, _; split_and!; [reflexivity|apply is_trail_octet_lead; lia|]);
    cbn [String.list_ascii_of_string];
    repeat (apply List.Forall_cons; [apply is_trail_octet; lia|]); constructor.
Qed.

Lemma string_of_app l k :
  String.string_of_list_ascii (l ++ k) = String.string_of_list_ascii l +:+ String.string_of_list_ascii k.
Proof. induction l as [|c l IH]; [done|]. cbn [app String.string_of_list_ascii]. by rewrite IH, sapp_cons. Qed.

(** Going back over the trailing octets of a sequence, to its leading octet. *)
Lemma back_trails a ts oc l seq :
  is_trail a = false -> Forall (fun b => is_trail b = true) (oc :: ts) ->
  back oc (ts ++ a :: l) seq
  = ((l, String a (String.string_of_list_ascii (rev (oc :: ts)) +:+ seq)), Ret tt).
Proof.
  intros Ha. revert oc seq. induction ts as [|t ts IH]; intros oc seq Hf;
    apply Forall_cons in Hf as [Ho Hf]; cbn [back app]; rewrite Ho.
  - destruct l; cbn [back]; by rewrite Ha.
  - rewrite (IH t _ Hf). do 3 f_equal. cbn [rev]. by rewrite (string_of_app (rev ts ++ [t])), sapp_assoc.
Qed.

Lemma string_of_behind s : String.string_of_list_ascii (rev (behind_of s)) = s.
Proof. unfold behind_of. rewrite rev_involutive. apply String.string_of_list_ascii_of_string. Qed.

(** Going back over the encoding of a code point. *)
Lemma back_encoded cp l :
  is_code_point_valid cp = true ->
  exists oc rest, behind_of (encode cp) ++ l = oc :: rest /\
    back oc rest EmptyString = ((l, encode cp), Ret tt).
Proof.
  intros Hv. destruct (encode_lead cp Hv) as (a & t & He & Ha & Ht). rewrite He.
  change (String a t) with (String a EmptyString +:+ t). rewrite behind_of_app, <- app_assoc. cbn [app].
  change (behind_of (String a EmptyString) ++ l) with (a :: l).
  pose proof (string_of_behind t) as Hs. apply Forall_rev in Ht. fold (behind_of t) in Ht.
  destruct (behind_of t) as [|oc ts] eqn:Eb.
  - exists a, l. split; [done|]. cbn in Hs. subst t. destruct l; cbn [back]; by rewrite Ha.
  - exists oc, (ts ++ a :: l). split; [done|]. rewrite (back_trails a ts oc l _ Ha Ht), Hs, sapp_nil_r. done.
Qed.

Lemma peek_encoded cp s : is_code_point_valid cp = true -> peek_next (encode cp +:+ s) = Ret cp.
Proof. intros Hv. unfold peek_next. by rewrite next_encoded. Qed.

Lemma prior_encoded cp l s :
  is_code_point_valid cp = true ->
  prior (mkCursor (behind_of (encode cp) ++ l) s) = (mkCursor l (encode cp +:+ s), Ret cp).
Proof.
  intros Hv. destruct (back_encoded cp l Hv) as (oc & rest & He & Hb).
  unfold prior. cbn [behind]. rewrite He. unfold back_and_decode. rewrite Hb. cbn [obind ahead].
  rewrite <- (sapp_nil_r (encode cp)) at 2. by rewrite peek_encoded.
Qed.

(** The encoding of some code points, cut after some of them. *)
Lemma encode_all_app xs ys : encode_all (xs ++ ys) = encode_all xs +:+ encode_all ys.
Proof.
  induction xs as [|x xs IH]; [done|]. change (encode_all ((x :: xs) ++ ys)) with (encode x +:+ encode_all (xs ++ ys)).
  change (encode_all (x :: xs)) with (encode x +:+ encode_all xs). by rewrite IH, sapp_assoc.
Qed.

Lemma advance_encoded xs s l :
  all_valid xs ->
  advance (length xs) (mkCursor l (encode_all xs +:+ s)) = (mkCursor (behind_of (encode_all xs) ++ l) s, Ret tt).
Proof.
  intros Hv. revert l. induction Hv as [|x xs Hx _ IH]; intros l; [done|]. cbn [length advance].
  change (encode_all (x :: xs)) with (encode x +:+ encode_all xs). rewrite sapp_assoc.
  rewrite next_at_encoded, IH by done. by rewrite behind_of_app, app_assoc.
Qed.

Lemma distance_encoded fuel xs n :
  all_valid xs -> (String.length (encode_all xs) <= fuel)%nat ->
  distance_fuel fuel (encode_all xs) n = Ret (n + N.of_nat (length xs)).
Proof.
  intros Hv. revert fuel n. induction Hv as [|x xs Hx Hv IH]; intros fuel n Hf.
  - rewrite N.add_0_r. by destruct fuel.
  - change (encode_all (x :: xs)) with (encode x +:+ encode_all xs) in *.
    destruct (step_encode x (encode_all xs) Hx) as (a & t & He & _ & _ & _ & Hl).
    rewrite He in Hf |- *. destruct fuel as [|fuel]; [cbn in Hf; lia|].
    cbn [distance_fuel]. rewrite <- He, next_encoded by done. cbn [obind].
    rewrite IH by lia. f_equal. cbn [length]. lia.
Qed.

(** ** Positions in a range that holds some code points *)

Section Range.
Context (pre post : string) (cps : list N).

Definition range_text : string := pre +:+ encode_all cps +:+ post.

(** The position before the [k]-th code point of the range. *)
Definition position (k : nat) : N := str_len pre + str_len (encode_all (take k cps)).

(** The iterator on the range, at the [k]-th code point. *)
Definition at_point (k : nat) : iterator := mkIterator (position k) (position 0) (position (length cps)).

Lemma position_split j k :
  (j <= k)%nat -> position k = position j + str_len (encode_all (drop j (take k cps))).
Proof.
  intros Hj. unfold position. rewrite <- (take_drop j (take k cps)) at 1.
  rewrite encode_all_app, str_len_app, take_take, Nat.min_l by done. lia.
Qed.

Lemma between_points j k :
  (j <= k)%nat -> between range_text (position j) (position k) = encode_all (drop j (take k cps)).
Proof.
  intros Hj. unfold between. rewrite (position_split j k Hj).
  replace (_ + _ - _) with (str_len (encode_all (drop j (take k cps)))) by lia.
  assert (Ht : range_text = (pre +:+ encode_all (take j cps)) +:+
                (encode_all (drop j (take k cps)) +:+ (encode_all (drop k cps) +:+ post))).
  { unfold range_text. rewrite <- (take_drop k cps) at 1. rewrite encode_all_app.
    rewrite <- (take_drop j (take k cps)) at 1. rewrite encode_all_app, take_take, Nat.min_l by done.
    by rewrite !sapp_assoc. }
  rewrite Ht. unfold position. rewrite <- str_len_app, str_drop_app. apply str_take_app.
Qed.

Lemma position_lt j k : all_valid cps -> (j < k)%nat -> (k <= length cps)%nat -> position j < position k.
Proof.
  intros Hv Hj Hk. rewrite (position_split j k) by lia.
  destruct (drop j (take k cps)) as [|x l] eqn:E.
  - apply (f_equal length) in E. rewrite length_drop, length_take in E. cbn in E. lia.
  - assert (Hx : is_code_point_valid x = true).
    { pose proof (Forall_drop _ j _ (Forall_take _ k _ Hv)) as Hf. rewrite E in Hf. by inversion Hf. }
    change (encode_all (x :: l)) with (encode x +:+ encode_all l). rewrite str_len_app.
    destruct (encode_cons x Hx) as (a & t & ->). cbn. lia.
Qed.

Lemma position_eqb j k :
  all_valid cps -> (j <= length cps)%nat -> (k <= length cps)%nat ->
  (position j =? position k) = (j =? k)%nat.
Proof.
  intros Hv Hj Hk. destruct (Nat.eqb_spec j k) as [->|Hne]; [apply N.eqb_refl|]. apply N.eqb_neq.
  destruct (Nat.lt_total j k) as [Hl|[Hl|Hl]]; [|done|];
    pose proof (position_lt _ _ Hv Hl ltac:(done)); lia.
Qed.

Lemma position_le j k : (j <= k)%nat -> position j <= position k.
Proof. intros Hj. rewrite (position_split j k Hj). lia. Qed.

(** The rest of the range, from its [k]-th code point. *)
Lemma rest_of_range k cp :
  cps !! k = Some cp ->
  between range_text (position k) (position (length cps)) = encode cp +:+ encode_all (drop (S k) cps).
Proof.
  intros Hk. rewrite between_points by (apply lookup_lt_Some in Hk; lia). rewrite firstn_all.
  by rewrite (drop_S _ _ _ Hk).
Qed.

Lemma increment_point k cp :
  all_valid cps -> cps !! k = Some cp ->
  increment range_text (at_point k) = (at_point (S k), Ret tt).
Proof.
  intros Hv Hk. pose proof (Forall_lookup_1 _ _ _ _ Hv Hk) as Hcp. unfold increment. cbn [it range_end at_point].
  rewrite (rest_of_range k cp Hk), next_encoded by done. unfold at_point. do 2 f_equal.
  pose proof (lookup_lt_Some _ _ _ Hk). rewrite (position_split (S k) (length cps)), firstn_all by lia. lia.
Qed.

Lemma deref_point k cp :
  all_valid cps -> cps !! k = Some cp -> deref range_text (at_point k) = Ret cp.
Proof.
  intros Hv Hk. pose proof (Forall_lookup_1 _ _ _ _ Hv Hk) as Hcp. unfold deref. cbn [it range_end at_point].
  by rewrite (rest_of_range k cp Hk), peek_encoded.
Qed.

Lemma decrement_point k cp :
  all_valid cps -> cps !! k = Some cp ->
  decrement range_text (at_point (S k)) = (at_point k, Ret tt).
Proof.
  intros Hv Hk. pose proof (Forall_lookup_1 _ _ _ _ Hv Hk) as Hcp. unfold decrement, cursor_of.
  cbn [it range_start range_end at_point]. rewrite between_points by lia. rewrite drop_0.
  fold (behind_of (encode_all (take (S k) cps))). rewrite (take_S_r _ _ _ Hk), encode_all_app, behind_of_app.
  replace (encode_all [cp]) with (encode cp) by (symmetry; apply sapp_nil_r).
  rewrite prior_encoded by done. cbn [behind obind]. unfold at_point. do 2 f_equal.
  rewrite behind_of_length. unfold position. change (encode_all (take 0 cps)) with EmptyString. cbn [str_len]. lia.
Qed.

Lemma decrement_first : decrement range_text (at_point 0) = (at_point 0, Throw NotEnoughRoom).
Proof.
  unfold decrement, cursor_of. cbn [it range_start range_end at_point]. rewrite between_points by lia.
  change (encode_all (drop 0 (take 0 cps))) with EmptyString. cbn [String.list_ascii_of_string rev].
  unfold prior. cbn [behind obind length]. unfold at_point. do 2 f_equal. lia.
Qed.

(** A new iterator at a code point of the range is accepted. *)
Lemma new_point k :
  (k <= length cps)%nat -> new_iterator (position k) (position 0) (position (length cps)) = Ret (at_point k).
Proof.
  intros Hk. unfold new_iterator. pose proof (position_le 0 k ltac:(lia)). pose proof (position_le k _ Hk).
  by rewrite (proj2 (N.ltb_ge _ _)), (proj2 (N.ltb_ge _ _)).
Qed.
End Range.

(** ** Properties *)

(** Refinement: on a range of a text that holds the encoding of some code points, whatever
    is around it, the iterator is a cursor in that sequence of code points. It is made at
    each of them and after the last; [*] is the code point, [++] and [--] are the next and
    the previous position, two iterators are equal when they are at the same place, and
    [--] at the beginning throws and does not move. *)
Theorem iterator_walks_code_points (pre post : string) (cps : list N) (k : nat) :
  all_valid cps -> (k <= length cps)%nat ->
  let text := range_text pre post cps in
  let at_point := at_point pre cps in
  new_iterator (base (at_point k)) (base (at_point 0%nat)) (base (at_point (length cps))) = Ret (at_point k) /\
  (forall j, (j <= length cps)%nat -> equal (at_point j) (at_point k) = Ret (j =? k)%nat) /\
  (forall cp, cps !! k = Some cp ->
     deref text (at_point k) = Ret cp /\
  increment text (at_point k) = (at_point (S k), Ret tt) /\
  post_increment text (at_point k) = (at_point (S k), Ret (at_point k)) /\
  decrement text (at_point (S k)) = (at_point k, Ret tt) /\
  post_decrement text (at_point (S k)) = (at_point k, Ret (at_point (S k)))) /\
  decrement text (at_point 0%nat) = (at_point 0%nat, Throw NotEnoughRoom).
Proof.
  intros Hv Hk. cbv zeta. split_and!.
  - by apply new_point.
  - intros j Hj. unfold equal. cbn. by rewrite !N.eqb_refl, position_eqb.
  - intros cp Hcp. unfold post_increment, post_decrement.
    by rewrite (deref_point pre post cps k cp), (increment_point pre post cps k cp),
      (decrement_point pre post cps k cp).
  - apply decrement_first.
Qed.

(** Going over [n] code points and back: [advance] passes exactly them, [distance] counts
    them, and [prior] goes back over the last one and gives it, as [previous] does. *)
Theorem advance_and_back (xs : list N) (cp : N) (s : string) (l : list ascii) :
  all_valid (xs ++ [cp]) ->
  let there := mkCursor (behind_of (encode_all (xs ++ [cp])) ++ l) s in
  advance (length (xs ++ [cp])) (mkCursor l (encode_all (xs ++ [cp]) +:+ s)) = (there, Ret tt) /\
  distance (encode_all (xs ++ [cp])) = Ret (N.of_nat (length (xs ++ [cp]))) /\
  prior there = (mkCursor (behind_of (encode_all xs) ++ l) (encode cp +:+ s), Ret cp) /\
  previous there = Some (prior there).
Proof.
  intros Hv there. pose proof (proj2 (proj1 (Forall_app _ _ _) Hv)) as Hcp. inversion_clear Hcp.
  assert (He : behind there = behind_of (encode cp) ++ behind_of (encode_all xs) ++ l).
  { unfold there. cbn [behind]. rewrite encode_all_app, behind_of_app, <- app_assoc.
    by replace (encode_all [cp]) with (encode cp) by (symmetry; apply sapp_nil_r). }
  split_and!.
  - by apply advance_encoded.
  - unfold distance. by rewrite distance_encoded, N.add_0_l.
  - replace there with (mkCursor (behind_of (encode cp) ++ behind_of (encode_all xs) ++ l) s)
      by (rewrite <- He; done). by apply prior_encoded.
  - unfold previous, prior. destruct (back_encoded cp (behind_of (encode_all xs) ++ l)) as (oc & rest & Hb & _); [done|].
    by rewrite He, Hb.
Qed.

(** *** Concrete texts *)

Module IteratorExamples.
(** é, then a letter, between two spaces. *)
Definition text : string := octets [32; 195; 169; 116; 32].

Example iterator_second : increment text (mkIterator 1 1 4) = (mkIterator 3 1 4, Ret tt).
Proof. reflexivity. Qed.

Example prior_no_lead : prior (mkCursor [octet 169] EmptyString) = (mkCursor [] (octets [169]), Throw (InvalidUtf8 169)).
Proof. reflexivity. Qed.

(** A surrogate, encoded: the exception does not hold it. *)
Example invalid_code_point_lost : next (octets [237; 160; 128]) = Throw (InvalidCodePoint 0).
Proof. reflexivity. Qed.

Lemma iterator_walks_code_points_witness :
  (all_valid [233; 116] /\ (1 <= 2)%nat /\ range_text " " " " [233; 116] = text /\
  at_point " " [233; 116] 1%nat = mkIterator 3 1 4) /\
  decrement text (mkIterator 3 1 4) = (mkIterator 1 1 4, Ret tt).
Proof.
  split; [split_and!; [by repeat constructor|lia|reflexivity|reflexivity]|].
  apply (proj1 (proj2 (proj2 (iterator_walks_code_points " " " " [233; 116] 0%nat
    ltac:(by repeat constructor) ltac:(cbn; lia)))) 233). reflexivity.
Defined.

Lemma advance_and_back_witness :
  all_valid ([233] ++ [116]) /\
  advance 2 (mkCursor [] (octets [195; 169; 116; 32])) = (mkCursor [octet 116; octet 169; octet 195] " ", Ret tt).
Proof.
  split; [by repeat constructor|].
  apply (proj1 (advance_and_back [233] 116 " " [] ltac:(by repeat constructor))).
Defined.
End IteratorExamples.
