(* ===== verification/Utf8Unchecked.v ===== *)
(** * Utf8Unchecked

    The functions of extern/utf8 that check nothing (unchecked.h, [utf8::unchecked]), and
    that on valid text they do what the checked ones do. They know no end of the text:
    where they would read outside it, or before it, there is no result. The output
    iterators are the strings and words written so far. *)
From Stdlib Require Import ZifyN.
From S2P Require Import Prelude CxxString Utf8 Utf16 Utf8Iterator.
Local Open Scope N_scope.

Module unchecked.
Definition append (cp : N) (result : string) : string :=
  result +:+
  if cp <? 0x80 then String (octet cp) ""
  else if cp <? 0x800 then
    String (octet (N.lor (N.shiftr cp 6) 0xc0))
    (String (octet (N.lor (N.land cp 0x3f) 0x80)) "")
  else if cp <? 0x10000 then
    String (octet (N.lor (N.shiftr cp 12) 0xe0))
    (String (octet (N.lor (N.land (N.shiftr cp 6) 0x3f) 0x80))
    (String (octet (N.lor (N.land cp 0x3f) 0x80)) ""))
  else
    String (octet (N.lor (N.shiftr cp 18) 0xf0))
    (String (octet (N.lor (N.land (N.shiftr cp 12) 0x3f) 0x80))
    (String (octet (N.lor (N.land (N.shiftr cp 6) 0x3f) 0x80))
    (String (octet (N.lor (N.land cp 0x3f) 0x80)) ""))).

(** The code point and the text after it. *)
Definition next (it : string) : option (N * string) :=
  match it with
  | EmptyString => None
  | String a t =>
      let cp := mask8 a in
      let length := sequence_length a in
      if length =? 2 then
        match t with
        | String b t => Some (N.land (N.shiftl cp 6) 0x7ff + N.land (N_of_ascii b) 0x3f, t)
        | _ => None
        end
      else if length =? 3 then
        match t with
        | String b (String c t) =>
            Some (N.land (N.shiftl cp 12) 0xffff + N.land (N.shiftl (mask8 b) 6) 0xfff
                  + N.land (N_of_ascii c) 0x3f, t)
        | _ => None
        end
      else if length =? 4 then
        match t with
        | String b (String c (String d t)) =>
            Some (N.land (N.shiftl cp 18) 0x1fffff + N.land (N.shiftl (mask8 b) 12) 0x3ffff
                  + N.land (N.shiftl (mask8 c) 6) 0xfff + N.land (N_of_ascii d) 0x3f, t)
        | _ => None
        end
      else Some (cp, t)
  end.

Definition peek_next (it : string) : option N := '(cp, _) ← next it; Some cp.

(** [while (is_trail( *(--it)))], to the octets then behind and ahead. *)
Fixpoint back (behind : list ascii) (ahead : string) : option (list ascii * string) :=
  match behind with
  | [] => None
  | oc :: behind =>
      if is_trail oc then back behind (String oc ahead) else Some (behind, String oc ahead)
  end.

Definition prior (c : cursor) : option (cursor * N) :=
  '(l, s) ← back (behind c) (ahead c);
  '(cp, _) ← next s;
  Some (mkCursor l s, cp).

Definition previous (c : cursor) : option (cursor * N) := prior c.

Fixpoint advance (n : nat) (it : string) : option string :=
  match n with
  | O => Some it
  | S n => '(_, it) ← next it; advance n it
  end.

(** The loops while [first < last]: [last] is the end of the text. *)
Fixpoint distance_fuel (fuel : nat) (first : string) (dist : N) : option N :=
  match fuel, first with
  | S fuel, String _ _ => '(_, first) ← next first; distance_fuel fuel first (dist + 1)
  | _, _ => Some dist
  end.

Definition distance (first : string) : option N := distance_fuel (String.length first) first 0.

Fixpoint utf16to8 (start : list N) (result : string) : option string :=
  match start with
  | [] => Some result
  | w :: start =>
      let cp := mask16 w in
      if is_lead_surrogate cp then
        match start with
        | t :: start => utf16to8 start (append (join_surrogates cp (mask16 t)) result)
        | [] => None
        end
      else utf16to8 start (append cp result)
  end.

Fixpoint utf8to16_fuel (fuel : nat) (start : string) (result : list N) : option (list N) :=
  match fuel, start with
  | S fuel, String _ _ => '(cp, start) ← next start; utf8to16_fuel fuel start (result ++ put_words cp)
  | _, _ => Some result
  end.

Definition utf8to16 (start : string) (result : list N) : option (list N) :=
  utf8to16_fuel (String.length start) start result.

Fixpoint utf32to8 (start : list N) (result : string) : string :=
  match start with
  | [] => result
  | cp :: start => utf32to8 start (append cp result)
  end.

Fixpoint utf8to32_fuel (fuel : nat) (start : string) (result : list N) : option (list N) :=
  match fuel, start with
  | S fuel, String _ _ => '(cp, start) ← next start; utf8to32_fuel fuel start (result ++ [cp])
  | _, _ => Some result
  end.

Definition utf8to32 (start : string) (result : list N) : option (list N) :=
  utf8to32_fuel (String.length start) start result.

(** *** The class iterator

    It holds [it] only: here, a cursor. *)
Definition deref (x : cursor) : option N := peek_next (ahead x).

Definition equal (x rhs : cursor) : bool := (length (behind x) =? length (behind rhs))%nat.

(** [std::advance(it, sequence_length(it))]: on an octet that leads nothing, by 0. *)
Definition increment (x : cursor) : option cursor :=
  match ahead x with
  | EmptyString => None
  | String a _ =>
      let n := sequence_length a in
      if n <=? str_len (ahead x) then Some (forward (N.to_nat n) x) else None
  end.

Definition post_increment (x : cursor) : option (cursor * cursor) := y ← increment x; Some (y, x).

Definition decrement (x : cursor) : option cursor := '(y, _) ← prior x; Some y.

Definition post_decrement (x : cursor) : option (cursor * cursor) := y ← decrement x; Some (y, x).
End unchecked.

(** ** On valid text *)

#[local] Ltac Zify.zify_post_hook ::= Z.div_mod_to_equations.

Lemma unchecked_append cp out :
  is_code_point_valid cp = true -> unchecked.append cp out = out +:+ encode cp.
Proof.
  intros Hv. unfold unchecked.append, encode, append. rewrite Hv. cbn [negb].
  by repeat case_match.
Qed.

(** What a step of the checked decoder accepts, the unchecked one decodes. *)
Lemma unchecked_next it cp rest : Utf8.next it = Ret (cp, rest) -> unchecked.next it = Some (cp, rest).
Proof.
  unfold Utf8.next. destruct it as [|a t]; [done|].
  destruct (validate_next (String a t)) as [[cp' n]|[]] eqn:Hn; try done. intros [= -> <-].
  revert Hn. unfold validate_next, unchecked.next. rewrite sequence_length_value.
  repeat match goal with |- context [?x <? ?y] => destruct (N.ltb_spec x y) end; cbv [N.eqb Pos.eqb]; try done;
    match goal with |- match ?g with _ => _ end = _ -> _ => destruct g as [cp'|e] eqn:Hg; [|done] end;
    destruct (is_code_point_valid cp'); try done;
    destruct (is_overlong_sequence cp' _); cbn [negb]; try done; intros [= <- <-].
  - injection Hg as <-. by destruct t.
  - apply increase_safely_inl in Hg as (b & t' & -> & _ & [= <-]). by destruct t'.
  - apply increase_safely_inl in Hg as (b & t' & -> & _ & Hg).
    apply increase_safely_inl in Hg as (c & t'' & -> & _ & [= <-]). by destruct t''.
  - apply increase_safely_inl in Hg as (b & t' & -> & _ & Hg).
    apply increase_safely_inl in Hg as (c & t'' & -> & _ & Hg).
    apply increase_safely_inl in Hg as (d & t3 & -> & _ & [= <-]). by destruct t3.
Qed.

(** A step of the checked decoder, as the encoding it read. *)
Lemma next_sound it cp rest :
  Utf8.next it = Ret (cp, rest) -> is_code_point_valid cp = true /\ it = encode cp +:+ rest.
Proof.
  unfold Utf8.next. destruct (validate_next it) as [[cp' n]|[]] eqn:Hn; try done. intros [= -> <-].
  destruct it as [|a t]; [done|]. apply validate_sound in Hn as (Hv & t' & He & ->).
  by rewrite He, str_drop_app.
Qed.

Lemma unchecked_encoded cp s : is_code_point_valid cp = true -> unchecked.next (encode cp +:+ s) = Some (cp, s).
Proof. intros Hv. by apply unchecked_next, next_encoded. Qed.

Lemma unchecked_back oc behind seq rest l s :
  back oc behind seq = ((l, s), Ret tt) ->
  unchecked.back (oc :: behind) (seq +:+ rest) = Some (l, s +:+ rest).
Proof.
  revert oc seq. induction behind as [|oc' behind IH]; intros oc seq;
    cbn [back unchecked.back]; destruct (is_trail oc) eqn:E; try done; try by intros [= <- <-].
  intros Hb. apply (IH oc' (String oc seq)) in Hb. exact Hb.
Qed.

Lemma unchecked_prior c c' cp : Utf8Iterator.prior c = (c', Ret cp) -> unchecked.prior c = Some (c', cp).
Proof.
  unfold Utf8Iterator.prior, unchecked.prior. destruct c as [[|oc l] s]; [done|]. cbn [behind ahead].
  unfold back_and_decode. destruct (back oc l EmptyString) as [[l' seq] [[]|e]] eqn:Hb; [|done].
  cbn [obind ahead]. intros [= <- Hp]. apply (unchecked_back _ _ _ s) in Hb. rewrite sapp_nil_l in Hb.
  rewrite Hb. cbn [mbind option_bind]. unfold peek_next in Hp.
  destruct (Utf8.next seq) as [[cp' r]|e] eqn:Hn; [|done]. injection Hp as ->.
  apply next_sound in Hn as [Hv ->]. by rewrite sapp_assoc, unchecked_encoded.
Qed.

Lemma sequence_length_encode cp a t :
  is_code_point_valid cp = true -> encode cp = String a t -> sequence_length a = str_len (encode cp).
Proof.
  intros Hv He. pose proof (validate_encode cp EmptyString Hv) as Hn. rewrite sapp_nil_r, He in Hn.
  rewrite He. unfold validate_next in Hn.
  repeat case_match; try done; by injection Hn.
Qed.

(** [++], which looks at the first octet only. *)
Lemma unchecked_increment c c' cp : next_at c = (c', Ret cp) -> unchecked.increment c = Some c'.
Proof.
  destruct c as [l s]. unfold next_at, unchecked.increment. cbn [ahead].
  destruct (Utf8.next s) as [[cp' rest]|e] eqn:Hn; [|done]. intros [= <- ->].
  apply next_sound in Hn as [Hv ->]. destruct (encode_cons cp Hv) as (a & t & He).
  rewrite He at 1. rewrite sapp_cons, (sequence_length_encode cp a t Hv He), str_len_app.
  rewrite (proj2 (N.leb_le _ _)) by lia. rewrite length_app_string, Nat.add_sub. do 2 f_equal.
  rewrite <- behind_of_length. unfold behind_of. rewrite length_rev, Nat2N.id.
  clear. induction (encode cp) as [|x u IH]; [done|]. cbn. by rewrite IH.
Qed.

Lemma unchecked_advance n c c' : advance n c = (c', Ret tt) -> unchecked.advance n (ahead c) = Some (ahead c').
Proof.
  revert c. induction n as [|n IH]; intros c; cbn [advance unchecked.advance]; [by intros [= ->]|].
  unfold next_at. destruct (Utf8.next (ahead c)) as [[cp rest]|e] eqn:Hn; [|done].
  intros Ha%IH. rewrite (unchecked_next _ _ _ Hn). cbn [mbind option_bind].
  apply next_sound in Hn as [_ He]. destruct c as [l s]. cbn [ahead] in *. subst s.
  by rewrite length_app_string, Nat.add_sub, forward_app in Ha.
Qed.

Lemma unchecked_distance fuel s n r :
  distance_fuel fuel s n = Ret r -> unchecked.distance_fuel fuel s n = Some r.
Proof.
  revert s n. induction fuel as [|fuel IH]; intros [|a t] n; try by intros [= ->].
  cbn [distance_fuel unchecked.distance_fuel].
  destruct (Utf8.next (String a t)) as [[cp rest]|e] eqn:Hn; [|done]. cbn [obind].
  rewrite (unchecked_next _ _ _ Hn). cbn [mbind option_bind]. apply IH.
Qed.

Lemma unchecked_utf8to16 fuel s out r :
  utf8to16_fuel fuel s out = Ret r -> unchecked.utf8to16_fuel fuel s out = Some r.
Proof.
  revert s out. induction fuel as [|fuel IH]; intros [|a t] out; try by intros [= ->].
  cbn [utf8to16_fuel unchecked.utf8to16_fuel].
  destruct (Utf8.next (String a t)) as [[cp rest]|e] eqn:Hn; [|done]. cbn [obind].
  rewrite (unchecked_next _ _ _ Hn). cbn [mbind option_bind]. apply IH.
Qed.

Lemma unchecked_utf8to32 fuel s out r :
  utf8to32_fuel fuel s out = Ret r -> unchecked.utf8to32_fuel fuel s out = Some r.
Proof.
  revert s out. induction fuel as [|fuel IH]; intros [|a t] out; try by intros [= ->].
  cbn [utf8to32_fuel unchecked.utf8to32_fuel].
  destruct (Utf8.next (String a t)) as [[cp rest]|e] eqn:Hn; [|done]. cbn [obind].
  rewrite (unchecked_next _ _ _ Hn). cbn [mbind option_bind]. apply IH.
Qed.

(** [append] that returned. *)
Lemma append_sound cp e : Utf8.append cp = Ret e -> is_code_point_valid cp = true /\ e = encode cp.
Proof.
  intros Ha. unfold encode. rewrite Ha. split; [|done]. unfold append in Ha.
  by destruct (is_code_point_valid cp).
Qed.

Lemma unchecked_utf32to8 cps out r : Utf8.utf32to8 cps out = Ret r -> unchecked.utf32to8 cps out = r.
Proof.
  revert out. induction cps as [|cp cps IH]; intros out; [by intros [= ->]|].
  cbn [Utf8.utf32to8 unchecked.utf32to8]. destruct (append cp) as [e|e] eqn:Ha; [|done]. cbn [obind].
  apply append_sound in Ha as [Hv ->]. rewrite unchecked_append by done. apply IH.
Qed.

Lemma unchecked_utf16to8 n ws out r :
  (length ws <= n)%nat -> Utf16.utf16to8 ws out = Ret r -> unchecked.utf16to8 ws out = Some r.
Proof.
  revert ws out. induction n as [|n IH]; intros [|w ws] out Hn; cbn in Hn; try lia; try (by intros [= ->]).
  cbn [Utf16.utf16to8 unchecked.utf16to8]. destruct (is_lead_surrogate (mask16 w)).
  - destruct ws as [|t ws]; [done|]. destruct (is_trail_surrogate (mask16 t)); [|done].
    destruct (append _) as [e|e] eqn:Ha; [|done]. cbn [obind]. apply append_sound in Ha as [Hv ->].
    rewrite unchecked_append by done. apply IH. cbn in Hn. lia.
  - destruct (is_trail_surrogate (mask16 w)); [done|].
    destruct (append _) as [e|e] eqn:Ha; [|done]. cbn [obind]. apply append_sound in Ha as [Hv ->].
    rewrite unchecked_append by done. apply IH. lia.
Qed.

(** ** Properties *)

(** Equivalence: wherever a checked function returns without an exception, whatever it is
    given, the unchecked one reads nothing outside the text and gives the same. *)
Theorem unchecked_agrees :
  (forall s cp rest, Utf8.next s = Ret (cp, rest) -> unchecked.next s = Some (cp, rest)) /\
  (forall c c' cp, Utf8Iterator.prior c = (c', Ret cp) -> unchecked.prior c = Some (c', cp)) /\
  (forall c c' cp, next_at c = (c', Ret cp) -> unchecked.increment c = Some c') /\
  (forall n c c', advance n c = (c', Ret tt) -> unchecked.advance n (ahead c) = Some (ahead c')) /\
  (forall s n, distance s = Ret n -> unchecked.distance s = Some n) /\
  (forall s ws, Utf16.utf8to16 s [] = Ret ws -> unchecked.utf8to16 s [] = Some ws) /\
  (forall ws s, Utf16.utf16to8 ws EmptyString = Ret s -> unchecked.utf16to8 ws EmptyString = Some s) /\
  (forall s cps, Utf8.utf8to32 s = Ret cps -> unchecked.utf8to32 s [] = Some cps) /\
  (forall cps s, Utf8.utf32to8 cps EmptyString = Ret s -> unchecked.utf32to8 cps EmptyString = s).
Proof.
  split_and!; intros.
  - by apply unchecked_next.
  - by apply unchecked_prior.
  - by eapply unchecked_increment.
  - by apply unchecked_advance.
  - by apply unchecked_distance.
  - by apply unchecked_utf8to16.
  - by apply (unchecked_utf16to8 (length ws)).
  - by apply unchecked_utf8to32.
  - by apply unchecked_utf32to8.
Qed.

(** *** Concrete texts *)

Module UncheckedExamples.
(** A sequence cut by the end of the text: the checked function throws, the unchecked one
    reads past the end. *)
Example cut : Utf8.next (octets [226; 130]) = Throw NotEnoughRoom /\ unchecked.next (octets [226; 130]) = None.
Proof. split; reflexivity. Qed.

(** On an octet that leads nothing, [next] goes on and [++] stays. *)
Example invalid_lead :
  unchecked.next (octets [169; 116]) = Some (169, octets [116]) /\
  unchecked.increment (mkCursor [] (octets [169; 116])) = Some (mkCursor [] (octets [169; 116])).
Proof. split; reflexivity. Qed.

Lemma unchecked_agrees_witness :
  Utf8.next (octets [195; 169; 116]) = Ret (233, octets [116]) /\
  unchecked.next (octets [195; 169; 116]) = Some (233, octets [116]).
Proof. split; [reflexivity|]. apply (proj1 unchecked_agrees). reflexivity. Defined.
End UncheckedExamples.
