(* ===== verification/StdMap.v ===== *)
(** * std::map and std::multimap

    An ordered container is the list of its entries in iteration order. The
    comparator is a class argument, so that the same operations serve
    [std::map<std::string, V>] (the order of [std::string]) and the
    case-insensitive [tFiltersMap] of RequestProcessor.hh. Two keys are the same
    key when neither is less than the other, as in C++. *)
From S2P Require Import Prelude CxxString.

Class CxxLess (K : Type) := less : K -> K -> bool.

Definition equiv_key {K} `{CxxLess K} (a b : K) : bool := negb (less a b) && negb (less b a).

(** A strict weak order: what the C++ containers require of their comparator. *)
Class StrictWeakOrder (K : Type) `{CxxLess K} : Prop := {
  less_irrefl a : less a a = false;
  less_trans a b c : less a b = true -> less b c = true -> less a c = true;
  less_incomp_trans a b c :
    less a b = false -> less b c = false -> less a c = false
}.

(** The comparator tells all keys apart. *)
Class TotalKeys (K : Type) `{CxxLess K} : Prop :=
  less_total a b : less a b = false -> less b a = false -> a = b.

#[export] Instance string_less : CxxLess string := str_ltb.

#[export] Instance string_total : TotalKeys string := str_ltb_total.

#[export] Instance string_swo : StrictWeakOrder string.
Proof.
  split; [exact str_ltb_irrefl|exact str_ltb_trans|].
  unfold less, string_less. intros a b c Hab Hbc.
  destruct (str_ltb a c) eqn:Hac; [|done].
  destruct (str_ltb b a) eqn:Hba.
  - by rewrite (str_ltb_trans _ _ _ Hba Hac) in Hbc.
  - by rewrite (str_ltb_total _ _ Hab Hba), Hbc in Hac.
Qed.

Section Containers.
Context {K V : Type} `{CxxLess K}.
Implicit Types (m : list (K * V)) (k : K) (v : V).

(** ** std::map *)

(** [m.find(k)] *)
Fixpoint std_find k m : option V :=
  match m with
  | [] => None
  | (k', v) :: t =>
      if less k' k then std_find k t
      else if less k k' then None else Some v
  end.

(** [m.at(k)] *)
Definition std_at k m : outcome V :=
  of_option (OutOfRange "map::at") (std_find k m).

(** [f(m[k])]: [operator[]] creates the entry with [d] when it is missing;
    [f] is what the code does to the reference. *)
Fixpoint std_modify (d : V) (f : V -> V) k m : list (K * V) :=
  match m with
  | [] => [(k, f d)]
  | (k', v) :: t =>
      if less k' k then (k', v) :: std_modify d f k t
      else if less k k' then (k, f d) :: (k', v) :: t
      else (k', f v) :: t
  end.

(** [m[k] = v] *)
Definition std_set k v m : list (K * V) := std_modify v (fun _ => v) k m.

(** [m.insert(pair(k, v))]: keeps the old entry when there is one. *)
Definition std_insert k v m : list (K * V) := std_modify v (fun x => x) k m.

(** [m.erase(k)] (of a [map] or, all equal keys, of a [multimap]). *)
Definition std_erase k m : list (K * V) :=
  List.filter (fun e => negb (equiv_key (fst e) k)) m.

(** ** std::multimap *)

(** [mm.insert(pair(k, v))]: after the entries with an equivalent key. *)
Fixpoint mm_insert k v m : list (K * V) :=
  match m with
  | [] => [(k, v)]
  | (k', v') :: t =>
      if less k k' then (k, v) :: (k', v') :: t else (k', v') :: mm_insert k v t
  end.

Fixpoint drop_less k m : list (K * V) :=
  match m with
  | [] => []
  | (k', v) :: t => if less k' k then drop_less k t else (k', v) :: t
  end.

Fixpoint take_not_greater k m : list (K * V) :=
  match m with
  | [] => []
  | (k', v) :: t => if less k k' then [] else (k', v) :: take_not_greater k t
  end.

(** The entries of [mm.equal_range(k)]: from the lower to the upper bound. *)
Definition mm_equal_range k m : list (K * V) := take_not_greater k (drop_less k m).

(** The entries before [lower_bound(k)] and from [upper_bound(k)] on. *)
Fixpoint take_less k m : list (K * V) :=
  match m with
  | [] => []
  | (k', v) :: t => if less k' k then (k', v) :: take_less k t else []
  end.

Fixpoint drop_not_greater k m : list (K * V) :=
  match m with
  | [] => []
  | (k', v) :: t => if less k k' then (k', v) :: t else drop_not_greater k t
  end.

Definition mm_upper k m : list (K * V) := drop_not_greater k (drop_less k m).

(** ** Well-formed containers *)

Definition map_sorted m : Prop := StronglySorted (fun a b => less (fst a) (fst b) = true) m.
Definition mm_sorted m : Prop := StronglySorted (fun a b => less (fst b) (fst a) = false) m.
End Containers.

Section Theory.
Context {K V : Type} `{StrictWeakOrder K}.
Implicit Types (m : list (K * V)) (k : K) (v : V).

Lemma less_asym (a b : K) : less a b = true -> less b a = false.
Proof.
  intros Hab. destruct (less b a) eqn:Hba; [|done].
  pose proof (less_trans _ _ _ Hab Hba) as Haa. by rewrite less_irrefl in Haa.
Qed.

Lemma equiv_key_true (a b : K) : equiv_key a b = true <-> less a b = false /\ less b a = false.
Proof. unfold equiv_key. by rewrite andb_true_iff, !negb_true_iff. Qed.

Lemma less_equiv_l (a b c : K) : equiv_key a b = true -> less a c = less b c.
Proof.
  intros [Hab Hba]%equiv_key_true. destruct (less a c) eqn:Ha, (less b c) eqn:Hb; try done.
  - rewrite (less_incomp_trans _ _ _ Hab Hb) in Ha. done.
  - rewrite (less_incomp_trans _ _ _ Hba Ha) in Hb. done.
Qed.

Lemma less_equiv_r (a b c : K) : equiv_key a b = true -> less c a = less c b.
Proof.
  intros [Hab Hba]%equiv_key_true. destruct (less c a) eqn:Ha, (less c b) eqn:Hb; try done.
  - rewrite (less_incomp_trans _ _ _ Hb Hba) in Ha. done.
  - rewrite (less_incomp_trans _ _ _ Ha Hab) in Hb. done.
Qed.

#[export] Instance equiv_key_equivalence : Equivalence (fun a b : K => equiv_key a b = true).
Proof.
  split.
  - intros a. apply equiv_key_true. by rewrite less_irrefl.
  - intros a b. rewrite !equiv_key_true. tauto.
  - intros a b c Hab Hbc. apply equiv_key_true.
    rewrite (less_equiv_l _ _ _ Hab), (less_equiv_r _ _ _ Hab). by apply equiv_key_true.
Qed.

(** Sortedness is a property of the keys. *)
Lemma sorted_keys (R : K -> K -> Prop) m :
  StronglySorted (fun a b => R (fst a) (fst b)) m <-> StronglySorted R (fst <$> m).
Proof.
  induction m as [|[k v] m IH]; [by split; constructor|]. cbn [fmap list_fmap].
  split; intros [Hs Hl]%StronglySorted_inv; constructor; try (by apply IH).
  - apply List.Forall_map. exact Hl.
  - apply (List.Forall_map fst (R k) m) in Hl. exact Hl.
Qed.

Lemma mm_sorted_keys m :
  mm_sorted m <-> StronglySorted (fun a b => less b a = false) (fst <$> m).
Proof. apply (sorted_keys (fun a b => less b a = false)). Qed.

Lemma map_sorted_keys m :
  map_sorted m <-> StronglySorted (fun a b => less a b = true) (fst <$> m).
Proof. apply (sorted_keys (fun a b => less a b = true)). Qed.

Lemma take_drop_not_greater k m : take_not_greater k m ++ drop_not_greater k m = m.
Proof. induction m as [|[a v] m IH]; simpl; [done|]. destruct (less k a); simpl; [done|by rewrite IH]. Qed.

Lemma mm_split k m : take_less k m ++ mm_equal_range k m ++ mm_upper k m = m.
Proof.
  unfold mm_equal_range, mm_upper. rewrite take_drop_not_greater.
  induction m as [|[a v] m IH]; simpl; [done|]. destruct (less a k); simpl; [by rewrite IH|done].
Qed.

Lemma Forall_modify (P : K * V -> Prop) d f k m :
  Forall P m -> P (k, f d) ->
  (forall k' v, equiv_key k' k = true -> P (k', v) -> P (k', f v)) ->
  Forall P (std_modify d f k m).
Proof.
  intros Hm Hk Hf. induction Hm as [|[k' v] m Hv Hm IH]; simpl; [by constructor|].
  destruct (less k' k) eqn:E1; [by constructor|]. destruct (less k k') eqn:E2.
  - by repeat constructor.
  - constructor; [|done]. apply Hf; [by apply equiv_key_true|done].
Qed.

Lemma std_modify_sorted d f k m : map_sorted m -> map_sorted (std_modify d f k m).
Proof.
  unfold map_sorted. induction m as [|[k' v] m IH]; simpl; intros Hs.
  - repeat constructor.
  - apply StronglySorted_inv in Hs as [Hs Hlt].
    destruct (less k' k) eqn:E1; [|destruct (less k k') eqn:E2].
    + constructor; [auto|]. by apply Forall_modify.
    + constructor; [by constructor|]. constructor; [done|].
      eapply Forall_impl; [exact Hlt|]. simpl. intros a. by apply less_trans.
    + by constructor.
Qed.

Lemma std_find_modify d f k k' m :
  map_sorted m ->
  std_find k' (std_modify d f k m)
  = if equiv_key k k' then Some (f (default d (std_find k m))) else std_find k' m.
Proof.
  induction m as [|[a v] m IH]; intros Hs.
  - unfold equiv_key. simpl. destruct (less k k'), (less k' k); done.
  - apply StronglySorted_inv in Hs as [Hs Hlt]. specialize (IH Hs). simpl.
    destruct (equiv_key k k') eqn:E.
    + pose proof (less_equiv_l _ _ a E) as E1. pose proof (less_equiv_r _ _ a E) as E2.
      apply equiv_key_true in E as [E3 E4].
      destruct (less a k) eqn:Eak; simpl; rewrite <- ?E1, <- ?E2, ?Eak; [done|].
      destruct (less k a) eqn:Eka; simpl; rewrite <- ?E2, <- ?E1, ?Eak, ?Eka, ?E3, ?E4; done.
    + destruct (less a k) eqn:Eak; simpl; [by destruct (less a k')|].
      destruct (less k a) eqn:Eka; simpl.
      * unfold equiv_key in E. destruct (less k k') eqn:E3; simpl in E.
        -- done.
        -- apply negb_false_iff in E. by rewrite E, (less_trans _ _ _ E Eka), (less_asym k' a)
             by eauto using less_trans.
      * assert (Eq : equiv_key a k = true) by (by apply equiv_key_true).
        rewrite (less_equiv_l _ _ _ Eq), (less_equiv_r _ _ _ Eq).
        unfold equiv_key in E. destruct (less k k'); [done|]. by destruct (less k' k).
Qed.

Lemma std_find_In k v m : std_find k m = Some v -> exists k', (k', v) ∈ m /\ equiv_key k' k = true.
Proof.
  induction m as [|[a w] m IH]; simpl; [done|].
  destruct (less a k) eqn:E1; [|destruct (less k a) eqn:E2; [done|]].
  - intros (k' & ? & ?)%IH. exists k'. set_solver.
  - intros [= ->]. exists a. split; [left|]. by apply equiv_key_true.
Qed.

Lemma std_find_elem k v m : map_sorted m -> (k, v) ∈ m -> std_find k m = Some v.
Proof.
  induction m as [|[a w] m IH]; simpl; [by intros _ ?%not_elem_of_nil|].
  intros [Hs Hlt]%StronglySorted_inv [[= -> ->]|Hin]%elem_of_cons.
  - by rewrite less_irrefl.
  - rewrite Forall_forall in Hlt.
    assert (Hak : less a k = true) by (by apply (Hlt (k, v))).
    by rewrite Hak, IH.
Qed.

(** ** multimap *)

Lemma mm_insert_perm k v m : mm_insert k v m ≡ₚ (k, v) :: m.
Proof.
  induction m as [|[k' v'] m IH]; simpl; [done|].
  destruct (less k k'); [done|]. rewrite IH. apply Permutation_swap.
Qed.

Lemma mm_insert_sorted k v m : mm_sorted m -> mm_sorted (mm_insert k v m).
Proof.
  unfold mm_sorted. induction m as [|[k' v'] m IH]; simpl; intros Hs; [repeat constructor|].
  apply StronglySorted_inv in Hs as [Hs Hlt].
  destruct (less k k') eqn:E.
  - constructor; [by constructor|]. constructor; simpl; [by apply less_asym|].
    eapply Forall_impl; [exact Hlt|]. simpl. intros [a w] Ha. simpl in *.
    by apply (less_incomp_trans _ k'); [|apply less_asym].
  - constructor; [auto|]. rewrite (mm_insert_perm k v m). by constructor.
Qed.

Lemma take_not_greater_Forall k m :
  Forall (fun e => less (fst e) k = false) m -> mm_sorted m ->
  take_not_greater k m = List.filter (fun e => equiv_key k (fst e)) m.
Proof.
  unfold mm_sorted. induction m as [|[k' v] m IH]; simpl; intros Hf Hs; [done|].
  apply Forall_cons in Hf as [Hk Hf]. simpl in Hk.
  apply StronglySorted_inv in Hs as [Hs Hlt].
  unfold equiv_key at 1. rewrite Hk. destruct (less k k') eqn:E; simpl; [|by rewrite IH].
  clear IH Hf Hs. induction Hlt as [|[a w] m Ha _ IHm]; simpl; [done|]. simpl in Ha.
  unfold equiv_key at 1. assert (less k a = true) as ->; [|done].
  destruct (less k a) eqn:E2; [done|]. rewrite (less_incomp_trans _ _ _ E2 Ha) in E. done.
Qed.

(** [equal_range] finds every entry with an equivalent key, in order. *)
Lemma mm_equal_range_filter k m :
  mm_sorted m -> mm_equal_range k m = List.filter (fun e => equiv_key k (fst e)) m.
Proof.
  unfold mm_equal_range, mm_sorted.
  induction m as [|[k' v] m IH]; simpl; intros Hs; [done|].
  pose proof (StronglySorted_inv Hs) as [Hs' Hlt].
  unfold equiv_key at 1. destruct (less k' k) eqn:E.
  - rewrite andb_false_r. auto.
  - rewrite take_not_greater_Forall; [simpl; unfold equiv_key at 1; by rewrite E| |done].
    constructor; [done|]. eapply Forall_impl; [exact Hlt|]. intros [a w] Ha. simpl in *.
    by eapply less_incomp_trans.
Qed.
End Theory.

Section TotalTheory.
Context {K V : Type} `{StrictWeakOrder K, !TotalKeys K}.
Implicit Types (m : list (K * V)) (k : K) (v : V).

Lemma equiv_key_eq (a b : K) : equiv_key a b = true <-> a = b.
Proof.
  rewrite equiv_key_true. split; [intros []; by apply less_total|].
  intros ->. by rewrite less_irrefl.
Qed.

Lemma std_find_elem_iff k v m : map_sorted m -> std_find k m = Some v <-> (k, v) ∈ m.
Proof.
  intros Hs. split; [|by apply std_find_elem].
  intros (k' & Hin & ->%equiv_key_eq)%std_find_In. done.
Qed.

Lemma std_find_modify_eq d f k m :
  map_sorted m -> std_find k (std_modify d f k m) = Some (f (default d (std_find k m))).
Proof. intros. rewrite std_find_modify by done. by rewrite (proj2 (equiv_key_eq k k)). Qed.

Lemma std_find_modify_ne d f k k' m :
  map_sorted m -> k <> k' -> std_find k' (std_modify d f k m) = std_find k' m.
Proof.
  intros Hs Hne. rewrite std_find_modify by done.
  destruct (equiv_key k k') eqn:E; [|done]. by apply equiv_key_eq in E.
Qed.

End TotalTheory.
