(* ===== verification/Boost.v ===== *)
(** * The Boost interfaces

    Boost is not part of the repository: its functions are the operations of two
    classes, and the documented behaviour the code relies on is stated by a class
    of laws. The definitions of the other files take the operations as
    parameters; the theorems that need the documented behaviour take the laws.
    [Reference] is a concrete implementation, which satisfies the laws and makes
    every definition executable on concrete inputs. *)
From S2P Require Import Prelude CxxString.
Local Open Scope N_scope.

(** [boost::regex]. [regex_make pattern icase] is the constructor, [None] when it
    throws [bad_expression]; [regex_search s r] is [what[0]] of a successful
    search; [regex_replace] uses [match_default | format_all],
    [regex_erase s r] is [regex_replace(s, r, "")], and [regex_extract] uses
    [match_default | format_no_copy]. *)
Class BoostRegex : Type := {
  regex : Type;
  regex_default : regex;
  regex_make : string -> bool -> option regex;
  regex_str : regex -> string;
  regex_empty : regex -> bool;
  regex_search : string -> regex -> option string;
  regex_replace : string -> regex -> string -> string;
  regex_erase : string -> regex -> string;
  regex_extract : string -> regex -> string -> string
}.

Definition regex_matches `{BoostRegex} (s : string) (r : regex) : bool :=
  match regex_search s r with Some _ => true | None => false end.

(** [boost::algorithm], [boost::tokenizer] and [boost::lexical_cast]. *)
Class BoostString : Type := {
  to_upper : string -> string;
  trim : string -> string;
  tokens : ascii -> string -> list string;
  split : ascii -> string -> list string;
  split_compress : ascii -> string -> list string;
  join : list string -> string -> string;
  replace_all : string -> string -> string -> string;
  cast_unsigned : string -> option N;
  cast_size_t : string -> option N;
  cast_int : string -> option Z;
  cast_string : Z -> string
}.

(** ** Reference functions the laws refer to *)

(** The pieces of [s] between the occurrences of [c], empty pieces included. *)
Fixpoint split_on (c : ascii) (s : string) : list string :=
  match s with
  | EmptyString => [EmptyString]
  | String a t =>
      if Ascii.eqb a c then EmptyString :: split_on c t
      else match split_on c t with
           | [] => [String a EmptyString]
           | p :: ps => String a p :: ps
           end
  end.

Definition nonempty (s : string) : bool := negb (str_empty s).

Fixpoint sjoin (l : list string) (sep : string) : string :=
  match l with
  | [] => EmptyString
  | [s] => s
  | s :: l' => s +:+ sep +:+ sjoin l' sep
  end.

(** A run of [c] becomes one [c]. *)
Fixpoint squeeze (c : ascii) (s : string) : string :=
  match s with
  | String a ((String b _) as t) =>
      if Ascii.eqb a c && Ascii.eqb b c then squeeze c t else String a (squeeze c t)
  | _ => s
  end.

(** Replaces the occurrences of [from], left to right; [skip] characters of the
    last occurrence are still to be dropped. *)
Fixpoint replace_go (skip : N) (from to s : string) : string :=
  match s with
  | EmptyString => EmptyString
  | String c t =>
      if 0 <? skip then replace_go (skip - 1) from to t
      else if nonempty from && starts_with from s
           then to +:+ replace_go (str_len from - 1) from to t
           else String c (replace_go 0 from to t)
  end.

Definition u32_max : N := u32_modulus - 1.
Definition u64_max : N := u64_modulus - 1.

(** A decimal string: digits only, and at least one. *)
Definition decimal_value (s : string) : option N :=
  if str_empty s then None else digits_value 0 s.

(** ** Documented behaviour *)

Class BoostStringLaws (B : BoostString) : Prop := {
  to_upper_spec s : to_upper s = string_map toupper s;
  tokens_spec c s : tokens c s = List.filter nonempty (split_on c s);
  split_spec c s : split c s = split_on c s;
  split_compress_spec c s : split_compress c s = split_on c (squeeze c s);
  join_spec l sep : join l sep = sjoin l sep;
  replace_all_spec s from to : replace_all s from to = replace_go 0 from to s;
  cast_unsigned_decimal s n :
    decimal_value s = Some n ->
    cast_unsigned s = if n <=? u32_max then Some n else None;
  cast_unsigned_bounded s n : cast_unsigned s = Some n -> n <= u32_max;
  cast_size_t_decimal s n :
    decimal_value s = Some n ->
    cast_size_t s = if n <=? u64_max then Some n else None;
  cast_string_spec z : cast_string z = string_of_Z z;
  cast_int_written z : (-2147483648 <= z < 2147483648)%Z -> cast_int (string_of_Z z) = Some z
}.

(** ** Splitting and joining *)

Lemma split_on_piece c a : has_char c a = false -> split_on c a = [a].
Proof. induction a as [|x a IH]; [done|]. simpl. intros [-> Ha]%orb_false_iff. by rewrite IH. Qed.

Lemma split_on_app c a b :
  has_char c a = false -> split_on c (a +:+ String c b) = a :: split_on c b.
Proof.
  induction a as [|x a IH].
  - intros _. rewrite sapp_nil_l. simpl. by rewrite Ascii.eqb_refl.
  - rewrite sapp_cons. cbn [has_char split_on]. intros [-> Ha]%orb_false_iff. by rewrite IH.
Qed.

(** Splitting what was joined gives the pieces back. *)
Lemma split_on_sjoin c l :
  l <> [] -> Forall (fun s => has_char c s = false) l ->
  split_on c (sjoin l (String c EmptyString)) = l.
Proof.
  induction l as [|a [|b l] IH]; intros Hne Hl; [done|..].
  - apply split_on_piece. by apply Forall_inv in Hl.
  - apply Forall_cons in Hl as [Ha Hl].
    change (split_on c (a +:+ String c EmptyString +:+ sjoin (b :: l) (String c EmptyString))
            = a :: b :: l).
    rewrite sapp_cons, sapp_nil_l, split_on_app by done. by rewrite IH.
Qed.

Lemma split_on_not_nil c s : split_on c s <> [].
Proof. destruct s as [|a s]; cbn; [done|]. destruct (Ascii.eqb a c); [done|]. by destruct (split_on c s). Qed.

Lemma sjoin_cons s l sep : l <> [] -> sjoin (s :: l) sep = s +:+ sep +:+ sjoin l sep.
Proof. by destruct l. Qed.

(** Joining the pieces again gives the string back. *)
Lemma sjoin_split_on c s : sjoin (split_on c s) (String c EmptyString) = s.
Proof.
  induction s as [|a s IH]; [done|]. cbn [split_on]. pose proof (split_on_not_nil c s) as Hne.
  destruct (Ascii.eqb_spec a c) as [->|_].
  - rewrite sjoin_cons, IH by done. by rewrite sapp_nil_l, sapp_cons, sapp_nil_l.
  - destruct (split_on c s) as [|p ps]; [done|]. destruct ps as [|q ps]; [by rewrite <- IH|].
    rewrite <- IH, !sjoin_cons by done. by rewrite sapp_cons.
Qed.

Lemma squeeze_empty c s : str_empty (squeeze c s) = str_empty s.
Proof.
  induction s as [|a [|b t] IH]; [done..|]. cbn [squeeze].
  destruct (Ascii.eqb a c && Ascii.eqb b c); [exact IH|done].
Qed.

Lemma split_on_pieces c s : Forall (fun p => has_char c p = false) (split_on c s).
Proof.
  induction s as [|a s IH]; simpl; [by repeat constructor|].
  destruct (Ascii.eqb a c) eqn:E; [by constructor|].
  destruct (split_on c s) as [|p ps]; simpl.
  - repeat constructor. simpl. by rewrite E.
  - apply Forall_cons in IH as [Hp Hps]. constructor; [|done]. simpl. by rewrite E.
Qed.

Lemma filter_nonempty_all l : Forall (fun s => nonempty s = true) l -> List.filter nonempty l = l.
Proof. induction 1 as [|s l Hs _ IH]; [done|]. simpl. by rewrite Hs, IH. Qed.

(** ** A reference implementation *)
Module Reference.
Definition is_blank (c : ascii) : bool :=
  let n := N_of_ascii c in (n =? 32) || ((9 <=? n) && (n <=? 13)).

Fixpoint trim_right (s : string) : string :=
  match s with
  | EmptyString => EmptyString
  | String c t =>
      match trim_right t with
      | EmptyString => if is_blank c then EmptyString else String c EmptyString
      | t' => String c t'
      end
  end.

(** [lexical_cast] to an unsigned type of maximum [max]: an optional sign and
    decimal digits; a minus sign negates modulo [max + 1]. *)
Definition unsigned_of (max : N) (s : string) : option N :=
  match s with
  | String "+" t => match decimal_value t with
                    | Some n => if n <=? max then Some n else None | None => None end
  | String "-" t => match decimal_value t with
                    | Some n => if n <=? max then Some ((max + 1 - n) mod (max + 1)) else None
                    | None => None end
  | _ => match decimal_value s with
         | Some n => if n <=? max then Some n else None | None => None end
  end.

Definition int_of (s : string) : option Z :=
  match s with
  | String "+" t => match decimal_value t with
                    | Some n => if n <=? 2147483647 then Some (Z.of_N n) else None
                    | None => None end
  | String "-" t => match decimal_value t with
                    | Some n => if n <=? 2147483648 then Some (- Z.of_N n)%Z else None
                    | None => None end
  | _ => match decimal_value s with
         | Some n => if n <=? 2147483647 then Some (Z.of_N n) else None
         | None => None end
  end.

#[export] Instance boost_string : BoostString := {
  to_upper := string_map toupper;
  trim s := trim_right (skip_blanks s);
  tokens c s := List.filter nonempty (split_on c s);
  split := split_on;
  split_compress c s := split_on c (squeeze c s);
  join := sjoin;
  replace_all s from to := replace_go 0 from to s;
  cast_unsigned := unsigned_of u32_max;
  cast_size_t := unsigned_of u64_max;
  cast_int := int_of;
  cast_string := string_of_Z
}.

Lemma unsigned_of_decimal max s n :
  decimal_value s = Some n -> unsigned_of max s = if n <=? max then Some n else None.
Proof.
  intros H. unfold unsigned_of. destruct s as [|c t]; [done|].
  destruct c as [[] [] [] [] [] [] [] []]; try (by rewrite H); discriminate H.
Qed.

Lemma unsigned_of_bounded max s n : unsigned_of max s = Some n -> n <= max.
Proof.
  unfold unsigned_of. intros H.
  assert (Hmod : forall a, (max + 1 - a) mod (max + 1) <= max).
  { intros a. pose proof (N.mod_lt (max + 1 - a) (max + 1) ltac:(lia)). lia. }
  repeat case_match; simplify_eq; try done; by apply N.leb_le.
Qed.

Lemma decimal_written n : decimal_value (string_of_N n) = Some n.
Proof.
  pose proof (digits_value_string_of_N n) as Hv. unfold decimal_value.
  destruct (string_of_N n) as [|c t] eqn:E; [|exact Hv].
  cbn in Hv. injection Hv as <-. by vm_compute in E.
Qed.

Lemma int_of_written z : (-2147483648 <= z < 2147483648)%Z -> int_of (string_of_Z z) = Some z.
Proof.
  intros Hz. assert (Hpos : forall n, n <= 2147483647 -> int_of (string_of_N n) = Some (Z.of_N n)).
  { intros n Hn. pose proof (decimal_written n) as Hd. unfold int_of.
    destruct (string_of_N n) as [|c t] eqn:E; [done|].
    destruct c as [[] [] [] [] [] [] [] []]; try (by discriminate Hd); rewrite Hd;
      by rewrite (proj2 (N.leb_le _ _)). }
  destruct z as [|p|p]; cbn [string_of_Z]; [by apply (Hpos 0)|apply (Hpos (Npos p)); lia|].
  unfold int_of.
  rewrite decimal_written. rewrite (proj2 (N.leb_le _ _)); [done|lia].
Qed.

#[export] Instance boost_string_laws : BoostStringLaws boost_string.
Proof.
  split; try done.
  - intros. by apply unsigned_of_decimal.
  - intros s n. apply unsigned_of_bounded.
  - intros. by apply unsigned_of_decimal.
  - apply int_of_written.
Qed.

(** Regular expressions without operators: a pattern matches itself. A
    pattern with an unbalanced parenthesis or a leading star is rejected. *)
Record literal := { pattern : string; icase : bool }.

Definition fold_case (r : literal) (s : string) : string := if icase r then lower s else s.

Definition bad_pattern (s : string) : bool :=
  has_char "("%char s || starts_with "*" s.

Definition literal_search (s : string) (r : literal) : option string :=
  match find_sub (fold_case r (pattern r)) (fold_case r s) with
  | Some i => Some (str_take (str_len (pattern r)) (str_drop i s))
  | None => None
  end.

#[export] Instance literal_regex : BoostRegex := {
  regex := literal;
  regex_default := {| pattern := EmptyString; icase := false |};
  regex_make s i := if bad_pattern s then None else Some {| pattern := s; icase := i |};
  regex_str := pattern;
  regex_empty r := str_empty (pattern r);
  regex_search := literal_search;
  regex_replace s r to := replace_go 0 (pattern r) to s;
  regex_erase s r := replace_go 0 (pattern r) EmptyString s;
  regex_extract s r to := match literal_search s r with Some _ => to | None => EmptyString end
}.
End Reference.
