(* ===== verification/RequestCommon.v ===== *)
(** * Application scopes and duplication types

    RequestCommon.hh/.cc (namespace ApplicationScope) and the DuplicationType
    part of RequestInfo.hh/.cc. *)
From S2P Require Import Prelude CxxString.
Local Open Scope N_scope.

Module ApplicationScope.
Inductive eApplicationScope : Type :=
  PATH | QUERY_STRING | URL | HEADERS | BODY | METHOD | URL_AND_HEADERS | ALL.

#[export] Instance scope_eq_dec : EqDecision eApplicationScope.
Proof. solve_decision. Defined.

(** The enumerators' values. *)
Definition mask (s : eApplicationScope) : N :=
  match s with
  | PATH => 1 | QUERY_STRING => 2 | URL => 3 | HEADERS => 4
  | BODY => 8 | METHOD => 16 | URL_AND_HEADERS => 7 | ALL => 31
  end.

(** [a & b], used as a condition. *)
Definition has (a b : eApplicationScope) : bool := negb (N.land (mask a) (mask b) =? 0).

Definition c_ERROR_ON_STRING_VALUE : string :=
  "Invalid ApplicationScope Value. Supported Values: METHOD | PATH | QUERY_STRING | URL | HEADERS | URL_AND_HEADERS | BODY | ALL".

Definition stringToEnum (str : string) : outcome eApplicationScope :=
  if String.eqb str "ALL" then Ret ALL
  else if String.eqb str "METHOD" then Ret METHOD
  else if String.eqb str "PATH" then Ret PATH
  else if String.eqb str "QUERY_STRING" then Ret QUERY_STRING
  else if String.eqb str "URL_AND_HEADERS" then Ret URL_AND_HEADERS
  else if String.eqb str "URL" then Ret URL
  else if String.eqb str "HEADERS" then Ret HEADERS
  else if String.eqb str "BODY" then Ret BODY
  else Throw StdException.

Definition enumToString (scope : eApplicationScope) : string :=
  match scope with
  | ALL => "ALL"
  | METHOD => "METHOD"
  | PATH => "PATH"
  | QUERY_STRING => "QUERY_STRING"
  | URL => "URL"
  | URL_AND_HEADERS => "URL_AND_HEADERS"
  | HEADERS => "HEADERS"
  | BODY => "BODY"
  end.

Lemma stringToEnum_inv str s : stringToEnum str = Ret s -> enumToString s = str.
Proof.
  unfold stringToEnum.
  repeat match goal with
         | |- context[String.eqb ?a ?b] => destruct (String.eqb_spec a b)
         end; intros; simplify_eq; done.
Qed.

Lemma enumToString_back s : stringToEnum (enumToString s) = Ret s.
Proof. by destruct s. Qed.

(** The bits of a composite scope: URL is the path and the query string. *)
Lemma has_URL s : has s URL = has s PATH || has s QUERY_STRING.
Proof. by destruct s. Qed.
End ApplicationScope.

Module DuplicationType.
Inductive eDuplicationType : Type :=
  NONE | HEADER_ONLY | COMPLETE_REQUEST | REQUEST_WITH_ANSWER.

#[export] Instance duptype_eq_dec : EqDecision eDuplicationType.
Proof. solve_decision. Defined.

Definition value (t : eDuplicationType) : N :=
  match t with
  | NONE => 0 | HEADER_ONLY => 1 | COMPLETE_REQUEST => 2 | REQUEST_WITH_ANSWER => 3
  end.

Definition c_ERROR_ON_STRING_VALUE : string :=
  "Invalid Duplication Type Value. Supported Values: HEADER_ONLY | COMPLETE_REQUEST | REQUEST_WITH_ANSWER".

Definition stringToEnum (value : string) : outcome eDuplicationType :=
  if String.eqb value "NONE" then Ret NONE
  else if String.eqb value "HEADER_ONLY" then Ret HEADER_ONLY
  else if String.eqb value "COMPLETE_REQUEST" then Ret COMPLETE_REQUEST
  else if String.eqb value "REQUEST_WITH_ANSWER" then Ret REQUEST_WITH_ANSWER
  else Throw StdException.

Lemma value_inj a b : value a = value b -> a = b.
Proof. by destruct a, b. Qed.
End DuplicationType.
