(* ===== verification/RequestInfo.v ===== *)
(** * RequestInfo

    The [DupModule::RequestInfo] of RequestInfo.hh/.cc: the request travelling
    from the Apache filters to the request processor, and, in mod_compare, the
    deserialised request. A [std::list] of headers keeps its order and its
    duplicates; the [mapStr] fields are [std::map]s (see StdMap). Times are in
    microseconds. [None] in [offset], [mReqHttpStatus] and
    [mDupResponseHttpStatus] is the uninitialised value the constructors leave. *)
From S2P Require Import Prelude CxxString StdMap.
Local Open Scope N_scope.

Abbreviation tKeyVal := (prod string string).
Abbreviation tKeyValList := (list (prod string string)).
Abbreviation mapStr := (list (prod string string)).

Record RequestInfo : Type := mkRequestInfo {
  mPoison : bool;
  mId : string;
  mMethod : string;
  mPath : string;
  mArgs : string;
  mParsedArgs : tKeyValList;
  mBody : string;
  mAnswer : string;
  mRequest : string;
  mReqHeader : mapStr;
  mReqBody : string;
  mResponseHeader : mapStr;
  mResponseBody : string;
  mDupResponseHeader : mapStr;
  mDupResponseBody : string;
  mCurlCompResponseHeader : mapStr;
  mCurlCompResponseStatus : Z;
  mHeadersIn : tKeyValList;
  mHeadersOut : tKeyValList;
  offset : option N;
  mReqHttpStatus : option Z;
  mDupResponseHttpStatus : option Z;
  mValidationHeaderDup : bool;
  mValidationHeaderComp : bool;
  mConf : option N;
  mEOS : bool;
  mStartTime : Z;
  mElapsedTime : Z
}.

Definition set_mPoison (x : bool) (r : RequestInfo) : RequestInfo :=
    {| mPoison := x; mId := mId r; mMethod := mMethod r; mPath := mPath r; mArgs :=
     mArgs r; mParsedArgs := mParsedArgs r; mBody := mBody r; mAnswer := mAnswer r;
     mRequest := mRequest r; mReqHeader := mReqHeader r; mReqBody := mReqBody r;
     mResponseHeader := mResponseHeader r; mResponseBody := mResponseBody r;
     mDupResponseHeader := mDupResponseHeader r; mDupResponseBody := mDupResponseBody r;
     mCurlCompResponseHeader := mCurlCompResponseHeader r; mCurlCompResponseStatus :=
     mCurlCompResponseStatus r; mHeadersIn := mHeadersIn r; mHeadersOut := mHeadersOut
     r; offset := offset r; mReqHttpStatus := mReqHttpStatus r; mDupResponseHttpStatus
     := mDupResponseHttpStatus r; mValidationHeaderDup := mValidationHeaderDup r;
     mValidationHeaderComp := mValidationHeaderComp r; mConf := mConf r; mEOS := mEOS r;
     mStartTime := mStartTime r; mElapsedTime := mElapsedTime r |}.

Definition set_mId (x : string) (r : RequestInfo) : RequestInfo :=
    {| mPoison := mPoison r; mId := x; mMethod := mMethod r; mPath := mPath r; mArgs :=
     mArgs r; mParsedArgs := mParsedArgs r; mBody := mBody r; mAnswer := mAnswer r;
     mRequest := mRequest r; mReqHeader := mReqHeader r; mReqBody := mReqBody r;
     mResponseHeader := mResponseHeader r; mResponseBody := mResponseBody r;
     mDupResponseHeader := mDupResponseHeader r; mDupResponseBody := mDupResponseBody r;
     mCurlCompResponseHeader := mCurlCompResponseHeader r; mCurlCompResponseStatus :=
     mCurlCompResponseStatus r; mHeadersIn := mHeadersIn r; mHeadersOut := mHeadersOut
     r; offset := offset r; mReqHttpStatus := mReqHttpStatus r; mDupResponseHttpStatus
     := mDupResponseHttpStatus r; mValidationHeaderDup := mValidationHeaderDup r;
     mValidationHeaderComp := mValidationHeaderComp r; mConf := mConf r; mEOS := mEOS r;
     mStartTime := mStartTime r; mElapsedTime := mElapsedTime r |}.

Definition set_mMethod (x : string) (r : RequestInfo) : RequestInfo :=
    {| mPoison := mPoison r; mId := mId r; mMethod := x; mPath := mPath r; mArgs :=
     mArgs r; mParsedArgs := mParsedArgs r; mBody := mBody r; mAnswer := mAnswer r;
     mRequest := mRequest r; mReqHeader := mReqHeader r; mReqBody := mReqBody r;
     mResponseHeader := mResponseHeader r; mResponseBody := mResponseBody r;
     mDupResponseHeader := mDupResponseHeader r; mDupResponseBody := mDupResponseBody r;
     mCurlCompResponseHeader := mCurlCompResponseHeader r; mCurlCompResponseStatus :=
     mCurlCompResponseStatus r; mHeadersIn := mHeadersIn r; mHeadersOut := mHeadersOut
     r; offset := offset r; mReqHttpStatus := mReqHttpStatus r; mDupResponseHttpStatus
     := mDupResponseHttpStatus r; mValidationHeaderDup := mValidationHeaderDup r;
     mValidationHeaderComp := mValidationHeaderComp r; mConf := mConf r; mEOS := mEOS r;
     mStartTime := mStartTime r; mElapsedTime := mElapsedTime r |}.

Definition set_mPath (x : string) (r : RequestInfo) : RequestInfo :=
    {| mPoison := mPoison r; mId := mId r; mMethod := mMethod r; mPath := x; mArgs :=
     mArgs r; mParsedArgs := mParsedArgs r; mBody := mBody r; mAnswer := mAnswer r;
     mRequest := mRequest r; mReqHeader := mReqHeader r; mReqBody := mReqBody r;
     mResponseHeader := mResponseHeader r; mResponseBody := mResponseBody r;
     mDupResponseHeader := mDupResponseHeader r; mDupResponseBody := mDupResponseBody r;
     mCurlCompResponseHeader := mCurlCompResponseHeader r; mCurlCompResponseStatus :=
     mCurlCompResponseStatus r; mHeadersIn := mHeadersIn r; mHeadersOut := mHeadersOut
     r; offset := offset r; mReqHttpStatus := mReqHttpStatus r; mDupResponseHttpStatus
     := mDupResponseHttpStatus r; mValidationHeaderDup := mValidationHeaderDup r;
     mValidationHeaderComp := mValidationHeaderComp r; mConf := mConf r; mEOS := mEOS r;
     mStartTime := mStartTime r; mElapsedTime := mElapsedTime r |}.

Definition set_mArgs (x : string) (r : RequestInfo) : RequestInfo :=
    {| mPoison := mPoison r; mId := mId r; mMethod := mMethod r; mPath := mPath r; mArgs
     := x; mParsedArgs := mParsedArgs r; mBody := mBody r; mAnswer := mAnswer r;
     mRequest := mRequest r; mReqHeader := mReqHeader r; mReqBody := mReqBody r;
     mResponseHeader := mResponseHeader r; mResponseBody := mResponseBody r;
     mDupResponseHeader := mDupResponseHeader r; mDupResponseBody := mDupResponseBody r;
     mCurlCompResponseHeader := mCurlCompResponseHeader r; mCurlCompResponseStatus :=
     mCurlCompResponseStatus r; mHeadersIn := mHeadersIn r; mHeadersOut := mHeadersOut
     r; offset := offset r; mReqHttpStatus := mReqHttpStatus r; mDupResponseHttpStatus
     := mDupResponseHttpStatus r; mValidationHeaderDup := mValidationHeaderDup r;
     mValidationHeaderComp := mValidationHeaderComp r; mConf := mConf r; mEOS := mEOS r;
     mStartTime := mStartTime r; mElapsedTime := mElapsedTime r |}.

Definition set_mParsedArgs (x : tKeyValList) (r : RequestInfo) : RequestInfo :=
    {| mPoison := mPoison r; mId := mId r; mMethod := mMethod r; mPath := mPath r; mArgs
     := mArgs r; mParsedArgs := x; mBody := mBody r; mAnswer := mAnswer r; mRequest :=
     mRequest r; mReqHeader := mReqHeader r; mReqBody := mReqBody r; mResponseHeader :=
     mResponseHeader r; mResponseBody := mResponseBody r; mDupResponseHeader :=
     mDupResponseHeader r; mDupResponseBody := mDupResponseBody r;
     mCurlCompResponseHeader := mCurlCompResponseHeader r; mCurlCompResponseStatus :=
     mCurlCompResponseStatus r; mHeadersIn := mHeadersIn r; mHeadersOut := mHeadersOut
     r; offset := offset r; mReqHttpStatus := mReqHttpStatus r; mDupResponseHttpStatus
     := mDupResponseHttpStatus r; mValidationHeaderDup := mValidationHeaderDup r;
     mValidationHeaderComp := mValidationHeaderComp r; mConf := mConf r; mEOS := mEOS r;
     mStartTime := mStartTime r; mElapsedTime := mElapsedTime r |}.

Definition set_mBody (x : string) (r : RequestInfo) : RequestInfo :=
    {| mPoison := mPoison r; mId := mId r; mMethod := mMethod r; mPath := mPath r; mArgs
     := mArgs r; mParsedArgs := mParsedArgs r; mBody := x; mAnswer := mAnswer r;
     mRequest := mRequest r; mReqHeader := mReqHeader r; mReqBody := mReqBody r;
     mResponseHeader := mResponseHeader r; mResponseBody := mResponseBody r;
     mDupResponseHeader := mDupResponseHeader r; mDupResponseBody := mDupResponseBody r;
     mCurlCompResponseHeader := mCurlCompResponseHeader r; mCurlCompResponseStatus :=
     mCurlCompResponseStatus r; mHeadersIn := mHeadersIn r; mHeadersOut := mHeadersOut
     r; offset := offset r; mReqHttpStatus := mReqHttpStatus r; mDupResponseHttpStatus
     := mDupResponseHttpStatus r; mValidationHeaderDup := mValidationHeaderDup r;
     mValidationHeaderComp := mValidationHeaderComp r; mConf := mConf r; mEOS := mEOS r;
     mStartTime := mStartTime r; mElapsedTime := mElapsedTime r |}.

Definition set_mAnswer (x : string) (r : RequestInfo) : RequestInfo :=
    {| mPoison := mPoison r; mId := mId r; mMethod := mMethod r; mPath := mPath r; mArgs
     := mArgs r; mParsedArgs := mParsedArgs r; mBody := mBody r; mAnswer := x; mRequest
     := mRequest r; mReqHeader := mReqHeader r; mReqBody := mReqBody r; mResponseHeader
     := mResponseHeader r; mResponseBody := mResponseBody r; mDupResponseHeader :=
     mDupResponseHeader r; mDupResponseBody := mDupResponseBody r;
     mCurlCompResponseHeader := mCurlCompResponseHeader r; mCurlCompResponseStatus :=
     mCurlCompResponseStatus r; mHeadersIn := mHeadersIn r; mHeadersOut := mHeadersOut
     r; offset := offset r; mReqHttpStatus := mReqHttpStatus r; mDupResponseHttpStatus
     := mDupResponseHttpStatus r; mValidationHeaderDup := mValidationHeaderDup r;
     mValidationHeaderComp := mValidationHeaderComp r; mConf := mConf r; mEOS := mEOS r;
     mStartTime := mStartTime r; mElapsedTime := mElapsedTime r |}.

Definition set_mRequest (x : string) (r : RequestInfo) : RequestInfo :=
    {| mPoison := mPoison r; mId := mId r; mMethod := mMethod r; mPath := mPath r; mArgs
     := mArgs r; mParsedArgs := mParsedArgs r; mBody := mBody r; mAnswer := mAnswer r;
     mRequest := x; mReqHeader := mReqHeader r; mReqBody := mReqBody r; mResponseHeader
     := mResponseHeader r; mResponseBody := mResponseBody r; mDupResponseHeader :=
     mDupResponseHeader r; mDupResponseBody := mDupResponseBody r;
     mCurlCompResponseHeader := mCurlCompResponseHeader r; mCurlCompResponseStatus :=
     mCurlCompResponseStatus r; mHeadersIn := mHeadersIn r; mHeadersOut := mHeadersOut
     r; offset := offset r; mReqHttpStatus := mReqHttpStatus r; mDupResponseHttpStatus
     := mDupResponseHttpStatus r; mValidationHeaderDup := mValidationHeaderDup r;
     mValidationHeaderComp := mValidationHeaderComp r; mConf := mConf r; mEOS := mEOS r;
     mStartTime := mStartTime r; mElapsedTime := mElapsedTime r |}.

Definition set_mReqHeader (x : mapStr) (r : RequestInfo) : RequestInfo :=
    {| mPoison := mPoison r; mId := mId r; mMethod := mMethod r; mPath := mPath r; mArgs
     := mArgs r; mParsedArgs := mParsedArgs r; mBody := mBody r; mAnswer := mAnswer r;
     mRequest := mRequest r; mReqHeader := x; mReqBody := mReqBody r; mResponseHeader :=
     mResponseHeader r; mResponseBody := mResponseBody r; mDupResponseHeader :=
     mDupResponseHeader r; mDupResponseBody := mDupResponseBody r;
     mCurlCompResponseHeader := mCurlCompResponseHeader r; mCurlCompResponseStatus :=
     mCurlCompResponseStatus r; mHeadersIn := mHeadersIn r; mHeadersOut := mHeadersOut
     r; offset := offset r; mReqHttpStatus := mReqHttpStatus r; mDupResponseHttpStatus
     := mDupResponseHttpStatus r; mValidationHeaderDup := mValidationHeaderDup r;
     mValidationHeaderComp := mValidationHeaderComp r; mConf := mConf r; mEOS := mEOS r;
     mStartTime := mStartTime r; mElapsedTime := mElapsedTime r |}.

Definition set_mReqBody (x : string) (r : RequestInfo) : RequestInfo :=
    {| mPoison := mPoison r; mId := mId r; mMethod := mMethod r; mPath := mPath r; mArgs
     := mArgs r; mParsedArgs := mParsedArgs r; mBody := mBody r; mAnswer := mAnswer r;
     mRequest := mRequest r; mReqHeader := mReqHeader r; mReqBody := x; mResponseHeader
     := mResponseHeader r; mResponseBody := mResponseBody r; mDupResponseHeader :=
     mDupResponseHeader r; mDupResponseBody := mDupResponseBody r;
     mCurlCompResponseHeader := mCurlCompResponseHeader r; mCurlCompResponseStatus :=
     mCurlCompResponseStatus r; mHeadersIn := mHeadersIn r; mHeadersOut := mHeadersOut
     r; offset := offset r; mReqHttpStatus := mReqHttpStatus r; mDupResponseHttpStatus
     := mDupResponseHttpStatus r; mValidationHeaderDup := mValidationHeaderDup r;
     mValidationHeaderComp := mValidationHeaderComp r; mConf := mConf r; mEOS := mEOS r;
     mStartTime := mStartTime r; mElapsedTime := mElapsedTime r |}.

Definition set_mResponseHeader (x : mapStr) (r : RequestInfo) : RequestInfo :=
    {| mPoison := mPoison r; mId := mId r; mMethod := mMethod r; mPath := mPath r; mArgs
     := mArgs r; mParsedArgs := mParsedArgs r; mBody := mBody r; mAnswer := mAnswer r;
     mRequest := mRequest r; mReqHeader := mReqHeader r; mReqBody := mReqBody r;
     mResponseHeader := x; mResponseBody := mResponseBody r; mDupResponseHeader :=
     mDupResponseHeader r; mDupResponseBody := mDupResponseBody r;
     mCurlCompResponseHeader := mCurlCompResponseHeader r; mCurlCompResponseStatus :=
     mCurlCompResponseStatus r; mHeadersIn := mHeadersIn r; mHeadersOut := mHeadersOut
     r; offset := offset r; mReqHttpStatus := mReqHttpStatus r; mDupResponseHttpStatus
     := mDupResponseHttpStatus r; mValidationHeaderDup := mValidationHeaderDup r;
     mValidationHeaderComp := mValidationHeaderComp r; mConf := mConf r; mEOS := mEOS r;
     mStartTime := mStartTime r; mElapsedTime := mElapsedTime r |}.

Definition set_mResponseBody (x : string) (r : RequestInfo) : RequestInfo :=
    {| mPoison := mPoison r; mId := mId r; mMethod := mMethod r; mPath := mPath r; mArgs
     := mArgs r; mParsedArgs := mParsedArgs r; mBody := mBody r; mAnswer := mAnswer r;
     mRequest := mRequest r; mReqHeader := mReqHeader r; mReqBody := mReqBody r;
     mResponseHeader := mResponseHeader r; mResponseBody := x; mDupResponseHeader :=
     mDupResponseHeader r; mDupResponseBody := mDupResponseBody r;
     mCurlCompResponseHeader := mCurlCompResponseHeader r; mCurlCompResponseStatus :=
     mCurlCompResponseStatus r; mHeadersIn := mHeadersIn r; mHeadersOut := mHeadersOut
     r; offset := offset r; mReqHttpStatus := mReqHttpStatus r; mDupResponseHttpStatus
     := mDupResponseHttpStatus r; mValidationHeaderDup := mValidationHeaderDup r;
     mValidationHeaderComp := mValidationHeaderComp r; mConf := mConf r; mEOS := mEOS r;
     mStartTime := mStartTime r; mElapsedTime := mElapsedTime r |}.

Definition set_mDupResponseHeader (x : mapStr) (r : RequestInfo) : RequestInfo :=
    {| mPoison := mPoison r; mId := mId r; mMethod := mMethod r; mPath := mPath r; mArgs
     := mArgs r; mParsedArgs := mParsedArgs r; mBody := mBody r; mAnswer := mAnswer r;
     mRequest := mRequest r; mReqHeader := mReqHeader r; mReqBody := mReqBody r;
     mResponseHeader := mResponseHeader r; mResponseBody := mResponseBody r;
     mDupResponseHeader := x; mDupResponseBody := mDupResponseBody r;
     mCurlCompResponseHeader := mCurlCompResponseHeader r; mCurlCompResponseStatus :=
     mCurlCompResponseStatus r; mHeadersIn := mHeadersIn r; mHeadersOut := mHeadersOut
     r; offset := offset r; mReqHttpStatus := mReqHttpStatus r; mDupResponseHttpStatus
     := mDupResponseHttpStatus r; mValidationHeaderDup := mValidationHeaderDup r;
     mValidationHeaderComp := mValidationHeaderComp r; mConf := mConf r; mEOS := mEOS r;
     mStartTime := mStartTime r; mElapsedTime := mElapsedTime r |}.

Definition set_mDupResponseBody (x : string) (r : RequestInfo) : RequestInfo :=
    {| mPoison := mPoison r; mId := mId r; mMethod := mMethod r; mPath := mPath r; mArgs
     := mArgs r; mParsedArgs := mParsedArgs r; mBody := mBody r; mAnswer := mAnswer r;
     mRequest := mRequest r; mReqHeader := mReqHeader r; mReqBody := mReqBody r;
     mResponseHeader := mResponseHeader r; mResponseBody := mResponseBody r;
     mDupResponseHeader := mDupResponseHeader r; mDupResponseBody := x;
     mCurlCompResponseHeader := mCurlCompResponseHeader r; mCurlCompResponseStatus :=
     mCurlCompResponseStatus r; mHeadersIn := mHeadersIn r; mHeadersOut := mHeadersOut
     r; offset := offset r; mReqHttpStatus := mReqHttpStatus r; mDupResponseHttpStatus
     := mDupResponseHttpStatus r; mValidationHeaderDup := mValidationHeaderDup r;
     mValidationHeaderComp := mValidationHeaderComp r; mConf := mConf r; mEOS := mEOS r;
     mStartTime := mStartTime r; mElapsedTime := mElapsedTime r |}.

Definition set_mCurlCompResponseHeader (x : mapStr) (r : RequestInfo) : RequestInfo :=
    {| mPoison := mPoison r; mId := mId r; mMethod := mMethod r; mPath := mPath r; mArgs
     := mArgs r; mParsedArgs := mParsedArgs r; mBody := mBody r; mAnswer := mAnswer r;
     mRequest := mRequest r; mReqHeader := mReqHeader r; mReqBody := mReqBody r;
     mResponseHeader := mResponseHeader r; mResponseBody := mResponseBody r;
     mDupResponseHeader := mDupResponseHeader r; mDupResponseBody := mDupResponseBody r;
     mCurlCompResponseHeader := x; mCurlCompResponseStatus := mCurlCompResponseStatus r;
     mHeadersIn := mHeadersIn r; mHeadersOut := mHeadersOut r; offset := offset r;
     mReqHttpStatus := mReqHttpStatus r; mDupResponseHttpStatus :=
     mDupResponseHttpStatus r; mValidationHeaderDup := mValidationHeaderDup r;
     mValidationHeaderComp := mValidationHeaderComp r; mConf := mConf r; mEOS := mEOS r;
     mStartTime := mStartTime r; mElapsedTime := mElapsedTime r |}.

Definition set_mCurlCompResponseStatus (x : Z) (r : RequestInfo) : RequestInfo :=
    {| mPoison := mPoison r; mId := mId r; mMethod := mMethod r; mPath := mPath r; mArgs
     := mArgs r; mParsedArgs := mParsedArgs r; mBody := mBody r; mAnswer := mAnswer r;
     mRequest := mRequest r; mReqHeader := mReqHeader r; mReqBody := mReqBody r;
     mResponseHeader := mResponseHeader r; mResponseBody := mResponseBody r;
     mDupResponseHeader := mDupResponseHeader r; mDupResponseBody := mDupResponseBody r;
     mCurlCompResponseHeader := mCurlCompResponseHeader r; mCurlCompResponseStatus := x;
     mHeadersIn := mHeadersIn r; mHeadersOut := mHeadersOut r; offset := offset r;
     mReqHttpStatus := mReqHttpStatus r; mDupResponseHttpStatus :=
     mDupResponseHttpStatus r; mValidationHeaderDup := mValidationHeaderDup r;
     mValidationHeaderComp := mValidationHeaderComp r; mConf := mConf r; mEOS := mEOS r;
     mStartTime := mStartTime r; mElapsedTime := mElapsedTime r |}.

Definition set_mHeadersIn (x : tKeyValList) (r : RequestInfo) : RequestInfo :=
    {| mPoison := mPoison r; mId := mId r; mMethod := mMethod r; mPath := mPath r; mArgs
     := mArgs r; mParsedArgs := mParsedArgs r; mBody := mBody r; mAnswer := mAnswer r;
     mRequest := mRequest r; mReqHeader := mReqHeader r; mReqBody := mReqBody r;
     mResponseHeader := mResponseHeader r; mResponseBody := mResponseBody r;
     mDupResponseHeader := mDupResponseHeader r; mDupResponseBody := mDupResponseBody r;
     mCurlCompResponseHeader := mCurlCompResponseHeader r; mCurlCompResponseStatus :=
     mCurlCompResponseStatus r; mHeadersIn := x; mHeadersOut := mHeadersOut r; offset :=
     offset r; mReqHttpStatus := mReqHttpStatus r; mDupResponseHttpStatus :=
     mDupResponseHttpStatus r; mValidationHeaderDup := mValidationHeaderDup r;
     mValidationHeaderComp := mValidationHeaderComp r; mConf := mConf r; mEOS := mEOS r;
     mStartTime := mStartTime r; mElapsedTime := mElapsedTime r |}.

Definition set_mHeadersOut (x : tKeyValList) (r : RequestInfo) : RequestInfo :=
    {| mPoison := mPoison r; mId := mId r; mMethod := mMethod r; mPath := mPath r; mArgs
     := mArgs r; mParsedArgs := mParsedArgs r; mBody := mBody r; mAnswer := mAnswer r;
     mRequest := mRequest r; mReqHeader := mReqHeader r; mReqBody := mReqBody r;
     mResponseHeader := mResponseHeader r; mResponseBody := mResponseBody r;
     mDupResponseHeader := mDupResponseHeader r; mDupResponseBody := mDupResponseBody r;
     mCurlCompResponseHeader := mCurlCompResponseHeader r; mCurlCompResponseStatus :=
     mCurlCompResponseStatus r; mHeadersIn := mHeadersIn r; mHeadersOut := x; offset :=
     offset r; mReqHttpStatus := mReqHttpStatus r; mDupResponseHttpStatus :=
     mDupResponseHttpStatus r; mValidationHeaderDup := mValidationHeaderDup r;
     mValidationHeaderComp := mValidationHeaderComp r; mConf := mConf r; mEOS := mEOS r;
     mStartTime := mStartTime r; mElapsedTime := mElapsedTime r |}.

Definition set_offset (x : option N) (r : RequestInfo) : RequestInfo :=
    {| mPoison := mPoison r; mId := mId r; mMethod := mMethod r; mPath := mPath r; mArgs
     := mArgs r; mParsedArgs := mParsedArgs r; mBody := mBody r; mAnswer := mAnswer r;
     mRequest := mRequest r; mReqHeader := mReqHeader r; mReqBody := mReqBody r;
     mResponseHeader := mResponseHeader r; mResponseBody := mResponseBody r;
     mDupResponseHeader := mDupResponseHeader r; mDupResponseBody := mDupResponseBody r;
     mCurlCompResponseHeader := mCurlCompResponseHeader r; mCurlCompResponseStatus :=
     mCurlCompResponseStatus r; mHeadersIn := mHeadersIn r; mHeadersOut := mHeadersOut
     r; offset := x; mReqHttpStatus := mReqHttpStatus r; mDupResponseHttpStatus :=
     mDupResponseHttpStatus r; mValidationHeaderDup := mValidationHeaderDup r;
     mValidationHeaderComp := mValidationHeaderComp r; mConf := mConf r; mEOS := mEOS r;
     mStartTime := mStartTime r; mElapsedTime := mElapsedTime r |}.

Definition set_mReqHttpStatus (x : option Z) (r : RequestInfo) : RequestInfo :=
    {| mPoison := mPoison r; mId := mId r; mMethod := mMethod r; mPath := mPath r; mArgs
     := mArgs r; mParsedArgs := mParsedArgs r; mBody := mBody r; mAnswer := mAnswer r;
     mRequest := mRequest r; mReqHeader := mReqHeader r; mReqBody := mReqBody r;
     mResponseHeader := mResponseHeader r; mResponseBody := mResponseBody r;
     mDupResponseHeader := mDupResponseHeader r; mDupResponseBody := mDupResponseBody r;
     mCurlCompResponseHeader := mCurlCompResponseHeader r; mCurlCompResponseStatus :=
     mCurlCompResponseStatus r; mHeadersIn := mHeadersIn r; mHeadersOut := mHeadersOut
     r; offset := offset r; mReqHttpStatus := x; mDupResponseHttpStatus :=
     mDupResponseHttpStatus r; mValidationHeaderDup := mValidationHeaderDup r;
     mValidationHeaderComp := mValidationHeaderComp r; mConf := mConf r; mEOS := mEOS r;
     mStartTime := mStartTime r; mElapsedTime := mElapsedTime r |}.

Definition set_mDupResponseHttpStatus (x : option Z) (r : RequestInfo) : RequestInfo :=
    {| mPoison := mPoison r; mId := mId r; mMethod := mMethod r; mPath := mPath r; mArgs
     := mArgs r; mParsedArgs := mParsedArgs r; mBody := mBody r; mAnswer := mAnswer r;
     mRequest := mRequest r; mReqHeader := mReqHeader r; mReqBody := mReqBody r;
     mResponseHeader := mResponseHeader r; mResponseBody := mResponseBody r;
     mDupResponseHeader := mDupResponseHeader r; mDupResponseBody := mDupResponseBody r;
     mCurlCompResponseHeader := mCurlCompResponseHeader r; mCurlCompResponseStatus :=
     mCurlCompResponseStatus r; mHeadersIn := mHeadersIn r; mHeadersOut := mHeadersOut
     r; offset := offset r; mReqHttpStatus := mReqHttpStatus r; mDupResponseHttpStatus
     := x; mValidationHeaderDup := mValidationHeaderDup r; mValidationHeaderComp :=
     mValidationHeaderComp r; mConf := mConf r; mEOS := mEOS r; mStartTime := mStartTime
     r; mElapsedTime := mElapsedTime r |}.

Definition set_mValidationHeaderDup (x : bool) (r : RequestInfo) : RequestInfo :=
    {| mPoison := mPoison r; mId := mId r; mMethod := mMethod r; mPath := mPath r; mArgs
     := mArgs r; mParsedArgs := mParsedArgs r; mBody := mBody r; mAnswer := mAnswer r;
     mRequest := mRequest r; mReqHeader := mReqHeader r; mReqBody := mReqBody r;
     mResponseHeader := mResponseHeader r; mResponseBody := mResponseBody r;
     mDupResponseHeader := mDupResponseHeader r; mDupResponseBody := mDupResponseBody r;
     mCurlCompResponseHeader := mCurlCompResponseHeader r; mCurlCompResponseStatus :=
     mCurlCompResponseStatus r; mHeadersIn := mHeadersIn r; mHeadersOut := mHeadersOut
     r; offset := offset r; mReqHttpStatus := mReqHttpStatus r; mDupResponseHttpStatus
     := mDupResponseHttpStatus r; mValidationHeaderDup := x; mValidationHeaderComp :=
     mValidationHeaderComp r; mConf := mConf r; mEOS := mEOS r; mStartTime := mStartTime
     r; mElapsedTime := mElapsedTime r |}.

Definition set_mValidationHeaderComp (x : bool) (r : RequestInfo) : RequestInfo :=
    {| mPoison := mPoison r; mId := mId r; mMethod := mMethod r; mPath := mPath r; mArgs
     := mArgs r; mParsedArgs := mParsedArgs r; mBody := mBody r; mAnswer := mAnswer r;
     mRequest := mRequest r; mReqHeader := mReqHeader r; mReqBody := mReqBody r;
     mResponseHeader := mResponseHeader r; mResponseBody := mResponseBody r;
     mDupResponseHeader := mDupResponseHeader r; mDupResponseBody := mDupResponseBody r;
     mCurlCompResponseHeader := mCurlCompResponseHeader r; mCurlCompResponseStatus :=
     mCurlCompResponseStatus r; mHeadersIn := mHeadersIn r; mHeadersOut := mHeadersOut
     r; offset := offset r; mReqHttpStatus := mReqHttpStatus r; mDupResponseHttpStatus
     := mDupResponseHttpStatus r; mValidationHeaderDup := mValidationHeaderDup r;
     mValidationHeaderComp := x; mConf := mConf r; mEOS := mEOS r; mStartTime :=
     mStartTime r; mElapsedTime := mElapsedTime r |}.

Definition set_mConf (x : option N) (r : RequestInfo) : RequestInfo :=
    {| mPoison := mPoison r; mId := mId r; mMethod := mMethod r; mPath := mPath r; mArgs
     := mArgs r; mParsedArgs := mParsedArgs r; mBody := mBody r; mAnswer := mAnswer r;
     mRequest := mRequest r; mReqHeader := mReqHeader r; mReqBody := mReqBody r;
     mResponseHeader := mResponseHeader r; mResponseBody := mResponseBody r;
     mDupResponseHeader := mDupResponseHeader r; mDupResponseBody := mDupResponseBody r;
     mCurlCompResponseHeader := mCurlCompResponseHeader r; mCurlCompResponseStatus :=
     mCurlCompResponseStatus r; mHeadersIn := mHeadersIn r; mHeadersOut := mHeadersOut
     r; offset := offset r; mReqHttpStatus := mReqHttpStatus r; mDupResponseHttpStatus
     := mDupResponseHttpStatus r; mValidationHeaderDup := mValidationHeaderDup r;
     mValidationHeaderComp := mValidationHeaderComp r; mConf := x; mEOS := mEOS r;
     mStartTime := mStartTime r; mElapsedTime := mElapsedTime r |}.

Definition set_mEOS (x : bool) (r : RequestInfo) : RequestInfo :=
    {| mPoison := mPoison r; mId := mId r; mMethod := mMethod r; mPath := mPath r; mArgs
     := mArgs r; mParsedArgs := mParsedArgs r; mBody := mBody r; mAnswer := mAnswer r;
     mRequest := mRequest r; mReqHeader := mReqHeader r; mReqBody := mReqBody r;
     mResponseHeader := mResponseHeader r; mResponseBody := mResponseBody r;
     mDupResponseHeader := mDupResponseHeader r; mDupResponseBody := mDupResponseBody r;
     mCurlCompResponseHeader := mCurlCompResponseHeader r; mCurlCompResponseStatus :=
     mCurlCompResponseStatus r; mHeadersIn := mHeadersIn r; mHeadersOut := mHeadersOut
     r; offset := offset r; mReqHttpStatus := mReqHttpStatus r; mDupResponseHttpStatus
     := mDupResponseHttpStatus r; mValidationHeaderDup := mValidationHeaderDup r;
     mValidationHeaderComp := mValidationHeaderComp r; mConf := mConf r; mEOS := x;
     mStartTime := mStartTime r; mElapsedTime := mElapsedTime r |}.

Definition set_mStartTime (x : Z) (r : RequestInfo) : RequestInfo :=
    {| mPoison := mPoison r; mId := mId r; mMethod := mMethod r; mPath := mPath r; mArgs
     := mArgs r; mParsedArgs := mParsedArgs r; mBody := mBody r; mAnswer := mAnswer r;
     mRequest := mRequest r; mReqHeader := mReqHeader r; mReqBody := mReqBody r;
     mResponseHeader := mResponseHeader r; mResponseBody := mResponseBody r;
     mDupResponseHeader := mDupResponseHeader r; mDupResponseBody := mDupResponseBody r;
     mCurlCompResponseHeader := mCurlCompResponseHeader r; mCurlCompResponseStatus :=
     mCurlCompResponseStatus r; mHeadersIn := mHeadersIn r; mHeadersOut := mHeadersOut
     r; offset := offset r; mReqHttpStatus := mReqHttpStatus r; mDupResponseHttpStatus
     := mDupResponseHttpStatus r; mValidationHeaderDup := mValidationHeaderDup r;
     mValidationHeaderComp := mValidationHeaderComp r; mConf := mConf r; mEOS := mEOS r;
     mStartTime := x; mElapsedTime := mElapsedTime r |}.

Definition set_mElapsedTime (x : Z) (r : RequestInfo) : RequestInfo :=
    {| mPoison := mPoison r; mId := mId r; mMethod := mMethod r; mPath := mPath r; mArgs
     := mArgs r; mParsedArgs := mParsedArgs r; mBody := mBody r; mAnswer := mAnswer r;
     mRequest := mRequest r; mReqHeader := mReqHeader r; mReqBody := mReqBody r;
     mResponseHeader := mResponseHeader r; mResponseBody := mResponseBody r;
     mDupResponseHeader := mDupResponseHeader r; mDupResponseBody := mDupResponseBody r;
     mCurlCompResponseHeader := mCurlCompResponseHeader r; mCurlCompResponseStatus :=
     mCurlCompResponseStatus r; mHeadersIn := mHeadersIn r; mHeadersOut := mHeadersOut
     r; offset := offset r; mReqHttpStatus := mReqHttpStatus r; mDupResponseHttpStatus
     := mDupResponseHttpStatus r; mValidationHeaderDup := mValidationHeaderDup r;
     mValidationHeaderComp := mValidationHeaderComp r; mConf := mConf r; mEOS := mEOS r;
     mStartTime := mStartTime r; mElapsedTime := x |}.

(** The default constructor: a poisonous object. [now] is
    [microsec_clock::universal_time()]. *)
Definition RequestInfo_poison (now : Z) : RequestInfo :=
  {| mPoison := true; mId := ""; mMethod := ""; mPath := ""; mArgs := ""; mParsedArgs := [];
     mBody := ""; mAnswer := ""; mRequest := ""; mReqHeader := []; mReqBody := "";
     mResponseHeader := []; mResponseBody := ""; mDupResponseHeader := [];
     mDupResponseBody := ""; mCurlCompResponseHeader := []; mCurlCompResponseStatus := -1;
     mHeadersIn := []; mHeadersOut := []; offset := None; mReqHttpStatus := None;
     mDupResponseHttpStatus := None; mValidationHeaderDup := false;
     mValidationHeaderComp := false; mConf := None; mEOS := false; mStartTime := now;
     mElapsedTime := 0 |}.

(** [RequestInfo(id, pConfPath, pMethod, pPath, pArgs, body)] *)
Definition RequestInfo_of_request (now : Z) (id pConfPath pMethod pPath pArgs : string)
    (pBody : option string) : RequestInfo :=
  let r := set_mArgs pArgs (set_mPath pPath (set_mMethod pMethod (set_mId id
             (set_mPoison false (RequestInfo_poison now))))) in
  match pBody with Some b => set_mBody b r | None => r end.

(** [RequestInfo(reqHeader, reqBody, respHeader, respBody, dupHeader, dupBody)] *)
Definition RequestInfo_of_maps (now : Z) (reqHeader : mapStr) (reqBody : string)
    (respHeader : mapStr) (respBody : string) (dupHeader : mapStr) (dupBody : string)
    : RequestInfo :=
  set_mDupResponseBody dupBody (set_mDupResponseHeader dupHeader
    (set_mResponseBody respBody (set_mResponseHeader respHeader
      (set_mReqBody reqBody (set_mReqHeader reqHeader
        (set_mPoison false (RequestInfo_poison now))))))).

(** [RequestInfo(id, startTime)]: the Apache request time, in microseconds, is
    split in seconds and microseconds and put together again. *)
Definition RequestInfo_at (id : string) (startTime : Z) : RequestInfo :=
  set_mId id (set_mPoison false
    (RequestInfo_poison (1000000 * Z.quot startTime 1000000 + Z.rem startTime 1000000))).

(** [eos_seen(valToSet)]: the elapsed time is computed on the first call only. *)
Definition set_eos_seen (now : Z) (valToSet : bool) (r : RequestInfo) : RequestInfo :=
  let r' := if negb (mEOS r) && valToSet
            then set_mElapsedTime (now - mStartTime r)%Z r else r in
  set_mEOS valToSet r'.

Definition eos_seen (r : RequestInfo) : bool := mEOS r.

Definition resetStartTime (now : Z) (r : RequestInfo) : RequestInfo := set_mStartTime now r.

Definition isPoison (r : RequestInfo) : bool := mPoison r.

Definition hasBody (r : RequestInfo) : bool := negb (str_empty (mBody r)).

(** The conversion of an [int64_t] to [int]. *)
Definition to_int32 (z : Z) : Z := ((z + 2147483648) mod 4294967296 - 2147483648)%Z.

Definition getElapsedTimeMS (r : RequestInfo) : Z := to_int32 (Z.quot (mElapsedTime r) 1000).

Fixpoint flatten (kvl : tKeyValList) (sep : string) : string :=
  match kvl with
  | [] => EmptyString
  | (k, v) :: t => k +:+ sep +:+ v +:+ flatten t sep
  end.

(** The separator [flatten] has by default. *)
Definition flatten_sep : string := ": ".

(** [Serialize(toSerialize, ss)]: the length on 8 digits, then the value. *)
Definition Serialize (toSerialize ss : string) : string :=
  ss +:+ setw0 8 (str_len toSerialize) +:+ toSerialize.

(** ** Lemmas *)

(** The start time is the request time of Apache, to the microsecond. *)
Lemma RequestInfo_at_startTime id t : mStartTime (RequestInfo_at id t) = t.
Proof. simpl. pose proof (Z.quot_rem' t 1000000). lia. Qed.

Lemma set_eos_seen_first now r :
  mEOS r = false -> mElapsedTime (set_eos_seen now true r) = (now - mStartTime r)%Z.
Proof. unfold set_eos_seen. by intros ->. Qed.

Lemma set_eos_first now r :
  mEOS r = false ->
  set_eos_seen now true r = set_mEOS true (set_mElapsedTime (now - mStartTime r)%Z r).
Proof. unfold set_eos_seen. by intros ->. Qed.

(** A second end of stream does not change the measured time. *)
Lemma set_eos_seen_again now now' r :
  mElapsedTime (set_eos_seen now' true (set_eos_seen now true r))
  = mElapsedTime (set_eos_seen now true r).
Proof. done. Qed.

Lemma to_int32_small z : (-2147483648 <= z < 2147483648)%Z -> to_int32 z = z.
Proof. intros Hz. unfold to_int32. rewrite Z.mod_small; lia. Qed.

Lemma flatten_app a b sep : flatten (a ++ b) sep = flatten a sep +:+ flatten b sep.
Proof.
  induction a as [|[k v] a IH]; [done|]. simpl. rewrite IH. by rewrite !sapp_assoc.
Qed.
