(* ===== verification/MultiThreadQueue.v ===== *)
(** * MultiThreadQueue

    MultiThreadQueue.hh/.cc: the bounded queue between the Apache threads and
    the workers. [push], [push_front] and [pop] are critical sections, hence each one
    function on the state; [pop] has no result when the caller has to wait. [size],
    [setDropSize] and [getCounters] take no lock; [getCounters] here is what it does when
    no other operation comes between its accesses, and QueueCounters has these one by one.
    [qstep] is the step relation over the operations, [wstep] adds the condition variable: the
    threads asleep in [wait], the threads that were woken and must take the lock
    again, and the [notify_one] calls that follow the critical sections. *)
From S2P Require Import Prelude.
Local Open Scope N_scope.

Create HintDb mtq discriminated.

Record MultiThreadQueue (T : Type) : Type := mkQueue {
  mQueue : list T;
  mInCount : N;
  mOutCount : N;
  mDropCount : N;
  mDropSize : N;
  mRunning : bool
}.
Arguments mkQueue {T} _ _ _ _ _ _.
Arguments mQueue {T} _.
Arguments mInCount {T} _.
Arguments mOutCount {T} _.
Arguments mDropCount {T} _.
Arguments mDropSize {T} _.
Arguments mRunning {T} _.

Section Operations.
Context {T : Type}.
Implicit Types (q : MultiThreadQueue T) (x : T).

(** The constructor. *)
Definition newQueue : MultiThreadQueue T := mkQueue [] 0 0 0 0 true.

(** [size()] *)
Definition size q : N := N.of_nat (length (mQueue q)).

(** [mDropSize > 0 && mQueue.size() >= mDropSize] *)
Definition full q : bool := (0 <? mDropSize q) && (mDropSize q <=? size q).

Definition push x q : MultiThreadQueue T :=
  if full q then
    mkQueue (mQueue q) (mInCount q) (mOutCount q) (u32 (mDropCount q + 1)) (mDropSize q) (mRunning q)
  else
    mkQueue (mQueue q ++ [x]) (u32 (mInCount q + 1)) (mOutCount q) (mDropCount q) (mDropSize q)
            (mRunning q).

Definition push_front x q : MultiThreadQueue T :=
  if full q then
    mkQueue (x :: removelast (mQueue q)) (mInCount q) (mOutCount q) (u32 (mDropCount q + 1))
            (mDropSize q) (mRunning q)
  else
    mkQueue (x :: mQueue q) (mInCount q) (mOutCount q) (mDropCount q) (mDropSize q) (mRunning q).

(** [None]: the queue is empty and the caller waits. *)
Definition pop q : option (T * MultiThreadQueue T) :=
  match mQueue q with
  | [] => None
  | x :: t =>
      Some (x, mkQueue t (mInCount q) (u32 (mOutCount q + 1)) (mDropCount q) (mDropSize q)
                       (mRunning q))
  end.

Definition setDropSize (n : N) q : MultiThreadQueue T :=
  mkQueue (mQueue q) (mInCount q) (mOutCount q) (mDropCount q) n (mRunning q).

(** Undisturbed; the items of the queue never depend on the counters. *)
Definition getCounters q : (N * N * N) * MultiThreadQueue T :=
  ((mInCount q, mOutCount q, mDropCount q),
   mkQueue (mQueue q) 0 0 0 (mDropSize q) (mRunning q)).

Definition stop q : MultiThreadQueue T :=
  mkQueue (mQueue q) (mInCount q) (mOutCount q) (mDropCount q) (mDropSize q) false.

Definition isRunning q : bool := mRunning q.

(** ** Steps *)

(** What an operation did, seen from outside. *)
Inductive event : Type :=
  | EPush (x : T) (accepted : bool)
  | EPushFront (x : T) (evicted : option T)
  | EPop (x : T)
  | ECounters (i o d : N)
  | ESetDropSize (n : N)
  | EStop.

Inductive qstep : MultiThreadQueue T -> event -> MultiThreadQueue T -> Prop :=
  | step_push q x accepted : accepted = negb (full q) -> qstep q (EPush x accepted) (push x q)
  | step_push_front q x out :
      out = (if full q then last (mQueue q) else None) ->
      qstep q (EPushFront x out) (push_front x q)
  | step_pop q x q' : pop q = Some (x, q') -> qstep q (EPop x) q'
  | step_counters q i o d q' : getCounters q = ((i, o, d), q') -> qstep q (ECounters i o d) q'
  | step_setDropSize q n : qstep q (ESetDropSize n) (setDropSize n q)
  | step_stop q : qstep q EStop (stop q).

Inductive qsteps : MultiThreadQueue T -> list event -> MultiThreadQueue T -> Prop :=
  | qsteps_nil q : qsteps q [] q
  | qsteps_snoc q evs q1 e q2 : qsteps q evs q1 -> qstep q1 e q2 -> qsteps q (evs ++ [e]) q2.

(** ** What a trace of events adds up to *)

Definition pushed (e : event) : list T := match e with EPush x true => [x] | _ => [] end.
Definition popped (e : event) : list T := match e with EPop x => [x] | _ => [] end.
Definition urgent (e : event) : list T := match e with EPushFront x _ => [x] | _ => [] end.
Definition evicted (e : event) : list T :=
  match e with EPushFront _ (Some y) => [y] | _ => [] end.
Definition rejected (e : event) : list T := match e with EPush x false => [x] | _ => [] end.
Definition sets_size (e : event) : bool := match e with ESetDropSize _ => true | _ => false end.

Definition reported (e : event) : N * N * N :=
  match e with ECounters i o d => (i, o, d) | _ => (0, 0, 0) end.
Definition sum_in (evs : list event) : N := foldr (fun e n => fst (fst (reported e)) + n) 0 evs.
Definition sum_out (evs : list event) : N := foldr (fun e n => snd (fst (reported e)) + n) 0 evs.
Definition sum_drop (evs : list event) : N := foldr (fun e n => snd (reported e) + n) 0 evs.

Definition count (f : event -> list T) (evs : list event) : N := N.of_nat (length (evs ≫= f)).
End Operations.
Arguments event T : clear implicits.

(** ** Sequential theory *)
Section Theory.
Context {T : Type}.
Implicit Types (q : MultiThreadQueue T) (x : T) (e : event T).

Lemma full_true q : full q = true <-> 0 < mDropSize q <= size q.
Proof. unfold full. rewrite andb_true_iff, N.ltb_lt, N.leb_le. lia. Qed.

Lemma full_false q : full q = false <-> mDropSize q = 0 \/ size q < mDropSize q.
Proof.
  destruct (full q) eqn:E; split; intros; try done.
  - apply full_true in E. lia.
  - destruct (N.eq_dec (mDropSize q) 0); [by left|right].
    apply N.lt_nge. intros Hle. enough (full q = true) by congruence. apply full_true. lia.
Qed.

Lemma full_nonempty q : full q = true -> exists l x, mQueue q = l ++ [x].
Proof.
  intros [H0 Hs]%full_true. unfold size in Hs.
  destruct (mQueue q) as [|y l] eqn:E using rev_ind; [simpl in Hs; lia|by eauto].
Qed.

Lemma pop_Some q x q' : pop q = Some (x, q') -> mQueue q = x :: mQueue q'.
Proof. unfold pop. destruct (mQueue q); [done|]. by intros [= <- <-]. Qed.

(** Case analysis of a step, with the new contents of the queue. *)
Lemma qstep_contents q e q' :
  qstep q e q' ->
  match e with
  | EPush x true => full q = false /\ mQueue q' = mQueue q ++ [x]
  | EPush _ false => full q = true /\ mQueue q' = mQueue q
  | EPushFront x None => full q = false /\ mQueue q' = x :: mQueue q
  | EPushFront x (Some y) => full q = true /\ exists l, mQueue q = l ++ [y] /\ mQueue q' = x :: l
  | EPop x => mQueue q = x :: mQueue q'
  | _ => mQueue q' = mQueue q
  end.
Proof.
  intros Hs. destruct Hs as [q x b ->|q x out ->|q x q' Hp|q i o d q' Hc|q n|q]; try done.
  - unfold push. by destruct (full q).
  - unfold push_front. destruct (full q) eqn:E; [|done].
    destruct (full_nonempty q E) as (l & y & Hq). rewrite Hq, last_snoc. split; [done|].
    exists l. by rewrite removelast_last.
  - by apply pop_Some.
  - unfold getCounters in Hc. by simplify_eq.
Qed.

Lemma mbind_snoc {A B} (f : A -> list B) l a : (l ++ [a]) ≫= f = (l ≫= f) ++ f a.
Proof. rewrite bind_app. simpl. by rewrite app_nil_r. Qed.

(** The length of the queue, step by step. *)
Lemma qstep_balance q e q' :
  qstep q e q' ->
  (length (mQueue q') + length (popped e) + length (evicted e)
   = length (mQueue q) + length (pushed e) + length (urgent e))%nat.
Proof.
  intros Hs%qstep_contents. destruct e as [x []|x [y|]|x| | |]; simpl in *;
    try (by rewrite Hs; simpl; lia).
  - destruct Hs as [_ ->]. rewrite length_app. simpl. lia.
  - destruct Hs as [_ ->]. lia.
  - destruct Hs as [_ (l & -> & ->)]. rewrite length_app. simpl. lia.
  - destruct Hs as [_ ->]. simpl. lia.
Qed.

Lemma count_snoc f (evs : list (event T)) e : count f (evs ++ [e]) = count f evs + N.of_nat (length (f e)).
Proof. unfold count. rewrite mbind_snoc, length_app. lia. Qed.

Lemma sum_snoc (evs : list (event T)) e :
  sum_in (evs ++ [e]) = sum_in evs + fst (fst (reported e)) /\
  sum_out (evs ++ [e]) = sum_out evs + snd (fst (reported e)) /\
  sum_drop (evs ++ [e]) = sum_drop evs + snd (reported e).
Proof.
  unfold sum_in, sum_out, sum_drop. rewrite !foldr_app. simpl.
  induction evs as [|a evs (IH1 & IH2 & IH3)]; simpl; [lia|]. rewrite IH1, IH2, IH3. lia.
Qed.

Lemma u32_succ (a n k : N) : u32 (a + n) = u32 k -> u32 (a + u32 (n + 1)) = u32 (k + 1).
Proof. unfold u32. intros H. rewrite N.Div0.add_mod_idemp_r, N.add_assoc, <- N.Div0.add_mod_idemp_l, H. apply N.Div0.add_mod_idemp_l. Qed.

(** One operation at a time: the counters
    reported by [getCounters], added to the current ones, are, modulo 2^32, the
    numbers of accepted pushes, of pops, and of dropped elements (rejected
    pushes and elements evicted by [push_front]); and the length of the queue is
    the balance of these events. QueueCounters has the interleavings. *)
Lemma counters_alone (q0 q : MultiThreadQueue T) (evs : list (event T)) :
  qsteps q0 evs q ->
  u32 (sum_in evs + mInCount q) = u32 (mInCount q0 + count pushed evs) /\
  u32 (sum_out evs + mOutCount q) = u32 (mOutCount q0 + count popped evs) /\
  u32 (sum_drop evs + mDropCount q) = u32 (mDropCount q0 + count rejected evs + count evicted evs) /\
  size q + count popped evs + count evicted evs = size q0 + count pushed evs + count urgent evs.
Proof.
  induction 1 as [q|q0 evs q1 e q2 Hr (IH1 & IH2 & IH3 & IH4) Hs].
  { unfold count. simpl. rewrite !N.add_0_r. done. }
  destruct (sum_snoc evs e) as (-> & -> & ->). rewrite !count_snoc.
  assert (size q2 + N.of_nat (length (popped e)) + N.of_nat (length (evicted e))
          = size q1 + N.of_nat (length (pushed e)) + N.of_nat (length (urgent e))) as Hb.
  { pose proof (qstep_balance _ _ _ Hs). unfold size. lia. }
  enough (u32 (sum_in evs + fst (fst (reported e)) + mInCount q2)
          = u32 (mInCount q0 + count pushed evs + N.of_nat (length (pushed e))) /\
          u32 (sum_out evs + snd (fst (reported e)) + mOutCount q2)
          = u32 (mOutCount q0 + count popped evs + N.of_nat (length (popped e))) /\
          u32 (sum_drop evs + snd (reported e) + mDropCount q2)
          = u32 (mDropCount q0 + count rejected evs + count evicted evs
                 + N.of_nat (length (rejected e)) + N.of_nat (length (evicted e)))) as (H1 & H2 & H3).
  { rewrite N.add_assoc, H1, N.add_assoc, H2, H3. repeat split; [f_equal; lia|lia]. }
  clear Hb IH4.
  destruct Hs as [q x b ->|q x out ->|q x q' Hp|q i o d q' Hc|q n|q].
  - unfold push. destruct (full q); simpl; rewrite !N.add_0_r;
      repeat split; try done; by apply u32_succ.
  - unfold push_front. destruct (full q) eqn:E; simpl; rewrite ?N.add_0_r; [|done].
    destruct (full_nonempty q E) as (l & y & Hq). rewrite Hq, last_snoc. simpl.
    rewrite ?N.add_0_r. repeat split; try done. by apply u32_succ.
  - unfold pop in Hp. destruct (mQueue q); [done|]. simplify_eq. simpl.
    rewrite !N.add_0_r. repeat split; try done. by apply u32_succ.
  - unfold getCounters in Hc. simplify_eq. simpl. rewrite !N.add_0_r. done.
  - simpl. rewrite !N.add_0_r. done.
  - simpl. rewrite !N.add_0_r. done.
Qed.

Lemma qstep_dropSize q e q' : qstep q e q' -> sets_size e = false -> mDropSize q' = mDropSize q.
Proof.
  destruct 1 as [q x b ->|q x out ->|q x q' Hp|q i o d q' Hc|q n|q]; simpl; intros; try done.
  - unfold push. by destruct (full q).
  - unfold push_front. by destruct (full q).
  - unfold pop in Hp. destruct (mQueue q); by simplify_eq.
  - unfold getCounters in Hc. by simplify_eq.
Qed.

Lemma qstep_size q e q' :
  qstep q e q' -> 0 < mDropSize q -> size q' <= N.max (size q) (mDropSize q).
Proof.
  intros Hs Hd. pose proof (qstep_contents _ _ _ Hs) as Hc.
  destruct e as [x []|x [y|]|x| | |]; simpl in Hc.
  - destruct Hc as [[|]%full_false Hq]; unfold size in *; rewrite Hq, length_app; simpl; lia.
  - destruct Hc as [_ Hq]. unfold size. rewrite Hq. lia.
  - destruct Hc as [_ (l & Hq & Hq')]. unfold size. rewrite Hq, Hq', length_app. simpl. lia.
  - destruct Hc as [[|]%full_false Hq]; unfold size in *; rewrite Hq; simpl; lia.
  - unfold size. rewrite Hc. simpl. lia.
  - unfold size. rewrite Hc. lia.
  - unfold size. rewrite Hc. lia.
  - unfold size. rewrite Hc. lia.
Qed.

(** The drop size is a bound: once it is set to [d > 0] and not changed,
    the queue never holds more than [d] elements (or than it held before). *)
Theorem size_bounded (q0 q : MultiThreadQueue T) (evs : list (event T)) :
  qsteps q0 evs q -> 0 < mDropSize q0 -> Forall (fun e => sets_size e = false) evs ->
  mDropSize q = mDropSize q0 /\ size q <= N.max (size q0) (mDropSize q0).
Proof.
  intros Hr Hd. induction Hr as [q|q0 evs q1 e q2 Hr IH Hs]; intros Hf; [lia|].
  apply Forall_app in Hf as [Hf [He _]%Forall_cons].
  destruct (IH Hd Hf) as [Hds Hsz]. split.
  - by rewrite <- Hds; apply (qstep_dropSize _ _ _ Hs).
  - pose proof (qstep_size _ _ _ Hs). lia.
Qed.

(** ** Order *)
Section Order.
Variable poison : T -> bool.
Let regular : list T -> list T := List.filter (fun x => negb (poison x)).

(** [push] is used for ordinary elements and [push_front] for poison pills. *)
Definition event_ok (e : event T) : bool :=
  match e with
  | EPush x _ => negb (poison x)
  | EPushFront x _ => poison x
  | _ => true
  end.

Lemma regular_app a b : regular (a ++ b) = regular a ++ regular b.
Proof. apply List.filter_app. Qed.

Lemma regular_poison x l : poison x = true -> regular (x :: l) = regular l.
Proof. unfold regular. simpl. by intros ->. Qed.

Lemma qstep_order q e q' :
  qstep q e q' -> event_ok e = true ->
  regular (popped e ++ mQueue q') `sublist_of` regular (mQueue q) ++ regular (pushed e) /\
  (evicted e = [] -> regular (popped e ++ mQueue q') = regular (mQueue q) ++ regular (pushed e)).
Proof.
  intros Hs%qstep_contents He.
  destruct e as [x []|x [y|]|x| | |]; simpl in *; rewrite ?app_nil_r.
  - destruct Hs as [_ ->]. by rewrite regular_app.
  - by destruct Hs as [_ ->].
  - destruct Hs as [_ (l & -> & ->)]. rewrite regular_poison, regular_app by done.
    split; [by apply sublist_inserts_r|done].
  - destruct Hs as [_ ->]. by rewrite regular_poison.
  - by rewrite Hs.
  - by rewrite Hs.
  - by rewrite Hs.
  - by rewrite Hs.
Qed.

Lemma fifo_spec (q0 q : MultiThreadQueue T) (evs : list (event T)) :
  qsteps q0 evs q -> Forall (fun e => event_ok e = true) evs ->
  regular ((evs ≫= popped) ++ mQueue q) `sublist_of` regular (mQueue q0 ++ (evs ≫= pushed)) /\
  (evs ≫= evicted = [] ->
   regular ((evs ≫= popped) ++ mQueue q) = regular (mQueue q0 ++ (evs ≫= pushed))).
Proof.
  induction 1 as [q|q0 evs q1 e q2 Hr IH Hs]; intros Hf.
  { simpl. by rewrite app_nil_r. }
  apply Forall_app in Hf as [Hf [He _]%Forall_cons].
  destruct (IH Hf) as [IH1 IH2]. destruct (qstep_order _ _ _ Hs He) as [H1 H2].
  rewrite !mbind_snoc, <- (app_assoc (evs ≫= popped)), (app_assoc (mQueue q0)).
  rewrite regular_app in IH1, IH2 |- *. rewrite (regular_app (mQueue q0 ++ _)). split.
  - etrans; [apply sublist_app; [done|exact H1]|]. rewrite app_assoc.
    by apply sublist_app.
  - intros [Hev Hev']%app_nil. rewrite (H2 Hev'), app_assoc. f_equal. auto.
Qed.

(** First in, first out: when ordinary elements are pushed with [push]
    and poison pills with [push_front], the ordinary elements popped so far,
    followed by those still in the queue, are the accepted ones in the order in
    which they were pushed; elements can only be missing (never reordered or
    repeated), and none is missing when no pill evicted an element. *)
Theorem fifo_order (q0 q : MultiThreadQueue T) (evs : list (event T)) :
  qsteps q0 evs q -> Forall (fun e => event_ok e = true) evs ->
  regular ((evs ≫= popped) ++ mQueue q) `sublist_of` regular (mQueue q0 ++ (evs ≫= pushed)) /\
  (evs ≫= evicted = [] ->
   regular ((evs ≫= popped) ++ mQueue q) = regular (mQueue q0 ++ (evs ≫= pushed))).
Proof. apply fifo_spec. Qed.
End Order.
End Theory.

(** ** The condition variable

    Interleavings of the critical sections. A thread inside [pop] that found the
    queue empty is [asleep] until a notification (or a spurious wakeup) makes it
    [woken]; it then takes the lock again and tests the queue again. [unsent]
    counts the producers between their critical section and their [notify_one]. *)
Record wstate (T : Type) : Type := mkW {
  w_queue : MultiThreadQueue T;
  asleep : N;
  woken : N;
  unsent : N
}.
Arguments mkW {T} _ _ _ _.
Arguments w_queue {T} _.
Arguments asleep {T} _.
Arguments woken {T} _.
Arguments unsent {T} _.

Section Waiting.
Context {T : Type}.
Implicit Types (q : MultiThreadQueue T) (w : wstate T).

Inductive wstep : wstate T -> wstate T -> Prop :=
  | w_push q a k u x : wstep (mkW q a k u) (mkW (push x q) a k (u + 1))
  | w_push_front q a k u x : wstep (mkW q a k u) (mkW (push_front x q) a k (u + 1))
  | w_notify_sleeper q a k u :
      0 < u -> 0 < a -> wstep (mkW q a k u) (mkW q (a - 1) (k + 1) (u - 1))
  | w_notify_nobody q k u : 0 < u -> wstep (mkW q 0 k u) (mkW q 0 k (u - 1))
  | w_pop q a k u x q' : pop q = Some (x, q') -> wstep (mkW q a k u) (mkW q' a k u)
  | w_wait q a k u : pop q = None -> wstep (mkW q a k u) (mkW q (a + 1) k u)
  | w_woken_pop q a k u x q' :
      0 < k -> pop q = Some (x, q') -> wstep (mkW q a k u) (mkW q' a (k - 1) u)
  | w_woken_wait q a k u :
      0 < k -> pop q = None -> wstep (mkW q a k u) (mkW q (a + 1) (k - 1) u)
  | w_spurious q a k u : 0 < a -> wstep (mkW q a k u) (mkW q (a - 1) (k + 1) u)
  | w_setDropSize q a k u n : wstep (mkW q a k u) (mkW (setDropSize n q) a k u)
  | w_getCounters q a k u : wstep (mkW q a k u) (mkW (snd (getCounters q)) a k u)
  | w_stop q a k u : wstep (mkW q a k u) (mkW (stop q) a k u).

(** While a thread sleeps, every queued element is matched by a thread that is
    about to look at the queue or by a notification about to be sent. *)
Definition wake_inv w : Prop := 0 < asleep w -> size (w_queue w) <= woken w + unsent w.

Lemma size_push x q : size (push x q) <= size q + 1.
Proof. unfold push, size. destruct (full q); simpl; rewrite ?length_app; simpl; lia. Qed.

Lemma size_push_front x q : size (push_front x q) <= size q + 1.
Proof.
  unfold push_front. destruct (full q) eqn:E; unfold size; simpl; [|lia].
  destruct (full_nonempty q E) as (l & y & ->). rewrite removelast_last, length_app. simpl. lia.
Qed.

Lemma size_pop q x q' : pop q = Some (x, q') -> size q = size q' + 1.
Proof. intros H%pop_Some. unfold size. rewrite H. simpl. lia. Qed.

Lemma size_pop_None q : pop q = None <-> size q = 0.
Proof. unfold pop, size. destruct (mQueue q); simpl; split; (done || lia). Qed.

Lemma wake_inv_step w w' : wstep w w' -> wake_inv w -> wake_inv w'.
Proof.
  unfold wake_inv. destruct 1 as [q a k u x|q a k u x|q a k u Hu Ha|q k u Hu|q a k u x q' Hp
    |q a k u Hp|q a k u x q' Hk Hp|q a k u Hk Hp|q a k u Ha|q a k u n|q a k u|q a k u];
    simpl; intros Hinv Hs.
  - pose proof (size_push x q). lia.
  - pose proof (size_push_front x q). lia.
  - lia.
  - lia.
  - pose proof (size_pop _ _ _ Hp). lia.
  - apply size_pop_None in Hp. lia.
  - pose proof (size_pop _ _ _ Hp). lia.
  - apply size_pop_None in Hp. lia.
  - lia.
  - unfold size in *. simpl. lia.
  - unfold size in *. simpl. lia.
  - unfold size in *. simpl. lia.
Qed.

(** No wakeup is lost: in every reachable interleaving of pushes, pops,
    notifications and spurious wakeups, when no notification is still to be sent
    and no woken thread is still to run, a thread sleeps in [pop] only if the
    queue is empty. *)
Theorem no_lost_wakeup (w0 w : wstate T) :
  rtc wstep w0 w -> asleep w0 = 0 ->
  unsent w = 0 -> woken w = 0 -> 0 < asleep w -> mQueue (w_queue w) = [].
Proof.
  intros Hr H0 Hu Hk Ha.
  assert (Hinv : wake_inv w).
  { assert (Hi : wake_inv w0) by (unfold wake_inv; lia). clear H0 Hu Hk Ha.
    induction Hr as [|w0 w1 w2 Hs _ IH]; [done|]. eauto using wake_inv_step. }
  specialize (Hinv Ha). rewrite Hu, Hk in Hinv. unfold size in Hinv.
  destruct (mQueue (w_queue w)); [done|simpl in Hinv; lia].
Qed.
End Waiting.

(** ** Concrete runs *)

(** The run of testMultiThreadQueue.cc with drop size 1: 34 is rejected, then
    the pill 1234 evicts 123. *)
Definition test_start : MultiThreadQueue Z := setDropSize 1 newQueue.

Definition test_events : list (event Z) :=
  [EPush 44444%Z true; EPush 34%Z false; ECounters 1 0 1; EPop 44444%Z; EPush 123%Z true;
   EPushFront 1234%Z (Some 123%Z); ECounters 1 1 1; EPop 1234%Z].

Definition test_end : MultiThreadQueue Z := mkQueue [] 0 1 0 1 true.

Lemma qsteps_cons {T} (q q1 q2 : MultiThreadQueue T) e evs :
  qstep q e q1 -> qsteps q1 evs q2 -> qsteps q (e :: evs) q2.
Proof.
  intros Hs Hr. revert Hs. induction Hr as [q1|q1 evs q2 e' q3 Hr IH Hs']; intros Hs.
  - apply (qsteps_snoc q [] q e q1); [constructor|done].
  - apply (qsteps_snoc q (e :: evs) q2 e' q3); auto.
Qed.

(** Runs a list of events on a concrete queue. *)
Ltac run_step :=
  first [ apply step_push; reflexivity | apply step_push_front; reflexivity | apply step_pop; reflexivity
        | apply step_counters; reflexivity | apply step_setDropSize | apply step_stop ].
Ltac run_events :=
  repeat (eapply qsteps_cons; [run_step|]); apply qsteps_nil.

Lemma test_run : qsteps test_start test_events test_end.
Proof. run_events. Qed.

Definition is_pill (z : Z) : bool := Z.eqb z 1234.

Lemma size_bounded_witness : size test_end <= N.max (size test_start) 1.
Proof.
  apply (size_bounded test_start test_end test_events test_run); [done|].
  by repeat constructor.
Defined.

Lemma fifo_order_witness :
  List.filter (fun z => negb (is_pill z)) ((test_events ≫= popped) ++ mQueue test_end)
  `sublist_of` [44444; 123]%Z.
Proof.
  apply (fifo_order is_pill test_start test_end test_events test_run).
  by repeat constructor.
Defined.

(** Two workers wait, a producer pushes one element and notifies, one worker
    takes it, the other one sleeps. *)
Lemma no_lost_wakeup_witness :
  mQueue (w_queue (mkW (mkQueue (T:=Z) [] 1 1 0 0 true) 1 0 0)) = [].
Proof.
  apply (no_lost_wakeup (mkW newQueue 0 0 0)); [|done..].
  do 2 (eapply rtc_l; [apply w_wait; reflexivity|]).
  eapply rtc_l; [apply (w_push _ _ _ _ 5%Z)|].
  eapply rtc_l; [apply w_notify_sleeper; reflexivity|].
  eapply rtc_l; [eapply w_woken_pop; reflexivity|]. apply rtc_refl.
Defined.
