(* ===== verification/QueueCounters.v ===== *)
(** * The counters of the queue

    [getCounters] of MultiThreadQueue.cc reads the three counters and then resets them
    without taking the lock that the other operations hold while they increment one. Here
    its accesses, and the loads and stores of the increments, are steps of their own, so
    that the manager's statistics may come between. [getCounters] of MultiThreadQueue is
    what the call does when nothing comes between ([one_at_a_time]). Each access to a
    counter is taken as a whole, which C++ does not promise for accesses that race. *)
From S2P Require Import Prelude MultiThreadQueue.
Local Open Scope N_scope.

Inductive counter : Type := In | Out | Drop.

Definition same (a b : counter) : bool :=
  match a, b with In, In | Out, Out | Drop, Drop => true | _, _ => false end.

Lemma same_spec a b : reflect (a = b) (same a b).
Proof. by destruct a, b; constructor. Qed.

Definition among (c : counter) (l : list counter) : bool := existsb (same c) l.

Section Counters.
Context {T : Type}.
Implicit Types (q : MultiThreadQueue T) (x : T) (c : counter).

Definition get c q : N :=
  match c with In => mInCount q | Out => mOutCount q | Drop => mDropCount q end.

Definition set c (n : N) q : MultiThreadQueue T :=
  match c with
  | In => mkQueue (mQueue q) n (mOutCount q) (mDropCount q) (mDropSize q) (mRunning q)
  | Out => mkQueue (mQueue q) (mInCount q) n (mDropCount q) (mDropSize q) (mRunning q)
  | Drop => mkQueue (mQueue q) (mInCount q) (mOutCount q) n (mDropSize q) (mRunning q)
  end.

Definition set_items (l : list T) q : MultiThreadQueue T :=
  mkQueue l (mInCount q) (mOutCount q) (mDropCount q) (mDropSize q) (mRunning q).

(** ** The machine *)

(** A call of [getCounters], which only the manager thread makes, so one at a time: the
    values read so far, and how many counters were reset. *)
Inductive getter : Type :=
  | Free
  | Getting (got : list N) (resets : nat).

Definition read_order : list counter := [In; Out; Drop].

(** [mInCount = mOutCount = mDropCount = 0]; the value of an assignment is the value
    assigned. *)
Definition reset_order : list counter := [Drop; Out; In].

(** [busy]: the operation that has the lock, when it has loaded the counter it increments
    and not stored it yet. *)
Record cstate : Type := mkC {
  cq : MultiThreadQueue T;
  busy : option (counter * N);
  calling : getter
}.

(** Whether the call has read the counter, and whether it has reset it. *)
Definition has_read (g : getter) c : bool :=
  match g with Free => false | Getting got _ => among c (take (length got) read_order) end.
Definition has_reset (g : getter) c : bool :=
  match g with Free => false | Getting _ k => among c (take k reset_order) end.

(** Stored between the reading and the reset, an increment is lost. *)
Definition store_races (g : getter) c : list counter :=
  if has_read g c && negb (has_reset g c) then [c] else [].

(** Reset between the load and the store, a counter comes back. *)
Definition reset_races (b : option (counter * N)) c : list counter :=
  match b with Some (c', _) => if same c c' then [c] else [] | None => [] end.

(** The operations up to the load of their counter, the store, and the accesses of
    [getCounters]; with the events and the counters raced on. *)
Inductive cstep : cstate -> list (event T) -> list counter -> cstate -> Prop :=
  | c_push q g x :
      full q = false ->
      cstep (mkC q None g) [EPush x true] [] (mkC (set_items (mQueue q ++ [x]) q) (Some (In, mInCount q)) g)
  | c_reject q g x :
      full q = true -> cstep (mkC q None g) [EPush x false] [] (mkC q (Some (Drop, mDropCount q)) g)
  | c_push_front q g x :
      full q = false ->
      cstep (mkC q None g) [EPushFront x None] [] (mkC (set_items (x :: mQueue q) q) None g)
  | c_evict q g x :
      full q = true ->
      cstep (mkC q None g) [EPushFront x (last (mQueue q))] []
        (mkC (set_items (x :: removelast (mQueue q)) q) (Some (Drop, mDropCount q)) g)
  | c_pop q g x l :
      mQueue q = x :: l ->
      cstep (mkC q None g) [EPop x] [] (mkC (set_items l q) (Some (Out, mOutCount q)) g)
  | c_store q c v g :
      cstep (mkC q (Some (c, v)) g) [] (store_races g c) (mkC (set c (u32 (v + 1)) q) None g)
  | c_call q b : cstep (mkC q b Free) [] [] (mkC q b (Getting [] 0))
  | c_read q b got c :
      read_order !! length got = Some c ->
      cstep (mkC q b (Getting got 0)) [] [] (mkC q b (Getting (got ++ [get c q]) 0))
  | c_reset q b i o d k c :
      reset_order !! k = Some c ->
      cstep (mkC q b (Getting [i; o; d] k)) [] (reset_races b c) (mkC (set c 0 q) b (Getting [i; o; d] (S k)))
  | c_return q b i o d : cstep (mkC q b (Getting [i; o; d] 3)) [ECounters i o d] [] (mkC q b Free)
  | c_drop_size q b g n : cstep (mkC q b g) [ESetDropSize n] [] (mkC (setDropSize n q) b g)
  | c_stop q b g : cstep (mkC q b g) [EStop] [] (mkC (stop q) b g).

Inductive csteps : cstate -> list (event T) -> list counter -> cstate -> Prop :=
  | csteps_nil s : csteps s [] [] s
  | csteps_snoc s evs rs s1 e r s2 : csteps s evs rs s1 -> cstep s1 e r s2 -> csteps s (evs ++ e) (rs ++ r) s2.

(** No operation and no call under way. *)
Definition quiet q : cstate := mkC q None Free.
Definition is_quiet (s : cstate) : Prop := busy s = None /\ calling s = Free.

(** ** What is to be counted *)

(** What a counter stands for, and what was reported of it. *)
Definition counted c (evs : list (event T)) : N :=
  match c with
  | In => count pushed evs
  | Out => count popped evs
  | Drop => count rejected evs + count evicted evs
  end.

Definition reports c (evs : list (event T)) : N :=
  match c with In => sum_in evs | Out => sum_out evs | Drop => sum_drop evs end.
(** ** The accounts of one counter *)

(** An increment that is loaded, and what the call has read of a counter it has reset. *)
Definition pending (b : option (counter * N)) c : N :=
  match b with Some (c', _) => if same c c' then 1 else 0 | None => 0 end.

Definition value_read (got : list N) c : N :=
  nth (match c with In => 0 | Out => 1 | Drop => 2 end)%nat got 0.

Definition set_aside (g : getter) c : N :=
  match g with Getting got _ => if has_reset g c then value_read got c else 0 | Free => 0 end.

(** What is reported, about to be, still in the counter, or about to be added to it, is what
    there is to count; and the call and the operation know the counter as it is. *)
Record balanced c q0 (evs : list (event T)) (s : cstate) : Prop := {
  b_sum : u32 (reports c evs + set_aside (calling s) c + get c (cq s) + pending (busy s) c)
          = u32 (get c q0 + counted c evs);
  b_read : forall got k, calling s = Getting got k -> has_read (calling s) c = true ->
             has_reset (calling s) c = false -> value_read got c = get c (cq s);
  b_busy : forall v, busy s = Some (c, v) -> v = get c (cq s)
}.

Lemma u32_add_r a b : u32 (a + u32 b) = u32 (a + b).
Proof. apply N.Div0.add_mod_idemp_r. Qed.

Lemma get_set c c' n q : get c (set c' n q) = if same c c' then n else get c q.
Proof. by destruct c, c'. Qed.

Lemma get_set_items c l q : get c (set_items l q) = get c q.
Proof. by destruct c. Qed.

Lemma counted_app c (a b : list (event T)) : counted c (a ++ b) = counted c a + counted c b.
Proof. unfold counted, count. destruct c; rewrite ?bind_app, ?length_app; lia. Qed.

Lemma reports_app c (a b : list (event T)) : reports c (a ++ b) = reports c a + reports c b.
Proof.
  unfold reports, sum_in, sum_out, sum_drop. destruct c; induction a as [|e a IH]; cbn [app foldr]; lia.
Qed.

(** An operation that counts one event and loads its counter. *)
Lemma balanced_load c c' q0 evs q q' e g :
  balanced c q0 evs (mkC q None g) -> get c q' = get c q -> reports c [e] = 0 ->
  counted c [e] = (if same c c' then 1 else 0) -> balanced c q0 (evs ++ [e]) (mkC q' (Some (c', get c' q')) g).
Proof.
  intros [Hs Hr _] Hq Hre Hc. split; cbn [calling busy cq] in *.
  - rewrite reports_app, counted_app, Hre, Hc, Hq. cbn [pending] in *.
    rewrite !N.add_0_r in *. unfold u32 in *. rewrite N.Div0.add_mod, Hs, <- N.Div0.add_mod. f_equal. lia.
  - intros got k Hg. rewrite Hq. by apply (Hr got k).
  - by intros v [= -> <-].
Qed.

(** A step that counts and reports nothing of the counter, and leaves it. *)
Lemma balanced_other c q0 evs q q' e b g :
  balanced c q0 evs (mkC q b g) -> get c q' = get c q -> reports c e = 0 -> counted c e = 0 ->
  balanced c q0 (evs ++ e) (mkC q' b g).
Proof.
  intros [Hs Hr Hb] Hq Hre Hc. split; cbn [calling busy cq] in *; rewrite ?Hq; try done.
  by rewrite reports_app, counted_app, Hre, Hc, !N.add_0_r.
Qed.

Lemma balanced_store c c' q0 evs q v g :
  balanced c q0 evs (mkC q (Some (c', v)) g) -> c ∉ store_races g c' ->
  balanced c q0 evs (mkC (set c' (u32 (v + 1)) q) None g).
Proof.
  intros [Hs Hr Hb] Hn. cbn [calling busy cq] in *. destruct (same_spec c c') as [<-|Hne].
  - split; cbn [calling busy cq]; [|intros got k Hg H1 H2|done].
    + rewrite get_set. cbn [pending] in *. destruct (same_spec c c) as [_|]; [|done].
      rewrite (Hb v eq_refl) in *. by rewrite N.add_0_r, u32_add_r, N.add_assoc.
    + exfalso. apply Hn. unfold store_races. rewrite H1, H2. by left.
  - split; cbn [calling busy cq]; [|intros got k Hg H1 H2|done]; rewrite get_set; cbn [pending] in *;
      destruct (same_spec c c') as [|_]; [done| |done|]; [by rewrite <- Hs|by eapply Hr].
Qed.

Lemma balanced_read c c' q0 evs q b got :
  balanced c q0 evs (mkC q b (Getting got 0)) -> read_order !! length got = Some c' ->
  balanced c q0 evs (mkC q b (Getting (got ++ [get c' q]) 0)).
Proof.
  intros [Hs Hr Hb] Hc. cbn [calling busy cq] in *. split; cbn [calling busy cq]; [done| |done].
  intros ? ? [= <- <-] H1 H2. specialize (Hr got 0%nat eq_refl).
  destruct got as [|a [|b' [|? ?]]]; [..|done]; cbn in Hc; injection Hc as <-;
    destruct c; cbn in *; try done; by apply Hr.
Qed.

Lemma balanced_reset c c' q0 evs q b i o d k :
  balanced c q0 evs (mkC q b (Getting [i; o; d] k)) -> reset_order !! k = Some c' -> c ∉ reset_races b c' ->
  balanced c q0 evs (mkC (set c' 0 q) b (Getting [i; o; d] (S k))).
Proof.
  intros [Hs Hr Hb] Hc Hn. cbn [calling busy cq] in *.
  assert (Hbusy : forall v, b = Some (c, v) -> v = get c (set c' 0 q)).
  { intros v ->. rewrite get_set. destruct (same_spec c c') as [<-|]; [|by apply Hb].
    exfalso. apply Hn. unfold reset_races. destruct (same_spec c c); [by left|done]. }
  specialize (Hr [i; o; d] k eq_refl). split; cbn [calling busy cq]; [|intros ? ? [= <- <-] H1 H2|exact Hbusy].
  - rewrite get_set. destruct k as [|[|[|k]]]; [..|done]; cbn in Hc; injection Hc as <-;
      destruct c; cbn [same set_aside has_reset among existsb take reset_order orb value_read nth] in *; try exact Hs;
      (etrans; [|exact Hs]); rewrite ?N.add_0_r; rewrite (Hr eq_refl eq_refl); f_equal; lia.
  - rewrite get_set. destruct k as [|[|[|k]]]; [..|done]; cbn in Hc; injection Hc as <-;
      destruct c; cbn in *; try done; by apply Hr.
Qed.

Lemma balanced_return c q0 evs q b i o d :
  balanced c q0 evs (mkC q b (Getting [i; o; d] 3)) -> balanced c q0 (evs ++ [ECounters i o d]) (mkC q b Free).
Proof.
  intros [Hs Hr Hb]. cbn [calling busy cq] in *. split; cbn [calling busy cq set_aside]; [|done|done].
  rewrite reports_app, counted_app, N.add_0_r.
  replace (reports c [ECounters i o d]) with (value_read [i; o; d] c) by (destruct c; cbn; lia).
  replace (counted c [ECounters i o d]) with 0 by (by destruct c). rewrite N.add_0_r.
  destruct c; exact Hs.
Qed.

Lemma balanced_step c q0 evs s e r s' :
  balanced c q0 evs s -> cstep s e r s' -> c ∉ r -> balanced c q0 (evs ++ e) s'.
Proof.
  intros HB Hs Hr. destruct Hs as [q g x Hf|q g x Hf|q g x Hf|q g x Hf|q g x l Hl|q c' v g|q b|q b got c' Hc
    |q b i o d k c' Hc|q b i o d|q b g n|q b g].
  - apply (balanced_load c In q0 evs q (set_items (mQueue q ++ [x]) q) (EPush x true) g HB); by destruct c.
  - apply (balanced_load c Drop q0 evs q q (EPush x false) g HB); by destruct c.
  - apply (balanced_other c q0 evs q); [done|by apply get_set_items|by destruct c..].
  - destruct (full_nonempty q Hf) as (l & y & Hq). rewrite Hq, last_snoc.
    apply (balanced_load c Drop q0 evs q (set_items (x :: removelast (l ++ [y])) q) (EPushFront x (Some y)) g HB); by destruct c.
  - apply (balanced_load c Out q0 evs q (set_items l q) (EPop x) g HB); by destruct c.
  - rewrite app_nil_r. by apply balanced_store.
  - rewrite app_nil_r. destruct HB as [H1 _ H3]. split; cbn [calling busy cq set_aside] in *; [by destruct c|by intros|done].
  - rewrite app_nil_r. by apply balanced_read.
  - rewrite app_nil_r. by apply balanced_reset.
  - by apply balanced_return.
  - apply (balanced_other c q0 evs q); by destruct c.
  - apply (balanced_other c q0 evs q); by destruct c.
Qed.

Lemma balanced_steps c q0 evs rs s : csteps (quiet q0) evs rs s -> c ∉ rs -> balanced c q0 evs s.
Proof.
  intros Hs. remember (quiet q0) as s0 eqn:E0. induction Hs as [s|s0 evs rs s1 e r s2 _ IH Hst]; subst.
  - intros _. split; cbn; [|done..]. by destruct c; rewrite ?N.add_0_r.
  - intros Hn. rewrite not_elem_of_app in Hn. destruct Hn as [H1 H2]. by eapply balanced_step; [apply IH| |].
Qed.

(** ** The items *)

Definition item_events (evs : list (event T)) : list (event T) :=
  List.filter (fun e => match e with ECounters _ _ _ => false | _ => true end) evs.

(** Two states of the queue that differ in the counters only. *)
Definition same_items q q' : Prop :=
  mQueue q = mQueue q' /\ mDropSize q = mDropSize q' /\ mRunning q = mRunning q'.

Lemma full_same q q' : same_items q q' -> full q = full q'.
Proof. intros (Hq & Hd & _). unfold full, size. by rewrite Hq, Hd. Qed.

(** The items do not know of the counters: each step does to them what an operation does,
    or nothing. *)
Lemma cstep_items s e r s' q :
  cstep s e r s' -> same_items q (cq s) ->
  exists q', qsteps q (item_events e) q' /\ same_items q' (cq s').
Proof.
  intros Hs Hq. pose proof (full_same _ _ Hq) as Hf. destruct Hq as (Hq & Hd & Hr).
  assert (Hone : forall e q', qstep q e q' -> item_events [e] = [e] -> qsteps q (item_events [e]) q').
  { intros e' q' He ->. apply (qsteps_snoc q [] q); [constructor|done]. }
  assert (Hnone : qsteps q [] q) by constructor.
  destruct Hs as [q1 g x E|q1 g x E|q1 g x E|q1 g x E|q1 g x l E|q1 c' v g|q1 b|q1 b got c' Hc
    |q1 b i o d k c' Hc|q1 b i o d|q1 b g n|q1 b g]; cbn [cq] in *; rewrite ?E in *.
  - exists (push x q). split; [apply Hone; [constructor; by rewrite Hf|done]|]. unfold push. rewrite Hf. cbn.
    by rewrite Hq.
  - exists (push x q). split; [apply Hone; [constructor; by rewrite Hf|done]|]. unfold push. by rewrite Hf.
  - exists (push_front x q). split; [apply Hone; [constructor; by rewrite Hf|done]|]. unfold push_front. rewrite Hf. cbn.
    by rewrite Hq.
  - exists (push_front x q). split; [apply Hone; [constructor; by rewrite Hf, Hq|done]|]. unfold push_front. rewrite Hf.
    cbn. by rewrite Hq.
  - eexists. split; [apply Hone; [constructor; unfold pop; by rewrite Hq|done]|]. by repeat split.
  - exists q. split; [done|]. by destruct c'.
  - by exists q.
  - by exists q.
  - exists q. split; [done|]. by destruct c'.
  - by exists q.
  - exists (setDropSize n q). split; [apply Hone; [constructor|done]|]. by repeat split.
  - exists (stop q). split; [apply Hone; [constructor|done]|]. by repeat split.
Qed.

Lemma qsteps_trans (q q1 q2 : MultiThreadQueue T) a b : qsteps q a q1 -> qsteps q1 b q2 -> qsteps q (a ++ b) q2.
Proof.
  intros Ha Hb. revert Ha. induction Hb as [q1|q1 b q2 e q3 _ IH He]; intros Ha; [by rewrite app_nil_r|].
  rewrite app_assoc. econstructor; [by apply IH|done].
Qed.

Lemma csteps_items q0 evs rs s :
  csteps (quiet q0) evs rs s -> exists q, qsteps q0 (item_events evs) q /\ same_items q (cq s).
Proof.
  intros Hs. remember (quiet q0) as s0 eqn:E0. induction Hs as [s|s0 evs rs s1 e r s2 _ IH Hst]; subst.
  - exists q0. by split; [constructor|].
  - destruct (IH eq_refl) as (q1 & Hq1 & Hi). destruct (cstep_items _ _ _ _ _ Hst Hi) as (q2 & Hq2 & Hi2).
    exists q2. split; [|done]. unfold item_events. rewrite List.filter_app. by eapply qsteps_trans.
Qed.

(** Events of the counters are no events of the items. *)
Lemma count_items (f : event T -> list T) evs :
  (forall i o d, f (ECounters i o d) = []) -> count f (item_events evs) = count f evs.
Proof.
  intros Hf. unfold count, item_events. induction evs as [|e evs IH]; [done|]. cbn [List.filter].
  destruct e; rewrite ?bind_cons, ?Hf, ?length_app; cbn [length]; lia.
Qed.

(** ** One operation at a time *)

Lemma csteps_app (s s1 s2 : cstate) a ra b rb :
  csteps s a ra s1 -> csteps s1 b rb s2 -> csteps s (a ++ b) (ra ++ rb) s2.
Proof.
  intros Ha Hb. revert Ha. induction Hb as [s1|s1 b rb s2 e r s3 _ IH He]; intros Ha; [by rewrite !app_nil_r|].
  rewrite !app_assoc. econstructor; [by apply IH|done].
Qed.

Lemma csteps_cons (s s1 s2 : cstate) e r evs rs :
  cstep s e r s1 -> csteps s1 evs rs s2 -> csteps s (e ++ evs) (r ++ rs) s2.
Proof. intros Hs. apply csteps_app. apply (csteps_snoc s [] [] s); [constructor|done]. Qed.

(** The steps that may race, with the races as an equation. *)
Lemma do_store q c v g r : r = store_races g c -> cstep (mkC q (Some (c, v)) g) [] r (mkC (set c (u32 (v + 1)) q) None g).
Proof. intros ->. constructor. Qed.

Lemma do_reset q b i o d k c r :
  reset_order !! k = Some c -> r = reset_races b c ->
  cstep (mkC q b (Getting [i; o; d] k)) [] r (mkC (set c 0 q) b (Getting [i; o; d] (S k))).
Proof. intros Hc ->. by constructor. Qed.
End Counters.

(** One step of a run: its events and its races, then those of the rest. *)
Tactic Notation "c_move" uconstr(step) uconstr(e) uconstr(r) uconstr(evs) uconstr(rs) :=
  eapply (csteps_cons _ _ _ e r evs rs); [eapply step; reflexivity|cbn [app length]].

Section Accounts.
Context {T : Type}.
Implicit Types (q : MultiThreadQueue T) (c : counter).

(** Nothing in between: the steps are the operations of MultiThreadQueue, without a race. *)
Lemma one_operation q e q' : qstep q e q' -> csteps (quiet q) [e] [] (quiet q').
Proof.
  assert (Htwo : forall q1 c v, cstep (quiet q) [e] [] (mkC q1 (Some (c, v)) Free) -> set c (u32 (v + 1)) q1 = q' ->
    csteps (quiet q) [e] [] (quiet q')).
  { intros q1 c v Hs <-. apply (csteps_cons _ _ _ [e] [] [] [] Hs).
    c_move do_store [] [] [] []. constructor. }
  assert (Hone : cstep (quiet q) [e] [] (quiet q') -> csteps (quiet q) [e] [] (quiet q')).
  { intros Hs. apply (csteps_cons _ _ _ [e] [] [] [] Hs). constructor. }
  intros Hs. destruct Hs as [q x b ->|q x out ->|q x q' Hp|q i o d q' Hc|q n|q].
  - destruct (full q) eqn:Hf; cbn [negb] in *.
    + apply (Htwo q Drop (mDropCount q)); [by constructor|]. unfold push. by rewrite Hf.
    + eapply (Htwo _ In (mInCount q)); [by constructor|]. unfold push. by rewrite Hf.
  - destruct (full q) eqn:Hf.
    + eapply (Htwo _ Drop (mDropCount q)); [by constructor|]. unfold push_front. by rewrite Hf.
    + apply Hone. unfold push_front. rewrite Hf. by constructor.
  - unfold pop in Hp. destruct (mQueue q) as [|y l] eqn:Hq; [done|]. injection Hp as <- <-.
    eapply (Htwo _ Out (mOutCount q)); [by constructor|done].
  - unfold getCounters in Hc. injection Hc as <- <- <- <-. clear Htwo Hone.
    c_move c_call [] [] _ [].
    c_move c_read [] [] _ [].
    c_move c_read [] [] _ [].
    c_move c_read [] [] _ [].
    c_move do_reset [] [] _ [].
    c_move do_reset [] [] _ [].
    c_move do_reset [] [] _ [].
    c_move c_return [_] [] [] []. constructor.
  - apply Hone. constructor.
  - apply Hone. constructor.
Qed.

Lemma one_at_a_time q evs q' : qsteps q evs q' -> csteps (quiet q) evs [] (quiet q').
Proof.
  induction 1 as [q|q evs q1 e q2 _ IH He]; [constructor|].
  apply (csteps_app _ _ _ evs [] [e] [] IH). by apply one_operation.
Qed.

(** ** The property *)

(** [C37] What the counters account for, in every interleaving of the operations of the queue
    with the accesses of [getCounters], which takes no lock. The length of the queue is always
    the balance of the events. Between the calls, what was reported of a counter, added to
    what is in it, is, modulo 2^32, the number of events it stands for (accepted pushes, pops,
    and dropped elements: rejected pushes and elements that [push_front] evicted), provided
    that no increment of this counter was stored between its reading and its reset by
    [getCounters], nor was it reset between the load and the store of an increment. When
    one was, which nothing prevents, elements are not counted ([increment_lost]) or are
    counted twice ([count_doubled]). *)
Theorem counters_account q0 evs rs s :
  csteps (quiet q0) evs rs s ->
  size (cq s) + count popped evs + count evicted evs = size q0 + count pushed evs + count urgent evs /\
  (is_quiet s -> forall c, c ∉ rs -> u32 (reports c evs + get c (cq s)) = u32 (get c q0 + counted c evs)).
Proof.
  intros Hs. split.
  - destruct (csteps_items _ _ _ _ Hs) as (q & Hq & Hi & _).
    destruct (counters_alone _ _ _ Hq) as (_ & _ & _ & Hb). rewrite !count_items in Hb by done.
    unfold size in *. by rewrite <- Hi.
  - intros [Hb Hg] c Hc. destruct (balanced_steps c q0 evs rs s Hs Hc) as [Hsum _ _].
    rewrite Hb, Hg in Hsum. cbn [set_aside pending] in Hsum. by rewrite !N.add_0_r in Hsum.
Qed.
End Accounts.

(** ** Concrete runs *)

Module CounterExamples.
(** An element pushed between the reading of [mInCount] and its reset. *)
Definition lost_queue : MultiThreadQueue Z := mkQueue [7%Z] 0 0 0 0 true.
Definition lost_events : list (event Z) := [EPush 7%Z true; ECounters 0 0 0].

Lemma lost_run : csteps (quiet newQueue) lost_events [In] (quiet lost_queue).
Proof.
  c_move c_call [] [] lost_events [In].
  c_move c_read [] [] lost_events [In].
  c_move c_read [] [] lost_events [In].
  c_move c_read [] [] lost_events [In].
  c_move c_push [EPush 7%Z true] [] [ECounters 0 0 0] [In].
  c_move do_store [] [In] _ [].
  c_move do_reset [] [] _ [].
  c_move do_reset [] [] _ [].
  c_move do_reset [] [] _ [].
  c_move c_return [ECounters 0 0 0] [] [] []. constructor.
Qed.

Example increment_lost :
  (count pushed lost_events, sum_in lost_events + mInCount lost_queue) = (1, 0).
Proof. reflexivity. Qed.

(** A push that has loaded [mInCount] when it is reset. *)
Definition doubled_queue : MultiThreadQueue Z := mkQueue [7; 8]%Z 2 0 0 0 true.
Definition doubled_events : list (event Z) := [EPush 7%Z true; EPush 8%Z true; ECounters 1 0 0].

Lemma doubled_run : csteps (quiet newQueue) doubled_events [In] (quiet doubled_queue).
Proof.
  c_move c_push [EPush 7%Z true] [] _ [In].
  c_move do_store [] [] _ [In].
  c_move c_push [EPush 8%Z true] [] _ [In].
  c_move c_call [] [] _ [In].
  c_move c_read [] [] _ [In].
  c_move c_read [] [] _ [In].
  c_move c_read [] [] _ [In].
  c_move do_reset [] [] _ [In].
  c_move do_reset [] [] _ [In].
  c_move do_reset [] [In] _ [].
  c_move c_return [ECounters 1 0 0] [] [] [].
  c_move do_store [] [] [] []. constructor.
Qed.

Example count_doubled :
  (count pushed doubled_events, sum_in doubled_events + mInCount doubled_queue) = (2, 3).
Proof. reflexivity. Qed.

(** In the run that loses a push, the counter of the pops is still exact; in the run of
    testMultiThreadQueue.cc, one operation at a time, all are. *)
Lemma counters_account_witness :
  (csteps (quiet newQueue) lost_events [In] (quiet lost_queue) /\
   csteps (quiet test_start) test_events [] (quiet test_end)) /\
  u32 (sum_out lost_events + mOutCount lost_queue) = 0 /\
  u32 (sum_drop test_events + mDropCount test_end) = 2.
Proof.
  split; [exact (conj lost_run (one_at_a_time _ _ _ test_run))|].
  assert (Hout : Out ∉ [In]) by (by intros ?%list_elem_of_singleton). split.
  - exact (proj2 (counters_account _ _ _ _ lost_run) (conj eq_refl eq_refl) Out Hout).
  - exact (proj2 (counters_account _ _ _ _ (one_at_a_time _ _ _ test_run)) (conj eq_refl eq_refl) Drop
      (not_elem_of_nil Drop)).
Defined.
End CounterExamples.
