(* ===== verification/UrlCodec.v ===== *)
(** * URL codecs

    UrlCodec.hh/.cc: the two implementations of [IUrlCodec]. Escaping itself is
    Apache's ([ap_unescape_url], [ap_escape_path_segment]): the operations of a
    class, with their documented behaviour as its laws. *)
From S2P Require Import Prelude CxxString Boost.
Local Open Scope N_scope.

Class ApacheUrl : Type := {
  ap_unescape_url : string -> string;
  ap_escape_path_segment : string -> string
}.

(** [IUrlCodec]: a virtual class, here a record of its two methods. *)
Record IUrlCodec : Type := {
  decode : string -> string;
  encode : string -> string
}.

Section Codecs.
Context `{ApacheUrl, BoostString}.

Definition ApacheUrlCodec_decode (pIn : string) : string := ap_unescape_url (cstr pIn).
Definition ApacheUrlCodec_encode (pIn : string) : string := ap_escape_path_segment (cstr pIn).

Definition DefaultUrlCodec_decode (pIn : string) : string :=
  let preDecoded := replace_all pIn "+" " " in
  ap_unescape_url (cstr preDecoded).

Definition DefaultUrlCodec_encode (pIn : string) : string :=
  let encoded := ap_escape_path_segment (cstr pIn) in
  replace_all encoded "+" "%2b".

Definition ApacheUrlCodec : IUrlCodec :=
  {| decode := ApacheUrlCodec_decode; encode := ApacheUrlCodec_encode |}.

Definition DefaultUrlCodec : IUrlCodec :=
  {| decode := DefaultUrlCodec_decode; encode := DefaultUrlCodec_encode |}.

Definition getUrlCodec (pUrlCodec : string) : IUrlCodec :=
  if String.eqb pUrlCodec "apache" then ApacheUrlCodec else DefaultUrlCodec.
End Codecs.

(** ** Percent encoding *)

Definition hex_value (c : ascii) : option N :=
  let n := N_of_ascii c in
  if (48 <=? n) && (n <=? 57) then Some (n - 48)
  else if (65 <=? n) && (n <=? 70) then Some (n - 55)
  else if (97 <=? n) && (n <=? 102) then Some (n - 87)
  else None.

Definition percent : ascii := "%"%char.

(** Well-formed escaped text: a percent sign is followed by two hexadecimal
    digits, which do not stand for NUL; there is no NUL. *)
Inductive escaped : string -> Prop :=
  | escaped_nil : escaped EmptyString
  | escaped_plain c s : c <> percent -> c <> "000"%char -> escaped s -> escaped (String c s)
  | escaped_pct x y a b s :
      hex_value x = Some a -> hex_value y = Some b -> 16 * a + b <> 0 ->
      escaped s -> escaped (String percent (String x (String y s))).

(** The documented behaviour of Apache's functions. *)
Class ApacheUrlLaws (A : ApacheUrl) : Prop := {
  unescape_nil : ap_unescape_url EmptyString = EmptyString;
  unescape_plain c s :
    c <> percent -> ap_unescape_url (String c s) = String c (ap_unescape_url s);
  unescape_pct x y a b s :
    hex_value x = Some a -> hex_value y = Some b -> 16 * a + b <> 0 ->
    ap_unescape_url (String percent (String x (String y s)))
    = String (ascii_of_N (16 * a + b)) (ap_unescape_url s);
  escape_escaped s : has_char "000" s = false -> escaped (ap_escape_path_segment s);
  unescape_escape s :
    has_char "000" s = false -> ap_unescape_url (ap_escape_path_segment s) = s
}.

Section Theory.
Context {A : ApacheUrl} {HA : ApacheUrlLaws A} {B : BoostString} {HB : BoostStringLaws B}.

Lemma escaped_no_nul s : escaped s -> has_char "000" s = false.
Proof.
  induction 1 as [|c s Hc H0 _ IH|x y a b s Hx Hy _ _ IH]; simpl; [done|..].
  - rewrite IH. by destruct (Ascii.eqb_spec c "000").
  - rewrite IH. destruct (Ascii.eqb_spec x "000") as [->|]; [done|].
    by destruct (Ascii.eqb_spec y "000") as [->|].
Qed.

Lemma replace_char_cons (c f : ascii) (to s : string) :
  replace_go 0 (String f EmptyString) to (String c s)
  = if Ascii.eqb f c then to +:+ replace_go 0 (String f EmptyString) to s
    else String c (replace_go 0 (String f EmptyString) to s).
Proof. simpl. by rewrite andb_true_r. Qed.

Lemma replace_absent (f : ascii) (to s : string) :
  has_char f s = false -> replace_go 0 (String f EmptyString) to s = s.
Proof.
  induction s as [|c s IH]; [done|]. intros [Hc Hs]%orb_false_iff.
  rewrite replace_char_cons, IH by done. by rewrite Ascii.eqb_sym, Hc.
Qed.

Lemma hex_not_plus x a : hex_value x = Some a -> Ascii.eqb "+" x = false.
Proof. intros H. by destruct (Ascii.eqb_spec "+" x) as [<-|]. Qed.

(** Writing the plus signs of escaped text as [%2b] changes nothing for the
    reader, and no plus sign is left. *)
Lemma encode_plus s :
  escaped s ->
  let s' := replace_go 0 "+" "%2b" s in
  escaped s' /\ has_char "+" s' = false /\ ap_unescape_url s' = ap_unescape_url s.
Proof.
  induction 1 as [|c s Hc H0 Hs IH|x y a b s Hx Hy Hab Hs IH]; [by repeat constructor|..].
  - destruct IH as (IH1 & IH2 & IH3). cbv zeta. rewrite replace_char_cons.
    destruct (Ascii.eqb_spec "+" c) as [<-|Hne].
    + repeat split.
      * by apply (escaped_pct "2" "b" 2 11).
      * exact IH2.
      * rewrite !sapp_cons, sapp_nil_l, (unescape_plain "+") by done.
        change "%"%char with percent.
        rewrite (unescape_pct "2" "b" 2 11) by done. f_equal. exact IH3.
    + repeat split.
      * by constructor.
      * simpl. rewrite IH2. by destruct (Ascii.eqb_spec c "+"); [congruence|].
      * by rewrite !unescape_plain, IH3.
  - destruct IH as (IH1 & IH2 & IH3). cbv zeta. rewrite !replace_char_cons.
    rewrite (hex_not_plus x a Hx), (hex_not_plus y b Hy). simpl Ascii.eqb. cbv iota.
    repeat split.
    + by apply (escaped_pct x y a b).
    + simpl. rewrite IH2. rewrite (Ascii.eqb_sym x), (Ascii.eqb_sym y).
      by rewrite (hex_not_plus x a Hx), (hex_not_plus y b Hy).
    + by erewrite !unescape_pct, IH3 by done.
Qed.

Lemma decode_encode (name s : string) :
  has_char "000" s = false -> decode (getUrlCodec name) (encode (getUrlCodec name) s) = s.
Proof.
  intros Hs. unfold getUrlCodec. destruct (String.eqb name "apache"); simpl.
  - unfold ApacheUrlCodec_decode, ApacheUrlCodec_encode.
    rewrite (cstr_id s), cstr_id by eauto using escaped_no_nul, escape_escaped.
    by apply unescape_escape.
  - unfold DefaultUrlCodec_decode, DefaultUrlCodec_encode. rewrite !replace_all_spec.
    rewrite (cstr_id s) by done.
    destruct (encode_plus _ (escape_escaped _ Hs)) as (He & Hp & Hu).
    rewrite replace_absent, cstr_id, Hu by eauto using escaped_no_nul.
    by apply unescape_escape.
Qed.

(** [C39] Both codecs decode what they encode, and the default codec leaves no plus
    sign in what it writes, which it would read as a blank. *)
Theorem codec_roundtrip (name s : string) :
  has_char "000" s = false ->
  decode (getUrlCodec name) (encode (getUrlCodec name) s) = s /\
  (name <> "apache"%string -> has_char "+" (encode (getUrlCodec name) s) = false).
Proof.
  intros Hs. split; [by apply decode_encode|]. intros Hn. unfold getUrlCodec.
  destruct (String.eqb_spec name "apache"); [done|]. simpl. unfold DefaultUrlCodec_encode.
  rewrite cstr_id, replace_all_spec by done. by apply encode_plus, escape_escaped.
Qed.
End Theory.

(** ** A concrete percent codec *)
Module Percent.
Definition hex_digit (n : N) : ascii := if n <? 10 then ascii_of_N (48 + n) else ascii_of_N (87 + n).

Fixpoint unescape (s : string) : string :=
  match s with
  | EmptyString => EmptyString
  | String c t =>
      if Ascii.eqb c percent then
        match t with
        | String x (String y t') =>
            match hex_value x, hex_value y with
            | Some a, Some b => String (ascii_of_N (16 * a + b)) (unescape t')
            | _, _ => String c (unescape t)
            end
        | _ => String c (unescape t)
        end
      else String c (unescape t)
  end.

(** Letters, digits, and the signs a path segment may contain. *)
Definition keep (c : ascii) : bool :=
  let n := N_of_ascii c in
  ((48 <=? n) && (n <=? 57)) || ((65 <=? n) && (n <=? 90)) || ((97 <=? n) && (n <=? 122))
  || has_char c "+-._~!$&()*,=:@'".

Fixpoint escape (s : string) : string :=
  match s with
  | EmptyString => EmptyString
  | String c t =>
      if keep c then String c (escape t)
      else let n := N_of_ascii c in
           String percent (String (hex_digit (n / 16)) (String (hex_digit (n mod 16)) (escape t)))
  end.

#[export] Instance percent_url : ApacheUrl :=
  {| ap_unescape_url := unescape; ap_escape_path_segment := escape |}.

Definition byte_ok (c : ascii) : bool :=
  match hex_value (hex_digit (N_of_ascii c / 16)), hex_value (hex_digit (N_of_ascii c mod 16)) with
  | Some a, Some b => 16 * a + b =? N_of_ascii c
  | _, _ => false
  end.

Lemma byte_ok_all c : byte_ok c = true.
Proof. destruct c as [[] [] [] [] [] [] [] []]; vm_compute; reflexivity. Qed.

Lemma byte_hex c :
  exists a b, hex_value (hex_digit (N_of_ascii c / 16)) = Some a /\
              hex_value (hex_digit (N_of_ascii c mod 16)) = Some b /\ 16 * a + b = N_of_ascii c.
Proof.
  pose proof (byte_ok_all c) as H. unfold byte_ok in H.
  repeat case_match; try done. apply N.eqb_eq in H. eauto 6.
Qed.

#[export] Instance percent_laws : ApacheUrlLaws percent_url.
Proof.
  split; simpl.
  - done.
  - intros c s Hc. simpl. by destruct (Ascii.eqb_spec c percent).
  - intros x y a b s Hx Hy _. simpl. by rewrite Hx, Hy.
  - intros s. induction s as [|c s IH]; simpl; [constructor|].
    intros [Hc Hs]%orb_false_iff. destruct (keep c) eqn:Hk.
    + constructor; [by intros ->|by intros ->|auto].
    + destruct (byte_hex c) as (a & b & Ha & Hb & Hab).
      eapply escaped_pct; [done..| |auto]. rewrite Hab. intros H0.
      rewrite <- (ascii_N_embedding c), H0 in Hc. done.
  - intros s. induction s as [|c s IH]; simpl; [done|].
    intros [Hc Hs]%orb_false_iff. destruct (keep c) eqn:Hk; simpl.
    + destruct (Ascii.eqb_spec c percent) as [->|]; [done|]. by rewrite IH.
    + destruct (byte_hex c) as (a & b & -> & -> & ->).
      by rewrite IH, ascii_N_embedding.
Qed.
End Percent.

Lemma codec_roundtrip_witness :
  let _ := Percent.percent_url in let _ := Reference.boost_string in
  has_char "000" "a b+c/%d" = false /\
  decode (getUrlCodec "default") (encode (getUrlCodec "default") "a b+c/%d") = "a b+c/%d"%string /\
  ("default"%string <> "apache"%string ->
   has_char "+" (encode (getUrlCodec "default") "a b+c/%d") = false).
Proof.
  split; [reflexivity|].
  by apply (codec_roundtrip (HA := Percent.percent_laws) (HB := Reference.boost_string_laws)).
Defined.
