(* ===== verification/DupConf.v ===== *)
(** * DupConf

    The per-directory configuration of mod_dup (class [DupConf] of mod_dup.hh
    and mod_dup.cc). The regular expression of [errorLogBodyMatch] is Boost's. *)
From S2P Require Import Prelude CxxString Boost RequestCommon.
Local Open Scope N_scope.

Import ApplicationScope DuplicationType.

Section DupConf.
Context `{BoostRegex}.

Record DupConf : Type := mkDupConf {
  currentApplicationScope : eApplicationScope;
  dirName : option string;
  currentDupDestination : string;
  synchronous : bool;
  errorLogBodyMatch : regex;
  mCurrentDuplicationType : eDuplicationType;
  mHighestDuplicationType : eDuplicationType
}.

Definition newDupConf : DupConf :=
  {| currentApplicationScope := QUERY_STRING; dirName := None; currentDupDestination := "";
     synchronous := false; errorLogBodyMatch := regex_default;
     mCurrentDuplicationType := NONE; mHighestDuplicationType := NONE |}.

Definition set_currentApplicationScope (x : eApplicationScope) (c : DupConf) : DupConf :=
  {| currentApplicationScope := x; dirName := dirName c;
     currentDupDestination := currentDupDestination c; synchronous := synchronous c;
     errorLogBodyMatch := errorLogBodyMatch c;
     mCurrentDuplicationType := mCurrentDuplicationType c;
     mHighestDuplicationType := mHighestDuplicationType c |}.

Definition set_dirName (x : option string) (c : DupConf) : DupConf :=
  {| currentApplicationScope := currentApplicationScope c; dirName := x;
     currentDupDestination := currentDupDestination c; synchronous := synchronous c;
     errorLogBodyMatch := errorLogBodyMatch c;
     mCurrentDuplicationType := mCurrentDuplicationType c;
     mHighestDuplicationType := mHighestDuplicationType c |}.

Definition set_currentDupDestination (x : string) (c : DupConf) : DupConf :=
  {| currentApplicationScope := currentApplicationScope c; dirName := dirName c;
     currentDupDestination := x; synchronous := synchronous c;
     errorLogBodyMatch := errorLogBodyMatch c;
     mCurrentDuplicationType := mCurrentDuplicationType c;
     mHighestDuplicationType := mHighestDuplicationType c |}.

Definition set_synchronous (x : bool) (c : DupConf) : DupConf :=
  {| currentApplicationScope := currentApplicationScope c; dirName := dirName c;
     currentDupDestination := currentDupDestination c; synchronous := x;
     errorLogBodyMatch := errorLogBodyMatch c;
     mCurrentDuplicationType := mCurrentDuplicationType c;
     mHighestDuplicationType := mHighestDuplicationType c |}.

Definition set_errorLogBodyMatch (x : regex) (c : DupConf) : DupConf :=
  {| currentApplicationScope := currentApplicationScope c; dirName := dirName c;
     currentDupDestination := currentDupDestination c; synchronous := synchronous c;
     errorLogBodyMatch := x; mCurrentDuplicationType := mCurrentDuplicationType c;
     mHighestDuplicationType := mHighestDuplicationType c |}.

(** [None] is the null pointer the setters return on success. *)
Definition setErrorLogBodyMatch (match_ : string) (c : DupConf) : DupConf * option string :=
  match regex_make match_ false with
  | Some r => (set_errorLogBodyMatch r c, None)
  | None => (c, Some "Invalid regular expression in filter definition."%string)
  end.

Definition setCurrentDuplicationType (dt : eDuplicationType) (c : DupConf) : DupConf :=
  {| currentApplicationScope := currentApplicationScope c; dirName := dirName c;
     currentDupDestination := currentDupDestination c; synchronous := synchronous c;
     errorLogBodyMatch := errorLogBodyMatch c; mCurrentDuplicationType := dt;
     mHighestDuplicationType :=
       if value (mHighestDuplicationType c) <? value dt then dt
       else mHighestDuplicationType c |}.

Definition getCurrentDuplicationType (c : DupConf) : eDuplicationType :=
  mCurrentDuplicationType c.

Definition getHighestDuplicationType (c : DupConf) : eDuplicationType :=
  mHighestDuplicationType c.

(** ** The highest type is an upper bound of the types seen *)

Lemma highest_ge dt c :
  value dt <= value (getHighestDuplicationType (setCurrentDuplicationType dt c)) /\
  value (getHighestDuplicationType c)
  <= value (getHighestDuplicationType (setCurrentDuplicationType dt c)).
Proof. unfold getHighestDuplicationType. simpl. destruct (N.ltb_spec (value (mHighestDuplicationType c)) (value dt)); lia. Qed.

(** The highest of the types given so far, as the maximum of their values. *)
Lemma highest_is_max (l : list eDuplicationType) c :
  value (getHighestDuplicationType (foldl (fun c dt => setCurrentDuplicationType dt c) c l))
  = foldl N.max (value (getHighestDuplicationType c)) (value <$> l).
Proof.
  revert c. induction l as [|dt l IH]; intros c; [done|].
  cbn [foldl fmap list_fmap]. rewrite IH. f_equal.
  unfold getHighestDuplicationType. simpl. destruct (N.ltb_spec (value (mHighestDuplicationType c)) (value dt)); lia.
Qed.
End DupConf.
