(* ===== verification/Filters.v ===== *)
(** * Filters

    The filters and their evaluation: [tElementBase], [tFilter], [tSubstitute],
    [ci_less], [Commands] of RequestProcessor.hh, and [parseArgs],
    [keyFilterMatch], [matchesFilter] of RequestProcessor.cc. A [tFilter *] the
    code returns is the filter itself; [mMatch] is mutable in the code, so the
    functions return the updated containers. [matches_spec] is the abstract
    specification [matchesFilter] implements. *)
From S2P Require Import Prelude CxxString StdMap Boost RequestCommon RequestInfo UrlCodec.
Local Open Scope N_scope.

Import ApplicationScope DuplicationType.

(** ** The case-insensitive comparator *)

Record ci_string : Type := CI { ci_str : string }.

Definition nocase_compare (c1 c2 : ascii) : bool :=
  N_of_ascii (tolower c1) <? N_of_ascii (tolower c2).

(** [std::lexicographical_compare] with [nocase_compare]. *)
Fixpoint ci_compare (s1 s2 : string) : bool :=
  match s1, s2 with
  | _, EmptyString => false
  | EmptyString, String _ _ => true
  | String a s1', String b s2' =>
      if nocase_compare a b then true
      else if nocase_compare b a then false
      else ci_compare s1' s2'
  end.

#[export] Instance ci_less : CxxLess ci_string := fun a b => ci_compare (ci_str a) (ci_str b).

Lemma ci_compare_lower a b : ci_compare a b = str_ltb (lower a) (lower b).
Proof.
  unfold nocase_compare, lower.
  revert b. induction a as [|x a IH]; intros [|y b]; [done..|].
  simpl. unfold nocase_compare. by rewrite IH.
Qed.

#[export] Instance ci_swo : StrictWeakOrder ci_string.
Proof.
  split; unfold less, ci_less; intros *; rewrite ?ci_compare_lower.
  - apply (less_irrefl (K := string)).
  - apply (less_trans (K := string)).
  - apply (less_incomp_trans (K := string)).
Qed.

(** Two keys are equivalent when they are equal up to the case of letters. *)
Lemma ci_equiv a b : equiv_key (CI a) (CI b) = strcaseeq a b.
Proof.
  unfold strcaseeq. destruct (String.eqb_spec (lower a) (lower b)) as [E|E].
  - apply equiv_key_true. unfold less, ci_less. simpl. rewrite !ci_compare_lower, E.
    split; apply (less_irrefl (K := string)).
  - destruct (equiv_key (CI a) (CI b)) eqn:He; [|done]. exfalso. apply E.
    apply equiv_key_true in He as [H1 H2]. unfold less, ci_less in H1, H2. simpl in H1, H2.
    rewrite ci_compare_lower in H1, H2. by apply str_ltb_total.
Qed.

Section Filters.
Context `{BoostRegex, BoostString}.

(** ** Filters, substitutions and commands *)

Inductive eFilterTypes : Type := REGULAR | PREVENT_DUPLICATION.

#[export] Instance ftype_eq_dec : EqDecision eFilterTypes.
Proof. solve_decision. Defined.

Record tFilter : Type := mkFilter {
  mScope : eApplicationScope;
  mRegex : regex;
  mDestination : string;
  mErrorLogBodyMatch : regex;
  mDuplicationType : eDuplicationType;
  mFilterType : eFilterTypes;
  mMatch : string
}.

(** [tFilter(regex, scope, currentDupDestination, dupType, errorLogBodyMatch, fType)];
    the regular expression's constructor may throw. *)
Definition newFilter (rx : string) (scope : eApplicationScope) (dest : string)
    (dupType : eDuplicationType) (errorMatch : regex) (fType : eFilterTypes)
    : outcome tFilter :=
  let! r := of_option BadExpression (regex_make rx false) in
  Ret {| mScope := scope; mRegex := r; mDestination := dest; mErrorLogBodyMatch := errorMatch;
         mDuplicationType := dupType; mFilterType := fType; mMatch := "" |}.

Definition set_mMatch (x : string) (f : tFilter) : tFilter :=
  {| mScope := mScope f; mRegex := mRegex f; mDestination := mDestination f;
     mErrorLogBodyMatch := mErrorLogBodyMatch f; mDuplicationType := mDuplicationType f;
     mFilterType := mFilterType f; mMatch := x |}.

Record tSubstitute : Type := mkSubstitute {
  sScope : eApplicationScope;
  sRegex : regex;
  mReplacement : string
}.

Definition newSubstitute (rx replacement : string) (scope : eApplicationScope)
    : outcome tSubstitute :=
  let! r := of_option BadExpression (regex_make rx false) in
  Ret {| sScope := scope; sRegex := r; mReplacement := replacement |}.

Definition tFiltersMap : Type := list (ci_string * tFilter).
Definition tFieldSubstitutionMap : Type := list (string * list tSubstitute).

Record Commands : Type := mkCommands {
  mFilters : tFiltersMap;
  mRawFilters : list tFilter;
  mSubstitutions : tFieldSubstitutionMap;
  mRawSubstitutions : list tSubstitute;
  mDuplicationPercentage : N
}.

Definition newCommands : Commands :=
  {| mFilters := []; mRawFilters := []; mSubstitutions := []; mRawSubstitutions := [];
     mDuplicationPercentage := 100 |}.

Definition set_mFilters (x : tFiltersMap) (c : Commands) : Commands :=
  {| mFilters := x; mRawFilters := mRawFilters c; mSubstitutions := mSubstitutions c;
     mRawSubstitutions := mRawSubstitutions c;
     mDuplicationPercentage := mDuplicationPercentage c |}.

Definition set_mRawFilters (x : list tFilter) (c : Commands) : Commands :=
  {| mFilters := mFilters c; mRawFilters := x; mSubstitutions := mSubstitutions c;
     mRawSubstitutions := mRawSubstitutions c;
     mDuplicationPercentage := mDuplicationPercentage c |}.

Definition set_mSubstitutions (x : tFieldSubstitutionMap) (c : Commands) : Commands :=
  {| mFilters := mFilters c; mRawFilters := mRawFilters c; mSubstitutions := x;
     mRawSubstitutions := mRawSubstitutions c;
     mDuplicationPercentage := mDuplicationPercentage c |}.

Definition set_mRawSubstitutions (x : list tSubstitute) (c : Commands) : Commands :=
  {| mFilters := mFilters c; mRawFilters := mRawFilters c; mSubstitutions := mSubstitutions c;
     mRawSubstitutions := x; mDuplicationPercentage := mDuplicationPercentage c |}.

Definition set_mDuplicationPercentage (x : N) (c : Commands) : Commands :=
  {| mFilters := mFilters c; mRawFilters := mRawFilters c; mSubstitutions := mSubstitutions c;
     mRawSubstitutions := mRawSubstitutions c; mDuplicationPercentage := x |}.

(** ** Parsing the arguments *)

Context (mUrlCodec : IUrlCodec).

Definition parseToken (lToken : string) : tKeyVal :=
  match find_char "=" lToken with
  | None => (to_upper lToken, EmptyString)
  | Some lEqualPos =>
      (to_upper (str_take lEqualPos lToken),
       decode mUrlCodec (str_drop (lEqualPos + 1) lToken))
  end.

Definition parseArgs (pParsedArgs : tKeyValList) (pArgs : string) : tKeyValList :=
  pParsedArgs ++ (parseToken <$> tokens "&" pArgs).

(** ** Key filters *)

(** The inner loop of [keyFilterMatch], over the entries of an equal range. *)
Fixpoint rangeMatch (range : tFiltersMap) (lVal : string) (scope : eApplicationScope)
    (fType : eFilterTypes) : option (tFiltersMap * tFilter) :=
  match range with
  | [] => None
  | (k, f) :: t =>
      if has (mScope f) scope && bool_decide (mFilterType f = fType) then
        if regex_matches lVal (mRegex f) then
          let f' := set_mMatch (regex_str (mRegex f)) f in
          Some ((k, f') :: t, f')
        else prod_map (cons (k, f)) id <$> rangeMatch t lVal scope fType
      else prod_map (cons (k, f)) id <$> rangeMatch t lVal scope fType
  end.

Fixpoint keyFilterMatch (pFilters : tFiltersMap) (pParsedArgs : tKeyValList)
    (scope : eApplicationScope) (fType : eFilterTypes) : tFiltersMap * option tFilter :=
  match pParsedArgs with
  | [] => (pFilters, None)
  | (lKey, lVal) :: rest =>
      match rangeMatch (mm_equal_range (CI lKey) pFilters) lVal scope fType with
      | Some (range', f) =>
          (take_less (CI lKey) pFilters ++ range' ++ mm_upper (CI lKey) pFilters, Some f)
      | None => keyFilterMatch pFilters rest scope fType
      end
  end.

(** The counters of query string, header and body filters. *)
Definition applicationOnMap (l : tFiltersMap) (counts : N * N * N) : N * N * N :=
  foldl (fun '(qs, header, body) '((_, f) : ci_string * tFilter) =>
           (if has (mScope f) QUERY_STRING then qs + 1 else qs,
            if has (mScope f) HEADERS then header + 1 else header,
            if has (mScope f) BODY then body + 1 else body)) counts l.

(** ** Raw filters *)

(** The first part of the request, among those the scope selects and in the
    order of the code, the raw filter's expression is found in; the result is
    the matched text. *)
Definition rawSearch (pRequest : RequestInfo) (raw : tFilter) : option string :=
  let try_ (scope : eApplicationScope) (s : string) (k : option string) :=
    if has (mScope raw) scope then
      match regex_search s (mRegex raw) with Some what => Some what | None => k end
    else k in
  try_ METHOD (mMethod pRequest)
    (try_ PATH (mPath pRequest)
      (try_ QUERY_STRING (mArgs pRequest)
        (try_ HEADERS (flatten (mHeadersIn pRequest) flatten_sep)
          (try_ BODY (mBody pRequest) None)))).

Fixpoint rawPrevents (pRequest : RequestInfo) (raws : list tFilter) : bool :=
  match raws with
  | [] => false
  | raw :: t =>
      if bool_decide (mFilterType raw = PREVENT_DUPLICATION) then
        match rawSearch pRequest raw with
        | Some _ => true
        | None => rawPrevents pRequest t
        end
      else rawPrevents pRequest t
  end.

Fixpoint rawMatch (pRequest : RequestInfo) (raws : list tFilter)
    : option (list tFilter * tFilter) :=
  match raws with
  | [] => None
  | raw :: t =>
      if bool_decide (mFilterType raw <> PREVENT_DUPLICATION) then
        match rawSearch pRequest raw with
        | Some what => let raw' := set_mMatch what raw in Some (raw' :: t, raw')
        | None => prod_map (cons raw) id <$> rawMatch pRequest t
        end
      else prod_map (cons raw) id <$> rawMatch pRequest t
  end.

(** ** matchesFilter *)

Definition matchesFilter (pRequest : RequestInfo) (pCommands : Commands)
    : Commands * option tFilter :=
  let F0 := mFilters pCommands in
  let '(keyFilterOnQS, keyFilterOnHeader, keyFilterOnBody) := applicationOnMap F0 (0, 0, 0) in
  let lParsedArgs :=
    if keyFilterOnBody =? 0 then [] else parseArgs [] (mBody pRequest) in
  let key (on : N) (F : tFiltersMap) (args : tKeyValList) (scope : eApplicationScope)
      (fType : eFilterTypes) : tFiltersMap * option tFilter :=
    if on =? 0 then (F, None) else keyFilterMatch F args scope fType in
  match key keyFilterOnQS F0 (mParsedArgs pRequest) QUERY_STRING PREVENT_DUPLICATION with
  | (F, Some _) => (set_mFilters F pCommands, None)
  | (F, None) =>
  match key keyFilterOnHeader F (mHeadersIn pRequest) HEADERS PREVENT_DUPLICATION with
  | (F, Some _) => (set_mFilters F pCommands, None)
  | (F, None) =>
  match key keyFilterOnBody F lParsedArgs BODY PREVENT_DUPLICATION with
  | (F, Some _) => (set_mFilters F pCommands, None)
  | (F, None) =>
  if rawPrevents pRequest (mRawFilters pCommands) then (set_mFilters F pCommands, None) else
  match key keyFilterOnQS F (mParsedArgs pRequest) QUERY_STRING REGULAR with
  | (F, Some matched) => (set_mFilters F pCommands, Some matched)
  | (F, None) =>
  match key keyFilterOnHeader F (mHeadersIn pRequest) HEADERS REGULAR with
  | (F, Some matched) => (set_mFilters F pCommands, Some matched)
  | (F, None) =>
  match key keyFilterOnBody F lParsedArgs BODY REGULAR with
  | (F, Some matched) => (set_mFilters F pCommands, Some matched)
  | (F, None) =>
  match rawMatch pRequest (mRawFilters pCommands) with
  | Some (raws, raw) =>
      (set_mRawFilters raws (set_mFilters F pCommands), Some raw)
  | None => (set_mFilters F pCommands, None)
  end end end end end end end.

(** ** Specification

    The filters a request is compared with, in the order of the code, as a list:
    the result of [matchesFilter] is the first one, unless a prevent filter
    matches somewhere. *)

Definition key_hit (scope : eApplicationScope) (fType : eFilterTypes) (kv : tKeyVal)
    (e : ci_string * tFilter) : bool :=
  strcaseeq (fst kv) (ci_str (fst e)) && has (mScope (snd e)) scope
  && bool_decide (mFilterType (snd e) = fType) && regex_matches (snd kv) (mRegex (snd e)).

Definition key_matched (e : ci_string * tFilter) : tFilter :=
  set_mMatch (regex_str (mRegex (snd e))) (snd e).

Definition key_candidates (F : tFiltersMap) (fType : eFilterTypes)
    (field : eApplicationScope * tKeyValList) : list tFilter :=
  flat_map (fun kv => key_matched <$> List.filter (key_hit (fst field) fType kv) F) (snd field).

Definition raw_candidates (pRequest : RequestInfo) (fType : eFilterTypes) (raws : list tFilter)
    : list tFilter :=
  omap (fun raw => if bool_decide (mFilterType raw = fType)
                   then (fun what => set_mMatch what raw) <$> rawSearch pRequest raw
                   else None) raws.

(** The parts of the request key filters look at. *)
Definition request_fields (pRequest : RequestInfo) : list (eApplicationScope * tKeyValList) :=
  [(QUERY_STRING, mParsedArgs pRequest); (HEADERS, mHeadersIn pRequest);
   (BODY, parseArgs [] (mBody pRequest))].

Definition candidates (pRequest : RequestInfo) (fType : eFilterTypes) (c : Commands)
    : list tFilter :=
  flat_map (key_candidates (mFilters c) fType) (request_fields pRequest)
  ++ raw_candidates pRequest fType (mRawFilters c).

Definition matches_spec (pRequest : RequestInfo) (c : Commands) : option tFilter :=
  match candidates pRequest PREVENT_DUPLICATION c with
  | [] => head (candidates pRequest REGULAR c)
  | _ :: _ => None
  end.

(** The invariant of the [std::multimap]. *)
Definition filters_sorted (c : Commands) : Prop := mm_sorted (mFilters c).

(** Two states of the commands that differ only in the [mMatch] fields. *)
Definition cmd_equiv (c c' : Commands) : Prop :=
  prod_map id (set_mMatch EmptyString) <$> mFilters c
  = prod_map id (set_mMatch EmptyString) <$> mFilters c' /\
  set_mMatch EmptyString <$> mRawFilters c = set_mMatch EmptyString <$> mRawFilters c' /\
  mSubstitutions c = mSubstitutions c' /\ mRawSubstitutions c = mRawSubstitutions c' /\
  mDuplicationPercentage c = mDuplicationPercentage c'.
End Filters.

Section Theory.
Context `{BoostRegex, BoostString} (mUrlCodec : IUrlCodec).
Implicit Types (F : tFiltersMap) (c : Commands) (f : tFilter).

#[export] Instance cmd_equiv_equivalence : Equivalence cmd_equiv.
Proof.
  unfold cmd_equiv. split.
  - intros c. done.
  - intros a b (?&?&?&?&?). by repeat split.
  - intros a b d (?&?&?&?&?) (?&?&?&?&?). repeat split; etrans; eauto.
Qed.

(** The range scan finds the first hit of the range and marks it. *)
Lemma rangeMatch_spec range lVal scope fType :
  match rangeMatch range lVal scope fType with
  | Some (range', f) =>
      exists l k g r, range = l ++ (k, g) :: r /\ range' = l ++ (k, f) :: r /\
        f = key_matched (k, g) /\
        head (List.filter (fun e => has (mScope (snd e)) scope
                && bool_decide (mFilterType (snd e) = fType)
                && regex_matches lVal (mRegex (snd e))) range) = Some (k, g)
  | None => List.filter (fun e => has (mScope (snd e)) scope
                && bool_decide (mFilterType (snd e) = fType)
                && regex_matches lVal (mRegex (snd e))) range = []
  end.
Proof.
  induction range as [|[k f] t IH]; simpl; [done|].
  destruct (has (mScope f) scope && bool_decide (mFilterType f = fType)); simpl.
  - destruct (regex_matches lVal (mRegex f)); simpl.
    { by exists [], k, f, t. }
    destruct (rangeMatch t lVal scope fType) as [[range' f']|]; simpl; [|done].
    destruct IH as (l & k' & g & r & -> & -> & Hf & Hh). by exists ((k, f) :: l), k', g, r.
  - destruct (rangeMatch t lVal scope fType) as [[range' f']|]; simpl; [|done].
    destruct IH as (l & k' & g & r & -> & -> & Hf & Hh). by exists ((k, f) :: l), k', g, r.
Qed.

Lemma key_hit_range F scope fType kv :
  mm_sorted F ->
  List.filter (key_hit scope fType kv) F
  = List.filter (fun e => has (mScope (snd e)) scope
                && bool_decide (mFilterType (snd e) = fType)
                && regex_matches (snd kv) (mRegex (snd e))) (mm_equal_range (CI (fst kv)) F).
Proof.
  intros HF. rewrite mm_equal_range_filter, filter_filter by done.
  apply List.filter_ext. intros [[k] f]. unfold key_hit. cbn [fst snd]. rewrite ci_equiv. simpl.
  by rewrite !andb_assoc.
Qed.

Lemma head_flat_map {A B} (g : A -> list B) (l : list A) :
  head (flat_map g l)
  = match l with [] => None | x :: t => match head (g x) with Some y => Some y
                                        | None => head (flat_map g t) end end.
Proof. destruct l as [|x l]; simpl; [done|]. by destruct (g x). Qed.

Lemma head_fmap_list {A B} (g : A -> B) (l : list A) : head (g <$> l) = g <$> head l.
Proof. by destruct l. Qed.

Lemma forget_key_matched e :
  set_mMatch EmptyString (key_matched e) = set_mMatch EmptyString (snd e).
Proof. by destruct e as [k []]. Qed.

Lemma keyFilterMatch_spec F args scope fType :
  mm_sorted F ->
  let r := keyFilterMatch F args scope fType in
  snd r = head (key_candidates F fType (scope, args)) /\
  (snd r = None -> fst r = F) /\
  prod_map id (set_mMatch EmptyString) <$> fst r
  = prod_map id (set_mMatch EmptyString) <$> F.
Proof.
  intros HF. unfold key_candidates. induction args as [|[k v] args IH]; [done|].
  cbv zeta. cbn [keyFilterMatch snd fst] in *. rewrite head_flat_map, (key_hit_range F) by done.
  pose proof (rangeMatch_spec (mm_equal_range (CI k) F) v scope fType) as HR.
  destruct (rangeMatch _ _ _ _) as [[range' f]|]; cbn [fst snd] in *.
  - destruct HR as (l & k' & g & r & Hrange & -> & -> & Hh).
    rewrite (head_fmap_list key_matched), Hh. cbn. split; [done|]. split; [done|].
    rewrite <- (mm_split (CI k) F) at 3. rewrite Hrange, !fmap_app, !fmap_cons.
    cbn. by rewrite forget_key_matched.
  - rewrite HR. exact IH.
Qed.

(** The counters only spare searches that would find nothing. *)
Lemma applicationOnMap_zero F qs hd bd :
  let '(q, h, b) := applicationOnMap F (qs, hd, bd) in
  qs <= q /\ hd <= h /\ bd <= b /\
  (q = 0 -> Forall (fun e => has (mScope (snd e)) QUERY_STRING = false) F) /\
  (h = 0 -> Forall (fun e => has (mScope (snd e)) HEADERS = false) F) /\
  (b = 0 -> Forall (fun e => has (mScope (snd e)) BODY = false) F).
Proof.
  unfold applicationOnMap. revert qs hd bd.
  induction F as [|[k f] F IH]; intros qs hd bd; cbn [foldl].
  - repeat split; try lia; by constructor.
  - specialize (IH (if has (mScope f) QUERY_STRING then qs + 1 else qs)
                   (if has (mScope f) HEADERS then hd + 1 else hd)
                   (if has (mScope f) BODY then bd + 1 else bd)).
    destruct (foldl _ _ F) as [[q h] b]. destruct IH as (Hq & Hh & Hb & Iq & Ih & Ib).
    repeat split; try (repeat case_match; lia); intros E; constructor; auto; simpl;
      apply not_true_is_false; intros Ht; rewrite Ht in *; lia.
Qed.

Lemma key_candidates_off F scope fType args :
  Forall (fun e => has (mScope (snd e)) scope = false) F ->
  key_candidates F fType (scope, args) = [].
Proof.
  intros HF. unfold key_candidates. simpl. induction args as [|kv args IH]; [done|].
  simpl. rewrite IH, app_nil_r. clear IH.
  induction HF as [|e F He _ IHF]; [done|]. simpl. unfold key_hit at 1.
  by rewrite He, andb_false_r.
Qed.

(** A search, guarded by its counter, as the head of the candidates. *)
Lemma guarded_search on F args scope fType :
  mm_sorted F -> (on = 0 -> Forall (fun e => has (mScope (snd e)) scope = false) F) ->
  let r := if on =? 0 then (F, None) else keyFilterMatch F args scope fType in
  snd r = head (key_candidates F fType (scope, args)) /\
  (snd r = None -> fst r = F) /\
  prod_map id (set_mMatch EmptyString) <$> fst r = prod_map id (set_mMatch EmptyString) <$> F.
Proof.
  intros HF Hon. destruct (N.eqb_spec on 0) as [->|]; [|by apply keyFilterMatch_spec].
  by rewrite key_candidates_off by auto.
Qed.

Lemma rawPrevents_spec pRequest raws :
  rawPrevents pRequest raws
  = match raw_candidates pRequest PREVENT_DUPLICATION raws with [] => false | _ => true end.
Proof.
  induction raws as [|raw t IH]; simpl; [done|]. rewrite IH.
  destruct (bool_decide (mFilterType raw = PREVENT_DUPLICATION)); simpl; [|done].
  by destruct (rawSearch pRequest raw).
Qed.

Lemma not_prevent f :
  bool_decide (mFilterType f <> PREVENT_DUPLICATION) = bool_decide (mFilterType f = REGULAR).
Proof. by destruct f as [? ? ? ? ? [] ?]. Qed.

Lemma rawMatch_spec pRequest raws :
  match rawMatch pRequest raws with
  | Some (raws', raw) =>
      head (raw_candidates pRequest REGULAR raws) = Some raw /\
      set_mMatch EmptyString <$> raws' = set_mMatch EmptyString <$> raws
  | None => raw_candidates pRequest REGULAR raws = []
  end.
Proof.
  induction raws as [|raw t IH]; simpl; [done|]. rewrite not_prevent.
  destruct (bool_decide (mFilterType raw = REGULAR)); simpl.
  - destruct (rawSearch pRequest raw) as [what|]; simpl.
    { split; [done|]. by destruct raw. }
    destruct (rawMatch pRequest t) as [[raws' raw']|]; simpl; [|done].
    destruct IH as [-> IH]. split; [done|]. cbn. by f_equal.
  - destruct (rawMatch pRequest t) as [[raws' raw']|]; simpl; [|done].
    destruct IH as [-> IH]. split; [done|]. cbn. by f_equal.
Qed.

Lemma head_app_list {A} (l k : list A) :
  head (l ++ k) = match head l with Some x => Some x | None => head k end.
Proof. by destruct l. Qed.

Lemma head_None_nil {A} (l : list A) : head l = None -> l = [].
Proof. by destruct l. Qed.

Lemma cmd_equiv_filters F c :
  prod_map id (set_mMatch EmptyString) <$> F
  = prod_map id (set_mMatch EmptyString) <$> mFilters c -> cmd_equiv (set_mFilters F c) c.
Proof. intros HF. by repeat split. Qed.

(** The search on the body parses the body only when a filter needs it. *)
Lemma body_search on F body fType :
  (if on =? 0 then (F, None)
   else keyFilterMatch F (if on =? 0 then [] else parseArgs mUrlCodec [] body) BODY fType)
  = (if on =? 0 then (F, None) else keyFilterMatch F (parseArgs mUrlCodec [] body) BODY fType).
Proof. by destruct (on =? 0). Qed.

Ltac guarded_step :=
  match goal with
  | |- context [match (if ?on =? 0 then (?F, None) else keyFilterMatch ?F ?args ?sc ?ft) with _ => _ end] =>
      let Hs := fresh "Hs" in let Hn := fresh "Hn" in let He := fresh "He" in
      destruct (guarded_search on F args sc ft) as (Hs & Hn & He); [assumption..|];
      cbv zeta in Hs, Hn, He;
      destruct (if on =? 0 then (F, None) else keyFilterMatch F args sc ft) as [? [?|]];
      cbn [fst snd] in Hs, Hn, He; [|specialize (Hn eq_refl); subst; clear He]
  end.

(** Everything [matchesFilter] computes: the first candidate unless a prevent
    filter matches; the commands keep everything but the [mMatch] fields. *)
Lemma matchesFilter_spec pRequest c :
  filters_sorted c ->
  snd (matchesFilter mUrlCodec pRequest c) = matches_spec mUrlCodec pRequest c /\
  cmd_equiv (fst (matchesFilter mUrlCodec pRequest c)) c.
Proof.
  intros HF. unfold matchesFilter, matches_spec, candidates, request_fields.
  pose proof (applicationOnMap_zero (mFilters c) 0 0 0) as Hz.
  destruct (applicationOnMap (mFilters c) (0, 0, 0)) as [[q h] b].
  destruct Hz as (_ & _ & _ & Hq & Hh & Hb).
  cbv zeta beta. cbn [flat_map]. rewrite app_nil_r.
  guarded_step.
  { rewrite <- !app_assoc. by destruct (key_candidates _ _ _); [|split; [|apply cmd_equiv_filters]]. }
  symmetry in Hs; apply head_None_nil in Hs as ->.
  guarded_step.
  { by destruct (key_candidates _ _ (HEADERS, _)); [|split; [|apply cmd_equiv_filters]]. }
  symmetry in Hs; apply head_None_nil in Hs as ->.
  rewrite body_search. guarded_step.
  { by destruct (key_candidates _ _ (BODY, _)); [|split; [|apply cmd_equiv_filters]]. }
  symmetry in Hs; apply head_None_nil in Hs as ->. cbn [app].
  rewrite rawPrevents_spec.
  destruct (raw_candidates pRequest PREVENT_DUPLICATION (mRawFilters c));
    [|split; [done|by apply cmd_equiv_filters]].
  rewrite <- !app_assoc, !head_app_list.
  guarded_step; rewrite <- Hs; [split; [done|by apply cmd_equiv_filters]|].
  guarded_step; rewrite <- Hs0; [split; [done|by apply cmd_equiv_filters]|].
  rewrite body_search. guarded_step; rewrite <- Hs1; [split; [done|by apply cmd_equiv_filters]|].
  pose proof (rawMatch_spec pRequest (mRawFilters c)) as Hr.
  destruct (rawMatch pRequest (mRawFilters c)) as [[raws raw]|].
  - destruct Hr as [-> Hr]. split; [done|]. by repeat split.
  - rewrite Hr. split; [done|]. by apply cmd_equiv_filters.
Qed.

(** *** The [mMatch] fields carry no information from one request to the next *)

Lemma key_candidates_forget F fType field :
  key_candidates (prod_map id (set_mMatch EmptyString) <$> F) fType field
  = key_candidates F fType field.
Proof.
  unfold key_candidates. destruct field as [scope args]. simpl.
  induction args as [|kv args IH]; simpl; [done|]. rewrite IH. f_equal. clear IH.
  induction F as [|[k f] F IH]; [done|]. cbn [fmap list_fmap List.filter prod_map fst snd].
  replace (key_hit scope fType kv (id k, set_mMatch EmptyString f))
    with (key_hit scope fType kv (k, f)) by done.
  destruct (key_hit scope fType kv (k, f)); [|exact IH]. cbn [fmap list_fmap]. by rewrite IH.
Qed.

Lemma rawSearch_forget pRequest w raw :
  rawSearch pRequest (set_mMatch w raw) = rawSearch pRequest raw.
Proof. done. Qed.

Lemma raw_candidates_forget pRequest fType raws :
  raw_candidates pRequest fType (set_mMatch EmptyString <$> raws)
  = raw_candidates pRequest fType raws.
Proof.
  induction raws as [|raw t IH]; [done|]. unfold raw_candidates in *.
  cbn [fmap list_fmap omap list_omap]. rewrite rawSearch_forget.
  cbn [mFilterType set_mMatch].
  destruct (bool_decide _); [|exact IH]. destruct (rawSearch pRequest raw); [|exact IH].
  apply (f_equal2 cons); [done|exact IH].
Qed.

#[export] Instance candidates_proper :
  Proper ((=) ==> (=) ==> cmd_equiv ==> (=)) (candidates mUrlCodec).
Proof.
  intros r ? <- ft ? <- c c' (HF & HR & _). unfold candidates.
  rewrite <- (raw_candidates_forget _ _ (mRawFilters c)), HR, raw_candidates_forget.
  apply (f_equal2 app); [|done].
  apply List.flat_map_ext. intros field.
  by rewrite <- (key_candidates_forget (mFilters c)), HF, key_candidates_forget.
Qed.

#[export] Instance matches_spec_proper :
  Proper ((=) ==> cmd_equiv ==> (=)) (matches_spec mUrlCodec).
Proof.
  intros r ? <- c c' Hc. unfold matches_spec.
  by rewrite (candidates_proper r r eq_refl _ _ eq_refl c c' Hc),
    (candidates_proper r r eq_refl REGULAR _ eq_refl c c' Hc).
Qed.

#[export] Instance commands_sorted_proper : Proper (cmd_equiv ==> iff) filters_sorted.
Proof.
  assert (Hkeys : forall c c', cmd_equiv c c' -> fst <$> mFilters c = fst <$> mFilters c').
  { intros c c' (HF & _). apply (f_equal (fmap fst)) in HF. by rewrite <- !list_fmap_compose in HF. }
  intros c c' Hc. unfold filters_sorted. by rewrite !mm_sorted_keys, (Hkeys c c' Hc).
Qed.

(** The filter found is one of the commands', of the regular type. *)
Lemma matches_spec_sound pRequest c f :
  matches_spec mUrlCodec pRequest c = Some f ->
  mFilterType f = REGULAR /\
  exists g, (g ∈ (snd <$> mFilters c) \/ g ∈ mRawFilters c) /\ f = set_mMatch (mMatch f) g.
Proof.
  unfold matches_spec. destruct (candidates _ _ PREVENT_DUPLICATION c); [|done].
  intros Hf. assert (Hin : In f (candidates mUrlCodec pRequest REGULAR c)).
  { destruct (candidates _ _ REGULAR c); [done|]. injection Hf as ->. by left. }
  clear Hf. unfold candidates in Hin. apply in_app_or in Hin as [Hin|Hin].
  - apply in_flat_map in Hin as ([scope args] & _ & Hin).
    apply in_flat_map in Hin as (kv & _ & Hin). apply list_elem_of_In in Hin.
    apply list_elem_of_fmap in Hin as ([k g] & -> & Hin).
    apply list_elem_of_In, List.filter_In in Hin as [Hin Hhit].
    unfold key_hit in Hhit. apply andb_prop in Hhit as [Hhit _].
    apply andb_prop in Hhit as [_ Ht%bool_decide_eq_true].
    split; [exact Ht|]. exists g. split; [left|done].
    apply list_elem_of_fmap. exists (k, g). split; [done|]. by apply list_elem_of_In.
  - apply list_elem_of_In in Hin. unfold raw_candidates in Hin.
    apply list_elem_of_omap in Hin as (g & Hin & Hg). case_bool_decide as Ht; [|done].
    destruct (rawSearch pRequest g); [|done]. apply (inj Some) in Hg as <-.
    split; [exact Ht|]. exists g. by split; [right|].
Qed.

(** *** The properties *)

(** [C3] [matchesFilter] implements its specification: the filter it returns is the
    first regular filter, key filters on the query string, the headers and the
    body, then raw filters, that matches the request, and nothing when a prevent
    filter matches; and it changes the commands only in their [mMatch] fields. *)
Theorem matchesFilter_refines pRequest c :
  filters_sorted c ->
  let '(c', matched) := matchesFilter mUrlCodec pRequest c in
  matched = matches_spec mUrlCodec pRequest c /\ cmd_equiv c' c /\ filters_sorted c'.
Proof.
  intros HF. pose proof (matchesFilter_spec pRequest c HF) as [Hm Hc].
  destruct (matchesFilter mUrlCodec pRequest c) as [c' m]. cbn [fst snd] in *.
  split; [done|]. split; [done|]. by rewrite Hc.
Qed.

(** The requests handled before do not influence a match, although each of
    them writes to the filters. *)
Theorem matching_is_stateless pRequest c (before : list RequestInfo) :
  filters_sorted c ->
  snd (matchesFilter mUrlCodec pRequest
         (foldl (fun c r => fst (matchesFilter mUrlCodec r c)) c before))
  = snd (matchesFilter mUrlCodec pRequest c).
Proof.
  intros HF.
  assert (Hb : cmd_equiv (foldl (fun c r => fst (matchesFilter mUrlCodec r c)) c before) c).
  { revert c HF. induction before as [|r l IH]; intros c HF; [done|]. cbn [foldl].
    pose proof (matchesFilter_spec r c HF) as [_ Hc]. rewrite IH by (by rewrite Hc). done. }
  rewrite !(fun c H => proj1 (matchesFilter_spec pRequest c H)) by (by rewrite ?Hb).
  by rewrite Hb.
Qed.

(** A request a prevent filter matches is never duplicated to the destination,
    whatever the regular filters are. *)
Theorem prevent_filter_wins pRequest c f :
  filters_sorted c -> mFilterType f = PREVENT_DUPLICATION ->
  (f ∈ mRawFilters c /\ is_Some (rawSearch pRequest f)) \/
  (exists k kv scope args, (k, f) ∈ mFilters c /\ (scope, args) ∈ request_fields mUrlCodec pRequest /\
     kv ∈ args /\ key_hit scope PREVENT_DUPLICATION kv (k, f) = true) ->
  snd (matchesFilter mUrlCodec pRequest c) = None.
Proof.
  intros HF Ht Hhit. rewrite (proj1 (matchesFilter_spec pRequest c HF)).
  unfold matches_spec. enough (exists g, In g (candidates mUrlCodec pRequest PREVENT_DUPLICATION c))
    as [g Hg] by (by destruct (candidates _ _ PREVENT_DUPLICATION c)).
  unfold candidates. setoid_rewrite in_app_iff.
  destruct Hhit as [[Hin [w Hw]]|(k & kv & scope & args & Hin & Hfield & Hkv & Hh)].
  - exists (set_mMatch w f). right. apply list_elem_of_In, list_elem_of_omap.
    exists f. split; [done|]. by rewrite bool_decide_true, Hw.
  - exists (key_matched (k, f)). left. apply in_flat_map. exists (scope, args).
    split; [by apply list_elem_of_In|]. apply in_flat_map. exists kv.
    split; [by apply list_elem_of_In|]. apply list_elem_of_In, list_elem_of_fmap.
    exists (k, f). split; [done|]. apply list_elem_of_In, List.filter_In.
    split; [by apply list_elem_of_In|done].
Qed.
End Theory.

(** ** A configuration, evaluated

    The requests of testRequestProcessor.cc's style: a key filter on the query
    string, a raw filter on the body, and a prevent filter on the path. *)
Module FilterExamples.
Import Reference.

Definition codec : IUrlCodec := let _ := Percent.percent_url in getUrlCodec "default".

Definition mk (scope : eApplicationScope) (rx : string) (t : eFilterTypes) : tFilter :=
  {| mScope := scope; mRegex := {| pattern := rx; icase := false |}; mDestination := "SERVER";
     mErrorLogBodyMatch := regex_default; mDuplicationType := HEADER_ONLY; mFilterType := t;
     mMatch := "" |}.

Definition commands : Commands :=
  {| mFilters := [(CI "SID", mk ALL "mobile" REGULAR)];
     mRawFilters := [mk PATH "/private" PREVENT_DUPLICATION; mk BODY "pattern" REGULAR];
     mSubstitutions := []; mRawSubstitutions := []; mDuplicationPercentage := 100 |}.

Definition request (path args body : string) : RequestInfo :=
  set_mParsedArgs (parseArgs codec [] args)
    (RequestInfo_of_request 0 "id" "" "GET" path args (Some body)).

Lemma commands_sorted : filters_sorted commands.
Proof. repeat constructor. Qed.

Example args_parsed :
  parseArgs codec [] "titi=tata&toto&&x=a%20b+c=d"
  = [("TITI", "tata"); ("TOTO", ""); ("X", "a b c=d")]%string.
Proof. reflexivity. Qed.

(** The key is matched without regard to case. *)
Example key_match :
  (fun f => (mScope f, mMatch f)) <$> snd (matchesFilter codec (request "/a" "sid=my+mobile" "") commands)
  = Some (ALL, "mobile"%string).
Proof. vm_compute. reflexivity. Qed.

Example raw_match :
  (fun f => (mScope f, mMatch f)) <$> snd (matchesFilter codec (request "/a" "sid=x" "a pattern here") commands)
  = Some (BODY, "pattern"%string).
Proof. vm_compute. reflexivity. Qed.

Lemma matchesFilter_refines_witness :
  filters_sorted commands /\
  let '(c', matched) := matchesFilter codec (request "/a" "sid=my+mobile" "") commands in
  matched = matches_spec codec (request "/a" "sid=my+mobile" "") commands /\
  cmd_equiv c' commands /\ filters_sorted c'.
Proof.
  split; [repeat constructor|].
  apply (matchesFilter_refines codec (request "/a" "sid=my+mobile" "") commands).
  repeat constructor.
Defined.

Lemma matching_is_stateless_witness :
  let r := request "/a" "sid=my+mobile" "" in
  filters_sorted commands /\
  snd (matchesFilter codec r
         (foldl (fun c r => fst (matchesFilter codec r c)) commands
            [request "/b" "" "pattern"; r; request "/private" "sid=mobile" ""]))
  = snd (matchesFilter codec r commands).
Proof.
  split; [repeat constructor|]. apply matching_is_stateless. repeat constructor.
Defined.

Lemma prevent_filter_wins_witness :
  let r := request "/private/x" "sid=mobile" "pattern" in
  filters_sorted commands /\ is_Some (rawSearch r (mk PATH "/private" PREVENT_DUPLICATION)) /\
  snd (matchesFilter codec r commands) = None.
Proof.
  split; [repeat constructor|]. split; [eexists; vm_compute; reflexivity|].
  apply (prevent_filter_wins codec _ commands (mk PATH "/private" PREVENT_DUPLICATION)).
  - repeat constructor.
  - reflexivity.
  - left. split; [left|eexists; vm_compute; reflexivity].
Defined.
End FilterExamples.
