(* ===== verification/Substitution.v ===== *)
(** * Substitutions

    [keySubstitute], [headerSubstitute] and [substituteRequest] of
    RequestProcessor.cc: what happens to a request before it is sent to a
    destination that has substitutions. *)
From S2P Require Import Prelude CxxString StdMap Boost RequestCommon RequestInfo UrlCodec Filters.
Local Open Scope N_scope.

Import ApplicationScope.

Section Substitution.
Context `{BoostRegex, BoostString} (mUrlCodec : IUrlCodec).

(** The loop over the substitutions of one key. *)
Definition applySubsts (scope : eApplicationScope) (l : list tSubstitute) (v : string)
    : bool * string :=
  foldl (fun '(did, v) s =>
           if has scope (sScope s) then (true, regex_replace v (sRegex s) (mReplacement s))
           else (did, v)) (false, v) l.

Definition substituteValue (pSubs : tFieldSubstitutionMap) (scope : eApplicationScope)
    (kv : tKeyVal) : bool * string :=
  match std_find (fst kv) pSubs with
  | Some l => applySubsts scope l (snd kv)
  | None => (false, snd kv)
  end.

(** One element of [lNewArgs]. *)
Definition newArg (k v : string) : string :=
  if str_empty v then k else k +:+ "=" +:+ encode mUrlCodec v.

Definition keySubstitute (pSubs : tFieldSubstitutionMap) (pParsedArgs : tKeyValList)
    (scope : eApplicationScope) (result : string) : bool * string :=
  let '(lDidSubstitute, lNewArgs) :=
    foldl (fun '(did, new) kv =>
             let '(did', v) := substituteValue pSubs scope kv in
             (did || did', new ++ [newArg (fst kv) v])) (false, []) pParsedArgs in
  (lDidSubstitute, if lDidSubstitute then join lNewArgs "&" else result).

Definition headerSubstitute (pSubs : tFieldSubstitutionMap) (pHeadersIn : tKeyValList)
    : bool * tKeyValList :=
  foldl (fun '(did, new) kv =>
           let '(did', v) := substituteValue pSubs HEADERS kv in
           (did || did', new ++ [(fst kv, v)])) (false, []) pHeadersIn.

(** The presence of the different key substitutions: body, header, query string. *)
Definition subScopes (pSubs : tFieldSubstitutionMap) : bool * bool * bool :=
  foldl (fun acc f =>
    foldl (fun '(body, header, qs) s =>
             (body || has (sScope s) BODY, header || has (sScope s) HEADERS,
              qs || has (sScope s) QUERY_STRING)) acc (snd f)) (false, false, false) pSubs.

(** The loop over the raw substitutions. *)
Definition rawSubstitute (l : list tSubstitute) (lDidSubstitute : bool) (pRequest : RequestInfo)
    : bool * RequestInfo :=
  foldl (fun '(_, r) s =>
    let sub (v : string) := regex_replace v (sRegex s) (mReplacement s) in
    let r := if has (sScope s) URL then set_mPath (sub (mPath r)) r else r in
    let r := if has (sScope s) BODY then set_mBody (sub (mBody r)) r else r in
    let r := if has (sScope s) QUERY_STRING then set_mArgs (sub (mArgs r)) r else r in
    (true, r)) (lDidSubstitute, pRequest) l.

Definition substituteRequest (pRequest : RequestInfo) (pCommands : Commands)
    : bool * RequestInfo :=
  let '(keySubOnBody, keySubOnHeader, keySubOnQs) := subScopes (mSubstitutions pCommands) in
  let '(lDidSubstitute, r) :=
    if keySubOnQs then
      let '(did, args) := keySubstitute (mSubstitutions pCommands) (mParsedArgs pRequest)
                            QUERY_STRING (mArgs pRequest) in
      (did, set_mArgs args pRequest)
    else (false, pRequest) in
  let '(lDidSubstitute, r) :=
    if keySubOnHeader then
      let '(did, headers) := headerSubstitute (mSubstitutions pCommands) (mHeadersIn r) in
      (lDidSubstitute || did, set_mHeadersIn headers r)
    else (lDidSubstitute, r) in
  let '(lDidSubstitute, r) :=
    if keySubOnBody then
      let lParsedArgs := parseArgs mUrlCodec [] (mBody r) in
      let '(did, body) := keySubstitute (mSubstitutions pCommands) lParsedArgs BODY (mBody r) in
      (lDidSubstitute || did, set_mBody body r)
    else (lDidSubstitute, r) in
  rawSubstitute (mRawSubstitutions pCommands) lDidSubstitute r.

(** ** The loops as maps over their lists *)

Lemma keySubstitute_fold pSubs scope args did new :
  foldl (fun '(did, new) kv =>
             let '(did', v) := substituteValue pSubs scope kv in
             (did || did', new ++ [newArg (fst kv) v])) (did, new) args
  = (did || existsb (fun kv => fst (substituteValue pSubs scope kv)) args,
     new ++ ((fun kv => newArg (fst kv) (snd (substituteValue pSubs scope kv))) <$> args)).
Proof.
  revert did new. induction args as [|kv args IH]; intros did new; cbn [foldl].
  - cbn. by rewrite orb_false_r, app_nil_r.
  - destruct (substituteValue pSubs scope kv) as [d v] eqn:E. rewrite IH. cbn.
    by rewrite E, orb_assoc, <- app_assoc.
Qed.

Lemma keySubstitute_eq pSubs args scope result :
  keySubstitute pSubs args scope result
  = let did := existsb (fun kv => fst (substituteValue pSubs scope kv)) args in
    (did, if did
          then join ((fun kv => newArg (fst kv) (snd (substituteValue pSubs scope kv))) <$> args) "&"
          else result).
Proof. unfold keySubstitute. by rewrite keySubstitute_fold. Qed.

Lemma headerSubstitute_fold pSubs hs did new :
  foldl (fun '(did, new) kv =>
             let '(did', v) := substituteValue pSubs HEADERS kv in
             (did || did', new ++ [(fst kv, v)])) (did, new) hs
  = (did || existsb (fun kv => fst (substituteValue pSubs HEADERS kv)) hs,
     new ++ ((fun kv => (fst kv, snd (substituteValue pSubs HEADERS kv))) <$> hs)).
Proof.
  revert did new. induction hs as [|kv hs IH]; intros did new; cbn [foldl].
  - cbn. by rewrite orb_false_r, app_nil_r.
  - destruct (substituteValue pSubs HEADERS kv) as [d v] eqn:E. rewrite IH. cbn.
    by rewrite E, orb_assoc, <- app_assoc.
Qed.

Lemma headerSubstitute_eq pSubs hs :
  headerSubstitute pSubs hs
  = (existsb (fun kv => fst (substituteValue pSubs HEADERS kv)) hs,
     (fun kv => (fst kv, snd (substituteValue pSubs HEADERS kv))) <$> hs).
Proof. unfold headerSubstitute. by rewrite headerSubstitute_fold. Qed.

(** Where no substitution was done, the value is the one received. *)
Lemma applySubsts_false scope l v :
  fst (applySubsts scope l v) = false -> snd (applySubsts scope l v) = v.
Proof.
  assert (Hgo : forall d v', fst (foldl (fun '(did, v) s =>
             if has scope (sScope s) then (true, regex_replace v (sRegex s) (mReplacement s))
             else (did, v)) (d, v') l) = false ->
           d = false /\ snd (foldl (fun '(did, v) s =>
             if has scope (sScope s) then (true, regex_replace v (sRegex s) (mReplacement s))
             else (did, v)) (d, v') l) = v').
  { induction l as [|s l IH]; intros d v'; cbn [foldl]; [done|].
    destruct (has scope (sScope s)); intros Hf; apply IH in Hf as [Hd Hs]; [done|].
    by split. }
  intros Hf. by apply Hgo in Hf as [_ ?].
Qed.

Lemma substituteValue_false pSubs scope kv :
  fst (substituteValue pSubs scope kv) = false -> snd (substituteValue pSubs scope kv) = snd kv.
Proof. unfold substituteValue. destruct (std_find _ _); [apply applySubsts_false|done]. Qed.
End Substitution.

Section Theory.
Context `{BoostRegex} {B : BoostString} {HB : BoostStringLaws B}.
Context {A : ApacheUrl} {HA : ApacheUrlLaws A}.

(** ** The query a key substitution writes *)

(** Keys as [parseArgs] produces them: upper case, without separators. *)
Definition key_ok (k : string) : bool :=
  negb (has_char "&" k) && negb (has_char "=" k) && String.eqb (string_map toupper k) k.

Lemma parseToken_key mUrlCodec t :
  has_char "&" t = false -> key_ok (fst (parseToken mUrlCodec t)) = true.
Proof.
  assert (Hup : forall s, has_char "&" s = false -> has_char "=" s = false ->
                key_ok (to_upper s) = true).
  { intros s H1 H2. unfold key_ok. rewrite to_upper_spec, string_map_toupper_idem, String.eqb_refl.
    rewrite !has_char_string_map, H1, H2; [done|..];
      intros a; by destruct a as [[] [] [] [] [] [] [] []]. }
  intros Ht. unfold parseToken. destruct (find_char "=" t) as [i|] eqn:E; simpl; apply Hup.
  - rewrite <- (str_take_drop i t), has_char_app in Ht. by apply orb_false_iff in Ht as [? _].
  - by eapply find_char_take.
  - done.
  - destruct (has_char "=" t) eqn:Eh; [|done]. exfalso. clear -E Eh.
    induction t as [|a t IH]; simpl in *; [done|].
    destruct (Ascii.eqb a "="); [done|]. destruct (find_char "=" t); [done|]. by apply IH.
Qed.

Lemma parseArgs_keys mUrlCodec s :
  Forall (fun kv => key_ok (fst kv) = true) (parseArgs mUrlCodec [] s).
Proof.
  unfold parseArgs. rewrite app_nil_l, tokens_spec. apply Forall_fmap.
  apply Forall_forall. intros t Ht. apply parseToken_key.
  apply list_elem_of_In, List.filter_In in Ht as [Ht _]. apply list_elem_of_In in Ht.
  pose proof (split_on_pieces "&" s) as Hp. rewrite Forall_forall in Hp. by apply Hp.
Qed.

(** Reading back one written argument. *)
Lemma parseToken_newArg name k v :
  key_ok k = true -> has_char "000" v = false ->
  parseToken (getUrlCodec name) (newArg (getUrlCodec name) k v) = (k, v).
Proof.
  unfold key_ok, newArg. intros Hk Hv.
  apply andb_prop in Hk as [[_ Hk]%andb_prop Hup%String.eqb_eq]. apply negb_true_iff in Hk.
  destruct v as [|c v]; cbn [str_empty].
  - unfold parseToken. by rewrite find_char_None, to_upper_spec, Hup.
  - unfold parseToken. rewrite sapp_cons, sapp_nil_l, find_char_app by done.
    rewrite str_take_app, to_upper_spec, Hup.
    by rewrite str_drop_sep, decode_encode.
Qed.

Lemma newArg_piece name k v :
  key_ok k = true -> has_char "&" (encode (getUrlCodec name) v) = false ->
  (k <> EmptyString \/ v <> EmptyString) ->
  has_char "&" (newArg (getUrlCodec name) k v) = false /\
  nonempty (newArg (getUrlCodec name) k v) = true.
Proof.
  unfold key_ok, newArg. intros [[Hk _]%andb_prop _]%andb_prop He Hne.
  apply negb_true_iff in Hk. destruct v as [|c v]; cbn [str_empty].
  - split; [done|]. destruct Hne; [|done]. by destruct k.
  - rewrite has_char_app, Hk. split; [exact He|]. by destruct k.
Qed.

(** [C26] The query string (or body) a key substitution writes parses to the
    arguments of the request, in the same order and under the same names, with
    each value replaced by the substituted one: the arguments without a
    substitution are not altered. The values must not contain NUL, and their
    encoding must not contain the separator. *)
Theorem substituted_query_parses name pSubs scope query result :
  let codec := getUrlCodec name in
  let args := parseArgs codec [] query in
  let value kv := snd (substituteValue pSubs scope kv) in
  Forall (fun kv => has_char "000" (value kv) = false /\
            has_char "&" (encode codec (value kv)) = false /\
            (fst kv <> EmptyString \/ value kv <> EmptyString)) args ->
  fst (keySubstitute codec pSubs args scope result) = true ->
  parseArgs codec [] (snd (keySubstitute codec pSubs args scope result))
  = (fun kv => (fst kv, value kv)) <$> args.
Proof.
  cbv zeta. rewrite keySubstitute_eq. cbn [fst snd]. intros Hall Hdid. rewrite Hdid.
  pose proof (parseArgs_keys (getUrlCodec name) query) as Hkeys.
  revert Hall Hdid Hkeys. generalize (parseArgs (getUrlCodec name) [] query) as args.
  intros args Hall Hdid Hkeys. unfold parseArgs. rewrite app_nil_l, tokens_spec, join_spec.
  rewrite split_on_sjoin.
  - rewrite filter_nonempty_all.
    + rewrite <- list_fmap_compose. apply list_fmap_ext. intros i kv Hi.
      apply list_elem_of_lookup_2 in Hi. rewrite Forall_forall in Hall, Hkeys.
      apply parseToken_newArg; [by apply Hkeys|by apply Hall].
    + apply Forall_fmap, Forall_forall. intros kv Hkv. rewrite Forall_forall in Hall, Hkeys.
      apply newArg_piece; [by apply Hkeys|by apply Hall..].
  - destruct args; [done|]. discriminate.
  - apply Forall_fmap, Forall_forall. intros kv Hkv. rewrite Forall_forall in Hall, Hkeys.
    apply newArg_piece; [by apply Hkeys|by apply Hall..].
Qed.

(** ** What a substitution may change *)

Lemma subst_unchanged_list pSubs scope (l : tKeyValList) :
  existsb (fun kv => fst (substituteValue pSubs scope kv)) l = false ->
  (fun kv => (fst kv, snd (substituteValue pSubs scope kv))) <$> l = l.
Proof.
  induction l as [|[k v] l IH]; [done|]. cbn [existsb fmap list_fmap].
  intros [Hf Hl]%orb_false_iff. by rewrite substituteValue_false, IH.
Qed.

Lemma rawSubstitute_cons l did r :
  fst (rawSubstitute l did r) = match l with [] => did | _ => true end.
Proof.
  unfold rawSubstitute. destruct l as [|s l]; [done|]. cbn [foldl].
  match goal with |- fst (foldl _ (true, ?x) _) = _ => generalize x as r' end.
  clear did r. induction l as [|s' l IH]; intros r'; cbn [foldl]; [done|]. apply IH.
Qed.

Lemma keySubstitute_false mUrlCodec pSubs args scope result :
  fst (keySubstitute mUrlCodec pSubs args scope result) = false ->
  snd (keySubstitute mUrlCodec pSubs args scope result) = result.
Proof. rewrite keySubstitute_eq. cbn. by intros ->. Qed.

Lemma headerSubstitute_false pSubs hs :
  fst (headerSubstitute pSubs hs) = false -> snd (headerSubstitute pSubs hs) = hs.
Proof. rewrite headerSubstitute_eq. apply subst_unchanged_list. Qed.

(** A substitution keeps the names of the headers and every field but the path,
    the query string, the input headers and the body. *)
Definition same_but_subst (r r' : RequestInfo) : Prop :=
  fst <$> mHeadersIn r' = fst <$> mHeadersIn r /\
  set_mPath "" (set_mArgs "" (set_mHeadersIn [] (set_mBody "" r')))
  = set_mPath "" (set_mArgs "" (set_mHeadersIn [] (set_mBody "" r))).

#[export] Instance same_but_subst_preorder : PreOrder same_but_subst.
Proof.
  split.
  - intros r. done.
  - intros r1 r2 r3 [H1 H2] [H3 H4]. split; congruence.
Qed.

Lemma headerSubstitute_names pSubs hs : fst <$> snd (headerSubstitute pSubs hs) = fst <$> hs.
Proof. rewrite headerSubstitute_eq. cbn [snd]. by rewrite <- list_fmap_compose. Qed.

Lemma rawSubstitute_frame l did r : same_but_subst r (snd (rawSubstitute l did r)).
Proof.
  unfold rawSubstitute. revert did r. induction l as [|s l IH]; intros did r; [done|].
  cbn [foldl]. etrans; [|apply IH]. by repeat case_match.
Qed.

(** One key or header substitution of [substituteRequest], by its facts. *)
Ltac stage Hkey Hhead :=
  match goal with
  | |- context [keySubstitute ?c ?s ?a ?sc ?r] =>
      let H := fresh "Hs" in pose proof (Hkey a sc r) as H;
      destruct (keySubstitute c s a sc r) as [? ?]
  | |- context [headerSubstitute ?s ?hs] =>
      let H := fresh "Hs" in let H' := fresh "Hn" in pose proof (Hhead hs) as H;
      destruct (headerSubstitute s hs) as [? ?]; destruct H as [H H']
  end; cbn [fst snd] in *.

(** [substituteRequest] alters only the path, the query string, the header
    values and the body; the names and the order of the headers stay; and the
    request is as it was when nothing is reported as substituted. *)
Lemma substituteRequest_frame mUrlCodec pRequest pCommands :
  let '(did, r) := substituteRequest mUrlCodec pRequest pCommands in
  same_but_subst pRequest r /\ (did = false -> r = pRequest).
Proof.
  unfold substituteRequest.
  destruct (subScopes (mSubstitutions pCommands)) as [[onBody onHeader] onQs].
  assert (Hkey : forall args scope result,
    let '(did, x) := keySubstitute mUrlCodec (mSubstitutions pCommands) args scope result in
    did = false -> x = result).
  { intros args scope result.
    pose proof (keySubstitute_false mUrlCodec (mSubstitutions pCommands) args scope result).
    by destruct (keySubstitute _ _ _ _ _). }
  assert (Hhead : forall hs,
    let '(did, x) := headerSubstitute (mSubstitutions pCommands) hs in
    (did = false -> x = hs) /\ fst <$> x = fst <$> hs).
  { intros hs. pose proof (headerSubstitute_false (mSubstitutions pCommands) hs).
    pose proof (headerSubstitute_names (mSubstitutions pCommands) hs).
    by destruct (headerSubstitute _ _). }
  assert (Hraw : forall did r, let '(did', r') := rawSubstitute (mRawSubstitutions pCommands) did r in
    same_but_subst r r' /\ (did' = false -> did = false /\ r' = r)).
  { intros did r. pose proof (rawSubstitute_frame (mRawSubstitutions pCommands) did r) as Hf.
    pose proof (rawSubstitute_cons (mRawSubstitutions pCommands) did r) as Hc.
    destruct (rawSubstitute _ _ _) as [d r'] eqn:E. split; [done|]. intros ->.
    destruct (mRawSubstitutions pCommands); [|done]. by injection E as -> ->. }
  destruct onQs, onHeader, onBody; cbv beta iota zeta; repeat stage Hkey Hhead.
  all: match goal with |- context [rawSubstitute ?l ?d ?r] =>
         pose proof (Hraw d r) as Hf; destruct (rawSubstitute l d r) as [? ?];
         destruct Hf as [Hf Hu] end.
  all: split; [etrans; [|exact Hf]; by split|].
  all: intros ->; destruct (Hu eq_refl) as [Hd ->]; rewrite ?orb_false_iff in Hd;
    destruct_and?; subst.
  all: repeat match goal with H : ?x = ?x -> _ |- _ => specialize (H eq_refl) end; subst.
  all: by destruct pRequest.
Qed.

(** The keys of [mSubstitutions], as [addSubstitution] writes them. *)
Definition subs_upper (pSubs : tFieldSubstitutionMap) : Prop :=
  Forall (fun e => string_map toupper (fst e) = fst e) pSubs.

(** A header whose name is not in upper case is never substituted: the names of
    the substitutions are in upper case and [headerSubstitute] compares them
    with the name of the header as it was received. *)
Theorem header_substitution_upper_case_only pSubs (hs : tKeyValList) :
  subs_upper pSubs -> Forall (fun kv => string_map toupper (fst kv) <> fst kv) hs ->
  headerSubstitute pSubs hs = (false, hs).
Proof.
  intros Hup Hhs. rewrite headerSubstitute_eq.
  assert (Hnone : Forall (fun kv => substituteValue pSubs HEADERS kv = (false, snd kv)) hs).
  { eapply Forall_impl; [exact Hhs|]. intros [k v] Hk. unfold substituteValue. cbn [fst snd] in *.
    destruct (std_find k pSubs) as [l|] eqn:E; [|done]. exfalso. apply Hk.
    apply std_find_In in E as (k' & Hin & ->%equiv_key_eq).
    unfold subs_upper in Hup. rewrite Forall_forall in Hup. by apply (Hup (k, l)). }
  clear Hhs. induction Hnone as [|[k v] hs Hkv _ IH]; [done|].
  injection IH as IH1 IH2. cbn. by rewrite Hkv, IH1, IH2.
Qed.
End Theory.

(** ** Evaluated on concrete requests *)
Module SubstitutionExamples.
Import Reference.
Import FilterExamples.

Definition sub (scope : eApplicationScope) (rx to : string) : tSubstitute :=
  {| sScope := scope; sRegex := {| pattern := rx; icase := false |}; mReplacement := to |}.

Definition subs : tFieldSubstitutionMap :=
  [("PWD"%string, [sub ALL "secret" "***"]); ("USER"%string, [sub HEADERS "bob" "x"])].

Example query_substituted :
  keySubstitute codec subs (parseArgs codec [] "user=bob&pwd=my+secret&x") QUERY_STRING "old"
  = (true, "USER=bob&PWD=my%20***&X"%string).
Proof. vm_compute. reflexivity. Qed.

(** An ampersand that was escaped in the request is not escaped again: the
    value [1&2] becomes two arguments. *)
Example ampersand_splits_value :
  keySubstitute codec subs (parseArgs codec [] "a=1%262&pwd=secret") QUERY_STRING "old"
  = (true, "A=1&2&PWD=***"%string).
Proof. vm_compute. reflexivity. Qed.

(** A raw substitution on the query string rewrites the path as well. *)
Example query_raw_substitution_rewrites_path :
  mPath (snd (substituteRequest codec (request "/abc" "x=abc" "")
           {| mFilters := []; mRawFilters := []; mSubstitutions := [];
              mRawSubstitutions := [sub QUERY_STRING "abc" "def"];
              mDuplicationPercentage := 100 |})) = "/def"%string.
Proof. vm_compute. reflexivity. Qed.

Lemma substituted_query_parses_witness :
  let _ := Percent.percent_url in let c := getUrlCodec "default" in
  let args := parseArgs c [] "user=bob&pwd=my+secret&x" in
  let value kv := snd (substituteValue subs QUERY_STRING kv) in
  (Forall (fun kv => has_char "000" (value kv) = false /\
            has_char "&" (encode c (value kv)) = false /\
            (fst kv <> EmptyString \/ value kv <> EmptyString)) args /\
   fst (keySubstitute c subs args QUERY_STRING "") = true) /\
  parseArgs c [] (snd (keySubstitute c subs args QUERY_STRING ""))
  = (fun kv => (fst kv, value kv)) <$> args.
Proof.
  cbv zeta.
  assert (Hall : Forall (fun kv => has_char "000" (snd (substituteValue subs QUERY_STRING kv)) = false /\
            has_char "&" (encode (@getUrlCodec Percent.percent_url _ "default")
                            (snd (substituteValue subs QUERY_STRING kv))) = false /\
            (fst kv <> EmptyString \/ snd (substituteValue subs QUERY_STRING kv) <> EmptyString))
            (parseArgs (@getUrlCodec Percent.percent_url _ "default") [] "user=bob&pwd=my+secret&x")).
  { replace (parseArgs _ [] _) with [("USER", "bob"); ("PWD", "my secret"); ("X", "")]%string
      by (vm_compute; reflexivity).
    repeat (apply List.Forall_cons;
            [split; [vm_compute; reflexivity|split; [vm_compute; reflexivity|left; discriminate]]|]).
    apply List.Forall_nil. }
  split; [split; [exact Hall|vm_compute; reflexivity]|].
  apply (substituted_query_parses (HB := boost_string_laws) (HA := Percent.percent_laws)
           "default" subs QUERY_STRING "user=bob&pwd=my+secret&x").
  - exact Hall.
  - vm_compute. reflexivity.
Defined.

Lemma header_substitution_upper_case_only_witness :
  (subs_upper subs /\
   Forall (fun kv => string_map toupper (fst kv) <> fst kv) [("Pwd", "secret"); ("pwd", "secret")]%string)
  /\ headerSubstitute subs [("Pwd", "secret"); ("pwd", "secret")]%string
     = (false, [("Pwd", "secret"); ("pwd", "secret")]%string).
Proof.
  split; [split; [repeat constructor|repeat (apply List.Forall_cons; [discriminate|]); apply List.Forall_nil]|].
  apply header_substitution_upper_case_only;
    [repeat constructor|repeat (apply List.Forall_cons; [discriminate|]); apply List.Forall_nil].
Defined.
End SubstitutionExamples.
