(* ===== verification/CurlCall.v ===== *)
(** * The duplicated request

    How RequestProcessor.cc builds and sends the duplicate of a request:
    [addCommonHeaders], [addValidationHeadersCompare], [addOrigHeaders],
    [sendInBody], [sendDupFormat], [performCurlCall],
    [getCurlResponseHeaderCallback] and [addValidationHeadersDup].

    libcurl is not part of the repository. A handle is the sequence of the
    options the code set on it since [curl_easy_init]; the outcome of a transfer
    is an operation of the class [Curl], which may depend on the number of
    transfers made before and on all the options. *)
From S2P Require Import Prelude CxxString StdMap Boost RequestCommon RequestInfo UrlCodec Filters.
Local Open Scope N_scope.

Import ApplicationScope DuplicationType.

Inductive curl_opt : Type :=
  | CURLOPT_USERAGENT (s : string)
  | CURLOPT_TIMEOUT_MS (n : N)
  | CURLOPT_NOSIGNAL (n : N)
  | CURLOPT_URL (s : string)
  | CURLOPT_WRITEFUNCTION
  | CURLOPT_HEADERFUNCTION
  | CURLOPT_HEADERDATA
  | CURLOPT_POST (n : N)
  | CURLOPT_HTTPGET (n : N)
  | CURLOPT_HTTPHEADER (slist : list string)
  | CURLOPT_POSTFIELDSIZE (n : N)
  | CURLOPT_POSTFIELDS (s : string).

#[export] Instance curl_opt_eq_dec : EqDecision curl_opt.
Proof. solve_decision. Defined.

Definition CURL : Type := list curl_opt.

(** What a transfer reports: the [CURLcode], the response code, and the header
    lines given to the header callback. *)
Record CurlResult : Type := {
  res_code : Z;
  res_http : Z;
  res_headers : list string
}.

Class Curl : Type := curl_easy_perform : nat -> CURL -> CurlResult.

Definition CURLE_OPERATION_TIMEDOUT : Z := 28.

(** [curl_slist_append]: copies the C string. The head of a non-empty list does
    not change, so the call that drops the result appends too. *)
Definition curl_slist_append (slist : list string) (s : string) : list string :=
  slist ++ [cstr s].

Definition dquote : string := String (ascii_of_N 34) EmptyString.
Definition quoted (s : string) : string := dquote +:+ s +:+ dquote.

Section CurlCall.
Context `{BoostRegex, BoostString}.

(** ** Headers *)

Definition getCurlResponseHeaderCallback (lresponseHeader : mapStr) (buffer : string) : mapStr :=
  let lheaderLine := string_filter (fun c => negb (Ascii.eqb c "013")) (cstr buffer) in
  let '(lheaderKey, lheaderValue) :=
    match find_char ":" lheaderLine with
    | Some p => (str_take p lheaderLine, str_drop (p + 1) lheaderLine)
    | None => (lheaderLine, lheaderLine)
    end in
  std_set (trim lheaderKey) (trim lheaderValue) lresponseHeader.

(** The name of a header line: what precedes the colon. *)
Definition header_name (line : string) : option string :=
  (fun p => str_take p line) <$> find_char ":" line.

Definition header_line (kv : tKeyVal) : string := fst kv +:+ ": " +:+ snd kv.

(** The headers of the request that are never copied. *)
Definition not_copied (name : string) : bool :=
  String.eqb name "Host" || String.eqb name "Transfer-Encoding"
  || String.eqb name "Content-Length" || String.eqb name "Duplication-Type".

Definition addOrigHeaders (rInfo : RequestInfo) (slist : list string) : list string :=
  snd (foldl (fun '(headers, slist) (v : tKeyVal) =>
    if negb (bool_decide (fst v ∈ headers)) && negb (not_copied (fst v))
    then (fst v :: headers, curl_slist_append slist (header_line v))
    else (headers, slist)) (omap header_name slist, slist) (mHeadersIn rInfo)).

Definition addCommonHeaders (rInfo : RequestInfo) (slist : list string) : list string :=
  let slist := curl_slist_append slist
                 ("ELAPSED_TIME_BY_DUP: " +:+ cast_string (getElapsedTimeMS rInfo)) in
  let slist := curl_slist_append slist "Expect:" in
  let slist := curl_slist_append slist "X-DUPLICATED-REQUEST: 1" in
  curl_slist_append slist "User-RealAgent: mod-dup".

Definition addValidationHeadersCompare (rInfo : RequestInfo) (matchedFilter : tFilter)
    (slist : list string) : RequestInfo * list string :=
  if bool_decide (mDuplicationType matchedFilter = REQUEST_WITH_ANSWER)
     && mValidationHeaderDup rInfo
  then (set_mValidationHeaderComp true rInfo, curl_slist_append slist "X_COMP_LOG: ON")
  else (rInfo, slist).

(** One element of the [X_DUP_LOG] header. *)
Definition matchedText (f : tFilter) : string :=
  enumToString (mScope f) +:+ " filter: " +:+ quoted (regex_str (mRegex f))
  +:+ " matched: " +:+ quoted (mMatch f) +:+ " Destination: " +:+ mDestination f.

Definition addValidationHeadersDup (rInfo : RequestInfo) (matchedFilters : list tFilter)
    (numDestinations numFiltersAttempted : N) : RequestInfo :=
  let '(xDupLog, headersOut) :=
    match matchedFilters with
    | [] => ("The request is not duplicated, having found " +:+ string_of_N numDestinations
             +:+ " DupDestination(s) and attempted to match " +:+ string_of_N numFiltersAttempted
             +:+ " DupFilter or DupRawFilter", mHeadersOut rInfo)
    | _ =>
        let '(log, out, _) :=
          foldl (fun '(log, out, separator) f =>
                   (log +:+ separator +:+ matchedText f,
                    out ++ [("X-MATCHED-PATTERN"%string, mMatch f)], " AND "%string))
                ("The request is duplicated, "%string, mHeadersOut rInfo, EmptyString) matchedFilters in
        (log, out)
    end in
  set_mHeadersOut (headersOut ++ [("X_DUP_LOG"%string, xDupLog)]) rInfo.

(** ** Sending *)

Definition sendInBody (curl : CURL) (rInfo : RequestInfo) (slist : list string) (toSend : string)
    : CURL * list string :=
  let contentLen := "Content-Length: " +:+ cast_string (Z.of_N (str_len toSend)) in
  let slist := curl_slist_append slist contentLen in
  let curl := curl ++ [CURLOPT_POST 1] in
  let slist := addOrigHeaders rInfo slist in
  (curl ++ [CURLOPT_HTTPHEADER slist; CURLOPT_POSTFIELDSIZE (str_len toSend);
            CURLOPT_POSTFIELDS toSend], slist).

(** The answer headers, one per line. *)
Definition answerHeaders (rInfo : RequestInfo) : string :=
  str_concat ((fun v : tKeyVal => fst v +:+ ": " +:+ snd v +:+ endl) <$> mHeadersOut rInfo).

Definition dupContent (rInfo : RequestInfo) : string :=
  Serialize (mAnswer rInfo) (Serialize (answerHeaders rInfo) (Serialize (mBody rInfo) EmptyString)).

Definition sendDupFormat (curl : CURL) (rInfo : RequestInfo) (slist : list string)
    : CURL * list string :=
  let slist := curl_slist_append slist "Content-Type: application/x-dup-serialized" in
  let slist := curl_slist_append slist "Duplication-Type: Response" in
  let slist := foldl (fun slist (hdrOut : tKeyVal) =>
                 if String.eqb (fst hdrOut) "X-MATCHED-PATTERN"
                 then curl_slist_append slist (header_line hdrOut) else slist)
                 slist (mHeadersOut rInfo) in
  sendInBody curl rInfo slist (dupContent rInfo).

(** The last part of the error log of a failed transfer. *)
Definition errorReport (matchedFilter : tFilter) (rInfo : RequestInfo) : string :=
  if str_empty (mBody rInfo) then "empty body"
  else match (if regex_empty (mErrorLogBodyMatch matchedFilter) then None
              else regex_search (mBody rInfo) (mErrorLogBodyMatch matchedFilter)) with
       | Some matchedBody => "matched body: " +:+ matchedBody
       | None => "truncated body: " +:+ mBody rInfo
       end.

(** Everything a worker thread changes when it sends requests: its handle, the
    transfers it made (the handle of each, and what it returned), the shared
    counters and the error log. *)
Record Sender : Type := mkSender {
  handle : CURL;
  transfers : list (CURL * CurlResult);
  mTimeoutCount : N;
  mDuplicatedCount : N;
  errors : list string
}.

Context `{Curl}.

Definition performCurlCall (s : Sender) (matchedFilter : tFilter) (rInfo : RequestInfo)
    : Sender * RequestInfo :=
  let uri := mDestination matchedFilter +:+ mPath rInfo +:+ "?" +:+ mArgs rInfo in
  let curl := handle s ++ [CURLOPT_URL (cstr uri); CURLOPT_WRITEFUNCTION] in
  let slist := addCommonHeaders rInfo [] in
  let '(rInfo, slist) := addValidationHeadersCompare rInfo matchedFilter slist in
  let curl := curl ++ [CURLOPT_HEADERFUNCTION; CURLOPT_HEADERDATA] in
  let '(curl, slist) :=
    if bool_decide (mDuplicationType matchedFilter = REQUEST_WITH_ANSWER) then
      sendDupFormat curl rInfo slist
    else if bool_decide (mDuplicationType matchedFilter = COMPLETE_REQUEST) && hasBody rInfo then
      sendInBody curl rInfo slist (mBody rInfo)
    else
      let curl := curl ++ [CURLOPT_HTTPGET 1] in
      let slist := addOrigHeaders rInfo slist in
      (curl ++ [CURLOPT_HTTPHEADER slist], slist) in
  let result := curl_easy_perform (length (transfers s)) curl in
  let rInfo := set_mCurlCompResponseHeader
                 (foldl getCurlResponseHeaderCallback (mCurlCompResponseHeader rInfo)
                    (res_headers result)) rInfo in
  let rInfo := set_mCurlCompResponseStatus (res_code result) rInfo in
  ({| handle := curl;
      transfers := transfers s ++ [(curl, result)];
      mTimeoutCount := if Z.eqb (res_code result) CURLE_OPERATION_TIMEDOUT
                       then u32 (mTimeoutCount s + 1) else mTimeoutCount s;
      mDuplicatedCount := mDuplicatedCount s;
      errors := if negb (Z.eqb (res_code result) 0) || negb (Z.eqb (res_http result) 200)
                then errors s ++ [errorReport matchedFilter rInfo] else errors s |}, rInfo).
End CurlCall.

Section Theory.
Context `{BoostRegex, BoostString}.

(** ** Header names *)

(** A header name, as HTTP allows them: no colon and no NUL. *)
Definition header_key_ok (k : string) : bool := negb (has_char ":" k) && negb (has_char "000" k).

Lemma header_name_line k v :
  header_key_ok k = true -> header_name (cstr (header_line (k, v))) = Some k.
Proof.
  unfold header_key_ok, header_line. intros [Hc%negb_true_iff Hn%negb_true_iff]%andb_prop.
  cbn [fst snd]. rewrite cstr_app by done.
  change (cstr (": " +:+ v)) with (String ":" (cstr (String " " v))).
  unfold header_name. rewrite find_char_app by done. cbn. by rewrite str_take_app.
Qed.

(** ** Copying the headers of the request *)

Definition orig_step : list string * list string -> tKeyVal -> list string * list string :=
  fun '(headers, slist) v =>
    if negb (bool_decide (fst v ∈ headers)) && negb (not_copied (fst v))
    then (fst v :: headers, curl_slist_append slist (header_line v))
    else (headers, slist).

(** The headers the loop adds: the first of each name, in order, of the names
    that may be copied and are not in the list yet. *)
Fixpoint copied (headers : list string) (hs : tKeyValList) : tKeyValList :=
  match hs with
  | [] => []
  | v :: t =>
      if negb (bool_decide (fst v ∈ headers)) && negb (not_copied (fst v))
      then v :: copied (fst v :: headers) t else copied headers t
  end.

Lemma orig_fold hs headers slist :
  snd (foldl orig_step (headers, slist) hs)
  = slist ++ ((fun v => cstr (header_line v)) <$> copied headers hs).
Proof.
  revert headers slist. induction hs as [|v hs IH]; intros headers slist.
  - cbn. by rewrite app_nil_r.
  - cbn [foldl copied orig_step]. case_match; rewrite IH; [|done].
    unfold curl_slist_append. by rewrite <- app_assoc.
Qed.

Lemma addOrigHeaders_eq r slist :
  addOrigHeaders r slist
  = slist ++ ((fun v => cstr (header_line v)) <$> copied (omap header_name slist) (mHeadersIn r)).
Proof. apply orig_fold. Qed.

Lemma copied_spec headers hs :
  Forall (fun v => fst v ∉ headers /\ not_copied (fst v) = false) (copied headers hs) /\
  NoDup (fst <$> copied headers hs) /\ sublist (copied headers hs) hs /\
  (forall v, v ∈ hs -> fst v ∉ headers -> not_copied (fst v) = false ->
             fst v ∈ fst <$> copied headers hs).
Proof.
  revert headers. induction hs as [|v hs IH]; intros headers; cbn [copied].
  - repeat split; [constructor..|constructor|]. by intros v ?%not_elem_of_nil.
  - destruct (bool_decide (fst v ∈ headers)) eqn:Ev; [|destruct (not_copied (fst v)) eqn:En];
      cbn [negb andb].
    + destruct (IH headers) as (I1 & I2 & I3 & I4). repeat split; [done..|by constructor|].
      intros w [->|Hw]%elem_of_cons Hn Hc; [|by apply I4].
      by apply bool_decide_eq_true in Ev.
    + destruct (IH headers) as (I1 & I2 & I3 & I4). repeat split; [done..|by constructor|].
      intros w [->|Hw]%elem_of_cons Hn Hc; [|by apply I4]. congruence.
    + apply bool_decide_eq_false in Ev.
      destruct (IH (fst v :: headers)) as (I1 & I2 & I3 & I4). repeat split.
      * constructor; [done|]. eapply Forall_impl; [exact I1|]. intros w. set_solver.
      * cbn. constructor; [|done]. intros (w & Hw & Hin)%list_elem_of_fmap.
        rewrite Forall_forall in I1. apply I1 in Hin as [Hin _]. set_solver.
      * by constructor.
      * intros w [->|Hw]%elem_of_cons Hn Hc; cbn; [by left|].
        destruct (decide (fst w = fst v)) as [->|]; [by left|]. right. apply I4; set_solver.
Qed.

(** The headers copied from the request to the duplicate: each name at most
    once, never a name the duplicate has already, never one of the four names
    that belong to the transfer; and no other header is lost. *)
Theorem original_headers_copied r slist :
  exists added,
    addOrigHeaders r slist = slist ++ ((fun v => cstr (header_line v)) <$> added) /\
    sublist added (mHeadersIn r) /\ NoDup (fst <$> added) /\
    Forall (fun v => fst v ∉ omap header_name slist /\
              fst v ∉ ["Host"; "Transfer-Encoding"; "Content-Length"; "Duplication-Type"]%string) added /\
    (forall v, v ∈ mHeadersIn r -> fst v ∉ omap header_name slist ->
       fst v ∉ ["Host"; "Transfer-Encoding"; "Content-Length"; "Duplication-Type"]%string ->
       fst v ∈ fst <$> added).
Proof.
  exists (copied (omap header_name slist) (mHeadersIn r)).
  assert (Hnc : forall k, not_copied k = false <->
    k ∉ ["Host"; "Transfer-Encoding"; "Content-Length"; "Duplication-Type"]%string).
  { intros k. unfold not_copied. rewrite !orb_false_iff, !String.eqb_neq, !not_elem_of_cons.
    pose proof (not_elem_of_nil k). tauto. }
  destruct (copied_spec (omap header_name slist) (mHeadersIn r)) as (H1 & H2 & H3 & H4).
  repeat split; [apply addOrigHeaders_eq|done|done|..].
  - eapply Forall_impl; [exact H1|]. intros v [Hv Hc]. split; [done|by apply Hnc].
  - intros v Hv Hn Hc. apply H4; [done|done|by apply Hnc].
Qed.

(** ** The options in force *)

(** What libcurl documents of the options: the last value counts, [POST] and
    [POSTFIELDS] select a POST with the given body, [HTTPGET] goes back to GET. *)
Record Effective : Type := mkEffective {
  eff_url : string;
  eff_post : bool;
  eff_body : string;
  eff_size : N;
  eff_headers : list string
}.

Definition eff_step (e : Effective) (o : curl_opt) : Effective :=
  match o with
  | CURLOPT_URL s => mkEffective s (eff_post e) (eff_body e) (eff_size e) (eff_headers e)
  | CURLOPT_POST n =>
      mkEffective (eff_url e) (negb (n =? 0)) (eff_body e) (eff_size e) (eff_headers e)
  | CURLOPT_HTTPGET n =>
      mkEffective (eff_url e) (if n =? 0 then eff_post e else false) (eff_body e) (eff_size e)
        (eff_headers e)
  | CURLOPT_HTTPHEADER l => mkEffective (eff_url e) (eff_post e) (eff_body e) (eff_size e) l
  | CURLOPT_POSTFIELDSIZE n => mkEffective (eff_url e) (eff_post e) (eff_body e) n (eff_headers e)
  | CURLOPT_POSTFIELDS s => mkEffective (eff_url e) true s (eff_size e) (eff_headers e)
  | _ => e
  end.

Definition effective (c : CURL) : Effective :=
  foldl eff_step (mkEffective EmptyString false EmptyString 0 []) c.

(** The body of the transfer: the first [POSTFIELDSIZE] bytes of the data. *)
Definition sent_body (c : CURL) : option string :=
  if eff_post (effective c) then Some (str_take (eff_size (effective c)) (eff_body (effective c)))
  else None.

(** What the duplicate of [r] for a filter of type [t] carries. *)
Definition duplicate_body (t : eDuplicationType) (r : RequestInfo) : option string :=
  match t with
  | REQUEST_WITH_ANSWER => Some (dupContent r)
  | COMPLETE_REQUEST => if hasBody r then Some (mBody r) else None
  | HEADER_ONLY | NONE => None
  end.

(** Header names are compared without their case (RFC 9110, 5.1), so a name spelled with
    other letters announces a length too; the code knows one spelling only. *)
Definition names_length (k : string) : bool := strcaseeq k "Content-Length".

Definition other_spelling (k : string) : bool := names_length k && negb (String.eqb k "Content-Length").

(** The header lines that announce a length, whatever the case of their name. *)
Definition content_length (slist : list string) : list string :=
  List.filter (fun l => from_option names_length false (header_name l)) slist.

(** The lines of the request that announce a length under another spelling, the first
    of each spelling: [addOrigHeaders] copies them, since it compares the case. *)
Definition spelled_lengths (r : RequestInfo) : list string :=
  (fun v => cstr (header_line v)) <$> copied [] (List.filter (fun v => other_spelling (fst v)) (mHeadersIn r)).

Lemma content_length_app a b : content_length (a ++ b) = content_length a ++ content_length b.
Proof. apply List.filter_app. Qed.

Lemma content_length_line_of k v :
  header_key_ok k = true ->
  content_length [cstr (header_line (k, v))] = if names_length k then [cstr (header_line (k, v))] else [].
Proof. intros Hk. unfold content_length. cbn [List.filter]. by rewrite header_name_line. Qed.

Lemma content_length_other k v :
  header_key_ok k = true -> names_length k = false -> content_length [cstr (header_line (k, v))] = [].
Proof. intros Hk Hn. by rewrite content_length_line_of, Hn. Qed.

Lemma other_spelling_copied k : other_spelling k = true -> not_copied k = false.
Proof.
  unfold other_spelling, names_length, strcaseeq, not_copied. intros [Hl%String.eqb_eq ->%negb_true_iff]%andb_prop.
  destruct (String.eqb_spec k "Host") as [->|]; [done|]. destruct (String.eqb_spec k "Transfer-Encoding") as [->|]; [done|].
  by destruct (String.eqb_spec k "Duplication-Type") as [->|].
Qed.

(** The copied headers that announce a length are those spelled otherwise. *)
Lemma copied_lengths headers headers' hs :
  Forall (fun v => header_key_ok (fst v) = true) hs ->
  (forall k, other_spelling k = true -> k ∈ headers <-> k ∈ headers') ->
  content_length ((fun v => cstr (header_line v)) <$> copied headers hs)
  = (fun v => cstr (header_line v)) <$> copied headers' (List.filter (fun v => other_spelling (fst v)) hs).
Proof.
  intros Hok. revert headers headers'.
  induction Hok as [|[k v] hs Hk _ IH]; intros headers headers' Hh; [done|]. cbn [copied List.filter fst] in *.
  destruct (other_spelling k) eqn:Ek.
  - pose proof (other_spelling_copied k Ek) as Hn. cbn [copied fst]. rewrite Hn, !andb_true_r.
    rewrite (bool_decide_ext (k ∈ headers) (k ∈ headers')) by (by apply Hh).
    case_bool_decide; cbn [negb]; [by apply IH|]. rewrite !fmap_cons.
    match goal with |- content_length (?x :: ?l) = _ => change (x :: l) with ([x] ++ l) end.
    rewrite content_length_app, content_length_line_of by done.
    unfold other_spelling in Ek. apply andb_prop in Ek as [-> _]. cbn [app]. f_equal.
    apply IH. intros k' Hk'. rewrite !elem_of_cons. by rewrite Hh.
  - destruct (negb (bool_decide (k ∈ headers)) && negb (not_copied k)) eqn:Ec; [|by apply IH].
    apply andb_prop in Ec as [_ Hn%negb_true_iff]. rewrite fmap_cons.
    match goal with |- content_length (?x :: ?l) = _ => change (x :: l) with ([x] ++ l) end.
    rewrite content_length_app, content_length_other; [apply IH|done|].
    + intros k' Hk'. rewrite elem_of_cons, <- Hh by done. split; [by intros [->|?]; [congruence|]|by right].
    + unfold other_spelling in Ek. apply andb_false_iff in Ek as [?|E%negb_false_iff]; [done|].
      apply String.eqb_eq in E as ->. done.
Qed.

Lemma content_length_common r slist :
  content_length (addCommonHeaders r slist) = content_length slist.
Proof.
  unfold addCommonHeaders, curl_slist_append. rewrite !content_length_app.
  change (cstr ("ELAPSED_TIME_BY_DUP: " +:+ cast_string (getElapsedTimeMS r)))
    with (cstr (header_line ("ELAPSED_TIME_BY_DUP"%string, cast_string (getElapsedTimeMS r)))).
  rewrite content_length_other by done. cbn. by rewrite !app_nil_r.
Qed.

Lemma content_length_compare r f slist :
  content_length (snd (addValidationHeadersCompare r f slist)) = content_length slist.
Proof.
  unfold addValidationHeadersCompare. case_match; [|done]. cbn [snd].
  unfold curl_slist_append. by rewrite content_length_app, app_nil_r.
Qed.

Lemma content_length_patterns (out : tKeyValList) slist :
  content_length (foldl (fun slist (hdrOut : tKeyVal) =>
                 if String.eqb (fst hdrOut) "X-MATCHED-PATTERN"
                 then curl_slist_append slist (header_line hdrOut) else slist) slist out)
  = content_length slist.
Proof.
  revert slist. induction out as [|[k v] out IH]; intros slist; [done|]. cbn [foldl fst].
  destruct (String.eqb_spec k "X-MATCHED-PATTERN") as [->|]; rewrite IH; [|done].
  unfold curl_slist_append. by rewrite content_length_app, content_length_other, app_nil_r.
Qed.

Lemma content_length_orig r slist :
  Forall (fun v => header_key_ok (fst v) = true) (mHeadersIn r) ->
  Forall (fun l => header_name l = Some "Content-Length"%string) (content_length slist) ->
  content_length (addOrigHeaders r slist) = content_length slist ++ spelled_lengths r.
Proof.
  intros Hok Hown. rewrite addOrigHeaders_eq, content_length_app. f_equal. apply copied_lengths; [done|].
  intros k Hk. split; [|by intros ?%not_elem_of_nil]. intros (l & Hl & Hn)%list_elem_of_omap. exfalso.
  unfold other_spelling in Hk. apply andb_prop in Hk as [Hk Hne%negb_true_iff].
  assert (Hin : l ∈ content_length slist)
    by (apply list_elem_of_In, List.filter_In; split; [by apply list_elem_of_In|by rewrite Hn]).
  rewrite Forall_forall in Hown. apply Hown in Hin. rewrite Hn in Hin. injection Hin as ->. done.
Qed.
End Theory.

Section Transfer.
Context `{BoostRegex} {B : BoostString} {HB : BoostStringLaws B} `{Curl}.
Local Existing Instance B.

Lemma content_length_line n :
  content_length [cstr ("Content-Length: " +:+ cast_string (Z.of_N n))]
  = ["Content-Length: " +:+ string_of_N n]%string.
Proof.
  rewrite cast_string_spec.
  replace (string_of_Z (Z.of_N n)) with (string_of_N n) by (by destruct n).
  rewrite cstr_id.
  - done.
  - rewrite has_char_app. by rewrite has_char_string_of_N.
Qed.

(** A POST: whatever was set on the handle before, the transfer carries the
    given body, with its length. *)
Lemma sendInBody_effective curl r slist body :
  Forall (fun v => header_key_ok (fst v) = true) (mHeadersIn r) -> content_length slist = [] ->
  let c := fst (sendInBody curl r slist body) in
  eff_url (effective c) = eff_url (effective curl) /\ sent_body c = Some body /\
  eff_size (effective c) = str_len body /\
  content_length (eff_headers (effective c))
  = ("Content-Length: " +:+ string_of_N (str_len body))%string :: spelled_lengths r.
Proof.
  intros Hok Hs. unfold sendInBody, sent_body, effective. cbv zeta. cbn [fst].
  rewrite <- app_assoc, foldl_app. cbn [foldl app eff_step eff_url eff_post eff_body eff_size eff_headers].
  repeat split; [by rewrite str_take_all|].
  unfold curl_slist_append. rewrite content_length_orig; [|done|]; rewrite content_length_app, Hs, content_length_line;
    [done|]. by repeat constructor.
Qed.

(** The length the duplicate of [r] announces, whatever the case of the header names:
    with a body, the length of the body, once; without a body, none; and after it the
    lengths that the request itself announced under another spelling, which are copied. *)
Definition announced (r : RequestInfo) (body : option string) (e : Effective) : Prop :=
  (forall b, body = Some b -> eff_size e = str_len b) /\
  content_length (eff_headers e)
  = (match body with
     | Some b => ["Content-Length: " +:+ string_of_N (str_len b)]%string
     | None => []
     end) ++ spelled_lengths r.

(** The options after the branches of [performCurlCall] that choose the body. *)
Lemma send_effective f r slist curl :
  Forall (fun v => header_key_ok (fst v) = true) (mHeadersIn r) -> content_length slist = [] ->
  let c := fst (if bool_decide (mDuplicationType f = REQUEST_WITH_ANSWER) then
                  sendDupFormat curl r slist
                else if bool_decide (mDuplicationType f = COMPLETE_REQUEST) && hasBody r then
                  sendInBody curl r slist (mBody r)
                else (curl ++ [CURLOPT_HTTPGET 1] ++ [CURLOPT_HTTPHEADER (addOrigHeaders r slist)],
                      addOrigHeaders r slist)) in
  eff_url (effective c) = eff_url (effective curl) /\
  sent_body c = duplicate_body (mDuplicationType f) r /\
  announced r (duplicate_body (mDuplicationType f) r) (effective c).
Proof.
  intros Hok Hs. cbv zeta. unfold duplicate_body.
  assert (Hget : let c := curl ++ [CURLOPT_HTTPGET 1] ++ [CURLOPT_HTTPHEADER (addOrigHeaders r slist)] in
    eff_url (effective c) = eff_url (effective curl) /\ sent_body c = None /\
    announced r None (effective c)).
  { unfold announced, sent_body, effective. cbv zeta. rewrite foldl_app. cbn. repeat split; [done|].
    rewrite content_length_orig; rewrite ?Hs; done. }
  destruct (mDuplicationType f); cbn [andb]; rewrite ?bool_decide_eq_true_2 by done;
    rewrite ?bool_decide_eq_false_2 by done; cbn [andb fst]; [exact Hget..| |].
  - destruct (hasBody r); [|exact Hget].
    destruct (sendInBody_effective curl r slist (mBody r) Hok Hs) as (? & ? & ? & ?).
    split_and!; [done..|]. by split; [intros ? [= <-]|].
  - unfold sendDupFormat. cbv zeta.
    match goal with |- context [sendInBody curl r ?l ?b] =>
      destruct (sendInBody_effective curl r l b Hok) as (? & ? & ? & ?);
        [|split_and!; [done..|]; by split; [intros ? [= <-]|]] end.
    rewrite content_length_patterns. unfold curl_slist_append.
    by rewrite !content_length_app, Hs.
Qed.

Lemma performCurlCall_transfer (s : Sender) f r :
  Forall (fun v => header_key_ok (fst v) = true) (mHeadersIn r) ->
  let '(s', r') := performCurlCall s f r in
  transfers s' = transfers s ++
    [(handle s', curl_easy_perform (length (transfers s)) (handle s'))] /\
  eff_url (effective (handle s')) = cstr (mDestination f +:+ mPath r +:+ "?" +:+ mArgs r) /\
  sent_body (handle s') = duplicate_body (mDuplicationType f) r /\
  announced r (duplicate_body (mDuplicationType f) r) (effective (handle s')).
Proof.
  intros Hok. unfold performCurlCall. cbv zeta.
  pose proof (content_length_compare r f (addCommonHeaders r [])) as Hl.
  rewrite content_length_common in Hl.
  destruct (addValidationHeadersCompare r f (addCommonHeaders r [])) as [r1 slist] eqn:E.
  cbn [snd] in Hl.
  assert (Hr1 : mHeadersIn r1 = mHeadersIn r /\
                duplicate_body (mDuplicationType f) r1 = duplicate_body (mDuplicationType f) r).
  { unfold addValidationHeadersCompare in E. case_match; by injection E as <- _. }
  destruct Hr1 as [Hh Hb]. unfold announced, spelled_lengths. rewrite <- Hb, <- Hh, <- app_assoc. rewrite <- Hh in Hok.
  set (curl := handle s ++ _).
  pose proof (send_effective f r1 slist curl Hok Hl) as Hsend. cbv zeta in Hsend.
  rewrite <- app_assoc.
  destruct (if bool_decide (mDuplicationType f = REQUEST_WITH_ANSWER) then _ else _) as [c sl].
  cbn [handle transfers fst] in *. destruct Hsend as (-> & Hsent & Hann). split; [done|]. split; [|exact (conj Hsent Hann)].
  subst curl. unfold effective. rewrite foldl_app. done.
Qed.

(** What a transfer reports about itself is left out: two requests that only
    differ there have the same duplicates. *)
Definition norm (r : RequestInfo) : RequestInfo :=
  set_mValidationHeaderComp false
    (set_mCurlCompResponseHeader [] (set_mCurlCompResponseStatus 0 r)).

Lemma performCurlCall_reports s f r :
  let '(s', r') := performCurlCall s f r in
  let result := curl_easy_perform (length (transfers s)) (handle s') in
  mCurlCompResponseStatus r' = res_code result /\
  mTimeoutCount s' = (if Z.eqb (res_code result) CURLE_OPERATION_TIMEDOUT
                      then u32 (mTimeoutCount s + 1) else mTimeoutCount s) /\
  mDuplicatedCount s' = mDuplicatedCount s.
Proof.
  unfold performCurlCall. cbv zeta.
  destruct (addValidationHeadersCompare r f (addCommonHeaders r [])) as [r1 slist] eqn:E.
  destruct (if bool_decide (mDuplicationType f = REQUEST_WITH_ANSWER) then _ else _).
  done.
Qed.

Lemma performCurlCall_norm s f r : norm (snd (performCurlCall s f r)) = norm r.
Proof.
  unfold performCurlCall. cbv zeta.
  destruct (addValidationHeadersCompare r f (addCommonHeaders r [])) as [r1 slist] eqn:E.
  destruct (if bool_decide (mDuplicationType f = REQUEST_WITH_ANSWER) then _ else _).
  unfold addValidationHeadersCompare in E. case_match; by injection E as <- _.
Qed.

(** No header of the request announces a length under another spelling: nothing is added. *)
Lemma spelled_lengths_none r :
  Forall (fun v => other_spelling (fst v) = false) (mHeadersIn r) -> spelled_lengths r = [].
Proof.
  unfold spelled_lengths. induction 1 as [|v hs Hv _ IH]; [done|]. cbn [List.filter]. by rewrite Hv.
Qed.

(** [C4] A transfer sends what the duplication type asks for, to the destination of
    the filter with the path and query of the request, whatever the previous
    transfers left on the handle: no body or header of another request leaks
    into it. The lengths it announces, header names compared without their case, are
    that of its body, if it has one, and then those that the request itself announced
    under a name that is not exactly [Content-Length], such as [content-length]; these
    the code copies, although its comment says that it never adds one. So the length is
    announced once, and is that of the body, for the requests that have no such header. *)
Theorem transfer_matches_request (s : Sender) f r :
  Forall (fun v => header_key_ok (fst v) = true) (mHeadersIn r) ->
  let body := duplicate_body (mDuplicationType f) r in
  let '(s', r') := performCurlCall s f r in
  exists result, transfers s' = transfers s ++ [(handle s', result)] /\
  eff_url (effective (handle s')) = cstr (mDestination f +:+ mPath r +:+ "?" +:+ mArgs r) /\
  sent_body (handle s') = body /\
  announced r body (effective (handle s')) /\
  (Forall (fun v => other_spelling (fst v) = false) (mHeadersIn r) ->
   content_length (eff_headers (effective (handle s')))
   = match body with Some b => ["Content-Length: " +:+ string_of_N (str_len b)]%string | None => [] end) /\
  norm r' = norm r /\ mCurlCompResponseStatus r' = res_code result /\
  mTimeoutCount s' = if Z.eqb (res_code result) CURLE_OPERATION_TIMEDOUT
                     then u32 (mTimeoutCount s + 1) else mTimeoutCount s.
Proof.
  intros Hok. pose proof (performCurlCall_transfer s f r Hok) as Ht.
  pose proof (performCurlCall_norm s f r) as Hn. pose proof (performCurlCall_reports s f r) as Hr.
  cbv zeta. destruct (performCurlCall s f r) as [s' r']. cbn [fst snd] in *.
  destruct Ht as (Ht & Hu & Hb & Ha), Hr as (Hst & Hto & _). eexists. split_and!; try done.
  intros Hsp. destruct Ha as [_ ->]. by rewrite spelled_lengths_none, app_nil_r.
Qed.
End Transfer.

(** ** Evaluated on concrete requests *)
Module CurlExamples.
Import Reference.
Import FilterExamples.

#[export] Instance always_ok : Curl := fun _ _ =>
  {| res_code := 0; res_http := 200;
     res_headers := ["HTTP/1.1 200 OK" +:+ String "013" endl; "X-Reply:  a b " +:+ String "013" endl]%string |}.

Definition fresh_sender : Sender :=
  {| handle := []; transfers := []; mTimeoutCount := 0; mDuplicatedCount := 0; errors := [] |}.

(** A handle on which a previous request was posted. *)
Definition used_sender : Sender :=
  {| handle := [CURLOPT_POST 1; CURLOPT_HTTPHEADER ["Content-Length: 3"]; CURLOPT_POSTFIELDSIZE 3;
                CURLOPT_POSTFIELDS "old"];
     transfers := []; mTimeoutCount := 0; mDuplicatedCount := 0; errors := [] |}.

Definition with_headers (r : RequestInfo) : RequestInfo :=
  set_mHeadersIn [("Host", "h"); ("Accept", "a"); ("Accept", "b"); ("content-length", "5")]%string r.

Definition post_request : RequestInfo := with_headers (request "/p" "x=1" "hello").

Definition typed (t : eDuplicationType) : tFilter :=
  {| mScope := ALL; mRegex := regex_default; mDestination := "dest:80";
     mErrorLogBodyMatch := regex_default; mDuplicationType := t; mFilterType := REGULAR;
     mMatch := "" |}.

(** The lines of the response end up in the request, trimmed. *)
Example response_headers :
  mCurlCompResponseHeader (snd (performCurlCall fresh_sender (typed HEADER_ONLY) post_request))
  = [("HTTP/1.1 200 OK", "HTTP/1.1 200 OK"); ("X-Reply", "a b")]%string.
Proof. vm_compute. reflexivity. Qed.

(** The comparison is made with the case: a header named [content-length] is copied next to
    the [Content-Length] of the duplicate, with the length of the original body. *)
Example lower_case_content_length_copied :
  eff_headers (effective (handle (fst
    (performCurlCall fresh_sender (typed REQUEST_WITH_ANSWER) post_request))))
  = ["ELAPSED_TIME_BY_DUP: 0"; "Expect:"; "X-DUPLICATED-REQUEST: 1"; "User-RealAgent: mod-dup";
     "Content-Type: application/x-dup-serialized"; "Duplication-Type: Response";
     "Content-Length: 29"; "Accept: a"; "content-length: 5"]%string.
Proof. vm_compute. reflexivity. Qed.

(** A GET duplicate of a request with a body announces the length of that body. *)
Example lower_case_content_length_in_get :
  content_length (eff_headers (effective (handle (fst
    (performCurlCall fresh_sender (typed HEADER_ONLY) post_request)))))
  = ["content-length: 5"]%string.
Proof. vm_compute. reflexivity. Qed.

(** A request whose length is spelled as the code does. *)
Definition exact_request : RequestInfo :=
  set_mHeadersIn [("Host", "h"); ("Accept", "a"); ("Accept", "b"); ("Content-Length", "5")]%string
    (request "/p" "x=1" "hello").

Lemma transfer_matches_request_witness :
  let s := used_sender in let f := typed REQUEST_WITH_ANSWER in let r := exact_request in
  (Forall (fun v => header_key_ok (fst v) = true) (mHeadersIn r) /\
   Forall (fun v => other_spelling (fst v) = false) (mHeadersIn r)) /\
  let '(s', r') := performCurlCall s f r in
  sent_body (handle s') = Some (dupContent r) /\
  content_length (eff_headers (effective (handle s')))
  = ["Content-Length: " +:+ string_of_N (str_len (dupContent r))]%string.
Proof.
  cbv zeta.
  assert (Hk : Forall (fun v => header_key_ok (fst v) = true) (mHeadersIn exact_request)) by (by repeat constructor).
  assert (Hs : Forall (fun v => other_spelling (fst v) = false) (mHeadersIn exact_request)) by (by repeat constructor).
  split; [exact (conj Hk Hs)|].
  pose proof (transfer_matches_request (HB := boost_string_laws) used_sender (typed REQUEST_WITH_ANSWER) exact_request Hk) as Ht.
  cbv zeta in Ht. destruct (performCurlCall used_sender (typed REQUEST_WITH_ANSWER) exact_request) as [s' r'].
  destruct Ht as (result & _ & _ & Hb & _ & Hl & _). exact (conj Hb (Hl Hs)).
Defined.
End CurlExamples.
