(* ===== verification/RequestProcessor.v ===== *)
(** * RequestProcessor

    The class of RequestProcessor.hh/.cc: the configuration of the filters and
    substitutions per location and destination, [processRequest], [runOne] and
    [run]. The counters, the curl handle and the transfers are in the [Sender]
    of CurlCall. *)
From S2P Require Import Prelude CxxString StdMap Boost RequestCommon RequestInfo UrlCodec.
From S2P Require Import DupConf Filters Substitution CurlCall.
Local Open Scope N_scope.

Import ApplicationScope DuplicationType.

(** ** Pointers as keys

    [mCommands] is indexed by the address of the [DupConf]; [None] is the null
    pointer. *)

Definition ptr_ltb (a b : option N) : bool :=
  match a, b with
  | _, None => false
  | None, Some _ => true
  | Some x, Some y => x <? y
  end.

#[export] Instance ptr_less : CxxLess (option N) := ptr_ltb.

#[export] Instance ptr_swo : StrictWeakOrder (option N).
Proof.
  split; unfold less, ptr_less; intros [a|]; try intros [b|]; try intros [c|];
    cbn; rewrite ?N.ltb_lt, ?N.ltb_ge; try done; try lia.
Qed.

#[export] Instance ptr_total : TotalKeys (option N).
Proof.
  unfold TotalKeys, less, ptr_less. intros [a|] [b|]; cbn; rewrite ?N.ltb_ge; try done.
  intros. f_equal. lia.
Qed.

(** [random_r n] is the [n]-th draw of the thread, [None] when it fails. *)
Class Random : Type := random_r : nat -> option N.

(** [still_running n] is what the [n]-th read of the queue's flag gives: another
    thread may stop the queue at any time. *)
Class Running : Type := still_running : nat -> bool.

Section RequestProcessor.
Context `{BoostRegex, BoostString, ApacheUrl}.

Definition tCommandsByDestination : Type := list (string * Commands).

Record RequestProcessor : Type := mkRequestProcessor {
  mCommands : list (option N * tCommandsByDestination);
  mTimeout : N;
  mUrlCodec : IUrlCodec
}.

Definition newRequestProcessor : RequestProcessor :=
  {| mCommands := []; mTimeout := 0; mUrlCodec := getUrlCodec "default" |}.

Definition set_mCommands (x : list (option N * tCommandsByDestination)) (p : RequestProcessor) :
    RequestProcessor :=
  {| mCommands := x; mTimeout := mTimeout p; mUrlCodec := mUrlCodec p |}.

(** ** Configuration *)

Definition setTimeout (pTimeout : N) (p : RequestProcessor) : RequestProcessor :=
  {| mCommands := mCommands p; mTimeout := pTimeout; mUrlCodec := mUrlCodec p |}.

Definition setUrlCodec (pUrlCodec : string) (p : RequestProcessor) : RequestProcessor :=
  {| mCommands := mCommands p; mTimeout := mTimeout p; mUrlCodec := getUrlCodec pUrlCodec |}.

(** [f(mCommands[pConf][destination])] *)
Definition at_destination (pConf : option N) (destination : string) (f : Commands -> Commands)
    (p : RequestProcessor) : RequestProcessor :=
  set_mCommands (std_modify [] (std_modify newCommands f destination) pConf (mCommands p)) p.

Definition addFilter (pField pFilter : string) (pConf : option N) (pAssociatedConf : DupConf)
    (fType : eFilterTypes) (p : RequestProcessor) : outcome RequestProcessor :=
  let scope := currentApplicationScope pAssociatedConf in
  if negb (has scope BODY || has scope HEADERS || has scope QUERY_STRING)
  then Throw StdException
  else
    let! f := newFilter pFilter scope (currentDupDestination pAssociatedConf)
                (getCurrentDuplicationType pAssociatedConf)
                (errorLogBodyMatch pAssociatedConf) fType in
    Ret (at_destination pConf (currentDupDestination pAssociatedConf)
           (fun c => set_mFilters (mm_insert (CI (to_upper pField)) f (mFilters c)) c) p).

Definition setDestinationDuplicationPercentage (pConf : option N) (destination : string)
    (percentage : N) (p : RequestProcessor) : RequestProcessor :=
  at_destination pConf destination (set_mDuplicationPercentage percentage) p.

Definition addRawFilter (pFilter : string) (pConf : option N) (pAssociatedConf : DupConf)
    (fType : eFilterTypes) (p : RequestProcessor) : outcome RequestProcessor :=
  let! f := newFilter pFilter (currentApplicationScope pAssociatedConf)
              (currentDupDestination pAssociatedConf)
              (getCurrentDuplicationType pAssociatedConf)
              (errorLogBodyMatch pAssociatedConf) fType in
  Ret (at_destination pConf (currentDupDestination pAssociatedConf)
         (fun c => set_mRawFilters (mRawFilters c ++ [f]) c) p).

Definition addSubstitution (pField pMatch pReplace : string) (pConf : option N)
    (pAssociatedConf : DupConf) (p : RequestProcessor) : outcome RequestProcessor :=
  let! s := newSubstitute pMatch pReplace (currentApplicationScope pAssociatedConf) in
  Ret (at_destination pConf (currentDupDestination pAssociatedConf)
         (fun c => set_mSubstitutions
            (std_modify [] (fun l => l ++ [s]) (to_upper pField) (mSubstitutions c)) c) p).

Definition addRawSubstitution (pRegex pReplace : string) (pConf : option N)
    (pAssociatedConf : DupConf) (p : RequestProcessor) : outcome RequestProcessor :=
  let! s := newSubstitute pRegex pReplace (currentApplicationScope pAssociatedConf) in
  Ret (at_destination pConf (currentDupDestination pAssociatedConf)
         (fun c => set_mRawSubstitutions (mRawSubstitutions c ++ [s]) c) p).

(** ** The counters *)

Definition getTimeoutCount (s : Sender) : Sender * N :=
  ({| handle := handle s; transfers := transfers s; mTimeoutCount := 0;
      mDuplicatedCount := mDuplicatedCount s; errors := errors s |}, mTimeoutCount s).

Definition getDuplicatedCount (s : Sender) : Sender * N :=
  ({| handle := handle s; transfers := transfers s; mTimeoutCount := mTimeoutCount s;
      mDuplicatedCount := 0; errors := errors s |}, mDuplicatedCount s).

Definition countDuplicated (s : Sender) : Sender :=
  {| handle := handle s; transfers := transfers s; mTimeoutCount := mTimeoutCount s;
     mDuplicatedCount := u32 (mDuplicatedCount s + 1); errors := errors s |}.

(** ** processRequest *)

(** The loop over the destinations; the last component is [filtersAttempted]. *)
Fixpoint processDestinations (codec : IUrlCodec) (pRequest : RequestInfo)
    (lCommands : tCommandsByDestination) : tCommandsByDestination * list tFilter * N :=
  match lCommands with
  | [] => ([], [], 0)
  | (dest, c) :: t =>
      let '(c', matchedFilter) := matchesFilter codec pRequest c in
      let '(t', ret, filtersAttempted) := processDestinations codec pRequest t in
      ((dest, c') :: t',
       match matchedFilter with Some f => f :: ret | None => ret end,
       N.of_nat (length (mRawFilters c)) + N.of_nat (length (mFilters c)) + filtersAttempted)
  end.

Definition processRequest (p : RequestProcessor) (pRequest : RequestInfo)
    : RequestProcessor * RequestInfo * list tFilter :=
  match std_find (mConf pRequest) (mCommands p) with
  | None => (p, addValidationHeadersDup pRequest [] 0 0, [])
  | Some lCommands =>
      let '(lCommands', ret, filtersAttempted) :=
        processDestinations (mUrlCodec p) pRequest lCommands in
      (set_mCommands (std_set (mConf pRequest) lCommands' (mCommands p)) p,
       addValidationHeadersDup pRequest ret (N.of_nat (length lCommands)) filtersAttempted, ret)
  end.

(** ** The number of duplicates *)

Section Draws.
Context `{Random}.

(** The boolean is the answer; the counter of draws advances. *)
Definition toDuplicate (draws : nat) (c : Commands) : nat * bool :=
  (S draws,
   match random_r draws with
   | Some randNum => (randNum mod 100) <? (mDuplicationPercentage c mod 100)
   | None => false
   end).

Definition toDuplicateInt (draws : nat) (c : Commands) : nat * N :=
  let perc := mDuplicationPercentage c in
  let numDups := (perc - perc mod 100) / 100 in
  if perc mod 100 =? 0 then (draws, numDups)
  else let '(draws', b) := toDuplicate draws c in
       (draws', if b then u32 (numDups + 1) else numDups).
End Draws.

(** ** Sending the duplicates of a request *)

Section Run.
Context `{Random, Running, Curl}.

Record Worker : Type := mkWorker {
  sender : Sender;
  draws : nat;
  reads : nat
}.

(** The loop over the [numDups] duplicates for one filter. *)
Fixpoint sendDups (codec : IUrlCodec) (n : nat) (c : Commands) (f : tFilter) (w : Worker)
    (reqInfo : RequestInfo) : Worker * RequestInfo :=
  match n with
  | O => (w, reqInfo)
  | S n' =>
      let w1 := {| sender := sender w; draws := draws w; reads := S (reads w) |} in
      if negb (still_running (reads w)) then (w1, reqInfo)
      else
        let '(s, reqInfo') :=
          if negb (bool_decide (mSubstitutions c = [])) || negb (bool_decide (mRawSubstitutions c = []))
          then (fst (performCurlCall (sender w) f (snd (substituteRequest codec reqInfo c))), reqInfo)
          else performCurlCall (sender w) f reqInfo in
        sendDups codec n' c f
          {| sender := countDuplicated s; draws := draws w1; reads := reads w1 |} reqInfo'
  end.

(** The loop over the matched filters. *)
Fixpoint runFilters (p : RequestProcessor) (l : list tFilter) (w : Worker) (reqInfo : RequestInfo)
    : outcome (Worker * RequestInfo) :=
  match l with
  | [] => Ret (w, reqInfo)
  | f :: t =>
      let! cbd := std_at (mConf reqInfo) (mCommands p) in
      let! c := std_at (mDestination f) cbd in
      let '(draws', numDups) := toDuplicateInt (draws w) c in
      let w := {| sender := sender w; draws := draws'; reads := reads w |} in
      let '(w, reqInfo) := sendDups (mUrlCodec p) (N.to_nat numDups) c f w reqInfo in
      runFilters p t w reqInfo
  end.

Definition runOne (p : RequestProcessor) (w : Worker) (reqInfo : RequestInfo)
    : outcome (RequestProcessor * Worker * RequestInfo) :=
  let reqInfo := set_mParsedArgs
    (parseArgs (mUrlCodec p) (mParsedArgs reqInfo) (mArgs reqInfo)) reqInfo in
  let '(p, reqInfo, matchedFilters) := processRequest p reqInfo in
  let! '(w, reqInfo) := runFilters p matchedFilters w reqInfo in
  Ret (p, w, reqInfo).

(** [initCurl] fails when [curl_easy_init] does. *)
Definition initCurl (p : RequestProcessor) (curl_easy_init : bool) : option CURL :=
  if curl_easy_init
  then Some [CURLOPT_USERAGENT "mod-dup"; CURLOPT_TIMEOUT_MS (mTimeout p); CURLOPT_NOSIGNAL 1]
  else None.

(** The loop of [run] over the items the queue delivers. The result is the
    state, the items left, and whether the thread has ended (it waits in [pop]
    when the items are used up). *)
Fixpoint runLoop (p : RequestProcessor) (w : Worker) (items : list RequestInfo)
    : outcome (RequestProcessor * Worker * list RequestInfo * bool) :=
  match items with
  | [] => Ret (p, w, [], false)
  | lQueueItem :: rest =>
      if isPoison lQueueItem then Ret (p, w, rest, true)
      else
        let! '(p, w, _) := runOne p w lQueueItem in
        runLoop p w rest
  end.

Definition run (p : RequestProcessor) (w : Worker) (curl_easy_init : bool)
    (items : list RequestInfo) : outcome (RequestProcessor * Worker * list RequestInfo * bool) :=
  match initCurl p curl_easy_init with
  | None => Ret (p, w, items, true)
  | Some lCurl =>
      let s := sender w in
      runLoop p {| sender := {| handle := lCurl; transfers := transfers s;
                                mTimeoutCount := mTimeoutCount s;
                                mDuplicatedCount := mDuplicatedCount s; errors := errors s |};
                   draws := draws w; reads := reads w |} items
  end.
End Run.
End RequestProcessor.

(** ** The configuration invariant *)

Section Configuration.
Context `{BoostRegex} {B : BoostString} {HB : BoostStringLaws B} {A : ApacheUrl}.

(** The commands of a destination: the containers are ordered, the filters
    belong to the destination, a key filter has a scope with keys, and the
    names of the substitutions are in upper case. *)
Record commands_wf (dest : string) (c : Commands) : Prop := {
  cw_sorted : filters_sorted c;
  cw_dest : Forall (fun e => mDestination (snd e) = dest) (mFilters c);
  cw_raw_dest : Forall (fun f => mDestination f = dest) (mRawFilters c);
  cw_scope : Forall (fun e => has (mScope (snd e)) BODY || has (mScope (snd e)) HEADERS
                              || has (mScope (snd e)) QUERY_STRING = true) (mFilters c);
  cw_subs : map_sorted (mSubstitutions c);
  cw_upper : subs_upper (mSubstitutions c)
}.

Definition destinations_wf (cbd : tCommandsByDestination) : Prop :=
  map_sorted cbd /\ Forall (fun e => commands_wf (fst e) (snd e)) cbd.

Definition processor_wf (p : RequestProcessor) : Prop :=
  map_sorted (mCommands p) /\ Forall (fun e => destinations_wf (snd e)) (mCommands p).

Lemma newCommands_wf dest : commands_wf dest newCommands.
Proof. split; repeat constructor. Qed.

Lemma at_destination_wf pConf dest f p :
  (forall c, commands_wf dest c -> commands_wf dest (f c)) ->
  processor_wf p -> processor_wf (at_destination pConf dest f p).
Proof.
  intros Hf [Hs Hw]. split; cbn; [by apply std_modify_sorted|].
  assert (Hd : forall cbd, destinations_wf cbd -> destinations_wf (std_modify newCommands f dest cbd)).
  { intros cbd [Hcs Hcw]. split; [by apply std_modify_sorted|].
    apply Forall_modify; [done|apply Hf, newCommands_wf|].
    intros k c ->%equiv_key_eq. apply Hf. }
  apply Forall_modify; [done|apply Hd; by repeat constructor|]. intros k cbd _. apply Hd.
Qed.

Lemma mm_insert_Forall {K V} `{StrictWeakOrder K} (P : K * V -> Prop) k v m :
  Forall P m -> P (k, v) -> Forall P (mm_insert k v m).
Proof. intros Hm Hv. rewrite mm_insert_perm. by constructor. Qed.

Lemma newFilter_inv rx scope dest t e ft f :
  newFilter rx scope dest t e ft = Ret f -> mDestination f = dest /\ mScope f = scope.
Proof. unfold newFilter. destruct (regex_make rx false); cbn; [|done]. by intros [= <-]. Qed.

(** ** Every directive keeps it *)

(** The calls the directives of mod_dup.cc make. *)
Inductive config_call : Type :=
  | AddFilter (pField pFilter : string) (fType : eFilterTypes)
  | AddRawFilter (pFilter : string) (fType : eFilterTypes)
  | AddSubstitution (pField pMatch pReplace : string)
  | AddRawSubstitution (pRegex pReplace : string)
  | SetPercentage (percentage : N)
  | SetTimeout (pTimeout : N)
  | SetUrlCodec (pUrlCodec : string).

Definition config_do (pConf : option N) (conf : DupConf) (call : config_call)
    (p : RequestProcessor) : outcome RequestProcessor :=
  match call with
  | AddFilter k rx t => addFilter k rx pConf conf t p
  | AddRawFilter rx t => addRawFilter rx pConf conf t p
  | AddSubstitution k m r => addSubstitution k m r pConf conf p
  | AddRawSubstitution m r => addRawSubstitution m r pConf conf p
  | SetPercentage n =>
      Ret (setDestinationDuplicationPercentage pConf (currentDupDestination conf) n p)
  | SetTimeout t => Ret (setTimeout t p)
  | SetUrlCodec n => Ret (setUrlCodec n p)
  end.

Lemma config_do_wf pConf conf call p p' :
  config_do pConf conf call p = Ret p' -> processor_wf p -> processor_wf p'.
Proof.
  destruct call; cbn; try (by intros [= <-]).
  - unfold addFilter. case_match eqn:Hscope; [done|].
    destruct (newFilter _ _ _ _ _ _) as [f|] eqn:E; cbn; [|done]. intros [= <-].
    apply newFilter_inv in E as [Hd Hs]. apply at_destination_wf. intros c [].
    split; cbn; [by apply mm_insert_sorted|by apply mm_insert_Forall|done| |done|done].
    apply mm_insert_Forall; [done|]. cbn. rewrite Hs. by apply negb_false_iff.
  - unfold addRawFilter. destruct (newFilter _ _ _ _ _ _) as [f|] eqn:E; cbn; [|done].
    intros [= <-]. apply newFilter_inv in E as [Hd Hs]. apply at_destination_wf. intros c [].
    split; try done. cbn. apply Forall_app_2; [done|by repeat constructor].
  - unfold addSubstitution. destruct (newSubstitute _ _ _) as [s|]; cbn; [|done].
    intros [= <-]. apply at_destination_wf. intros c []. split; try done; cbn.
    + by apply std_modify_sorted.
    + apply Forall_modify; [done| |by intros].
      cbn. by rewrite to_upper_spec, string_map_toupper_idem.
  - unfold addRawSubstitution. destruct (newSubstitute _ _ _) as [s|]; cbn; [|done].
    intros [= <-]. apply at_destination_wf. intros c []. by split.
  - intros [= <-]. apply at_destination_wf. intros c []. by split.
Qed.

(** A configuration: the calls the directives of all locations make, in order. *)
Definition configure (calls : list (option N * DupConf * config_call)) : outcome RequestProcessor :=
  foldl (fun o '(pConf, conf, call) => let! p := o in config_do pConf conf call p)
    (Ret newRequestProcessor) calls.

Lemma configure_wf calls p : configure calls = Ret p -> processor_wf p.
Proof.
  unfold configure.
  assert (Hgo : forall o p, foldl (fun o '(pConf, conf, call) => let! p := o in config_do pConf conf call p)
     o calls = Ret p -> (forall q, o = Ret q -> processor_wf q) -> processor_wf p).
  { induction calls as [|[[pConf conf] call] calls IH]; intros o q; cbn [foldl]; [by intros ->; auto|].
    intros Hf Ho. apply (IH _ _ Hf). intros q' Hq'. destruct o as [p0|e]; [|done].
    cbn in Hq'. eapply config_do_wf; [done|by apply Ho]. }
  intros Hf. apply (Hgo _ _ Hf). intros q [= <-]. by repeat constructor.
Qed.

(** Whatever the directives are, a configuration that is accepted is well
    formed: the maps and multimaps are ordered, each filter names the
    destination it is stored under, and the names of the key substitutions are in
    upper case. *)
Theorem configuration_wf calls p :
  configure calls = Ret p ->
  processor_wf p /\
  forall pConf cbd dest c f,
    std_find pConf (mCommands p) = Some cbd -> std_find dest cbd = Some c ->
    (f ∈ snd <$> mFilters c \/ f ∈ mRawFilters c) -> mDestination f = dest.
Proof.
  intros Hc. pose proof (configure_wf calls p Hc) as Hwf. split; [done|].
  intros pConf cbd dest c f (k & Hk & _)%std_find_In (d & Hd & ->%equiv_key_eq)%std_find_In Hf.
  destruct Hwf as [_ Hall]. rewrite Forall_forall in Hall. destruct (Hall _ Hk) as [_ Hw].
  rewrite Forall_forall in Hw. destruct (Hw _ Hd) as [_ H1 H2 _ _ _].
  rewrite Forall_forall in H1. rewrite Forall_forall in H2. destruct Hf as [Hf|Hf]; [|by apply H2].
  apply list_elem_of_fmap in Hf as (e & -> & He). by apply H1.
Qed.

(** The regular expression of a call, if it has one. *)
Definition call_regex (call : config_call) : option string :=
  match call with
  | AddFilter _ rx _ | AddRawFilter rx _ => Some rx
  | AddSubstitution _ rx _ | AddRawSubstitution rx _ => Some rx
  | _ => None
  end.

(** A key filter needs a scope that has keys. *)
Definition call_scope_ok (conf : DupConf) (call : config_call) : bool :=
  match call with
  | AddFilter _ _ _ =>
      let scope := currentApplicationScope conf in
      has scope BODY || has scope HEADERS || has scope QUERY_STRING
  | _ => true
  end.

(** The errors of a directive: the scope is checked first, then the regular
    expression; with both right, the call succeeds. *)
Theorem config_errors pConf conf call p :
  match config_do pConf conf call p with
  | Ret _ => call_scope_ok conf call = true /\
             (forall rx, call_regex call = Some rx -> is_Some (regex_make rx false))
  | Throw e =>
      (e = StdException /\ call_scope_ok conf call = false) \/
      (e = BadExpression /\ call_scope_ok conf call = true /\
       exists rx, call_regex call = Some rx /\ regex_make rx false = None)
  end.
Proof.
  destruct call as [k rx t|rx t|k rx to|rx to|n|n|n]; cbn.
  - unfold addFilter. destruct (has _ BODY || _ || _) eqn:Es; cbn; [|by left].
    unfold newFilter. destruct (regex_make rx false) as [r|] eqn:Er; cbn.
    + split; [done|]. intros ? [= <-]. by rewrite Er.
    + right. eauto.
  - unfold addRawFilter, newFilter. destruct (regex_make rx false) as [r|] eqn:Er; cbn.
    + split; [done|]. intros ? [= <-]. by rewrite Er.
    + right. eauto.
  - unfold addSubstitution, newSubstitute. destruct (regex_make rx false) as [r|] eqn:Er; cbn.
    + split; [done|]. intros ? [= <-]. by rewrite Er.
    + right. eauto.
  - unfold addRawSubstitution, newSubstitute. destruct (regex_make rx false) as [r|] eqn:Er; cbn.
    + split; [done|]. intros ? [= <-]. by rewrite Er.
    + right. eauto.
  - done.
  - done.
  - done.
Qed.
End Configuration.

(** ** Processing a request *)

Section Processing.
Context `{BoostRegex} {B : BoostString} {HB : BoostStringLaws B} {A : ApacheUrl}.
Local Existing Instance B.

#[export] Instance commands_wf_proper dest : Proper (cmd_equiv ==> impl) (commands_wf dest).
Proof.
  intros c c' Hc [Hs Hd Hr Ho Hm Hu]. pose proof Hc as (HF & HR & HS & _).
  assert (Htr : forall P : tFilter -> Prop, (forall f, P f <-> P (set_mMatch EmptyString f)) ->
    Forall (fun e => P (snd e)) (mFilters c) -> Forall (fun e => P (snd e)) (mFilters c')).
  { intros P HP Hall. assert (Hall' : Forall (fun e => P (snd e))
      (prod_map id (set_mMatch EmptyString) <$> mFilters c)).
    { apply (Forall_fmap (prod_map id (set_mMatch EmptyString)) (fun e => P (snd e))).
      eapply Forall_impl; [exact Hall|]. intros [k f]. apply HP. }
    rewrite HF in Hall'.
    apply (Forall_fmap (prod_map id (set_mMatch EmptyString)) (fun e => P (snd e))) in Hall'.
    eapply Forall_impl; [exact Hall'|]. intros [k f]. apply HP. }
  split; [by rewrite <- Hc| | | |by rewrite <- HS..].
  - by apply (Htr (fun f => mDestination f = dest)).
  - assert (Hall : Forall (fun f => mDestination f = dest) (set_mMatch EmptyString <$> mRawFilters c))
      by (by apply Forall_fmap). rewrite HR in Hall. by apply Forall_fmap in Hall.
  - by apply (Htr (fun f => has (mScope f) BODY || has (mScope f) HEADERS
                              || has (mScope f) QUERY_STRING = true)).
Qed.

(** The destinations after a request: the same, up to the [mMatch] fields. *)
Definition dest_equiv (a b : string * Commands) : Prop := fst a = fst b /\ cmd_equiv (snd a) (snd b).

Definition filters_count (cbd : tCommandsByDestination) : N :=
  foldr (fun e n => N.of_nat (length (mRawFilters (snd e))) + N.of_nat (length (mFilters (snd e))) + n)
    0 cbd.

Lemma processDestinations_spec codec r cbd :
  Forall (fun e => filters_sorted (snd e)) cbd ->
  let '(cbd', ret, n) := processDestinations codec r cbd in
  ret = omap (fun e => matches_spec codec r (snd e)) cbd /\ Forall2 dest_equiv cbd' cbd /\
  n = filters_count cbd.
Proof.
  induction 1 as [|[d c] cbd Hc _ IH]; cbn [processDestinations]; [done|].
  pose proof (matchesFilter_spec codec r c Hc) as [Hm He].
  destruct (matchesFilter codec r c) as [c' m].
  destruct (processDestinations codec r cbd) as [[cbd' ret] n]. cbn [fst snd] in *.
  destruct IH as (-> & Hf & ->). repeat split; [|by constructor].
  cbn [omap list_omap snd]. by rewrite Hm.
Qed.

Lemma dest_equiv_keys cbd' cbd : Forall2 dest_equiv cbd' cbd -> fst <$> cbd' = fst <$> cbd.
Proof. induction 1 as [|[] [] ? ? [Hk _] _ IH]; [done|]. cbn in *. by f_equal. Qed.

Lemma destinations_wf_equiv cbd' cbd :
  Forall2 dest_equiv cbd' cbd -> destinations_wf cbd -> destinations_wf cbd'.
Proof.
  intros Hf [Hs Hw]. split.
  - apply map_sorted_keys. rewrite (dest_equiv_keys _ _ Hf). by apply map_sorted_keys.
  - clear Hs. induction Hf as [|[d' c'] [d c] l' l [Hd Hc] _ IH]; [constructor|].
    apply Forall_cons in Hw as [Hw1 Hw]. constructor; [|by apply IH]. cbn in *. subst.
    by rewrite Hc.
Qed.

Lemma dest_equiv_find cbd' cbd d :
  Forall2 dest_equiv cbd' cbd ->
  match std_find d cbd', std_find d cbd with
  | Some c', Some c => cmd_equiv c' c
  | None, None => True
  | _, _ => False
  end.
Proof.
  induction 1 as [|[d' c'] [e c] l' l [Hd Hc] _ IH]; cbn [std_find]; [done|].
  cbn in Hd, Hc. subst. destruct (less e d); [exact IH|]. by destruct (less d e).
Qed.

Lemma std_find_set_eq {V} (k : option N) (v w : V) m :
  map_sorted m -> std_find k m = Some w -> std_find k (std_set k v m) = Some v.
Proof. intros Hs _. unfold std_set. by rewrite std_find_modify_eq. Qed.

(** [processRequest]: at most one filter per destination, in the order of the
    destinations, each the one the specification designates. *)
Lemma processRequest_spec p r :
  processor_wf p ->
  let '(p', r', ret) := processRequest p r in
  processor_wf p' /\ mUrlCodec p' = mUrlCodec p /\
  match std_find (mConf r) (mCommands p) with
  | None => p' = p /\ ret = [] /\ r' = addValidationHeadersDup r [] 0 0
  | Some cbd =>
      ret = omap (fun e => matches_spec (mUrlCodec p) r (snd e)) cbd /\
      r' = addValidationHeadersDup r ret (N.of_nat (length cbd)) (filters_count cbd) /\
      exists cbd', std_find (mConf r) (mCommands p') = Some cbd' /\ Forall2 dest_equiv cbd' cbd
  end.
Proof.
  intros [Hs Hw]. unfold processRequest.
  destruct (std_find (mConf r) (mCommands p)) as [cbd|] eqn:Hf; [|by repeat split].
  assert (Hcbd : destinations_wf cbd).
  { apply std_find_In in Hf as (k & Hin & _). rewrite Forall_forall in Hw. by apply (Hw (k, cbd)). }
  pose proof (processDestinations_spec (mUrlCodec p) r cbd) as Hp.
  destruct (processDestinations _ r cbd) as [[cbd' ret] n].
  destruct Hp as (-> & Hd & ->).
  { destruct Hcbd as [_ Hc]. eapply Forall_impl; [exact Hc|]. intros [d c] Hc'. apply Hc'. }
  cbn. split; [split; cbn|split; [done|split; [done|split; [done|]]]].
  - by apply std_modify_sorted.
  - apply Forall_modify; [done|by eapply destinations_wf_equiv|].
    intros k c _ _. by eapply destinations_wf_equiv.
  - exists cbd'. split; [|done]. by eapply std_find_set_eq.
Qed.
End Processing.

(** ** The duplicates of a request *)

Section Duplicates.
Context `{BoostRegex} {B : BoostString} {HB : BoostStringLaws B} {A : ApacheUrl}.
Context {R : Random} {Q : Running} {C : Curl}.
Local Existing Instance B.

(** *** How many *)

Lemma toDuplicateInt_bounds n c :
  mDuplicationPercentage c < u32_modulus ->
  let k := snd (toDuplicateInt n c) in
  mDuplicationPercentage c / 100 <= k <= (mDuplicationPercentage c + 99) / 100.
Proof.
  intros Hp. cbv zeta. unfold toDuplicateInt, toDuplicate.
  pose proof (N.div_mod (mDuplicationPercentage c) 100 ltac:(lia)) as Hd.
  pose proof (N.mod_lt (mDuplicationPercentage c) 100 ltac:(lia)) as Hm.
  set (q := mDuplicationPercentage c / 100) in *. set (m := mDuplicationPercentage c mod 100) in *.
  replace ((mDuplicationPercentage c - m) / 100) with q
    by (replace (mDuplicationPercentage c - m) with (q * 100) by lia; by rewrite N.div_mul).
  assert (Hup : (mDuplicationPercentage c + 99) / 100 = if m =? 0 then q else q + 1).
  { destruct (N.eqb_spec m 0).
    - symmetry. apply (N.div_unique _ _ _ 99); lia.
    - symmetry. apply (N.div_unique _ _ _ (m - 1)); lia. }
  rewrite Hup. destruct (N.eqb_spec m 0); cbn [snd]; [lia|].
  unfold u32, u32_modulus in *.
  case_match; [case_match|]; rewrite ?N.mod_small; lia.
Qed.

(** The number of duplicates is the percentage over 100, rounded down or, with
    the probability of the remainder, up: a destination at 100% is never dropped
    nor doubled, one at 0% never used, and the draw decides only the rest. *)
Theorem duplicates_drawn n c :
  mDuplicationPercentage c < u32_modulus ->
  let k := snd (toDuplicateInt n c) in
  let perc := mDuplicationPercentage c in
  (perc / 100 <= k <= (perc + 99) / 100) /\
  (perc mod 100 = 0 -> toDuplicateInt n c = (n, perc / 100)) /\
  (forall r, random_r n = Some r -> perc mod 100 <> 0 ->
     (k = perc / 100 + 1 <-> r mod 100 < perc mod 100)).
Proof.
  intros Hp. cbv zeta. split; [by apply toDuplicateInt_bounds|].
  pose proof (N.div_mod (mDuplicationPercentage c) 100 ltac:(lia)) as Hd.
  unfold toDuplicateInt, toDuplicate.
  set (q := mDuplicationPercentage c / 100) in *. set (m := mDuplicationPercentage c mod 100) in *.
  replace ((mDuplicationPercentage c - m) / 100) with q
    by (replace (mDuplicationPercentage c - m) with (q * 100) by lia; by rewrite N.div_mul).
  split; [intros ->; by rewrite N.eqb_refl|].
  intros r -> Hm. destruct (N.eqb_spec m 0); [done|]. cbn [snd].
  unfold u32, u32_modulus in *. destruct (N.ltb_spec (r mod 100) m);
    rewrite ?N.mod_small by lia; lia.
Qed.

Lemma toDuplicateInt_equiv n c c' : cmd_equiv c c' -> toDuplicateInt n c = toDuplicateInt n c'.
Proof. intros (_ & _ & _ & _ & Hp). unfold toDuplicateInt, toDuplicate. by rewrite Hp. Qed.

(** *** Of which request *)

(** The request a destination receives: a copy with its substitutions. *)
Definition substituted (codec : IUrlCodec) (c : Commands) (r : RequestInfo) : RequestInfo :=
  if negb (bool_decide (mSubstitutions c = [])) || negb (bool_decide (mRawSubstitutions c = []))
  then snd (substituteRequest codec r c) else r.

Lemma rawSubstitute_norm l did r :
  snd (rawSubstitute l did (norm r)) = norm (snd (rawSubstitute l did r)).
Proof.
  unfold rawSubstitute. revert did r. induction l as [|s l IH]; intros did r; [done|].
  cbn [foldl]. rewrite <- IH. f_equal. f_equal. f_equal.
  by destruct (has (sScope s) URL), (has (sScope s) BODY), (has (sScope s) QUERY_STRING).
Qed.

Lemma substituteRequest_norm codec r c :
  snd (substituteRequest codec (norm r) c) = norm (snd (substituteRequest codec r c)).
Proof.
  unfold substituteRequest.
  destruct (subScopes (mSubstitutions c)) as [[onBody onHeader] onQs].
  change (mParsedArgs (norm r)) with (mParsedArgs r). change (mArgs (norm r)) with (mArgs r).
  destruct onQs; [destruct (keySubstitute _ _ _ _ _) as [d1 a1]|];
  (destruct onHeader; [cbn [mHeadersIn norm set_mArgs set_mValidationHeaderComp
     set_mCurlCompResponseHeader set_mCurlCompResponseStatus];
     destruct (headerSubstitute _ _) as [d2 a2]|]);
  (destruct onBody; [cbn [mBody norm set_mArgs set_mHeadersIn set_mValidationHeaderComp
     set_mCurlCompResponseHeader set_mCurlCompResponseStatus];
     destruct (keySubstitute _ _ _ _ _) as [d3 a3]|]);
  by rewrite <- rawSubstitute_norm.
Qed.

Lemma substituted_norm codec c r r' :
  norm r = norm r' -> norm (substituted codec c r) = norm (substituted codec c r').
Proof.
  intros Hn. unfold substituted. case_match; [|done].
  by rewrite <- !substituteRequest_norm, Hn.
Qed.

Lemma substituted_headers codec c r :
  fst <$> mHeadersIn (substituted codec c r) = fst <$> mHeadersIn r.
Proof.
  unfold substituted. case_match; [|done].
  pose proof (substituteRequest_frame codec r c) as Hf.
  by destruct (substituteRequest codec r c) as [d r'], Hf as [[Hf _] _].
Qed.

(** *** Sent how *)

Definition header_keys_ok (r : RequestInfo) : Prop :=
  Forall (fun v => header_key_ok (fst v) = true) (mHeadersIn r).

Lemma header_keys_ok_names r r' :
  fst <$> mHeadersIn r' = fst <$> mHeadersIn r -> header_keys_ok r -> header_keys_ok r'.
Proof.
  unfold header_keys_ok. intros He Hok.
  apply (Forall_fmap fst (fun k => header_key_ok k = true)). rewrite He.
  by apply (Forall_fmap fst (fun k => header_key_ok k = true)).
Qed.

(** The transfer is the duplicate of [r] for the filter [f]. *)
Definition sent_as (fr : tFilter * RequestInfo) (t : CURL * CurlResult) : Prop :=
  let '(f, r) := fr in
  let e := effective (fst t) in
  eff_url e = cstr (mDestination f +:+ mPath r +:+ "?" +:+ mArgs r) /\
  sent_body (fst t) = duplicate_body (mDuplicationType f) r /\
  announced r (duplicate_body (mDuplicationType f) r) e.

Lemma sent_as_norm f r r' t : norm r = norm r' -> sent_as (f, r) t -> sent_as (f, r') t.
Proof.
  intros Hn. unfold sent_as, announced, spelled_lengths. change (mHeadersIn r) with (mHeadersIn (norm r)).
  change (mPath r) with (mPath (norm r)). change (mArgs r) with (mArgs (norm r)).
  assert (Hb : forall r, duplicate_body (mDuplicationType f) r
                         = duplicate_body (mDuplicationType f) (norm r)) by done.
  by rewrite (Hb r), Hn, <- (Hb r').
Qed.

(** With substitutions a copy is sent: the reply of the destination is written
    to the copy, and the request itself keeps the status it had. *)
Theorem substituted_reply_is_lost codec n c f w r :
  mSubstitutions c <> [] \/ mRawSubstitutions c <> [] ->
  snd (sendDups codec n c f w r) = r.
Proof.
  intros Hc. revert w. induction n as [|n IH]; intros w; cbn [sendDups]; [done|].
  case_match; [done|].
  replace (negb (bool_decide (mSubstitutions c = [])) || negb (bool_decide (mRawSubstitutions c = [])))
    with true by (symmetry; destruct Hc; [rewrite (bool_decide_eq_false_2 (mSubstitutions c = []))|
                                           rewrite (bool_decide_eq_false_2 (mRawSubstitutions c = []))];
                  rewrite ?orb_true_r; done).
  apply IH.
Qed.

(** The loop over the duplicates for one filter makes that many transfers, or
    fewer when the queue is stopped meanwhile. *)
Lemma sendDups_spec codec n c f w r r0 :
  header_keys_ok r0 -> norm r = norm r0 ->
  let '(w', r') := sendDups codec n c f w r in
  norm r' = norm r0 /\ draws w' = draws w /\
  exists new, transfers (sender w') = transfers (sender w) ++ new /\
    (length new <= n)%nat /\ ((forall k, still_running k = true) -> length new = n) /\
    Forall (sent_as (f, substituted codec c r0)) new /\
    u32 (mDuplicatedCount (sender w'))
    = u32 (mDuplicatedCount (sender w) + N.of_nat (length new)).
Proof.
  intros Hok. revert w r. induction n as [|n IH]; intros w r Hn; cbn [sendDups].
  { split; [done|]. split; [done|]. exists []. rewrite app_nil_r, N.add_0_r. repeat split; by try constructor. }
  destruct (still_running (reads w)) eqn:Hrun; cbn [negb].
  2:{ split; [done|]. split; [done|]. exists []. rewrite app_nil_r, N.add_0_r.
      repeat split; cbn; try lia; [|by constructor]. intros Hk. by rewrite Hk in Hrun. }
  assert (Hsub : norm (substituted codec c r) = norm (substituted codec c r0))
    by (by apply substituted_norm).
  assert (Hok' : header_keys_ok (substituted codec c r)).
  { eapply header_keys_ok_names; [by rewrite substituted_headers|].
    unfold header_keys_ok. change (mHeadersIn r) with (mHeadersIn (norm r)). by rewrite Hn. }
  set (call := performCurlCall (sender w) f (substituted codec c r)).
  assert (Hcall : exists s r', norm r' = norm r0 /\ s = fst call /\
    (if negb (bool_decide (mSubstitutions c = [])) || negb (bool_decide (mRawSubstitutions c = []))
     then (fst (performCurlCall (sender w) f (snd (substituteRequest codec r c))), r)
     else performCurlCall (sender w) f r) = (s, r')).
  { unfold call, substituted. destruct (negb _ || negb _); [by eexists _, r|].
    pose proof (performCurlCall_norm (sender w) f r) as Hp.
    destruct (performCurlCall (sender w) f r) as [s r']. exists s, r'. by rewrite <- Hn. }
  destruct Hcall as (s & r' & Hr' & -> & ->).
  pose proof (performCurlCall_transfer (sender w) f (substituted codec c r) Hok') as Ht.
  pose proof (performCurlCall_reports (sender w) f (substituted codec c r)) as Hrep.
  fold call in Ht, Hrep. destruct call as [s rc]. cbn [fst].
  destruct Ht as (Ht & Hu & Hb & Ha). destruct Hrep as (_ & _ & Hdc).
  match goal with |- context [sendDups codec n c f ?x r'] => specialize (IH x r' Hr');
    destruct (sendDups codec n c f x r') as [w'' r''] end.
  cbn [sender draws transfers mDuplicatedCount countDuplicated] in IH.
  destruct IH as (IH1 & IH2 & new & IH3 & IH4 & IH5 & IH6 & IH7).
  split; [done|]. split; [done|]. eexists (_ :: new). split; [|split; [|split; [|split]]].
  - rewrite IH3, Ht, <- app_assoc. reflexivity.
  - cbn. lia.
  - intros Hk. cbn. by rewrite IH5.
  - constructor; [|done]. by apply (sent_as_norm f (substituted codec c r)).
  - rewrite IH7, Hdc. unfold u32, u32_modulus. cbn [length].
    rewrite N.Div0.add_mod_idemp_l. f_equal. lia.
Qed.

(** *** In what order *)

(** What should be sent for a request: for each destination in order, when the
    specification designates a filter, as many duplicates as drawn, of the
    request with the substitutions of that destination. [rq] is the request the
    filters see, [rs] the one that is sent. *)
Fixpoint dup_plan (codec : IUrlCodec) (rq rs : RequestInfo) (cbd : tCommandsByDestination)
    (draws : nat) : list (tFilter * RequestInfo) :=
  match cbd with
  | [] => []
  | (d, c) :: t =>
      match matches_spec codec rq c with
      | None => dup_plan codec rq rs t draws
      | Some f =>
          let '(draws', n) := toDuplicateInt draws c in
          replicate (N.to_nat n) (f, substituted codec c rs) ++ dup_plan codec rq rs t draws'
      end
  end.

Lemma substituted_equiv codec c c' r :
  cmd_equiv c c' -> substituted codec c r = substituted codec c' r.
Proof.
  intros (_ & _ & Hs & Hr & _). unfold substituted, substituteRequest. by rewrite Hs, Hr.
Qed.

Lemma matched_destination codec rq d c f :
  commands_wf d c -> matches_spec codec rq c = Some f -> mDestination f = d.
Proof.
  intros Hw Hf. apply matches_spec_sound in Hf as (_ & g & Hg & ->).
  change (mDestination g = d). destruct Hw as [_ Hd Hr _ _ _]. rewrite Forall_forall in Hd. rewrite Forall_forall in Hr.
  destruct Hg as [Hg|Hg]; [|by apply Hr].
  apply list_elem_of_fmap in Hg as (e & -> & He). by apply Hd.
Qed.

(** The transfers follow the plan, all of it when the queue is not stopped. *)
Definition follows (plan : list (tFilter * RequestInfo)) (w w' : Worker) : Prop :=
  exists done_ new,
    transfers (sender w') = transfers (sender w) ++ new /\
    sublist done_ plan /\ ((forall k, still_running k = true) -> done_ = plan) /\
    Forall2 sent_as done_ new /\
    u32 (mDuplicatedCount (sender w')) = u32 (mDuplicatedCount (sender w) + N.of_nat (length new)).

Lemma follows_app plan1 plan2 w1 w2 w3 :
  follows plan1 w1 w2 -> follows plan2 w2 w3 -> follows (plan1 ++ plan2) w1 w3.
Proof.
  intros (d1 & n1 & Ht1 & Hs1 & Hr1 & Hf1 & Hc1) (d2 & n2 & Ht2 & Hs2 & Hr2 & Hf2 & Hc2).
  exists (d1 ++ d2), (n1 ++ n2). repeat split.
  - by rewrite Ht2, Ht1, <- app_assoc.
  - by apply sublist_app.
  - intros Hk. by rewrite Hr1, Hr2.
  - by apply Forall2_app.
  - rewrite Hc2. unfold u32 in *. rewrite N.Div0.add_mod, Hc1, <- N.Div0.add_mod, length_app.
    f_equal. lia.
Qed.

Lemma sendDups_follows codec n c f w r r0 draws0 :
  header_keys_ok r0 -> norm r = norm r0 ->
  let '(w', r') := sendDups codec n c f {| sender := sender w; draws := draws0; reads := reads w |} r in
  norm r' = norm r0 /\ draws w' = draws0 /\
  follows (replicate n (f, substituted codec c r0)) w w'.
Proof.
  intros Hok Hn.
  pose proof (sendDups_spec codec n c f {| sender := sender w; draws := draws0; reads := reads w |}
                r r0 Hok Hn) as Hs.
  destruct (sendDups _ _ _ _ _ _) as [w' r'].
  destruct Hs as (Hr & Hd & new & Ht & Hle & Hk & Hf & Hc). split; [done|]. split; [done|].
  exists (replicate (length new) (f, substituted codec c r0)), new. repeat split; [done|..|done].
  - replace n with (length new + (n - length new))%nat by lia. rewrite replicate_add.
    by apply sublist_inserts_r.
  - intros Hrun. by rewrite (Hk Hrun).
  - by apply Forall2_replicate_l.
Qed.

Lemma runFilters_spec p cbd cbd' rq r0 tl w r :
  std_find (mConf r0) (mCommands p) = Some cbd' -> Forall2 dest_equiv cbd' cbd ->
  destinations_wf cbd -> header_keys_ok r0 -> (forall e, e ∈ tl -> e ∈ cbd) ->
  norm r = norm r0 ->
  exists w' r',
    runFilters p (omap (fun e => matches_spec (mUrlCodec p) rq (snd e)) tl) w r = Ret (w', r') /\
    norm r' = norm r0 /\ follows (dup_plan (mUrlCodec p) rq r0 tl (draws w)) w w'.
Proof.
  intros Hfind Heq [Hsort Hwf] Hok. revert w r.
  induction tl as [|[d c] tl IH]; intros w r Htl Hn; cbn [omap list_omap snd dup_plan].
  { exists w, r. split; [done|]. split; [done|]. exists [], []. rewrite app_nil_r, N.add_0_r.
    repeat split; constructor. }
  assert (Hin : (d, c) ∈ cbd) by (apply Htl; left).
  destruct (matches_spec (mUrlCodec p) rq c) as [f|] eqn:Hm;
    [|apply IH; [intros e He; apply Htl; by right|done]].
  pose proof Hwf as Hwf'. rewrite Forall_forall in Hwf'.
  cbn [runFilters]. rewrite (matched_destination _ _ _ _ _ (Hwf' _ Hin) Hm).
  replace (mConf r) with (mConf r0)
    by (change (mConf (norm r0) = mConf (norm r)); by rewrite Hn).
  unfold std_at. rewrite Hfind. cbn [of_option obind fst].
  pose proof (dest_equiv_find cbd' cbd d Heq) as Hd.
  rewrite (std_find_elem d c cbd Hsort Hin) in Hd.
  destruct (std_find d cbd') as [c'|]; [|done]. cbn [of_option obind].
  rewrite (toDuplicateInt_equiv _ _ _ Hd).
  destruct (toDuplicateInt (draws w) c) as [draws' k].
  pose proof (sendDups_follows (mUrlCodec p) (N.to_nat k) c' f w r r0 draws' Hok Hn) as Hsend.
  destruct (sendDups _ _ _ _ _ _) as [w1 r1]. destruct Hsend as (Hn1 & Hdr & Hf).
  rewrite (substituted_equiv _ _ _ _ Hd) in Hf.
  destruct (IH w1 r1) as (w2 & r2 & Hrun & Hn2 & Hf2); [intros e He; apply Htl; by right|done|].
  exists w2, r2. split; [exact Hrun|]. split; [done|]. rewrite Hdr in Hf2.
  by eapply follows_app.
Qed.

Lemma addValidationHeadersDup_keeps r l n k :
  let r' := addValidationHeadersDup r l n k in
  mHeadersIn r' = mHeadersIn r /\ mConf r' = mConf r.
Proof. unfold addValidationHeadersDup. by case_match. Qed.

(** The request as the filters see it, the commands of its location, the
    filters that match it, and the request as it is sent. *)
Definition parsed (p : RequestProcessor) (r : RequestInfo) : RequestInfo :=
  set_mParsedArgs (parseArgs (mUrlCodec p) (mParsedArgs r) (mArgs r)) r.

Definition destinations_of (p : RequestProcessor) (r : RequestInfo) : tCommandsByDestination :=
  default [] (std_find (mConf r) (mCommands p)).

Definition matched_filters (p : RequestProcessor) (r : RequestInfo) : list tFilter :=
  omap (fun e => matches_spec (mUrlCodec p) (parsed p r) (snd e)) (destinations_of p r).

Definition to_send (p : RequestProcessor) (r : RequestInfo) : RequestInfo :=
  addValidationHeadersDup (parsed p r) (matched_filters p r)
    (N.of_nat (length (destinations_of p r))) (filters_count (destinations_of p r)).

Definition request_plan (p : RequestProcessor) (r : RequestInfo) (draws : nat) :
    list (tFilter * RequestInfo) :=
  dup_plan (mUrlCodec p) (parsed p r) (to_send p r) (destinations_of p r) draws.

Lemma runOne_spec p w r :
  processor_wf p -> header_keys_ok r ->
  exists p' w' r',
    runOne p w r = Ret (p', w', r') /\ processor_wf p' /\ mUrlCodec p' = mUrlCodec p /\
    norm r' = norm (to_send p r) /\ follows (request_plan p r (draws w)) w w'.
Proof.
  intros Hwf Hok. unfold runOne, request_plan, to_send, matched_filters, destinations_of.
  fold (parsed p r). change (mConf r) with (mConf (parsed p r)).
  pose proof (processRequest_spec p (parsed p r) Hwf) as Hp.
  destruct (processRequest p (parsed p r)) as [[p' r'] ret].
  destruct Hp as (Hwf' & Hcodec & Hp).
  destruct (std_find (mConf (parsed p r)) (mCommands p)) as [cbd|] eqn:Hf; cbn [default].
  - destruct Hp as (-> & -> & cbd' & Hf' & Heq). rewrite <- Hcodec.
    set (rs := addValidationHeadersDup _ _ _ _).
    destruct (addValidationHeadersDup_keeps (parsed p r)
      (omap (fun e => matches_spec (mUrlCodec p') (parsed p r) (snd e)) cbd)
      (N.of_nat (length cbd)) (filters_count cbd)) as [Hh Hc]. fold rs in Hh, Hc.
    destruct (runFilters_spec p' cbd cbd' (parsed p r) rs cbd w rs) as (w' & r' & Hrun & Hn & Hfo);
      [by rewrite Hc|done| | |done|done|].
    + destruct Hwf as [_ Hall]. apply std_find_In in Hf as (k & Hin & _).
      rewrite Forall_forall in Hall. by apply (Hall (k, cbd)).
    + unfold header_keys_ok. by rewrite Hh.
    + exists p', w', r'. rewrite Hrun. by repeat split; try apply Hwf'.
  - destruct Hp as (-> & -> & ->). eexists p, w, _. cbn [runFilters obind omap list_omap].
    split; [reflexivity|]. repeat split; try apply Hwf.
    exists [], []. rewrite app_nil_r, N.add_0_r. repeat split; constructor.
Qed.

(** [C2] [runOne] never throws (the commands of a matched filter are always found),
    keeps the configuration well formed, and sends exactly what the plan says:
    destinations in order, one filter each, the drawn number of duplicates of
    the request with the substitutions of that destination, so that the
    substitutions of one destination never reach another; the counter of
    duplicates counts the transfers. When the queue is stopped meanwhile, the
    transfers are a part of the plan, in its order. *)
Theorem runOne_follows_plan p w r :
  processor_wf p -> header_keys_ok r ->
  exists p' w' r',
    runOne p w r = Ret (p', w', r') /\ processor_wf p' /\ norm r' = norm (to_send p r) /\
    follows (request_plan p r (draws w)) w w'.
Proof.
  intros Hwf Hok. destruct (runOne_spec p w r Hwf Hok) as (p' & w' & r' & Hr & Hw & _ & Hn & Hf).
  by exists p', w', r'.
Qed.

(** *** Bounds *)

Lemma dup_plan_length codec rq rs cbd n b :
  Forall (fun e => mDuplicationPercentage (snd e) <= 100 * b) cbd -> 100 * b < u32_modulus ->
  (length (dup_plan codec rq rs cbd n)
   <= N.to_nat b * length (omap (fun e => matches_spec codec rq (snd e)) cbd))%nat.
Proof.
  intros Hb Hu. revert n. induction Hb as [|[d c] cbd Hc _ IH]; intros n; [cbn; lia|].
  cbn [dup_plan omap list_omap snd]. destruct (matches_spec codec rq c) as [f|]; [|apply IH].
  cbn [snd] in Hc. pose proof (toDuplicateInt_bounds n c ltac:(lia)) as [_ Hk].
  destruct (toDuplicateInt n c) as [n' k]. cbn [snd] in Hk.
  assert (Hkb : k <= b).
  { etrans; [exact Hk|]. etrans; [apply (N.Div0.div_le_mono _ (100 * b + 99)); lia|].
    apply N.lt_succ_r. apply N.Div0.div_lt_upper_bound. lia. }
  rewrite length_app, length_replicate. cbn [length]. specialize (IH n'). lia.
Qed.

(** [C34] A request is duplicated at most a hundred times per destination whose
    filters match it: percentages are limited to 10000 by the directive. *)
Theorem amplification_bounded p w r p' w' r' :
  processor_wf p -> header_keys_ok r ->
  Forall (fun e => mDuplicationPercentage (snd e) <= 10000) (destinations_of p r) ->
  runOne p w r = Ret (p', w', r') ->
  (length (transfers (sender w'))
   <= length (transfers (sender w)) + 100 * length (matched_filters p r))%nat.
Proof.
  intros Hwf Hok Hp Hrun.
  destruct (runOne_spec p w r Hwf Hok) as (p1 & w1 & r1 & Hr & _ & _ & _ & Hf).
  rewrite Hrun in Hr. injection Hr as <- <- <-.
  destruct Hf as (done_ & new & -> & Hs & _ & Hl & _).
  pose proof (dup_plan_length (mUrlCodec p) (parsed p r) (to_send p r) (destinations_of p r)
                (draws w) 100 Hp ltac:(reflexivity)) as Hb.
  apply sublist_length in Hs. apply Forall2_length in Hl.
  unfold request_plan in Hs. fold (matched_filters p r) in Hb. rewrite length_app. lia.
Qed.

(** *** The configuration after a request *)

(** Handling a request changes only the match fields of the filters. *)
Definition same_config (p p' : RequestProcessor) : Prop :=
  mUrlCodec p' = mUrlCodec p /\
  forall conf, option_Forall2 (Forall2 dest_equiv) (std_find conf (mCommands p')) (std_find conf (mCommands p)).

#[export] Instance dest_equiv_preorder : PreOrder dest_equiv.
Proof.
  split; [by intros [d c]|]. intros x y z [Hk Hc] [Hk' Hc']. split; [by rewrite Hk|by rewrite Hc].
Qed.

#[export] Instance same_config_preorder : PreOrder same_config.
Proof.
  split; [by intros p|]. intros p q r [Hc Hd] [Hc' Hd']. split; [by rewrite Hc'|].
  intros conf. by etrans; [apply Hd'|apply Hd].
Qed.

Lemma runOne_config p w r p' w' r' :
  processor_wf p -> runOne p w r = Ret (p', w', r') -> same_config p p'.
Proof.
  intros Hwf. unfold runOne. pose proof (processRequest_spec p (parsed p r) Hwf) as Hp.
  unfold parsed in Hp. destruct (processRequest p _) as [[p1 r1] ret] eqn:Hpr.
  destruct (runFilters p1 ret w r1) as [[w2 r2]|e]; [|done]. cbn [obind]. intros [= <- _ _].
  destruct Hp as (_ & Hcodec & Hp). split; [done|]. intros conf.
  unfold processRequest in Hpr. cbn [mConf set_mParsedArgs] in *.
  destruct (std_find (mConf r) (mCommands p)) as [cbd|] eqn:Hf; [|by destruct Hp as (-> & _)].
  destruct Hp as (_ & _ & cbd' & Hf' & Heq).
  destruct (decide (conf = mConf r)) as [->|Hne]; [rewrite Hf, Hf'; by constructor|].
  destruct (processDestinations _ _ _) as [[cmds ret'] n]. injection Hpr as <- _ _. cbn [mCommands set_mCommands].
  assert (Hsame : std_find conf (std_set (mConf r) cmds (mCommands p)) = std_find conf (mCommands p)).
  { unfold std_set. apply std_find_modify_ne; [apply Hwf|congruence]. }
  rewrite Hsame. reflexivity.
Qed.

(** Then the plans are the same. *)

Lemma dup_plan_equiv codec rq rs cbd' cbd n :
  Forall2 dest_equiv cbd' cbd -> dup_plan codec rq rs cbd' n = dup_plan codec rq rs cbd n.
Proof.
  intros Hf. revert n. induction Hf as [|[d' c'] [d c] cbd' cbd [_ Hc] _ IH]; intros n; [done|].
  cbn [snd] in Hc. assert (Hm : matches_spec codec rq c' = matches_spec codec rq c) by (by rewrite Hc).
  cbn [dup_plan]. rewrite Hm. destruct (matches_spec codec rq c) as [f|]; [|apply IH].
  rewrite (toDuplicateInt_equiv n c' c Hc). destruct (toDuplicateInt n c) as [n' k].
  by rewrite (substituted_equiv codec c' c rs Hc), IH.
Qed.

Lemma matched_equiv codec rq cbd' cbd :
  Forall2 dest_equiv cbd' cbd ->
  omap (fun e => matches_spec codec rq (snd e)) cbd' = omap (fun e => matches_spec codec rq (snd e)) cbd /\
  length cbd' = length cbd /\ filters_count cbd' = filters_count cbd.
Proof.
  induction 1 as [|[d' c'] [d c] cbd' cbd [_ Hc] _ (IH1 & IH2 & IH3)]; [done|].
  assert (Hm : matches_spec codec rq c' = matches_spec codec rq c) by (by rewrite Hc).
  cbn [snd] in Hc. cbn [omap list_omap snd length]. rewrite Hm.
  change (filters_count ((d', c') :: cbd')) with
    (N.of_nat (length (mRawFilters c')) + N.of_nat (length (mFilters c')) + filters_count cbd').
  change (filters_count ((d, c) :: cbd)) with
    (N.of_nat (length (mRawFilters c)) + N.of_nat (length (mFilters c)) + filters_count cbd).
  destruct Hc as (HF & HR & _). split_and!.
  - by rewrite IH1.
  - by rewrite IH2.
  - apply (f_equal length) in HF. apply (f_equal length) in HR. rewrite !length_fmap in HF. rewrite !length_fmap in HR.
    by rewrite HF, HR, IH3.
Qed.

Lemma plan_same p p' r n : same_config p p' -> request_plan p' r n = request_plan p r n.
Proof.
  intros [Hc Hd]. unfold request_plan, to_send, matched_filters, destinations_of, parsed. rewrite Hc.
  specialize (Hd (mConf r)). destruct Hd as [cbd' cbd Hf|]; [|done]. cbn [default from_option id].
  set (rq := set_mParsedArgs _ r). destruct (matched_equiv (mUrlCodec p) rq cbd' cbd Hf) as (-> & -> & ->).
  by apply dup_plan_equiv.
Qed.

(** *** The worker thread *)

(** Requests handled one after the other, each by the plan of the configuration [p]. *)
Inductive handled_in_turn (p : RequestProcessor) : list RequestInfo -> Worker -> Worker -> Prop :=
  | in_turn_nil w : handled_in_turn p [] w w
  | in_turn_cons r rs w w1 w2 :
      follows (request_plan p r (draws w)) w w1 -> handled_in_turn p rs w1 w2 ->
      handled_in_turn p (r :: rs) w w2.

(** The worker with the handle of its thread. *)
Definition with_handle (curl : CURL) (w : Worker) : Worker :=
  mkWorker (mkSender curl (transfers (sender w)) (mTimeoutCount (sender w)) (mDuplicatedCount (sender w))
             (errors (sender w))) (draws w) (reads w).

Lemma runLoop_spec p0 p w before pill rest :
  processor_wf p -> same_config p0 p ->
  Forall (fun r => isPoison r = false /\ header_keys_ok r) before -> isPoison pill = true ->
  exists p' w', processor_wf p' /\ same_config p0 p' /\
    runLoop p w (before ++ pill :: rest) = Ret (p', w', rest, true) /\ handled_in_turn p0 before w w'.
Proof.
  intros Hwf Hc Hb Hpill. revert p w Hwf Hc.
  induction Hb as [|r before [Hr Hok] _ IH]; intros p w Hwf Hc; cbn [app runLoop].
  - rewrite Hpill. exists p, w. split_and!; [done..|constructor].
  - rewrite Hr. destruct (runOne_spec p w r Hwf Hok) as (p1 & w1 & r1 & Hrun & Hwf1 & _ & _ & Hf).
    rewrite Hrun. cbn [obind]. pose proof (runOne_config _ _ _ _ _ _ Hwf Hrun) as Hc1.
    destruct (IH p1 w1 Hwf1) as (p' & w' & Hwf' & Hc' & Hl & Ht); [by etrans|].
    exists p', w'. split_and!; [done..|]. econstructor; [|done]. by rewrite <- (plan_same p0 p).
Qed.

(** [C35] A worker thread whose curl handle is made handles the requests of the queue in
    turn, each by the plan of the configuration it started with, which it leaves as it was
    but for what the filters matched; it ends with the first poison pill, leaving the rest
    of the queue to the other threads, and never on an error of a request. *)
Theorem run_ends_at_poison p w before pill rest :
  processor_wf p -> Forall (fun r => isPoison r = false /\ header_keys_ok r) before ->
  isPoison pill = true ->
  exists curl p' w', initCurl p true = Some curl /\ processor_wf p' /\ same_config p p' /\
    run p w true (before ++ pill :: rest) = Ret (p', w', rest, true) /\
    handled_in_turn p before (with_handle curl w) w'.
Proof.
  intros Hwf Hb Hpill. unfold run. destruct (initCurl p true) as [curl|] eqn:Hc; [|done].
  destruct (runLoop_spec p p (with_handle curl w) before pill rest Hwf ltac:(done) Hb Hpill) as (p' & w' & ? & ? & ? & ?).
  by exists curl, p', w'.
Qed.
End Duplicates.

(** ** A configuration at work *)
Module ProcessorExamples.
Import Reference.
Import FilterExamples.
Import CurlExamples.

#[local] Existing Instance Percent.percent_url.
#[local] Existing Instance Percent.percent_laws.
#[local] Instance draws_7 : Random := fun n => Some (7 * N.of_nat n).
#[local] Instance always_running : Running := fun _ => true.

Definition conf_a : DupConf :=
  setCurrentDuplicationType COMPLETE_REQUEST (set_currentDupDestination "alpha:80"
    (set_currentApplicationScope ALL newDupConf)).
Definition conf_b : DupConf :=
  setCurrentDuplicationType HEADER_ONLY (set_currentDupDestination "beta:80"
    (set_currentApplicationScope ALL newDupConf)).

(** Two destinations on the location 7: the first substitutes the password and
    takes one request in two more than once, the second gets every request. *)
Definition calls : list (option N * DupConf * config_call) :=
  [(Some 7, conf_a, AddFilter "user" "bob" REGULAR);
   (Some 7, conf_a, AddSubstitution "pwd" "secret" "none");
   (Some 7, conf_a, SetPercentage 150);
   (Some 7, conf_b, AddRawFilter "/path" REGULAR)].

Definition processor : RequestProcessor := get_ret newRequestProcessor (configure calls).

Lemma processor_configured : configure calls = Ret processor.
Proof. apply ret_get. vm_compute. reflexivity. Qed.

Definition worker : Worker := {| sender := fresh_sender; draws := 0; reads := 0 |}.

Definition query : RequestInfo :=
  set_mConf (Some 7) (set_mHeadersIn [("Accept", "text/html")]%string
    (RequestInfo_of_request 0 "id" "" "GET" "/path" "user=bob&pwd=secret" (Some "body"%string))).

Lemma processor_is_wf : processor_wf processor.
Proof. apply (configure_wf (HB := boost_string_laws) calls), processor_configured. Qed.

(** The first destination gets the substituted request twice, the second the
    request as it was received. *)
Example query_duplicated :
  match runOne processor worker query with
  | Ret (_, w, r) =>
      ((fun t => (eff_url (effective (fst t)), sent_body (fst t))) <$> transfers (sender w),
       mDuplicatedCount (sender w), mCurlCompResponseStatus r)
  | Throw _ => ([], 0, 0%Z)
  end
  = ([("alpha:80/path?USER=bob&PWD=none", Some "body"); ("alpha:80/path?USER=bob&PWD=none", Some "body");
      ("beta:80/path?user=bob&pwd=secret", None)]%string, 3, 0%Z).
Proof. vm_compute. reflexivity. Qed.

Lemma configuration_wf_witness :
  configure calls = Ret processor /\ processor_wf processor /\
  forall pConf cbd dest c f,
    std_find pConf (mCommands processor) = Some cbd -> std_find dest cbd = Some c ->
    (f ∈ snd <$> mFilters c \/ f ∈ mRawFilters c) -> mDestination f = dest.
Proof.
  split; [exact processor_configured|].
  apply (configuration_wf (HB := boost_string_laws) calls). exact processor_configured.
Defined.

Definition half : Commands := set_mDuplicationPercentage 150 newCommands.

Lemma duplicates_drawn_witness :
  mDuplicationPercentage half < u32_modulus /\
  let k := snd (toDuplicateInt 3 half) in
  let perc := mDuplicationPercentage half in
  (perc / 100 <= k <= (perc + 99) / 100) /\
  (perc mod 100 = 0 -> toDuplicateInt 3 half = (3%nat, perc / 100)) /\
  (forall r, random_r 3 = Some r -> perc mod 100 <> 0 ->
     (k = perc / 100 + 1 <-> r mod 100 < perc mod 100)).
Proof. split; [reflexivity|]. apply (duplicates_drawn 3 half). reflexivity. Defined.

Definition substituting : Commands := set_mRawSubstitutions [SubstitutionExamples.sub ALL "a" "b"] newCommands.

Lemma substituted_reply_is_lost_witness :
  (mSubstitutions substituting <> [] \/ mRawSubstitutions substituting <> []) /\
  snd (sendDups codec 2 substituting (typed HEADER_ONLY) worker query) = query.
Proof.
  split; [right; discriminate|]. apply substituted_reply_is_lost. right. discriminate.
Defined.

Lemma runOne_follows_plan_witness :
  (processor_wf processor /\ header_keys_ok query) /\
  exists p' w' r',
    runOne processor worker query = Ret (p', w', r') /\ processor_wf p' /\
    norm r' = norm (to_send processor query) /\
    follows (request_plan processor query (draws worker)) worker w'.
Proof.
  split; [split; [exact processor_is_wf|by repeat constructor]|].
  apply (runOne_follows_plan (HB := boost_string_laws)); [exact processor_is_wf|by repeat constructor].
Defined.

Definition after_query : RequestProcessor * Worker * RequestInfo :=
  get_ret (processor, worker, query) (runOne processor worker query).

Lemma query_runs : runOne processor worker query
  = Ret (fst (fst after_query), snd (fst after_query), snd after_query).
Proof.
  rewrite (ret_get (processor, worker, query) (runOne processor worker query))
    by (vm_compute; reflexivity).
  unfold after_query. by destruct (get_ret _ _) as [[p w] r].
Qed.

Lemma amplification_bounded_witness :
  (processor_wf processor /\ header_keys_ok query /\
   Forall (fun e => mDuplicationPercentage (snd e) <= 10000) (destinations_of processor query) /\
   runOne processor worker query
   = Ret (fst (fst after_query), snd (fst after_query), snd after_query)) /\
  (length (transfers (sender (snd (fst after_query))))
   <= length (transfers (sender worker)) + 100 * length (matched_filters processor query))%nat.
Proof.
  assert (Hp : Forall (fun e => mDuplicationPercentage (snd e) <= 10000)
                 (destinations_of processor query)).
  { apply (Forall_of_forallb (fun e => mDuplicationPercentage (snd e) <=? 10000)).
    - intros e. apply N.leb_le.
    - vm_compute. reflexivity. }
  split; [split; [exact processor_is_wf|split; [by repeat constructor|split; [exact Hp|exact query_runs]]]|].
  apply (amplification_bounded (HB := boost_string_laws) processor worker query
           (fst (fst after_query)) (snd (fst after_query)) (snd after_query));
    [exact processor_is_wf|by repeat constructor|exact Hp|exact query_runs].
Defined.

Lemma run_ends_at_poison_witness :
  (processor_wf processor /\
   Forall (fun r => isPoison r = false /\ header_keys_ok r) [query; query] /\
   isPoison (RequestInfo_poison 0) = true) /\
  exists p' w',
    run processor worker true ([query; query] ++ RequestInfo_poison 0 :: [query]) = Ret (p', w', [query], true).
Proof.
  assert (Hq : Forall (fun r => isPoison r = false /\ header_keys_ok r) [query; query]) by (by repeat constructor).
  split; [exact (conj processor_is_wf (conj Hq eq_refl))|].
  destruct (run_ends_at_poison (HB := boost_string_laws) processor worker [query; query] (RequestInfo_poison 0) [query]
    processor_is_wf Hq eq_refl) as (curl & p' & w' & _ & _ & _ & Hrun & _).
  exists p', w'. exact Hrun.
Defined.
End ProcessorExamples.
