(* ===== verification/Deserialize.v ===== *)
(** * The serialised request of mod_compare

    deserialize.cc: the body [RequestProcessor::sendDupFormat] writes, read back.
    A function that throws after it changed the request returns the request and
    the outcome. *)
From S2P Require Import Prelude CxxString StdMap Boost RequestInfo CurlCall.
Local Open Scope N_scope.

Definition HTTP_BAD_REQUEST : Z := 400.
Definition OK : Z := 0.

Definition SECTION_SIZE_CHARS : N := 8.
Definition MAX_SECTION_SIZE : N := 10 ^ SECTION_SIZE_CHARS - 1.

Section Deserialize.
Context `{BoostString}.

Definition getLength (pString : string) (pFirst : N) : outcome N :=
  let! sub := substr pString pFirst SECTION_SIZE_CHARS in
  let! res := of_option BadLexicalCast (cast_unsigned sub) in
  if MAX_SECTION_SIZE <? res then Throw (OutOfRange "Value of length out of range") else Ret res.

Definition lDelim : string := ": ".

(** One line of the headers; [None] when the delimiter is missing. *)
Definition parseHeaderLine (lLine : string) : option tKeyVal :=
  match find_sub lDelim lLine with
  | None => None
  | Some lPos =>
      Some (str_take lPos lLine,
            str_take (str_len lLine - lPos - str_len lDelim) (str_drop (lPos + str_len lDelim) lLine))
  end.

Fixpoint headerLines (pReqInfo : RequestInfo) (lines : list string) : RequestInfo * outcome Z :=
  match lines with
  | [] => (pReqInfo, Ret OK)
  | lLine :: rest =>
      match parseHeaderLine lLine with
      | None => (pReqInfo, Throw (OutOfRange "Invalid Header format"))
      | Some (lKey, lValue) =>
          headerLines (set_mResponseHeader (std_set lKey lValue (mResponseHeader pReqInfo)) pReqInfo) rest
      end
  end.

Definition deserializeHeader (pReqInfo : RequestInfo) (header : string) : RequestInfo * outcome Z :=
  headerLines pReqInfo (getlines header).

(** The handlers of [deserializeBody]; another exception would leave it. *)
Definition on_error (e : exn) : outcome Z :=
  match e with
  | OutOfRange _ | BadLexicalCast => Ret HTTP_BAD_REQUEST
  | _ => Throw e
  end.

(** A section: its length at [pos], then its content; the next position. *)
Definition section_at (body : string) (pos : N) : outcome (string * N) :=
  let! size := getLength body pos in
  let pos := pos + SECTION_SIZE_CHARS in
  let! content := substr body pos size in
  Ret (content, pos + size).

Definition deserializeBody (pReqInfo : RequestInfo) : RequestInfo * outcome Z :=
  let body := mBody pReqInfo in
  if str_len body <? 3 * SECTION_SIZE_CHARS then (pReqInfo, Ret HTTP_BAD_REQUEST)
  else match section_at body 0 with
  | Throw e => (pReqInfo, on_error e)
  | Ret (reqBody, pos) =>
      let pReqInfo := set_mReqBody reqBody pReqInfo in
      match section_at body pos with
      | Throw e => (pReqInfo, on_error e)
      | Ret (lResponseHeader, pos) =>
          match section_at body pos with
          | Throw e => (pReqInfo, on_error e)
          | Ret (respBody, _) =>
              let pReqInfo := set_mResponseBody respBody pReqInfo in
              match deserializeHeader pReqInfo lResponseHeader with
              | (pReqInfo, Ret _) => (pReqInfo, Ret OK)
              | (pReqInfo, Throw e) => (pReqInfo, on_error e)
              end
          end
      end
  end.
End Deserialize.

Section Theory.
Context {B : BoostString} {HB : BoostStringLaws B}.
Local Existing Instance B.

(** ** Header lines *)

Lemma parseHeaderLine_line k v :
  find_sub lDelim k = None -> parseHeaderLine (k +:+ ": " +:+ v) = Some (k, v).
Proof.
  intros Hk. unfold parseHeaderLine, lDelim.
  change (": " +:+ v) with (String ":" (String " " v)).
  rewrite find_sub_two by done. rewrite str_take_app. f_equal. f_equal.
  replace (str_drop (str_len k + str_len ": ") (k +:+ String ":" (String " " v))) with v
    by (rewrite N.add_comm, <- str_drop_drop, str_drop_app; by destruct v).
  apply str_take_all. rewrite str_len_app. cbn [str_len]. lia.
Qed.

Definition store (m : mapStr) (hs : tKeyValList) : mapStr :=
  foldl (fun m kv => std_set (fst kv) (snd kv) m) m hs.

Definition header_ok (kv : tKeyVal) : Prop :=
  find_sub lDelim (fst kv) = None /\ has_char newline (fst kv) = false /\
  has_char newline (snd kv) = false.

Lemma deserializeHeader_lines r hs :
  Forall header_ok hs ->
  deserializeHeader r (str_concat ((fun kv => fst kv +:+ ": " +:+ snd kv +:+ endl) <$> hs))
  = (set_mResponseHeader (store (mResponseHeader r) hs) r, Ret OK).
Proof.
  intros Hok. unfold deserializeHeader.
  replace ((fun kv => fst kv +:+ ": " +:+ snd kv +:+ endl) <$> hs)
    with ((fun l => l +:+ endl) <$> ((fun kv : tKeyVal => fst kv +:+ ": " +:+ snd kv) <$> hs)).
  2:{ rewrite <- list_fmap_compose. apply list_fmap_ext. intros i [k v] _. cbn.
      by rewrite !sapp_assoc. }
  rewrite getlines_concat.
  - revert r. induction Hok as [|[k v] hs (Hk & _ & _) _ IH]; intros r; cbn [fmap list_fmap headerLines].
    + by destruct r.
    + cbn [fst snd] in *. rewrite parseHeaderLine_line by done. rewrite IH.
      by destruct r.
  - apply Forall_fmap. eapply Forall_impl; [exact Hok|]. intros [k v] (_ & Hk & Hv). cbn in *.
    by rewrite !has_char_app, Hk, Hv.
Qed.

(** ** Sections *)

Lemma getLength_at a n rest :
  n <= MAX_SECTION_SIZE ->
  getLength (a +:+ setw0 8 n +:+ rest) (str_len a) = Ret n.
Proof.
  intros Hn. unfold MAX_SECTION_SIZE, SECTION_SIZE_CHARS in Hn.
  assert (Hlen : str_len (setw0 8 n) = 8) by (apply setw0_len; lia).
  unfold getLength, SECTION_SIZE_CHARS. rewrite substr_mid by done. cbn [obind].
  rewrite (cast_unsigned_decimal _ n).
  - destruct (N.leb_spec n u32_max) as [_|Hu]; [|unfold u32_max, u32_modulus in Hu; lia].
    cbn [of_option obind]. destruct (N.ltb_spec MAX_SECTION_SIZE n) as [Hl|]; [|done].
    unfold MAX_SECTION_SIZE, SECTION_SIZE_CHARS in Hl. lia.
  - unfold decimal_value. rewrite setw0_value. by destruct (setw0 8 n).
Qed.

Lemma section_at_serialized a s rest :
  str_len s <= MAX_SECTION_SIZE ->
  section_at (a +:+ setw0 8 (str_len s) +:+ s +:+ rest) (str_len a)
  = Ret (s, str_len (a +:+ setw0 8 (str_len s) +:+ s)).
Proof.
  intros Hs. unfold section_at. rewrite getLength_at by done. cbn [obind].
  assert (Hlen : str_len (setw0 8 (str_len s)) = 8).
  { apply setw0_len; unfold MAX_SECTION_SIZE, SECTION_SIZE_CHARS in Hs; lia. }
  replace (str_len a + SECTION_SIZE_CHARS) with (str_len (a +:+ setw0 8 (str_len s)))
    by (by rewrite str_len_app, Hlen).
  rewrite <- sapp_assoc, substr_mid by done. cbn [obind]. do 2 f_equal.
  by rewrite <- str_len_app, sapp_assoc.
Qed.

(** ** The properties *)

Lemma deserialize_dup_spec (r q : RequestInfo) :
  mBody q = dupContent r -> Forall header_ok (mHeadersOut r) ->
  str_len (mBody r) <= MAX_SECTION_SIZE -> str_len (answerHeaders r) <= MAX_SECTION_SIZE ->
  str_len (mAnswer r) <= MAX_SECTION_SIZE ->
  deserializeBody q
  = (set_mResponseHeader (store (mResponseHeader q) (mHeadersOut r))
       (set_mResponseBody (mAnswer r) (set_mReqBody (mBody r) q)), Ret OK).
Proof.
  intros Hq Hok H1 H2 H3. unfold deserializeBody. rewrite Hq. unfold dupContent, Serialize.
  rewrite sapp_nil_l.
  set (d1 := setw0 8 (str_len (mBody r))). set (d2 := setw0 8 (str_len (answerHeaders r))).
  set (d3 := setw0 8 (str_len (mAnswer r))).
  assert (Hlen : forall n, n <= MAX_SECTION_SIZE -> str_len (setw0 8 n) = 8).
  { intros n Hn. unfold MAX_SECTION_SIZE, SECTION_SIZE_CHARS in Hn. apply setw0_len; lia. }
  rewrite !sapp_assoc.
  destruct (N.ltb_spec (str_len (d1 +:+ mBody r +:+ d2 +:+ answerHeaders r +:+ d3 +:+ mAnswer r))
              (3 * SECTION_SIZE_CHARS)) as [Hshort|_].
  { rewrite !str_len_app in Hshort. subst d1 d2 d3. rewrite !Hlen in Hshort by done.
    unfold SECTION_SIZE_CHARS in Hshort. lia. }
  assert (E1 : section_at (d1 +:+ mBody r +:+ d2 +:+ answerHeaders r +:+ d3 +:+ mAnswer r) 0
               = Ret (mBody r, str_len (d1 +:+ mBody r)))
    by exact (section_at_serialized EmptyString (mBody r) _ H1).
  rewrite E1. cbv beta iota. rewrite <- (sapp_assoc d1 (mBody r)).
  subst d2. rewrite (section_at_serialized (d1 +:+ mBody r) (answerHeaders r)) by done. cbv beta iota.
  set (d2 := setw0 8 (str_len (answerHeaders r))).
  replace ((d1 +:+ mBody r) +:+ d2 +:+ answerHeaders r +:+ d3 +:+ mAnswer r)
    with (((d1 +:+ mBody r) +:+ d2 +:+ answerHeaders r) +:+ d3 +:+ mAnswer r +:+ EmptyString)
    by (by rewrite sapp_nil_r, !sapp_assoc).
  subst d3. rewrite section_at_serialized by done. cbv beta iota.
  unfold answerHeaders. rewrite deserializeHeader_lines by done. by destruct q.
Qed.

(** [C15] mod_compare reads what mod_dup wrote: the request body, the answer headers
    (the last value of each name) and the answer body, whatever bytes the bodies
    contain, up to the size the eight digits can express. *)
Theorem deserialize_dup_format (r q : RequestInfo) :
  mBody q = dupContent r -> Forall header_ok (mHeadersOut r) ->
  str_len (mBody r) <= MAX_SECTION_SIZE -> str_len (answerHeaders r) <= MAX_SECTION_SIZE ->
  str_len (mAnswer r) <= MAX_SECTION_SIZE ->
  deserializeBody q
  = (set_mResponseHeader (store (mResponseHeader q) (mHeadersOut r))
       (set_mResponseBody (mAnswer r) (set_mReqBody (mBody r) q)), Ret OK).
Proof. apply deserialize_dup_spec. Qed.

(** What a reader may change. *)
Definition same_but_sections (q q' : RequestInfo) : Prop :=
  set_mReqBody "" (set_mResponseBody "" (set_mResponseHeader [] q'))
  = set_mReqBody "" (set_mResponseBody "" (set_mResponseHeader [] q)).

Lemma headerLines_frame q lines :
  let '(q', res) := headerLines q lines in
  (exists h, q' = set_mResponseHeader h q) /\
  (res = Ret OK \/ res = Throw (OutOfRange "Invalid Header format")).
Proof.
  revert q. induction lines as [|l lines IH]; intros q; cbn [headerLines].
  { split; [|by left]. exists (mResponseHeader q). by destruct q. }
  destruct (parseHeaderLine l) as [[k v]|].
  - specialize (IH (set_mResponseHeader (std_set k v (mResponseHeader q)) q)).
    destruct (headerLines _ lines) as [q' res]. destruct IH as [[h ->] Hr]. split; [|done].
    by exists h.
  - split; [|by right]. exists (mResponseHeader q). by destruct q.
Qed.

(** The two exceptions of a section. *)
Lemma section_at_errors body pos :
  match section_at body pos with Ret _ => True | Throw e => on_error e = Ret HTTP_BAD_REQUEST end.
Proof.
  unfold section_at, getLength, substr.
  destruct (str_len body <? pos); [done|]. cbn [obind].
  destruct (cast_unsigned _) as [n|]; [|done]. cbn [of_option obind].
  destruct (MAX_SECTION_SIZE <? n); [done|]. cbn [obind].
  by destruct (str_len body <? pos + SECTION_SIZE_CHARS).
Qed.

(** A section that was read is in the body: eight characters that denote its
    size, then the content, which stops at the end of the body. *)
Lemma section_at_format pre body content pos :
  section_at (pre +:+ body) (str_len pre) = Ret (content, pos) ->
  exists d rest n,
    body = d +:+ content +:+ rest /\ str_len d = SECTION_SIZE_CHARS /\ cast_unsigned d = Some n /\
    n <= MAX_SECTION_SIZE /\ content = str_take n (content +:+ rest) /\
    pos = str_len pre + SECTION_SIZE_CHARS + n.
Proof.
  unfold section_at, getLength, substr. rewrite str_drop_app.
  destruct (N.ltb_spec (str_len (pre +:+ body)) (str_len pre)); [done|]. cbn [obind].
  destruct (cast_unsigned (str_take SECTION_SIZE_CHARS body)) as [n|] eqn:En; [|done].
  cbn [of_option obind].
  destruct (N.ltb_spec MAX_SECTION_SIZE n); [done|]. cbn [obind].
  destruct (N.ltb_spec (str_len (pre +:+ body)) (str_len pre + SECTION_SIZE_CHARS)) as [|Hl]; [done|].
  cbn [obind]. intros [= <- <-]. rewrite str_len_app in Hl.
  exists (str_take SECTION_SIZE_CHARS body), (str_drop n (str_drop SECTION_SIZE_CHARS body)), n.
  replace (str_drop (str_len pre + SECTION_SIZE_CHARS) (pre +:+ body))
    with (str_drop SECTION_SIZE_CHARS body)
    by (by rewrite N.add_comm, <- str_drop_drop, str_drop_app).
  rewrite !str_take_drop, str_len_take. repeat split; [|done..]. lia.
Qed.

(** The format of an accepted body. *)
Definition accepted_format (body : string) (q' : RequestInfo) : Prop :=
  exists d1 d2 d3 hdr rest n,
    body = d1 +:+ mReqBody q' +:+ d2 +:+ hdr +:+ d3 +:+ mResponseBody q' +:+ rest /\
    str_len d1 = 8 /\ str_len d2 = 8 /\ str_len d3 = 8 /\
    cast_unsigned d1 = Some (str_len (mReqBody q')) /\ cast_unsigned d2 = Some (str_len hdr) /\
    cast_unsigned d3 = Some n /\ str_len (mResponseBody q') <= n.

Lemma section_at_fits body pos r : section_at body pos = Ret r -> pos <= str_len body.
Proof.
  unfold section_at, getLength, substr.
  destruct (N.ltb_spec (str_len body) pos); [done|]. intros _. lia.
Qed.

(** A section that another one follows has exactly its announced size. *)
Lemma section_at_exact pre body content pos :
  section_at (pre +:+ body) (str_len pre) = Ret (content, pos) -> pos <= str_len (pre +:+ body) ->
  exists d rest,
    body = d +:+ content +:+ rest /\ str_len d = 8 /\ cast_unsigned d = Some (str_len content) /\
    pos = str_len (pre +:+ d +:+ content).
Proof.
  intros Hs Hp. apply section_at_format in Hs as (d & rest & n & -> & Hd & Hc & _ & Ht & ->).
  unfold SECTION_SIZE_CHARS in *. rewrite !str_len_app in Hp.
  assert (Hn : str_len content = n).
  { apply (f_equal str_len) in Ht. rewrite str_len_take, str_len_app in Ht. lia. }
  exists d, rest. rewrite Hn, !str_len_app. repeat split; [done|done|]. lia.
Qed.

Lemma sections_format body reqBody hdr resp p1 p2 p3 q :
  section_at body 0 = Ret (reqBody, p1) -> section_at body p1 = Ret (hdr, p2) ->
  section_at body p2 = Ret (resp, p3) -> mReqBody q = reqBody -> mResponseBody q = resp ->
  accepted_format body q.
Proof.
  intros E1 E2 E3 <- <-.
  pose proof (section_at_fits _ _ _ E2) as F2. pose proof (section_at_fits _ _ _ E3) as F3.
  destruct (section_at_exact EmptyString body _ _ E1 F2) as (d1 & r1 & -> & Hd1 & Hc1 & ->).
  rewrite sapp_nil_l in *. rewrite <- sapp_assoc in E2, E3, F3.
  destruct (section_at_exact _ _ _ _ E2 F3) as (d2 & r2 & -> & Hd2 & Hc2 & ->).
  rewrite <- (sapp_assoc d2), <- (sapp_assoc (d1 +:+ mReqBody q)) in E3.
  apply section_at_format in E3 as (d3 & r3 & n & -> & Hd3 & Hc3 & _ & Ht & _).
  exists d1, d2, d3, hdr, r3, n. repeat split; try done.
  apply (f_equal str_len) in Ht. rewrite str_len_take in Ht. lia.
Qed.

(** The reader never throws and answers [OK] or [HTTP_BAD_REQUEST]; it changes
    only the three sections; and when it answers [OK] the body is in the format:
    sizes on eight characters, exact for the request body and the headers, not
    less than the length for the answer body. *)
Theorem deserialize_accepts (q : RequestInfo) :
  exists q' status,
    deserializeBody q = (q', Ret status) /\ same_but_sections q q' /\
    (status = OK \/ status = HTTP_BAD_REQUEST) /\
    (status = OK -> accepted_format (mBody q) q').
Proof.
  assert (Hbad : forall q', same_but_sections q q' ->
    exists q2 status, (q', Ret HTTP_BAD_REQUEST : outcome Z) = (q2, Ret status) /\
      same_but_sections q q2 /\ (status = OK \/ status = HTTP_BAD_REQUEST) /\
      (status = OK -> accepted_format (mBody q) q2)).
  { intros q' Hs. eexists _, _. split; [done|]. split; [done|]. split; [by right|done]. }
  unfold deserializeBody. fold (accepted_format (mBody q)).
  destruct (str_len (mBody q) <? 3 * SECTION_SIZE_CHARS); [by apply Hbad|].
  destruct (section_at (mBody q) 0) as [[reqBody p1]|e] eqn:E1.
  2:{ pose proof (section_at_errors (mBody q) 0) as He. rewrite E1 in He. rewrite He. by apply Hbad. }
  destruct (section_at (mBody q) p1) as [[hdr p2]|e] eqn:E2.
  2:{ pose proof (section_at_errors (mBody q) p1) as He. rewrite E2 in He. rewrite He. by apply Hbad. }
  destruct (section_at (mBody q) p2) as [[resp p3]|e] eqn:E3.
  2:{ pose proof (section_at_errors (mBody q) p2) as He. rewrite E3 in He. rewrite He. by apply Hbad. }
  unfold deserializeHeader.
  pose proof (headerLines_frame (set_mResponseBody resp (set_mReqBody reqBody q)) (getlines hdr)) as Hh.
  destruct (headerLines _ _) as [q' res]. destruct Hh as [[h ->] [-> | ->]]; [|by apply Hbad].
  eexists _, _. split; [done|]. split; [done|]. split; [by left|]. intros _.
  by apply (sections_format (mBody q) reqBody hdr resp p1 p2 p3).
Qed.
End Theory.

Module DeserializeExamples.
Import Reference.

(** The request and the answer of the test of deserializeBody: bodies with any
    bytes, two headers of the same name. *)
Definition answered : RequestInfo :=
  set_mAnswer "the answer" (set_mHeadersOut [("K", "1"); ("L", "a: b"); ("K", "2")]%string
    (set_mBody (String "000" "x=1") (RequestInfo_of_request 0 "id" "" "POST" "/p" "" None))).

Definition received : RequestInfo :=
  set_mBody (dupContent answered) (RequestInfo_of_request 0 "id2" "" "POST" "/comp" "" None).

Example received_sections :
  let q := fst (deserializeBody received) in
  (mReqBody q, mResponseHeader q, mResponseBody q)
  = (String "000" "x=1", [("K", "2"); ("L", "a: b")], "the answer")%string.
Proof. vm_compute. reflexivity. Qed.

(** A message cut in the last section is accepted, with a shorter answer. *)
Example truncated_answer_accepted :
  let q := set_mBody "00000001a00000000" (RequestInfo_poison 0) in
  let q := set_mBody (mBody q +:+ "00000010abc") q in
  (mResponseBody (fst (deserializeBody q)), snd (deserializeBody q)) = ("abc"%string, Ret OK).
Proof. vm_compute. reflexivity. Qed.

Lemma deserialize_dup_format_witness :
  (mBody received = dupContent answered /\ Forall header_ok (mHeadersOut answered) /\
   str_len (mBody answered) <= MAX_SECTION_SIZE /\
   str_len (answerHeaders answered) <= MAX_SECTION_SIZE /\
   str_len (mAnswer answered) <= MAX_SECTION_SIZE) /\
  deserializeBody received
  = (set_mResponseHeader (store (mResponseHeader received) (mHeadersOut answered))
       (set_mResponseBody (mAnswer answered) (set_mReqBody (mBody answered) received)), Ret OK).
Proof.
  assert (Hok : Forall header_ok (mHeadersOut answered)) by (by repeat constructor).
  split; [split; [reflexivity|split; [exact Hok|split; [|split]; vm_compute; discriminate]]|].
  apply (deserialize_dup_format (HB := boost_string_laws) answered received);
    [reflexivity|exact Hok|vm_compute; discriminate..].
Defined.
End DeserializeExamples.
