(* ===== verification/ThreadPool.v ===== *)
(** * ThreadPool

    ThreadPool.hh/.cc: the pool of worker threads around the queue and the
    manager thread that adapts their number. [pstep] is the step relation of the
    whole: the manager thread, statement by statement where another thread can
    intervene, the workers taking items, the Apache threads pushing requests,
    [stop], and the workers lost because their curl handle could not be made; [prun]
    counts these last in a run. A worker ends when it takes a poison pill (see [run] in
    RequestProcessor). The float of the source is IEEE binary32, of the Standard
    Library's specification of floating-point numbers. *)
From Stdlib Require Import SpecFloat.
From S2P Require Import Prelude CxxString StdMap MultiThreadQueue.
Local Open Scope N_scope.

(** ** float *)

Definition float_of (n : N) : spec_float := binary_normalize 24 128 (Z.of_N n) 0 false.
Definition float_div (a b : spec_float) : spec_float := SFdiv 24 128 a b.

(** A thread of the pool, until it is joined: still running, or ended. *)
Inductive tstate : Type := Alive | Done.

Definition is_alive (t : tstate) : bool := match t with Alive => true | Done => false end.
Definition is_done (t : tstate) : bool := match t with Alive => false | Done => true end.

#[export] Instance tstate_eq_dec : EqDecision tstate.
Proof. solve_decision. Defined.

Section ThreadPool.
Context {T W : Type}.

(** A stat provider acts on the world of the caller and returns a text. *)
Definition tStatProvider : Type := W -> W * string.

Record ThreadPool : Type := mkPool {
  mThreads : list tstate;
  mManagerThread : bool;
  mMinThreads : N;
  mMaxThreads : N;
  mMinQueued : N;
  mMaxQueued : N;
  mBeingKilled : N;
  mStatsInterval : N;
  mQueue : MultiThreadQueue T;
  mPoisonItem : T;
  mRunning : bool;
  mProgramName : string;
  mAdditionalStats : list (string * tStatProvider)
}.

Definition set_mThreads (x : list tstate) (r : ThreadPool) : ThreadPool :=
    {| mThreads := x; mManagerThread := mManagerThread r; mMinThreads := mMinThreads r;
     mMaxThreads := mMaxThreads r; mMinQueued := mMinQueued r; mMaxQueued := mMaxQueued
     r; mBeingKilled := mBeingKilled r; mStatsInterval := mStatsInterval r; mQueue :=
     mQueue r; mPoisonItem := mPoisonItem r; mRunning := mRunning r; mProgramName :=
     mProgramName r; mAdditionalStats := mAdditionalStats r |}.

Definition set_mManagerThread (x : bool) (r : ThreadPool) : ThreadPool :=
    {| mThreads := mThreads r; mManagerThread := x; mMinThreads := mMinThreads r;
     mMaxThreads := mMaxThreads r; mMinQueued := mMinQueued r; mMaxQueued := mMaxQueued
     r; mBeingKilled := mBeingKilled r; mStatsInterval := mStatsInterval r; mQueue :=
     mQueue r; mPoisonItem := mPoisonItem r; mRunning := mRunning r; mProgramName :=
     mProgramName r; mAdditionalStats := mAdditionalStats r |}.

Definition set_mBeingKilled (x : N) (r : ThreadPool) : ThreadPool :=
    {| mThreads := mThreads r; mManagerThread := mManagerThread r; mMinThreads :=
     mMinThreads r; mMaxThreads := mMaxThreads r; mMinQueued := mMinQueued r; mMaxQueued
     := mMaxQueued r; mBeingKilled := x; mStatsInterval := mStatsInterval r; mQueue :=
     mQueue r; mPoisonItem := mPoisonItem r; mRunning := mRunning r; mProgramName :=
     mProgramName r; mAdditionalStats := mAdditionalStats r |}.

Definition set_mStatsInterval (x : N) (r : ThreadPool) : ThreadPool :=
    {| mThreads := mThreads r; mManagerThread := mManagerThread r; mMinThreads :=
     mMinThreads r; mMaxThreads := mMaxThreads r; mMinQueued := mMinQueued r; mMaxQueued
     := mMaxQueued r; mBeingKilled := mBeingKilled r; mStatsInterval := x; mQueue :=
     mQueue r; mPoisonItem := mPoisonItem r; mRunning := mRunning r; mProgramName :=
     mProgramName r; mAdditionalStats := mAdditionalStats r |}.

Definition set_mQueue (x : MultiThreadQueue T) (r : ThreadPool) : ThreadPool :=
    {| mThreads := mThreads r; mManagerThread := mManagerThread r; mMinThreads :=
     mMinThreads r; mMaxThreads := mMaxThreads r; mMinQueued := mMinQueued r; mMaxQueued
     := mMaxQueued r; mBeingKilled := mBeingKilled r; mStatsInterval := mStatsInterval
     r; mQueue := x; mPoisonItem := mPoisonItem r; mRunning := mRunning r; mProgramName
     := mProgramName r; mAdditionalStats := mAdditionalStats r |}.

Definition set_mRunning (x : bool) (r : ThreadPool) : ThreadPool :=
    {| mThreads := mThreads r; mManagerThread := mManagerThread r; mMinThreads :=
     mMinThreads r; mMaxThreads := mMaxThreads r; mMinQueued := mMinQueued r; mMaxQueued
     := mMaxQueued r; mBeingKilled := mBeingKilled r; mStatsInterval := mStatsInterval
     r; mQueue := mQueue r; mPoisonItem := mPoisonItem r; mRunning := x; mProgramName :=
     mProgramName r; mAdditionalStats := mAdditionalStats r |}.

Definition set_mProgramName (x : string) (r : ThreadPool) : ThreadPool :=
    {| mThreads := mThreads r; mManagerThread := mManagerThread r; mMinThreads :=
     mMinThreads r; mMaxThreads := mMaxThreads r; mMinQueued := mMinQueued r; mMaxQueued
     := mMaxQueued r; mBeingKilled := mBeingKilled r; mStatsInterval := mStatsInterval
     r; mQueue := mQueue r; mPoisonItem := mPoisonItem r; mRunning := mRunning r;
     mProgramName := x; mAdditionalStats := mAdditionalStats r |}.

Definition set_mAdditionalStats (x : list (string * tStatProvider)) (r : ThreadPool) : ThreadPool :=
    {| mThreads := mThreads r; mManagerThread := mManagerThread r; mMinThreads :=
     mMinThreads r; mMaxThreads := mMaxThreads r; mMinQueued := mMinQueued r; mMaxQueued
     := mMaxQueued r; mBeingKilled := mBeingKilled r; mStatsInterval := mStatsInterval
     r; mQueue := mQueue r; mPoisonItem := mPoisonItem r; mRunning := mRunning r;
     mProgramName := mProgramName r; mAdditionalStats := x |}.


Definition set_minmax_threads (lo hi : N) (r : ThreadPool) : ThreadPool :=
  {| mThreads := mThreads r; mManagerThread := mManagerThread r; mMinThreads := lo;
     mMaxThreads := hi; mMinQueued := mMinQueued r; mMaxQueued := mMaxQueued r;
     mBeingKilled := mBeingKilled r; mStatsInterval := mStatsInterval r; mQueue := mQueue r;
     mPoisonItem := mPoisonItem r; mRunning := mRunning r; mProgramName := mProgramName r;
     mAdditionalStats := mAdditionalStats r |}.

Definition set_minmax_queued (lo hi : N) (r : ThreadPool) : ThreadPool :=
  {| mThreads := mThreads r; mManagerThread := mManagerThread r; mMinThreads := mMinThreads r;
     mMaxThreads := mMaxThreads r; mMinQueued := lo; mMaxQueued := hi;
     mBeingKilled := mBeingKilled r; mStatsInterval := mStatsInterval r; mQueue := mQueue r;
     mPoisonItem := mPoisonItem r; mRunning := mRunning r; mProgramName := mProgramName r;
     mAdditionalStats := mAdditionalStats r |}.

(** ** Operations *)

Definition newThreadPool (pPoisonItem : T) : ThreadPool :=
  {| mThreads := []; mManagerThread := false; mMinThreads := 1; mMaxThreads := 10;
     mMinQueued := 1; mMaxQueued := 10; mBeingKilled := 0; mStatsInterval := 10000000;
     mQueue := newQueue; mPoisonItem := pPoisonItem; mRunning := false;
     mProgramName := "ModDup"; mAdditionalStats := [] |}.

Definition newThread (p : ThreadPool) : ThreadPool := set_mThreads (mThreads p ++ [Alive]) p.

Definition poisonThread (p : ThreadPool) : ThreadPool :=
  set_mBeingKilled (u32 (mBeingKilled p + 1))
    (set_mQueue (push_front (mPoisonItem p) (mQueue p)) p).

(** [collectKilled]: [joined] is what [timed_join] answers for each thread. *)
Definition collectKilled (joined : list bool) (p : ThreadPool) : ThreadPool :=
  let kept := (fst <$> List.filter (fun e => negb (snd e)) (zip (mThreads p) joined)) in
  let gone := length (List.filter snd (zip (mThreads p) joined)) in
  set_mBeingKilled (u32_sub (mBeingKilled p) (N.of_nat gone)) (set_mThreads kept p).

Definition thread_count (p : ThreadPool) : N := N.of_nat (length (mThreads p)).

(** [static_cast<float>(mQueue.size()) / mThreads.size()] *)
Definition lQueuedPerThread (p : ThreadPool) : spec_float :=
  float_div (float_of (size (mQueue p))) (float_of (thread_count p)).

(** The choice of an iteration of the manager. *)
Definition adapt (perThread : spec_float) (p : ThreadPool) : ThreadPool :=
  if SFltb (float_of (mMaxQueued p)) perThread && (thread_count p <? mMaxThreads p) then newThread p
  else if SFltb perThread (float_of (mMinQueued p))
          && (mMinThreads p <? u64_sub (thread_count p) (mBeingKilled p))
       then poisonThread p
  else p.

Definition mManageInterval : N := 100000.

(** The statistics: the counters are read and reset when they are due. Here the reading and
    the reset are one step, which leaves the items and the threads alone whatever comes
    between; the accesses one by one are in QueueCounters. *)
Definition stats_due (iterationsSinceStats : N) (p : ThreadPool) : bool :=
  mStatsInterval p <=? u32 (iterationsSinceStats * mManageInterval).

Definition additionalStat (name : string) (p : ThreadPool) (w : W) : W * string :=
  match std_find name (mAdditionalStats p) with
  | Some provider => provider w
  | None => (w, "??"%string)
  end.

Definition reportStats (pid lQueued : N) (p : ThreadPool) (w : W) : ThreadPool * W * string :=
  let '((lInCount, lOutCount, lDropCount), q) := getCounters (mQueue p) in
  let '(w, lTimeoutCount) := additionalStat "#TmOut" p w in
  let '(w, lDuplicateCount) := additionalStat "#DupReq" p w in
  (set_mQueue q p, w,
   mProgramName p +:+ " - " +:+ string_of_N pid +:+ " - " +:+ string_of_N lQueued +:+ " - "
   +:+ string_of_N (thread_count p) +:+ " - " +:+ string_of_N lInCount +:+ " - "
   +:+ string_of_N lOutCount +:+ " - " +:+ string_of_N lDropCount +:+ " - " +:+ lTimeoutCount
   +:+ " - " +:+ lDuplicateCount).

Definition setStatsInterval (pStatsInterval : N) (p : ThreadPool) : ThreadPool :=
  set_mStatsInterval pStatsInterval p.

Definition addStat (pStatName : string) (pStatProvider : tStatProvider) (p : ThreadPool) : ThreadPool :=
  set_mAdditionalStats (std_set pStatName pStatProvider (mAdditionalStats p)) p.

Definition setProgramName (pProgramName : string) (p : ThreadPool) : ThreadPool :=
  set_mProgramName pProgramName p.

Definition setThreads (pMinThreads pMaxThreads : N) (p : ThreadPool) : ThreadPool :=
  set_minmax_threads pMinThreads pMaxThreads p.

Definition setQueue (pMinQueued pMaxQueued : N) (p : ThreadPool) : ThreadPool :=
  set_minmax_queued pMinQueued pMaxQueued p.

(** The manager thread is started at the end. *)
Definition start (p : ThreadPool) : ThreadPool :=
  let p := set_mRunning true p in
  let p := set_mQueue (setDropSize (u64 (mMaxQueued p * mMaxThreads p)) (mQueue p)) p in
  let p := Nat.iter (N.to_nat (mMinThreads p)) newThread p in
  set_mManagerThread true p.

(** [stop] before the manager is joined, and once it has ended. *)
Definition stop_request (p : ThreadPool) : ThreadPool :=
  set_mQueue (MultiThreadQueue.stop (mQueue p)) (set_mRunning false p).

Definition stop_joined (p : ThreadPool) : ThreadPool := set_mManagerThread false p.

Definition push (pItem : T) (p : ThreadPool) : ThreadPool :=
  set_mQueue (MultiThreadQueue.push pItem (mQueue p)) p.

Definition getThreadCount (p : ThreadPool) : N := thread_count p.

(** A worker takes the next item; a pill ends it. *)
Definition work (is_pill : T -> bool) (i : nat) (p : ThreadPool) : option ThreadPool :=
  match mThreads p !! i, pop (mQueue p) with
  | Some Alive, Some (item, q) =>
      let p := set_mQueue q p in
      Some (if is_pill item then set_mThreads (<[i := Done]> (mThreads p)) p else p)
  | _, _ => None
  end.

(** A worker whose curl handle could not be made: it ends at once, without an item. *)
Definition lost (i : nat) (p : ThreadPool) : option ThreadPool :=
  match mThreads p !! i with
  | Some Alive => Some (set_mThreads (<[i := Done]> (mThreads p)) p)
  | _ => None
  end.
End ThreadPool.
Arguments ThreadPool T W : clear implicits.

(** ** The pool at work *)

(** Where the manager thread is in [run()]. *)
Inductive phase : Type :=
  | Waiting                                          (** at the loop condition *)
  | Sized (lQueued : N)                              (** between its two readings of the size *)
  | Measured (lQueued : N) (perThread : spec_float)  (** before [collectKilled] *)
  | Collected (lQueued : N) (perThread : spec_float) (** before the choice *)
  | Adapted (lQueued : N)                            (** before the statistics *)
  | Poisoning (i : N)                                (** in the loop after [mRunning] *)
  | LastCollect
  | Ended.

(** The whole: the pool, the manager, its count of iterations, the world of the
    stat providers and the log. *)
Record system (T W : Type) : Type := mkSystem {
  pool : ThreadPool T W;
  manager : phase;
  iterationsSinceStats : N;
  world : W;
  log : list string
}.
Arguments mkSystem {T W} _ _ _ _ _.
Arguments pool {T W} _.
Arguments manager {T W} _.
Arguments iterationsSinceStats {T W} _.
Arguments world {T W} _.
Arguments log {T W} _.

Section Steps.
Context {T W : Type} (is_pill : T -> bool) (pid : N).
Implicit Types (p : ThreadPool T W) (s : system T W).

(** [timed_join] answers true only for a thread that has ended. *)
Definition joinable (threads : list tstate) (joined : list bool) : Prop :=
  Forall2 (fun t j => j = true -> t = Done) threads joined.

(** The statistics at the end of an iteration. *)
Definition stats_step (lQueued : N) s : system T W :=
  let n := u32 (iterationsSinceStats s + 1) in
  if stats_due n (pool s) then
    let '(p, w, line) := reportStats pid lQueued (pool s) (world s) in
    mkSystem p Waiting 0 w (log s ++ [line])
  else mkSystem (pool s) Waiting n (world s) (log s).

Definition at_phase (ph : phase) p s : system T W :=
  mkSystem p ph (iterationsSinceStats s) (world s) (log s).

(** The steps of the manager thread. *)
Inductive mstep : system T W -> system T W -> Prop :=
  | m_size s :
      manager s = Waiting -> mRunning (pool s) = true ->
      mstep s (at_phase (Sized (size (mQueue (pool s)))) (pool s) s)
  | m_measure s n :
      manager s = Sized n -> mstep s (at_phase (Measured n (lQueuedPerThread (pool s))) (pool s) s)
  | m_collect s n f joined :
      manager s = Measured n f -> joinable (mThreads (pool s)) joined ->
      mstep s (at_phase (Collected n f) (collectKilled joined (pool s)) s)
  | m_adapt s n f :
      manager s = Collected n f -> mstep s (at_phase (Adapted n) (adapt f (pool s)) s)
  | m_stats s n : manager s = Adapted n -> mstep s (stats_step n s)
  | m_leave s :
      manager s = Waiting -> mRunning (pool s) = false ->
      mstep s (at_phase (Poisoning 0) (pool s) s)
  | m_poison s i :
      manager s = Poisoning i -> i < thread_count (pool s) ->
      mstep s (at_phase (Poisoning (u32 (i + 1))) (poisonThread (pool s)) s)
  | m_poisoned s i :
      manager s = Poisoning i -> thread_count (pool s) <= i ->
      mstep s (at_phase LastCollect (pool s) s)
  | m_last s joined :
      manager s = LastCollect -> joinable (mThreads (pool s)) joined ->
      mstep s (at_phase Ended (collectKilled joined (pool s)) s).

(** The steps of the manager, of the workers that have a curl handle, of the requests and
    of [stop]. *)
Inductive tstep : system T W -> system T W -> Prop :=
  | t_manager s s' : mstep s s' -> tstep s s'
  | t_work s i p : work is_pill i (pool s) = Some p -> tstep s (at_phase (manager s) p s)
  | t_push s x : is_pill x = false -> tstep s (at_phase (manager s) (push x (pool s)) s)
  | t_stop s : tstep s (at_phase (manager s) (stop_request (pool s)) s).

(** All steps: a worker whose [curl_easy_init] fails is lost. *)
Inductive pstep : system T W -> system T W -> Prop :=
  | p_step s s' : tstep s s' -> pstep s s'
  | p_lost s i p : lost i (pool s) = Some p -> pstep s (at_phase (manager s) p s).

(** A run, with the number of workers lost in it. *)
Inductive prun : N -> system T W -> system T W -> Prop :=
  | run_nil s : prun 0 s s
  | run_step n s s1 s2 : prun n s s1 -> tstep s1 s2 -> prun n s s2
  | run_lost n s s1 i p :
      prun n s s1 -> lost i (pool s1) = Some p -> prun (n + 1) s (at_phase (manager s1) p s1).

(** A pool just started. *)
Definition started (p : ThreadPool T W) (w : W) : system T W := mkSystem (start p) Waiting 0 w [].

(** ** Counting *)

Definition done_count p : N := N.of_nat (length (List.filter is_done (mThreads p))).
Definition alive_count p : N := N.of_nat (length (List.filter is_alive (mThreads p))).
Definition pill_count p : N :=
  N.of_nat (length (List.filter is_pill (MultiThreadQueue.mQueue (mQueue p)))).

(** The pills are at the front of the queue. *)
Definition pills_first p : Prop :=
  exists k rest, MultiThreadQueue.mQueue (mQueue p) = k ++ rest /\
    Forall (fun x => is_pill x = true) k /\ Forall (fun x => is_pill x = false) rest.

(** The configuration the directives accept, and sizes far below the width of
    the counters. *)
Record config_ok p : Prop := {
  ok_pill : is_pill (mPoisonItem p) = true;
  ok_order : mMinThreads p <= mMaxThreads p;
  ok_threads : mMaxThreads p < u32_modulus;
  ok_product : mMaxQueued p * mMaxThreads p < u64_modulus
}.

(** Between its minimum and its maximum, every pill aimed at one thread. *)
Record pool_inv p : Prop := {
  pi_config : config_ok p;
  pi_drop : mDropSize (mQueue p) = mMaxQueued p * mMaxThreads p;
  pi_pills_first : pills_first p;
  pi_killed : mBeingKilled p = pill_count p + done_count p;
  pi_min : mMinThreads p + mBeingKilled p <= thread_count p;
  pi_max : thread_count p <= mMaxThreads p
}.

(** While the pool is stopped, a pill or a poisoning to come for each worker. *)
Record stop_inv (left : N) p : Prop := {
  si_config : config_ok p;
  si_drop : mDropSize (mQueue p) = mMaxQueued p * mMaxThreads p;
  si_pills_first : pills_first p;
  si_max : thread_count p <= mMaxThreads p;
  si_left : alive_count p <= pill_count p + left
}.

(** The invariant by phase, [I] being that of the pool while it runs. *)
Definition phase_inv (I : ThreadPool T W -> Prop) s : Prop :=
  match manager s with
  | Poisoning i => i <= thread_count (pool s) /\ stop_inv (thread_count (pool s) - i) (pool s)
  | LastCollect | Ended => stop_inv 0 (pool s)
  | _ => I (pool s)
  end.

(** The invariant without lost workers; and what is left of it with them: at most the
    maximum, and pills first. *)
Definition system_inv : system T W -> Prop := phase_inv pool_inv.
Definition cap_inv p : Prop := stop_inv (thread_count p) p.

(** What the steps ask of [I]. *)
Record kept_running (I : ThreadPool T W -> Prop) : Prop := {
  kr_adapt f p : I p -> I (adapt f p);
  kr_collect joined p : joinable (mThreads p) joined -> I p -> I (collectKilled joined p);
  kr_stats n s : I (pool s) -> I (pool (stats_step n s));
  kr_work i p p' : work is_pill i p = Some p' -> I p -> I p';
  kr_push x p : is_pill x = false -> I p -> I (push x p);
  kr_stop p : I p -> I (stop_request p);
  kr_pause p : I p -> cap_inv p
}.

Lemma alive_done p : alive_count p + done_count p = thread_count p.
Proof.
  unfold alive_count, done_count, thread_count.
  induction (mThreads p) as [|[] l IH]; [done|..]; cbn [List.filter is_alive is_done length] in *; lia.
Qed.

Lemma pool_inv_stop p : pool_inv p -> stop_inv (thread_count p) p.
Proof. intros []. split; try done. pose proof (alive_done p). lia. Qed.

(** *** Effects on the counts *)

Lemma filter_length_app {A} (f : A -> bool) (l k : list A) :
  length (List.filter f (l ++ k)) = (length (List.filter f l) + length (List.filter f k))%nat.
Proof. by rewrite List.filter_app, length_app. Qed.

Lemma filter_all_false {A} (f : A -> bool) (l : list A) :
  Forall (fun x => f x = false) l -> List.filter f l = [].
Proof. induction 1 as [|x l Hx _ IH]; [done|]. cbn. by rewrite Hx. Qed.

Lemma filter_all_true {A} (f : A -> bool) (l : list A) :
  Forall (fun x => f x = true) l -> List.filter f l = l.
Proof. induction 1 as [|x l Hx _ IH]; [done|]. cbn. by rewrite Hx, IH. Qed.

Lemma Forall_removelast {A} (P : A -> Prop) (l : list A) : Forall P l -> Forall P (removelast l).
Proof.
  intros Hl. destruct l as [|x l _] using rev_ind; [done|]. rewrite removelast_last.
  by apply Forall_app in Hl as [Hl _].
Qed.

Lemma length_removelast {A} (l : list A) : l <> [] -> length l = S (length (removelast l)).
Proof.
  destruct l as [|x l _] using rev_ind; [done|]. intros _. rewrite removelast_last, length_app. cbn. lia.
Qed.

(** A poisoning adds a pill, unless the queue is full of pills. *)
Lemma poisonThread_pills p :
  is_pill (mPoisonItem p) = true -> pills_first p ->
  pills_first (poisonThread p) /\
  (pill_count (poisonThread p) = pill_count p + 1 \/
   (0 < mDropSize (mQueue p) <= pill_count p /\ pill_count (poisonThread p) = pill_count p)).
Proof.
  intros Hp (k & rest & Hq & Hk & Hr).
  unfold pills_first, pill_count. cbn. unfold push_front. destruct (full (mQueue p)) eqn:Hf; cbn.
  - apply full_true in Hf. unfold size in Hf. rewrite Hq in *.
    destruct rest as [|y rest _] using rev_ind.
    + rewrite app_nil_r in *. pose proof (Forall_removelast _ _ Hk) as Hk'. split.
      * exists (mPoisonItem p :: removelast k), []. rewrite app_nil_r.
        split; [done|]. split; [by constructor|done].
      * right. rewrite Hp, (filter_all_true is_pill k), (filter_all_true is_pill (removelast k)) by done.
        assert (Hne : k <> []) by (intros ->; cbn in Hf; lia).
        pose proof (length_removelast k Hne). cbn [length]. lia.
    + rewrite app_assoc, removelast_last. apply Forall_app in Hr as [Hr Hy].
      split; [exists (mPoisonItem p :: k), rest; split; [done|]; split; [by constructor|done]|].
      left. rewrite Hp. cbn [length]. rewrite (filter_length_app is_pill (k ++ rest)).
      rewrite (filter_all_false is_pill [y]) by done. cbn. lia.
  - rewrite Hq. split; [exists (mPoisonItem p :: k), rest; split; [done|]; split; [by constructor|done]|].
    left. rewrite Hp. cbn [length]. lia.
Qed.

Lemma push_pills x p :
  is_pill x = false -> pills_first p ->
  pills_first (push x p) /\ pill_count (push x p) = pill_count p.
Proof.
  intros Hx (k & rest & Hq & Hk & Hr). unfold pills_first, pill_count. cbn.
  unfold MultiThreadQueue.push. destruct (full (mQueue p)); cbn.
  { split; [|done]. by exists k, rest. }
  rewrite filter_length_app, (filter_all_false is_pill [x]) by (by constructor). cbn.
  split; [|lia]. exists k, (rest ++ [x]). rewrite Hq, app_assoc. split; [done|]. split; [done|].
  apply Forall_app_2; [done|by constructor].
Qed.

(** An item taken by a worker: a pill turns the worker from alive to done. *)
Lemma work_counts i p p' :
  work is_pill i p = Some p' -> pills_first p ->
  pills_first p' /\ thread_count p' = thread_count p /\
  ((pill_count p = pill_count p' + 1 /\ alive_count p = alive_count p' + 1 /\
    done_count p' = done_count p + 1) \/
   (pill_count p' = pill_count p /\ alive_count p' = alive_count p /\
    done_count p' = done_count p)).
Proof.
  unfold work. intros Hw (k & rest & Hq & Hk & Hr).
  destruct (mThreads p !! i) as [[]|] eqn:Hi; [|done..].
  destruct (pop (mQueue p)) as [[item q]|] eqn:Hpop; [|done]. injection Hw as <-.
  apply pop_Some in Hpop. rewrite Hq in Hpop.
  apply list_elem_of_split_length in Hi as (l1 & l2 & Hth & Hlen).
  destruct (is_pill item) eqn:Hpill; cbn [mThreads set_mThreads set_mQueue mQueue].
  - destruct k as [|x k]; cbn in Hpop.
    { rewrite Hpop in Hr. apply Forall_inv in Hr. congruence. }
    injection Hpop as -> Hrest. apply Forall_cons in Hk as [_ Hk].
    split; [by exists k, rest|]. unfold thread_count, pill_count, alive_count, done_count. cbn.
    rewrite Hth, Hlen, insert_app_r_alt, Nat.sub_diag by lia. cbn [insert list_insert].
    rewrite !filter_length_app, !length_app, Hq, <- Hrest. cbn. rewrite Hpill. cbn. lia.
  - destruct k as [|x k]; cbn in Hpop.
    + split; [|split; [done|right; split; [|done]]].
      * exists [], (MultiThreadQueue.mQueue q). rewrite Hpop in Hr. apply Forall_cons in Hr as [_ Hr]. done.
      * unfold pill_count. cbn. rewrite Hq. cbn [app]. rewrite Hpop. cbn. by rewrite Hpill.
    + injection Hpop as -> _. apply Forall_inv in Hk. congruence.
Qed.

(** Joining removes ended threads only. *)
Lemma collectKilled_counts joined p :
  joinable (mThreads p) joined ->
  exists gone, alive_count (collectKilled joined p) = alive_count p /\
    done_count (collectKilled joined p) + gone = done_count p /\
    thread_count (collectKilled joined p) + gone = thread_count p /\
    mBeingKilled (collectKilled joined p) = u32_sub (mBeingKilled p) gone.
Proof.
  intros Hj. exists (N.of_nat (length (List.filter snd (zip (mThreads p) joined)))).
  unfold alive_count, done_count, thread_count. cbn [collectKilled mThreads set_mThreads set_mBeingKilled mBeingKilled].
  enough (Hgo : length (List.filter is_alive (fst <$> List.filter (fun e => negb (snd e)) (zip (mThreads p) joined)))
              = length (List.filter is_alive (mThreads p)) /\
    (length (List.filter is_done (fst <$> List.filter (fun e => negb (snd e)) (zip (mThreads p) joined)))
     + length (List.filter snd (zip (mThreads p) joined)))%nat = length (List.filter is_done (mThreads p)) /\
    (length (fst <$> List.filter (fun e => negb (snd e)) (zip (mThreads p) joined))
     + length (List.filter snd (zip (mThreads p) joined)))%nat = length (mThreads p))
    by (destruct Hgo as (H1 & H2 & H3); repeat split; lia).
  induction Hj as [|t j ts js Htj _ (IH1 & IH2 & IH3)]; [done|]. cbn [zip zip_with].
  destruct j; [rewrite (Htj eq_refl)|destruct t];
    cbn [List.filter snd fst negb fmap list_fmap is_alive is_done length] in *; lia.
Qed.


(** *** The invariant is kept *)

Lemma pool_inv_adapt f p : pool_inv p -> pool_inv (adapt f p).
Proof.
  intros [[Hpill Hord Hthr Hprod] Hdrop Hpf Hk Hmin Hmax]. pose proof (alive_done p) as Had.
  unfold adapt. destruct (_ && (thread_count p <? mMaxThreads p)) eqn:E1.
  - apply andb_prop in E1 as [_ E1%N.ltb_lt].
    assert (Hc : thread_count (newThread p) = thread_count p + 1 /\
                 done_count (newThread p) = done_count p).
    { unfold thread_count, done_count. cbn [newThread mThreads set_mThreads].
      rewrite filter_length_app, length_app. cbn [List.filter is_done length]. lia. }
    destruct Hc as [Hc1 Hc2]. split; try done; cbn [newThread mBeingKilled mMinThreads mMaxThreads set_mThreads].
    + by rewrite Hc2.
    + rewrite Hc1. cbn in *. lia.
    + rewrite Hc1. cbn in *. lia.
  - clear E1. destruct (_ && (mMinThreads p <? _)) eqn:E2; [|by split].
    apply andb_prop in E2 as [_ E2%N.ltb_lt].
    rewrite u64_sub_le in E2 by (unfold u32_modulus, u64_modulus in *; lia).
    destruct (poisonThread_pills p Hpill Hpf) as [Hpf' [Hc|[Hfull _]]].
    + assert (Hki : mBeingKilled (poisonThread p) = mBeingKilled p + 1).
      { cbn. unfold u32. apply N.mod_small. unfold u32_modulus in *. lia. }
      assert (Hth : thread_count (poisonThread p) = thread_count p) by done.
      assert (Hdo : done_count (poisonThread p) = done_count p) by done.
      split; try done.
      * cbn. unfold push_front. by destruct (full (mQueue p)).
      * rewrite Hki, Hc, Hdo. lia.
      * rewrite Hki, Hth. cbn [poisonThread mMinThreads set_mBeingKilled set_mQueue]. lia.
    + exfalso. rewrite Hdrop in Hfull.
      assert (1 <= mMaxQueued p) by (destruct (N.eq_dec (mMaxQueued p) 0) as [E|]; [rewrite E in Hfull; lia|lia]).
      nia.
Qed.

Lemma pool_inv_collect joined p :
  joinable (mThreads p) joined -> pool_inv p -> pool_inv (collectKilled joined p).
Proof.
  intros Hj [Hcfg Hdrop Hpf Hk Hmin Hmax]. pose proof Hcfg as [_ _ Hthr _].
  destruct (collectKilled_counts joined p Hj) as (gone & Ha & Hd & Ht & Hki).
  pose proof (alive_done p) as Had.
  rewrite u32_sub_le in Hki by lia.
  assert (Hpi : pill_count (collectKilled joined p) = pill_count p) by done.
  split; try done.
  - by destruct Hcfg.
  - rewrite Hki, Hpi. lia.
  - rewrite Hki. cbn [collectKilled mMinThreads set_mThreads set_mBeingKilled]. lia.
  - cbn [collectKilled mMaxThreads set_mThreads set_mBeingKilled]. lia.
Qed.

Lemma stop_inv_collect joined p :
  joinable (mThreads p) joined -> stop_inv 0 p -> stop_inv 0 (collectKilled joined p).
Proof.
  intros Hj [Hcfg Hdrop Hpf Hmax Hl].
  destruct (collectKilled_counts joined p Hj) as (gone & Ha & Hd & Ht & Hki).
  split; try done.
  - by destruct Hcfg.
  - cbn [collectKilled mMaxThreads set_mThreads set_mBeingKilled]. lia.
  - rewrite Ha. done.
Qed.

Lemma stop_inv_poison n p : 0 < n -> stop_inv n p -> stop_inv (n - 1) (poisonThread p).
Proof.
  intros Hn [Hcfg Hdrop Hpf Hmax Hl]. pose proof Hcfg as [Hpill Hord Hthr Hprod].
  pose proof (alive_done p) as Had.
  destruct (poisonThread_pills p Hpill Hpf) as [Hpf' Hc].
  assert (Ha : alive_count (poisonThread p) = alive_count p) by done.
  split; try done.
  - cbn. unfold push_front. by destruct (full (mQueue p)).
  - rewrite Ha. destruct Hc as [->|[Hfull ->]]; [lia|]. rewrite Hdrop in Hfull.
    assert (1 <= mMaxQueued p) by (destruct (N.eq_dec (mMaxQueued p) 0) as [E|]; [rewrite E in Hfull; lia|lia]).
    nia.
Qed.

(** A change of the pool that keeps the threads, and the queue up to its counters. *)
Definition same_contents p p' : Prop :=
  mThreads p' = mThreads p /\ mBeingKilled p' = mBeingKilled p /\ mPoisonItem p' = mPoisonItem p /\
  mMinThreads p' = mMinThreads p /\ mMaxThreads p' = mMaxThreads p /\
  mMaxQueued p' = mMaxQueued p /\ mDropSize (mQueue p') = mDropSize (mQueue p).

Lemma pool_inv_same p p' :
  same_contents p p' -> pills_first p' -> pill_count p' = pill_count p -> pool_inv p -> pool_inv p'.
Proof.
  intros (H1 & H2 & H3 & H4 & H5 & H6 & H7) Hpf Hpc [[] ? _ ? ? ?].
  unfold thread_count, done_count in *.
  split; [split|..]; unfold thread_count, done_count; rewrite ?H1, ?H2, ?H3, ?H4, ?H5, ?H6, ?H7, ?Hpc; done.
Qed.

Lemma stop_inv_same n p p' :
  same_contents p p' -> pills_first p' -> pill_count p' = pill_count p -> stop_inv n p -> stop_inv n p'.
Proof.
  intros (H1 & H2 & H3 & H4 & H5 & H6 & H7) Hpf Hpc [[] ? _ ? ?].
  unfold thread_count, alive_count in *.
  split; [split|..]; unfold thread_count, alive_count; rewrite ?H1, ?H2, ?H3, ?H4, ?H5, ?H6, ?H7, ?Hpc; done.
Qed.

Lemma reportStats_same lQueued p (w : W) :
  let '(p', _, _) := reportStats pid lQueued p w in
  same_contents p p' /\ MultiThreadQueue.mQueue (mQueue p') = MultiThreadQueue.mQueue (mQueue p).
Proof.
  unfold reportStats, getCounters. destruct (additionalStat "#TmOut" p w) as [w1 t1].
  by destruct (additionalStat "#DupReq" p w1) as [w2 t2].
Qed.

Lemma stats_step_same n s :
  same_contents (pool s) (pool (stats_step n s)) /\
  MultiThreadQueue.mQueue (mQueue (pool (stats_step n s))) = MultiThreadQueue.mQueue (mQueue (pool s)) /\
  manager (stats_step n s) = Waiting.
Proof.
  unfold stats_step. destruct (stats_due _ _); [|done].
  pose proof (reportStats_same n (pool s) (world s)) as Hr.
  destruct (reportStats pid n (pool s) (world s)) as [[p w] line]. by destruct Hr.
Qed.

(** The same items, so the same pills. *)
Lemma same_items p p' :
  MultiThreadQueue.mQueue (mQueue p') = MultiThreadQueue.mQueue (mQueue p) ->
  (pills_first p -> pills_first p') /\ pill_count p' = pill_count p.
Proof. intros Hq. unfold pills_first, pill_count. rewrite Hq. done. Qed.

Lemma push_same x p : same_contents p (push x p).
Proof. repeat split. cbn. unfold MultiThreadQueue.push. by destruct (full _). Qed.

Lemma work_same i p p' :
  work is_pill i p = Some p' ->
  mBeingKilled p' = mBeingKilled p /\ mPoisonItem p' = mPoisonItem p /\
  mMinThreads p' = mMinThreads p /\ mMaxThreads p' = mMaxThreads p /\
  mMaxQueued p' = mMaxQueued p /\ mDropSize (mQueue p') = mDropSize (mQueue p).
Proof.
  unfold work. repeat case_match; intros; simplify_eq; cbn;
    match goal with H : pop _ = Some _ |- _ =>
      unfold pop in H; destruct (MultiThreadQueue.mQueue (mQueue p)); [done|]; injection H as _ <- end;
    done.
Qed.

Lemma stop_inv_work n i p p' : work is_pill i p = Some p' -> stop_inv n p -> stop_inv n p'.
Proof.
  intros Hw [[] Hd Hpf Hmax Hl].
  destruct (work_counts i p p' Hw Hpf) as (Hpf' & Ht & Hc).
  destruct (work_same i p p' Hw) as (H1 & H2 & H3 & H4 & H5 & H6).
  split; [split|..]; rewrite ?H1, ?H2, ?H3, ?H4, ?H5, ?H6, ?Ht; try done. lia.
Qed.

Lemma stop_inv_push n x p : is_pill x = false -> stop_inv n p -> stop_inv n (push x p).
Proof.
  intros Hx Hinv. destruct (push_pills x p Hx (si_pills_first _ _ Hinv)).
  by apply (stop_inv_same n p); [apply push_same|..].
Qed.

Lemma stop_inv_stop n p : stop_inv n p -> stop_inv n (stop_request p).
Proof. intros Hinv. pose proof (si_pills_first _ _ Hinv). by apply (stop_inv_same n p). Qed.

(** *** While the pool runs *)

Lemma pool_inv_kept : kept_running pool_inv.
Proof.
  split.
  - apply pool_inv_adapt.
  - apply pool_inv_collect.
  - intros n s Hinv. destruct (stats_step_same n s) as (Hs & Hq & _). apply same_items in Hq as [Hpf Hpc].
    apply (pool_inv_same (pool s)); [done| |done|done]. apply Hpf, Hinv.
  - intros i p p' Hw [[] Hd Hpf Hk Hmin Hmax].
    destruct (work_counts i p p' Hw Hpf) as (Hpf' & Ht & Hc).
    destruct (work_same i p p' Hw) as (H1 & H2 & H3 & H4 & H5 & H6).
    split; [split|..]; rewrite ?H1, ?H2, ?H3, ?H4, ?H5, ?H6, ?Ht; try done. lia.
  - intros x p Hx Hinv. destruct (push_pills x p Hx (pi_pills_first _ Hinv)).
    by apply (pool_inv_same p); [apply push_same|..].
  - intros p Hinv. pose proof (pi_pills_first _ Hinv). by apply (pool_inv_same p).
  - apply pool_inv_stop.
Qed.

Lemma cap_intro p :
  config_ok p -> mDropSize (mQueue p) = mMaxQueued p * mMaxThreads p -> pills_first p ->
  thread_count p <= mMaxThreads p -> cap_inv p.
Proof. intros. split; try done. pose proof (alive_done p). lia. Qed.

Lemma cap_inv_adapt f p : cap_inv p -> cap_inv (adapt f p).
Proof.
  intros Hinv. pose proof Hinv as [[Hpill Hord Hthr Hprod] Hdrop Hpf Hmax _]. unfold adapt.
  destruct (_ && (thread_count p <? mMaxThreads p)) eqn:E1; [|clear E1; case_match; [|exact Hinv]].
  - apply andb_prop in E1 as [_ E1%N.ltb_lt]. apply cap_intro; try done.
    unfold thread_count in *. cbn [newThread mThreads mMaxThreads set_mThreads]. rewrite length_app. cbn [length]. lia.
  - destruct (poisonThread_pills p Hpill Hpf) as [Hpf' _]. apply cap_intro; try done.
    cbn. unfold push_front. by destruct (full (mQueue p)).
Qed.

Lemma cap_inv_kept : kept_running cap_inv.
Proof.
  split.
  - apply cap_inv_adapt.
  - intros joined p Hj [[] Hd Hpf Hmax _]. destruct (collectKilled_counts joined p Hj) as (gone & _ & _ & Ht & _).
    apply cap_intro; try done. cbn [collectKilled mMaxThreads set_mThreads set_mBeingKilled]. lia.
  - intros n s Hinv. destruct (stats_step_same n s) as (Hs & Hq & _). apply same_items in Hq as [Hpf Hpc].
    unfold cap_inv. replace (thread_count (pool (stats_step n s))) with (thread_count (pool s))
      by (unfold thread_count; by rewrite (proj1 Hs)).
    apply (stop_inv_same _ (pool s)); [done| |done|done]. apply Hpf, Hinv.
  - intros i p p' Hw Hinv. destruct (work_counts i p p' Hw (si_pills_first _ _ Hinv)) as (_ & Ht & _).
    unfold cap_inv. rewrite Ht. by eapply stop_inv_work.
  - intros x p. apply stop_inv_push.
  - intros p. apply stop_inv_stop.
  - done.
Qed.

(** *** Every step *)

Lemma phase_inv_mstep I s s' : kept_running I -> mstep s s' -> phase_inv I s -> phase_inv I s'.
Proof.
  unfold phase_inv. intros HI Hm.
  destruct Hm as [s Hph _|s n Hph|s n f joined Hph Hj|s n f Hph|s n Hph|s Hph _|s i Hph Hi|s i Hph Hi|s joined Hph Hj];
    rewrite Hph; cbn [at_phase manager pool].
  - done.
  - done.
  - by apply HI.
  - by apply HI.
  - rewrite (proj2 (proj2 (stats_step_same n s))). by apply HI.
  - intros Hinv. split; [lia|]. rewrite N.sub_0_r. by apply HI.
  - intros [_ Hs]. pose proof Hs as [[_ _ Hthr _] _ _ Hmax _].
    assert (u32 (i + 1) = i + 1) as Hu by (apply N.mod_small; lia). rewrite Hu.
    change (thread_count (poisonThread (pool s))) with (thread_count (pool s)).
    split; [lia|]. replace (thread_count (pool s) - (i + 1)) with (thread_count (pool s) - i - 1) by lia.
    apply stop_inv_poison; [lia|done].
  - intros [_ Hs]. by replace (thread_count (pool s) - i) with 0 in Hs by lia.
  - by apply stop_inv_collect.
Qed.

(** A change by another thread keeps the invariant of the phase. *)
Lemma phase_inv_change (I : ThreadPool T W -> Prop) s p' :
  (I (pool s) -> I p') -> (forall n, stop_inv n (pool s) -> stop_inv n p') ->
  thread_count p' = thread_count (pool s) ->
  phase_inv I s -> phase_inv I (at_phase (manager s) p' s).
Proof.
  intros Hp Hs Ht. unfold phase_inv. cbn [at_phase manager pool].
  destruct (manager s); rewrite ?Ht; auto. intros []. auto.
Qed.

Lemma phase_pills_first I s : kept_running I -> phase_inv I s -> pills_first (pool s).
Proof.
  intros HI. unfold phase_inv.
  destruct (manager s); [intros Hi%(kr_pause _ HI)..|intros [_ Hi]|intros Hi|intros Hi]; apply Hi.
Qed.

Lemma phase_inv_tstep I s s' : kept_running I -> tstep s s' -> phase_inv I s -> phase_inv I s'.
Proof.
  intros HI Hp. destruct Hp as [s s' Hm|s i p Hw|s x Hx|s]; [by apply phase_inv_mstep|..];
    intros Hi; apply phase_inv_change; try done.
  - by apply (kr_work _ HI i).
  - intros n. by apply (stop_inv_work n i).
  - pose proof (phase_pills_first I s HI Hi) as Hpf. by destruct (work_counts i (pool s) p Hw Hpf) as (_ & Ht & _).
  - by apply (kr_push _ HI).
  - intros n. by apply stop_inv_push.
  - apply (kr_stop _ HI).
  - intros n. apply stop_inv_stop.
Qed.

(** A lost worker is one the stop need not end. *)
Lemma lost_counts i p p' :
  lost i p = Some p' ->
  thread_count p' = thread_count p /\ alive_count p = alive_count p' + 1 /\ forall n, stop_inv n p -> stop_inv n p'.
Proof.
  unfold lost. destruct (mThreads p !! i) as [[]|] eqn:Hi; try done. intros [= <-].
  apply list_elem_of_split_length in Hi as (l1 & l2 & Hth & Hlen).
  assert (Hc : thread_count (set_mThreads (<[i:=Done]> (mThreads p)) p) = thread_count p /\
               alive_count p = alive_count (set_mThreads (<[i:=Done]> (mThreads p)) p) + 1).
  { unfold thread_count, alive_count. cbn [mThreads set_mThreads]. rewrite length_insert.
    rewrite Hth, Hlen, insert_app_r_alt, Nat.sub_diag by lia. cbn [insert list_insert].
    rewrite !filter_length_app. cbn [List.filter is_alive length]. lia. }
  destruct Hc as [Ht Ha]. split_and!; [done..|]. intros n [Hcfg Hd Hpf Hmax Hl]. split; try done.
  - by destruct Hcfg.
  - by rewrite Ht.
  - change (pill_count (set_mThreads (<[i:=Done]> (mThreads p)) p)) with (pill_count p). lia.
Qed.

Lemma phase_inv_pstep s s' : pstep s s' -> phase_inv cap_inv s -> phase_inv cap_inv s'.
Proof.
  intros Hf. destruct Hf as [s s' Hp|s i p Hl]; [by apply phase_inv_tstep, Hp; apply cap_inv_kept|].
  destruct (lost_counts i (pool s) p Hl) as (Ht & _ & Hn).
  apply phase_inv_change; [|done|done]. unfold cap_inv. rewrite Ht. apply Hn.
Qed.

(** *** The start *)

Lemma newThreads_iter n p :
  Nat.iter n newThread p = set_mThreads (mThreads p ++ replicate n Alive) p.
Proof.
  induction n as [|n IH]; cbn [Nat.iter nat_rect].
  - rewrite app_nil_r. by destruct p.
  - change (newThread (Nat.iter n newThread p) = set_mThreads (mThreads p ++ replicate (S n) Alive) p).
    rewrite IH, replicate_S_end, app_assoc. done.
Qed.

(** A pool as [ThreadPool()] and the directives leave it. *)
Definition fresh p : Prop :=
  mThreads p = [] /\ mBeingKilled p = 0 /\ MultiThreadQueue.mQueue (mQueue p) = [].

Lemma start_inv p : fresh p -> config_ok p -> pool_inv (start p).
Proof.
  intros (Hth & Hbk & Hq) [Hpill Hord Hthr Hprod]. unfold start.
  rewrite newThreads_iter. cbn [mThreads set_mQueue set_mRunning]. rewrite Hth. cbn [app].
  split; [by split|..].
  - cbn. unfold u64. by apply N.mod_small.
  - exists [], []. cbn. rewrite Hq. done.
  - unfold pill_count, done_count. cbn. rewrite Hbk, Hq. cbn.
    replace (List.filter is_done (replicate _ _)) with (@nil tstate); [done|].
    generalize (N.to_nat (mMinThreads p)). intros n. by induction n.
  - unfold thread_count. cbn. rewrite Hbk, length_replicate. lia.
  - unfold thread_count. cbn. rewrite length_replicate. lia.
Qed.

Lemma treachable_inv p (w : W) s :
  fresh p -> config_ok p -> rtc tstep (started p w) s -> system_inv s.
Proof.
  intros Hf Hc Hs. assert (H0 : system_inv (started p w)) by (by apply start_inv).
  revert H0. induction Hs as [|x y z Hxy _ IH]; [done|]. intros Hx. apply IH.
  by apply (phase_inv_tstep _ x y pool_inv_kept).
Qed.

Lemma reachable_inv p (w : W) s :
  fresh p -> config_ok p -> rtc pstep (started p w) s -> phase_inv cap_inv s.
Proof.
  intros Hf Hc Hs. assert (H0 : phase_inv cap_inv (started p w)) by (by apply pool_inv_stop, start_inv).
  revert H0. induction Hs as [|x y z Hxy _ IH]; [done|]. intros Hx. apply IH. by eapply phase_inv_pstep.
Qed.

(** ** The properties *)

Lemma prun_steps n s s' : prun n s s' -> rtc pstep s s' /\ (n = 0 -> rtc tstep s s').
Proof.
  induction 1 as [s|n s s1 s2 _ [IH1 IH2] Hw|n s s1 i p _ [IH1 _] Hl]; [by split| |].
  - split; [eapply rtc_r; [done|by apply p_step]|]. intros H0. eapply rtc_r; [by apply IH2|done].
  - split; [eapply rtc_r; [done|by eapply p_lost]|lia].
Qed.

(** [C13] The number of threads in every run of the pool, whatever the order in which the
    threads proceed. Never more than the maximum, workers lost or not. While the pool
    runs, if every worker so far got its curl handle: at least the minimum, even counting
    as gone the threads that are to be killed, and each pill given has ended, or is still
    to end, exactly one thread; this can fail after a worker was lost
    ([lost_worker_breaks_minimum]). Once the pool is being stopped, when all threads have
    to end, no minimum is kept: each live worker has a pill in the queue or one that the
    manager is still to give, and all have theirs when the manager's loop has ended. *)
Theorem pool_between_bounds p (w : W) lost_workers s :
  fresh p -> config_ok p -> prun lost_workers (started p w) s ->
  thread_count (pool s) <= mMaxThreads (pool s) /\
  match manager s with
  | Poisoning i => alive_count (pool s) <= pill_count (pool s) + (thread_count (pool s) - i)
  | LastCollect | Ended => alive_count (pool s) <= pill_count (pool s)
  | _ => lost_workers = 0 ->
         mBeingKilled (pool s) = pill_count (pool s) + done_count (pool s) /\
         mMinThreads (pool s) + pill_count (pool s) <= alive_count (pool s)
  end.
Proof.
  intros Hf Hc [Hs Hw]%prun_steps. apply (reachable_inv p w s Hf Hc) in Hs.
  assert (Hl : lost_workers = 0 -> system_inv s) by (intros H0; by apply (treachable_inv p w), Hw).
  clear Hw. pose proof (alive_done (pool s)) as Had. unfold system_inv, phase_inv in Hs, Hl.
  destruct (manager s);
    first [destruct Hs as [_ []]; lia
          | split; [by destruct Hs|]; first [by intros [] %Hl; lia | destruct Hs; lia]].
Qed.

(** [C36] Even when workers are lost because their curl handle cannot be made: the number of
    threads never exceeds the maximum, and after the manager has ended, the next item of
    every worker that is left is a poison pill: each one that comes back for an item ends,
    none waits for ever, and the requests still queued stay in the queue. *)
Theorem shutdown_ends_workers p (w : W) s :
  fresh p -> config_ok p -> rtc pstep (started p w) s ->
  thread_count (pool s) <= mMaxThreads (pool s) /\
  (manager s = Ended -> forall i, mThreads (pool s) !! i = Some Alive ->
     exists p', work is_pill i (pool s) = Some p' /\ mThreads p' !! i = Some Done /\
       List.filter (fun x => negb (is_pill x)) (MultiThreadQueue.mQueue (mQueue p'))
       = List.filter (fun x => negb (is_pill x)) (MultiThreadQueue.mQueue (mQueue (pool s)))).
Proof.
  intros Hf Hc Hs%(reachable_inv p w s Hf Hc). unfold phase_inv in Hs. split.
  { destruct (manager s); first [exact (si_max _ _ Hs)|exact (si_max _ _ (proj2 Hs))]. }
  intros Hph i Hi. rewrite Hph in Hs. destruct Hs as [_ _ (k & rest & Hq & Hk & Hr) _ Hl]. rewrite N.add_0_r in Hl.
  assert (Ha : 0 < alive_count (pool s)).
  { apply list_elem_of_split_length in Hi as (l1 & l2 & Hth & _). unfold alive_count.
    rewrite Hth, filter_length_app. cbn [List.filter is_alive length]. lia. }
  unfold pill_count in Hl. rewrite Hq, filter_length_app, (filter_all_false is_pill rest) in Hl by done.
  destruct k as [|x k]; [cbn in Hl; lia|]. apply Forall_cons in Hk as [Hx Hk].
  unfold work. rewrite Hi. unfold pop. rewrite Hq. cbn [app]. rewrite Hx.
  eexists. split; [done|]. cbn. split.
  - apply list_lookup_insert_eq. by apply lookup_lt_Some in Hi.
  - by rewrite Hx.
Qed.

(** *** The manager ends *)

(** The number of steps the manager thread still makes once stopped. *)
Definition manager_rank s : N :=
  let n := thread_count (pool s) in
  match manager s with
  | Sized _ => n + 8
  | Measured _ _ => n + 7
  | Collected _ _ => n + 6
  | Adapted _ => n + 4
  | Waiting => n + 3
  | Poisoning i => n - i + 2
  | LastCollect => 1
  | Ended => 0
  end.

Lemma thread_count_collect joined p : thread_count (collectKilled joined p) <= thread_count p.
Proof.
  unfold thread_count. cbn [collectKilled mThreads set_mThreads set_mBeingKilled].
  rewrite length_fmap.
  assert (Hle : forall l : list (tstate * bool), (length (List.filter (fun e => negb (snd e)) l) <= length l)%nat).
  { induction l as [|[? []] l IH]; cbn in *; lia. }
  specialize (Hle (zip (mThreads p) joined)). rewrite length_zip_with in Hle. lia.
Qed.

Lemma thread_count_adapt f p : thread_count (adapt f p) <= thread_count p + 1.
Proof.
  unfold adapt. case_match; [|case_match]; unfold thread_count;
    cbn [newThread poisonThread mThreads set_mThreads set_mBeingKilled set_mQueue];
    rewrite ?length_app; cbn [length]; lia.
Qed.

Lemma manager_progress s :
  manager s <> Ended -> exists s', mstep s s'.
Proof.
  intros Hph. destruct (manager s) eqn:E; try done.
  - destruct (mRunning (pool s)) eqn:Er; eexists; [by apply m_size|by apply m_leave].
  - eexists. by eapply m_measure.
  - eexists. eapply (m_collect s _ _ (replicate (length (mThreads (pool s))) false)); [done|].
    unfold joinable. apply Forall2_replicate_r; [done|]. apply Forall_forall. done.
  - eexists. by eapply m_adapt.
  - eexists. by eapply m_stats.
  - destruct (N.lt_ge_cases i (thread_count (pool s))); eexists; [by apply m_poison|by eapply m_poisoned].
  - eexists. eapply (m_last s (replicate (length (mThreads (pool s))) false)); [done|].
    unfold joinable. apply Forall2_replicate_r; [done|]. apply Forall_forall. done.
Qed.

Lemma reportStats_running n p (w : W) : mRunning (fst (fst (reportStats pid n p w))) = mRunning p.
Proof.
  unfold reportStats, getCounters. destruct (additionalStat "#TmOut" p w) as [w1 t1].
  by destruct (additionalStat "#DupReq" p w1).
Qed.

Lemma mRunning_pstep s s' : pstep s s' -> mRunning (pool s) = false -> mRunning (pool s') = false.
Proof.
  intros Hp Hr. destruct Hp as [s s' Hp|s i p Hl]; [|revert Hl; cbn; unfold lost; repeat case_match; intros; by simplify_eq].
  destruct Hp as [s s' Hm|s i p Hw|s x Hx|s]; [|..].
  - destruct Hm; try exact Hr.
    + cbn. unfold adapt. by repeat case_match.
    + unfold stats_step. case_match; [|exact Hr].
      pose proof (reportStats_running n (pool s) (world s)) as Hrr.
      destruct (reportStats pid n (pool s) (world s)) as [[p w] line]. cbn in *. congruence.
  - cbn. revert Hw. unfold work. repeat case_match; intros; by simplify_eq.
  - exact Hr.
  - done.
Qed.

(** The join of [stop] comes to an end: once the pool is stopped it stays so,
    the manager thread can always take a step, and each step brings it nearer to
    its end, whatever the other threads do in between, and even if some are lost. *)
Theorem manager_ends p (w : W) s :
  fresh p -> config_ok p -> rtc pstep (started p w) s -> mRunning (pool s) = false ->
  (forall s', pstep s s' -> mRunning (pool s') = false) /\
  (manager s <> Ended -> exists s', mstep s s') /\
  (forall s', mstep s s' -> manager_rank s' < manager_rank s) /\
  (forall s', pstep s s' -> ~ mstep s s' -> manager_rank s' = manager_rank s).
Proof.
  intros Hf Hc Hs%(reachable_inv p w s Hf Hc) Hr.
  split; [intros s' Hp; by eapply mRunning_pstep|].
  split; [by apply manager_progress|]. split.
  - intros s' Hm. unfold manager_rank.
    destruct Hm as [s Hph Hrun|s n Hph|s n f joined Hph Hj|s n f Hph|s n Hph|s Hph _|s i Hph Hi|s i Hph Hi|s joined Hph Hj];
      rewrite Hph; cbn [at_phase manager pool]; try lia.
    + congruence.
    + pose proof (thread_count_collect joined (pool s)). lia.
    + pose proof (thread_count_adapt f (pool s)). lia.
    + destruct (stats_step_same n s) as ((Hth & _) & _ & ->). unfold thread_count. rewrite Hth. lia.
    + unfold phase_inv in Hs. rewrite Hph in Hs. destruct Hs as [_ [[_ _ Hthr _] _ _ Hmax _]].
      assert (u32 (i + 1) = i + 1) as -> by (apply N.mod_small; lia).
      change (thread_count (poisonThread (pool s))) with (thread_count (pool s)). lia.
  - assert (Hpf : pills_first (pool s)) by (by apply (phase_pills_first cap_inv), Hs; apply cap_inv_kept).
    assert (Hsame : forall p', thread_count p' = thread_count (pool s) ->
      manager_rank (at_phase (manager s) p' s) = manager_rank s) by (intros p' Ht; unfold manager_rank; cbn; by rewrite Ht).
    intros s' Hst Hn. destruct Hst as [s s' Hst|s i p' Hl]; [destruct Hst as [s s' Hm|s i p' Hw|s x Hx|s]|];
      [done|..]; apply Hsame; try done.
    + by destruct (work_counts i _ p' Hw Hpf) as (_ & Ht & _).
    + by destruct (lost_counts i _ p' Hl).
Qed.
End Steps.

Module PoolExamples.
Definition is_poison (n : N) : bool := n =? 0.

(** A pool of one to three threads, one to two queued items per thread. *)
Definition pool3 : ThreadPool N unit := setQueue 1 2 (setThreads 1 3 (newThreadPool 0)).

Definition init : system N unit := started pool3 tt.

Lemma pool3_fresh : fresh pool3.
Proof. repeat split. Qed.

Lemma pool3_ok : config_ok is_poison pool3.
Proof. by split. Qed.

(** Three items for the only thread: the manager adds one. *)
Example manager_adds_a_thread :
  let p := push 7 (push 6 (push 5 (start pool3))) in
  (thread_count p, thread_count (adapt (lQueuedPerThread p) p)) = (1, 2).
Proof. vm_compute. reflexivity. Qed.

(** No item for two threads: one is poisoned. *)
Example manager_kills_a_thread :
  let p := newThread (start pool3) in
  let p' := adapt (lQueuedPerThread p) p in
  (thread_count p', mBeingKilled p', MultiThreadQueue.mQueue (mQueue p')) = (2, 1, [0]).
Proof. vm_compute. reflexivity. Qed.

(** Without threads and items the quotient is not a number: nothing happens. *)
Example empty_pool_stays_empty :
  let p := setThreads 0 3 pool3 in adapt (lQueuedPerThread p) p = p.
Proof. vm_compute. reflexivity. Qed.

(** A thread that ended without a pill (its curl handle could not be made) is
    counted as killed: the unsigned counter wraps. *)
Example unpoisoned_end_wraps :
  mBeingKilled (collectKilled [true] (set_mThreads [Done] pool3)) = 4294967295.
Proof. vm_compute. reflexivity. Qed.

(** The pool is stopped as soon as it was started: the manager poisons the
    thread and ends. *)
Definition stopped : system N unit :=
  mkSystem (collectKilled [false] (poisonThread (stop_request (start pool3)))) Ended 0 tt [].

Lemma stopped_reachable : rtc (tstep is_poison 1) init stopped.
Proof.
  eapply rtc_l; [apply t_stop|].
  eapply rtc_l; [apply t_manager, m_leave; reflexivity|].
  eapply rtc_l; [apply t_manager, m_poison with (i := 0); [reflexivity|reflexivity]|].
  eapply rtc_l; [apply t_manager, m_poisoned with (i := 1); [reflexivity|discriminate]|].
  eapply rtc_l; [apply t_manager, m_last with (joined := [false]); [reflexivity|by repeat constructor]|].
  apply rtc_refl.
Qed.

(** *** Runs by script *)

Inductive action : Type :=
  | Size | Measure | Collect (joined : list bool) | Adapt | Stats | Leave | Poison | Poisoned
  | Last (joined : list bool) | Work (i : nat) | Push (x : N) | Stop.

Fixpoint joinableb (threads : list tstate) (joined : list bool) : bool :=
  match threads, joined with
  | [], [] => true
  | t :: threads, j :: joined => (negb j || is_done t) && joinableb threads joined
  | _, _ => false
  end.

Lemma joinableb_ok threads joined : joinableb threads joined = true -> joinable threads joined.
Proof.
  revert joined. induction threads as [|t threads IH]; intros [|j joined]; try done; cbn; [constructor|].
  intros [Hj Hr]%andb_prop. constructor; [intros ->; by destruct t|by apply IH].
Qed.

(** The step an action makes where it can be made. *)
Definition act (a : action) (s : system N unit) : option (system N unit) :=
  let go ph p := Some (at_phase ph p s) in
  let p := pool s in
  match a, manager s with
  | Size, Waiting => if mRunning p then go (Sized (size (mQueue p))) p else None
  | Measure, Sized n => go (Measured n (lQueuedPerThread p)) p
  | Collect joined, Measured n f => if joinableb (mThreads p) joined then go (Collected n f) (collectKilled joined p) else None
  | Adapt, Collected n f => go (Adapted n) (adapt f p)
  | Stats, Adapted n => Some (stats_step 1 n s)
  | Leave, Waiting => if mRunning p then None else go (Poisoning 0) p
  | Poison, Poisoning i => if i <? thread_count p then go (Poisoning (u32 (i + 1))) (poisonThread p) else None
  | Poisoned, Poisoning i => if i <? thread_count p then None else go LastCollect p
  | Last joined, LastCollect => if joinableb (mThreads p) joined then go Ended (collectKilled joined p) else None
  | Work i, ph => (fun p' => at_phase ph p' s) <$> work is_poison i p
  | Push x, ph => if is_poison x then None else go ph (push x p)
  | Stop, ph => go ph (stop_request p)
  | _, _ => None
  end.

Lemma act_ok a s s' : act a s = Some s' -> tstep is_poison 1 s s'.
Proof.
  unfold act. destruct a; destruct (manager s) eqn:Hph; try done;
    try (destruct (joinableb _ _) eqn:Hj; [apply joinableb_ok in Hj|done]);
    try (destruct (mRunning _) eqn:Hr; try done); try (destruct (_ <? _) eqn:Hi; try done);
    try (destruct (is_poison x) eqn:Hx; [done|]); try (destruct (work _ _ _) as [p'|] eqn:Hw; [|done]);
    intros [= <-]; rewrite <- ?Hph;
    first [apply t_push; done | by eapply t_work | apply t_stop | apply t_manager].
  - by apply m_size.
  - by apply m_measure.
  - by apply m_collect.
  - by eapply m_adapt.
  - by apply m_stats.
  - by apply m_leave.
  - apply m_poison; [done|by apply N.ltb_lt].
  - eapply m_poisoned; [done|by apply N.ltb_ge].
  - by apply m_last.
Qed.

Definition replay (l : list action) (s : system N unit) : option (system N unit) :=
  foldl (fun o a => s' ← o; act a s') (Some s) l.

Lemma replay_run l n s0 s s' : prun is_poison 1 n s0 s -> replay l s = Some s' -> prun is_poison 1 n s0 s'.
Proof.
  unfold replay. revert s. induction l as [|a l IH]; intros s Hs; cbn [foldl]; [by intros [= <-]|].
  cbn. destruct (act a s) as [s1|] eqn:Ha.
  - apply IH. by eapply run_step, act_ok.
  - intros Hn. exfalso. clear IH Ha Hs. by induction l.
Qed.

(** Three requests for one thread, so that a second thread is made; then none, so that one
    of the two is given a pill, takes it, and is collected. *)
Definition busy_script : list action :=
  [Push 5; Push 6; Push 7; Size; Measure; Collect [false]; Adapt; Stats; Work 0; Work 1; Work 0;
   Size; Measure; Collect [false; false]; Adapt].

Definition pill_given : system N unit := Eval vm_compute in default init (replay busy_script init).
Definition pill_collected : system N unit :=
  Eval vm_compute in default init (replay (busy_script ++ [Stats; Size; Measure; Work 1; Push 8; Push 9; Collect [false; true]]) init).

Example pill_counts :
  (thread_count (pool pill_given), mBeingKilled (pool pill_given), pill_count is_poison (pool pill_given),
   thread_count (pool pill_collected), mBeingKilled (pool pill_collected))
  = (2, 1, 1, 1, 0).
Proof. vm_compute. reflexivity. Qed.

Lemma pill_given_run : prun is_poison 1 0 (started pool3 tt) pill_given.
Proof. apply (replay_run busy_script 0 _ init); [constructor|vm_compute; reflexivity]. Qed.

(** With [curl_easy_init] that fails for the only worker: lost, then the stop. *)
Definition lost_one : ThreadPool N unit := default pool3 (lost 0 (start pool3)).

Definition stopped_lost : system N unit :=
  mkSystem (collectKilled [true] (poisonThread (stop_request lost_one))) Ended 0 tt [].

Lemma stopped_lost_run : prun is_poison 1 1 (started pool3 tt) stopped_lost.
Proof.
  apply (replay_run [Stop; Leave; Poison; Poisoned; Last [true]] 1 _ (at_phase Waiting lost_one init));
    [|vm_compute; reflexivity].
  apply (run_lost is_poison 1 0 init init 0 lost_one); [constructor|reflexivity].
Qed.

Lemma stopped_lost_reachable : rtc (pstep is_poison 1) init stopped_lost.
Proof. exact (proj1 (prun_steps is_poison 1 1 init stopped_lost stopped_lost_run)). Qed.

(** A lost worker makes the manager, short of requests, kill one more than the minimum
    allows: two workers, one of them lost and collected; the count of the threads to be killed
    wraps, so the one that is left gets a pill, and the minimum is one. *)
Example lost_worker_breaks_minimum :
  let p := newThread (start pool3) in
  let p := collectKilled [false; true] (default p (lost 1 p)) in
  let p' := adapt (lQueuedPerThread p) p in
  (thread_count p, mBeingKilled p, mMinThreads p, pill_count is_poison p', alive_count p')
  = (1, 4294967295, 1, 1, 1).
Proof. vm_compute. reflexivity. Qed.

(** The second thread has been made and a pill is in the queue; and, with a worker lost, the
    pool stopped. *)
Lemma pool_between_bounds_witness :
  (fresh pool3 /\ config_ok is_poison pool3 /\ prun is_poison 1 0 (started pool3 tt) pill_given /\
   prun is_poison 1 1 (started pool3 tt) stopped_lost) /\
  (thread_count (pool pill_given) <= 3 /\
   mBeingKilled (pool pill_given) = pill_count is_poison (pool pill_given) + done_count (pool pill_given) /\
   1 + pill_count is_poison (pool pill_given) <= alive_count (pool pill_given)) /\
  alive_count (pool stopped_lost) <= pill_count is_poison (pool stopped_lost).
Proof.
  split; [exact (conj pool3_fresh (conj pool3_ok (conj pill_given_run stopped_lost_run)))|].
  destruct (pool_between_bounds is_poison 1 pool3 tt 0 pill_given pool3_fresh pool3_ok pill_given_run) as [Hmax Hmin].
  destruct (pool_between_bounds is_poison 1 pool3 tt 1 stopped_lost pool3_fresh pool3_ok stopped_lost_run) as [_ Hpills].
  exact (conj (conj Hmax (Hmin eq_refl)) Hpills).
Defined.

Lemma rtc_psteps s s' : rtc (tstep is_poison 1) s s' -> rtc (pstep is_poison (W := unit) 1) s s'.
Proof. apply rtc_subrel. intros x y. apply p_step. Qed.

Lemma shutdown_ends_workers_witness :
  (fresh pool3 /\ config_ok is_poison pool3 /\ rtc (pstep is_poison 1) (started pool3 tt) stopped /\
   rtc (pstep is_poison 1) (started pool3 tt) stopped_lost) /\
  thread_count (pool stopped_lost) <= mMaxThreads (pool stopped_lost) /\
  exists p', work is_poison 0 (pool stopped) = Some p' /\ mThreads p' !! 0%nat = Some Done.
Proof.
  split; [exact (conj pool3_fresh (conj pool3_ok (conj (rtc_psteps _ _ stopped_reachable) stopped_lost_reachable)))|].
  split.
  - exact (proj1 (shutdown_ends_workers is_poison 1 pool3 tt stopped_lost pool3_fresh pool3_ok stopped_lost_reachable)).
  - destruct (proj2 (shutdown_ends_workers is_poison 1 pool3 tt stopped pool3_fresh pool3_ok
      (rtc_psteps _ _ stopped_reachable)) eq_refl 0%nat eq_refl) as (p' & Hw & Hd & _).
    exists p'. exact (conj Hw Hd).
Defined.

Definition stopping : system N unit := at_phase Waiting (stop_request (start pool3)) init.

Lemma stopping_reachable : rtc (pstep is_poison 1) (started pool3 tt) stopping.
Proof. eapply rtc_l; [apply p_step, t_stop|]. apply rtc_refl. Qed.

Lemma manager_ends_witness :
  (fresh pool3 /\ config_ok is_poison pool3 /\ rtc (pstep is_poison 1) (started pool3 tt) stopping /\
   mRunning (pool stopping) = false) /\
  (forall s', pstep is_poison 1 stopping s' -> mRunning (pool s') = false) /\
  (forall s', mstep 1 stopping s' -> manager_rank s' < manager_rank stopping).
Proof.
  split; [exact (conj pool3_fresh (conj pool3_ok (conj stopping_reachable eq_refl)))|].
  destruct (manager_ends is_poison 1 pool3 tt stopping pool3_fresh pool3_ok stopping_reachable eq_refl) as (H1 & _ & H3 & _).
  exact (conj H1 H3).
Defined.
End PoolExamples.
