(* ===== verification/Workers.v ===== *)
(** * Workers

    The pool at work: the threads of ThreadPool, each running [run] of RequestProcessor on
    the items it takes from the queue, while Apache threads push requests and the manager
    adds threads and pills. No source of its own: ThreadPool has what the threads of the
    pool do to the queue, RequestProcessor what a worker does with an item, and here they
    run together. A thread first makes its curl handle, and ends at once when
    [curl_easy_init] fails.

    The workers share one RequestProcessor, and matching writes to it: [mMatch] of the
    filters, mutable and without a lock. So a worker handles an item in several steps, that
    those of the others may come between: it takes it; it looks at the destinations of the
    location one after the other ([matchesFilter] reads what no thread writes, and writes
    one [mMatch] at most, at its end); for each filter that matched it reads [mMatch] twice,
    for the text of [X_DUP_LOG] and for [X-MATCHED-PATTERN], and what it reads is what the
    last writer left; then it sends, and sending reads nothing that another thread writes.
    Two threads that access the same [std::string] at the same time have no defined
    behaviour in C++; the model takes each reading and each writing as a whole. The counters
    of timeouts and duplicates, shared and atomic in the source, are those of each worker's
    [Sender]. *)
From S2P Require Import Prelude CxxString StdMap Boost RequestCommon RequestInfo UrlCodec.
From S2P Require Import DupConf Filters Substitution CurlCall RequestProcessor MultiThreadQueue ThreadPool.
Local Open Scope N_scope.

Section Workers.
Context `{BoostRegex} {B : BoostString} {HB : BoostStringLaws B} {A : ApacheUrl}.
Context {R : Random} {Q : Running} {C : Curl}.
Context {W : Type} (pid : N).
Local Existing Instance B.

(** ** The machine *)

(** What a worker does with its request: the filters found in the first [k] destinations;
    then, for the first ones of all those found, the filter as it was read for the log and
    the text read for the header, and the filter whose second reading is to come. *)
Inductive activity : Type :=
  | Matching (found : list tFilter) (k : nat)
  | Marking (found : list tFilter) (read : list (tFilter * string)) (half : option tFilter).

(** A thread: before it has its curl handle (or, having none, ended); at the queue, with its
    sender and counters; or with a request in hand. *)
Inductive hand : Type :=
  | Starting
  | Idle (w : Worker)
  | Busy (w : Worker) (r : RequestInfo) (a : activity).

Definition holding (h : hand) : option RequestInfo :=
  match h with Busy _ r _ => Some r | _ => None end.

(** [matchesFilter] on the [k]-th destination of the location of [r], whose [mMatch] it may
    write. *)
Definition match_one (p : RequestProcessor) (r : RequestInfo) (k : nat) : option (RequestProcessor * option tFilter) :=
  cbd ← std_find (mConf r) (mCommands p);
  e ← (cbd : list (string * Commands)) !! k;
  let '(c, matched) := matchesFilter (mUrlCodec p) (parsed p r) (snd e) in
  Some (set_mCommands (std_set (mConf r) (<[k := (fst e, c)]> cbd) (mCommands p)) p, matched).

(** Two states of one filter. *)
Definition same_filter (g f : tFilter) : Prop := set_mMatch EmptyString g = set_mMatch EmptyString f.

(** [g] is the filter [f] of the location of [r] as it is now. *)
Definition as_now (p : RequestProcessor) (r : RequestInfo) (f g : tFilter) : Prop :=
  exists cbd c, std_find (mConf r) (mCommands p) = Some cbd /\ std_find (mDestination f) cbd = Some c /\
    (g ∈ snd <$> mFilters c \/ g ∈ mRawFilters c) /\ same_filter g f.

(** [addValidationHeadersDup], each filter being as read for the log, next to the text read
    for the header. *)
Definition addValidationHeadersRead (rInfo : RequestInfo) (read : list (tFilter * string))
    (numDestinations numFiltersAttempted : N) : RequestInfo :=
  match read with
  | [] => addValidationHeadersDup rInfo [] numDestinations numFiltersAttempted
  | _ =>
      let '(xDupLog, headersOut, _) :=
        foldl (fun '(log, out, separator) '(f, pattern) =>
                 (log +:+ separator +:+ matchedText f,
                  out ++ [("X-MATCHED-PATTERN"%string, pattern)], " AND "%string))
              ("The request is duplicated, "%string, mHeadersOut rInfo, EmptyString) read in
      set_mHeadersOut (headersOut ++ [("X_DUP_LOG"%string, xDupLog)]) rInfo
  end.

(** The request as it is sent after these readings, and what is to be sent. *)
Definition to_send_read (p : RequestProcessor) (r : RequestInfo) (read : list (tFilter * string)) : RequestInfo :=
  addValidationHeadersRead (parsed p r) read
    (N.of_nat (length (destinations_of p r))) (filters_count (destinations_of p r)).

Definition read_plan (p : RequestProcessor) (r : RequestInfo) (read : list (tFilter * string)) (draws : nat) :
    list (tFilter * RequestInfo) :=
  dup_plan (mUrlCodec p) (parsed p r) (to_send_read p r read) (destinations_of p r) draws.

Record machine : Type := mkMachine {
  sys : system RequestInfo W;
  processor : RequestProcessor;
  hands : list hand
}.

Definition queue (m : machine) : MultiThreadQueue RequestInfo := mQueue (pool (sys m)).

(** What is left of a list once the threads of [joined] are collected. *)
Definition kept {X} (joined : list bool) (l : list X) : list X :=
  fst <$> List.filter (fun e => negb (snd e)) (zip l joined).

(** What the manager does to the queue: it pushes pills and reads the counters. *)
Definition manager_event (e : event RequestInfo) : bool :=
  match e with EPushFront x _ => isPoison x | ECounters _ _ _ => true | _ => false end.

(** What happens, seen from outside: an event of the queue, or the handling of a request
    by a worker, before and after it. *)
Inductive deed : Type :=
  | Queued (e : event RequestInfo)
  | Handled (r : RequestInfo) (w w' : Worker).

Inductive dstep : machine -> list deed -> machine -> Prop :=
  | d_request m x :
      isPoison x = false -> header_keys_ok x ->
      dstep m [Queued (EPush x (negb (full (queue m))))]
        (mkMachine (at_phase (manager (sys m)) (push x (pool (sys m))) (sys m)) (processor m) (hands m))
  | d_stop m :
      dstep m [Queued EStop]
        (mkMachine (at_phase (manager (sys m)) (stop_request (pool (sys m))) (sys m)) (processor m) (hands m))
  | d_manager m s' evs joined n :
      mstep pid (sys m) s' -> qsteps (queue m) evs (mQueue (pool s')) ->
      Forall (fun e => manager_event e = true) evs ->
      joinable (mThreads (pool (sys m))) joined ->
      mThreads (pool s') = kept joined (mThreads (pool (sys m))) ++ replicate n Alive ->
      dstep m (Queued <$> evs) (mkMachine s' (processor m) (kept joined (hands m) ++ replicate n Starting))
  | d_begin m i curl d r :
      hands m !! i = Some Starting -> mThreads (pool (sys m)) !! i = Some Alive ->
      initCurl (processor m) true = Some curl ->
      dstep m [] (mkMachine (sys m) (processor m) (<[i := Idle (mkWorker (mkSender curl [] 0 0 []) d r)]> (hands m)))
  | d_lost m i p :
      hands m !! i = Some Starting -> initCurl (processor m) false = None -> lost i (pool (sys m)) = Some p ->
      dstep m [] (mkMachine (at_phase (manager (sys m)) p (sys m)) (processor m) (hands m))
  | d_take m i w x q p :
      hands m !! i = Some (Idle w) -> pop (queue m) = Some (x, q) ->
      work isPoison i (pool (sys m)) = Some p ->
      dstep m [Queued (EPop x)]
        (mkMachine (at_phase (manager (sys m)) p (sys m)) (processor m)
           (if isPoison x then hands m else <[i := Busy w x (Matching [] 0)]> (hands m)))
  | d_match m i w r found k p' matched :
      hands m !! i = Some (Busy w r (Matching found k)) -> match_one (processor m) r k = Some (p', matched) ->
      dstep m [] (mkMachine (sys m) p' (<[i := Busy w r (Matching (found ++ option_list matched) (S k))]> (hands m)))
  | d_matched m i w r found k :
      hands m !! i = Some (Busy w r (Matching found k)) -> length (destinations_of (processor m) r) = k ->
      dstep m [] (mkMachine (sys m) (processor m) (<[i := Busy w r (Marking found [] None)]> (hands m)))
  | d_log m i w r found read f g :
      hands m !! i = Some (Busy w r (Marking found read None)) -> found !! length read = Some f ->
      as_now (processor m) r f g ->
      dstep m [] (mkMachine (sys m) (processor m) (<[i := Busy w r (Marking found read (Some g))]> (hands m)))
  | d_pattern m i w r found read f g g' :
      hands m !! i = Some (Busy w r (Marking found read (Some g))) -> found !! length read = Some f ->
      as_now (processor m) r f g' ->
      dstep m [] (mkMachine (sys m) (processor m)
                    (<[i := Busy w r (Marking found (read ++ [(g, mMatch g')]) None)]> (hands m)))
  | d_send m i w r found read w' r' :
      hands m !! i = Some (Busy w r (Marking found read None)) -> length read = length found ->
      runFilters (processor m) found w (to_send_read (processor m) r read) = Ret (w', r') ->
      dstep m [Handled r w w'] (mkMachine (sys m) (processor m) (<[i := Idle w']> (hands m))).

Inductive dsteps : machine -> list deed -> machine -> Prop :=
  | dsteps_nil m : dsteps m [] m
  | dsteps_snoc m ds m1 d m2 : dsteps m ds m1 -> dstep m1 d m2 -> dsteps m (ds ++ d) m2.

(** A pool just started. *)
Definition begun (p : ThreadPool RequestInfo W) (w : W) (proc : RequestProcessor) (m : machine) : Prop :=
  sys m = started p w /\ processor m = proc /\
  hands m = replicate (length (mThreads (pool (sys m)))) Starting.

(** ** Reading a trace *)

Definition queue_events (ds : list deed) : list (event RequestInfo) :=
  omap (fun d => match d with Queued e => Some e | _ => None end) ds.

Definition handled (ds : list deed) : list RequestInfo :=
  omap (fun d => match d with Handled r _ _ => Some r | _ => None end) ds.

Definition requests (l : list RequestInfo) : list RequestInfo := List.filter (fun x => negb (isPoison x)) l.

Definition held (m : machine) : list RequestInfo := omap holding (hands m).

(** ** Lemmas *)

Lemma queue_events_app ds d : queue_events (ds ++ d) = queue_events ds ++ queue_events d.
Proof. apply omap_app. Qed.

Lemma handled_app ds d : handled (ds ++ d) = handled ds ++ handled d.
Proof. apply omap_app. Qed.

Lemma queue_events_queued evs : queue_events (Queued <$> evs) = evs.
Proof. unfold queue_events. induction evs as [|e evs IH]; [done|]. cbn. by rewrite IH. Qed.

Lemma handled_queued evs : handled (Queued <$> evs) = [].
Proof. unfold handled. by induction evs. Qed.

Lemma requests_app a b : requests (a ++ b) = requests a ++ requests b.
Proof. apply List.filter_app. Qed.

(** A list of events of the queue, then others. *)
Lemma qsteps_app (q q1 q2 : MultiThreadQueue RequestInfo) a b :
  qsteps q a q1 -> qsteps q1 b q2 -> qsteps q (a ++ b) q2.
Proof.
  intros Ha Hb. revert Ha. induction Hb as [q1|q1 b q2 e q3 _ IH He]; intros Ha; [by rewrite app_nil_r|].
  rewrite app_assoc. econstructor; [by apply IH|done].
Qed.

Lemma qsteps_one (q q' : MultiThreadQueue RequestInfo) e : qstep q e q' -> qsteps q [e] q'.
Proof. intros He. apply (qsteps_snoc _ [] q); [constructor|done]. Qed.

(** What each step does to the queue of the pool. *)
Lemma work_queue i (p p' : ThreadPool RequestInfo W) x q :
  work isPoison i p = Some p' -> pop (mQueue p) = Some (x, q) ->
  mQueue p' = q /\ mThreads p' = (if isPoison x then <[i := Done]> (mThreads p) else mThreads p) /\
  mThreads p !! i = Some Alive.
Proof.
  unfold work. intros Hw Hp. rewrite Hp in Hw. destruct (mThreads p !! i) as [[]|]; try done.
  injection Hw as <-. by destruct (isPoison x).
Qed.

(** The manager's steps are events of the queue it may make. *)
Lemma manager_events (s s' : system RequestInfo W) :
  isPoison (mPoisonItem (pool s)) = true -> mstep pid s s' ->
  exists evs, qsteps (mQueue (pool s)) evs (mQueue (pool s')) /\ Forall (fun e => manager_event e = true) evs.
Proof.
  intros Hpill Hm.
  assert (Hnone : forall q : MultiThreadQueue RequestInfo, exists evs, qsteps q evs q /\ Forall (fun e => manager_event e = true) evs)
    by (intros q; exists []; split; constructor).
  assert (Hpoison : forall p : ThreadPool RequestInfo W, isPoison (mPoisonItem p) = true ->
    exists evs, qsteps (mQueue p) evs (mQueue (poisonThread p)) /\ Forall (fun e => manager_event e = true) evs).
  { intros p Hp. eexists [_]. split; [apply qsteps_one; by constructor|]. by repeat constructor. }
  destruct Hm as [s|s n|s n f joined|s n f|s n|s|s i|s i|s joined]; try apply Hnone; [| |by apply Hpoison].
  - cbn. unfold adapt. case_match; [apply Hnone|]. case_match; [by apply Hpoison|apply Hnone].
  - unfold stats_step. case_match; [|apply Hnone]. unfold reportStats. repeat case_match. simplify_eq. cbn.
    eexists [_]. split; [apply qsteps_one; by econstructor|]. by repeat constructor.
Qed.

(** A hand that gets a request, or that had one. *)
Lemma held_insert i h h' x (l : list hand) :
  l !! i = Some h -> holding h = None -> holding h' = Some x ->
  omap holding (<[i := h']> l) ≡ₚ x :: omap holding l.
Proof.
  intros Hi Hn Hx. revert l Hi. induction i as [|i IH]; intros [|y l]; try done; cbn.
  - intros [= ->]. by rewrite Hn, Hx.
  - intros Hi. destruct (holding y); rewrite (IH l Hi); [apply Permutation_swap|done].
Qed.

Lemma held_clear i h h' x (l : list hand) :
  l !! i = Some h -> holding h = Some x -> holding h' = None ->
  omap holding l ≡ₚ x :: omap holding (<[i := h']> l).
Proof.
  intros Hi Hx Hn. rewrite <- (list_insert_id l i h Hi) at 1. rewrite <- (list_insert_insert_eq l i h h').
  apply (held_insert i h' h x); [|done..]. apply list_lookup_insert_eq. by eapply lookup_lt_Some.
Qed.

(** *** The handling of a request *)

(** The reading of a filter for the log gives that filter, but for its [mMatch]. *)
Definition read_of (f : tFilter) (e : tFilter * string) : Prop := same_filter (fst e) f.

(** What a worker has found is what it would have found alone. *)
Definition activity_ok (proc : RequestProcessor) (r : RequestInfo) (a : activity) : Prop :=
  match a with
  | Matching found k =>
      found = omap (fun e => matches_spec (mUrlCodec proc) (parsed proc r) (snd e)) (take k (destinations_of proc r)) /\
      (k <= length (destinations_of proc r))%nat
  | Marking found read half =>
      found = matched_filters proc r /\
      exists seen rest, found = seen ++ rest /\ Forall2 read_of seen read /\
        forall g, half = Some g -> exists f t, rest = f :: t /\ same_filter g f
  end.

Definition hand_ok (proc : RequestProcessor) (h : hand) : Prop :=
  match h with Busy _ r a => activity_ok proc r a | _ => True end.

(** A thread that has ended holds nothing. *)
Definition fits (proc : RequestProcessor) (t : tstate) (h : hand) : Prop :=
  (t = Done -> holding h = None) /\ hand_ok proc h.

(** Alone, a worker reads what it wrote. *)
Lemma addValidationHeadersRead_alone r l n k :
  addValidationHeadersRead r ((fun f => (f, mMatch f)) <$> l) n k = addValidationHeadersDup r l n k.
Proof.
  unfold addValidationHeadersRead. destruct l as [|f l]; [done|]. cbn [fmap list_fmap].
  unfold addValidationHeadersDup. cbn [foldl].
  match goal with |- context [foldl ?g ?a (_ <$> l)] => generalize a end. intros acc.
  assert (Hf : forall acc, foldl (fun '(log, out, separator) '(f, pattern) =>
      (log +:+ separator +:+ matchedText f, out ++ [("X-MATCHED-PATTERN"%string, pattern)], " AND "%string))
      acc ((fun f => (f, mMatch f)) <$> l)
    = foldl (fun '(log, out, separator) f =>
      (log +:+ separator +:+ matchedText f, out ++ [("X-MATCHED-PATTERN"%string, mMatch f)], " AND "%string)) acc l).
  { clear. induction l as [|f l IH]; intros [[log out] sep]; [done|]. cbn [fmap list_fmap foldl]. by rewrite IH. }
  rewrite Hf. by destruct (foldl _ acc l) as [[log out] sep].
Qed.

Lemma addValidationHeadersRead_keeps r l n k :
  let r' := addValidationHeadersRead r l n k in mHeadersIn r' = mHeadersIn r /\ mConf r' = mConf r.
Proof. unfold addValidationHeadersRead. destruct l; [done|]. by destruct (foldl _ _ _) as [[log out] sep]. Qed.

(** The destinations of a location in two states of the configuration. *)
Lemma config_destinations proc p r :
  same_config proc p ->
  parsed p r = parsed proc r /\ Forall2 dest_equiv (destinations_of p r) (destinations_of proc r) /\
  forall cbd, std_find (mConf r) (mCommands p) = Some cbd ->
    exists cbd0, std_find (mConf r) (mCommands proc) = Some cbd0 /\ Forall2 dest_equiv cbd cbd0.
Proof.
  intros [Hc Hd]. split; [unfold parsed; by rewrite Hc|]. specialize (Hd (mConf r)). unfold destinations_of.
  inversion Hd as [cbd cbd0 Hf E E0|E E0]; cbn [default from_option id]; (split; [done|]); [|done].
  intros cbd1 [= <-]. eauto.
Qed.

Lemma location_wf proc r cbd :
  processor_wf proc -> std_find (mConf r) (mCommands proc) = Some cbd -> destinations_wf cbd.
Proof.
  intros [_ Hall] (k & Hin & _)%std_find_In. rewrite Forall_forall in Hall. by apply (Hall (k, cbd)).
Qed.

(** The destinations of a location, replaced by others that differ in [mMatch] only. *)
Lemma set_destinations p conf cbd cbd' :
  processor_wf p -> std_find conf (mCommands p) = Some cbd -> Forall2 dest_equiv cbd' cbd ->
  let p' := set_mCommands (std_set conf cbd' (mCommands p)) p in processor_wf p' /\ same_config p p'.
Proof.
  intros [Hs Hw] Hf Heq. assert (Hcbd : destinations_wf cbd).
  { apply std_find_In in Hf as (k & Hin & _). rewrite Forall_forall in Hw. by apply (Hw (k, cbd)). }
  split; [split; cbn|split; [done|intros c; cbn [mCommands set_mCommands]]].
  - by apply std_modify_sorted.
  - apply Forall_modify; [done|by eapply destinations_wf_equiv|]. intros k c _ _. by eapply destinations_wf_equiv.
  - destruct (decide (c = conf)) as [->|Hne].
    + rewrite Hf. erewrite std_find_set_eq by done. by constructor.
    + unfold std_set. rewrite std_find_modify_ne by (done || congruence). reflexivity.
Qed.

(** One destination: the filter is the one its specification designates. *)
Lemma match_one_spec proc p r k p' matched :
  processor_wf p -> same_config proc p -> match_one p r k = Some (p', matched) ->
  processor_wf p' /\ same_config proc p' /\
  exists e, destinations_of proc r !! k = Some e /\
    matched = matches_spec (mUrlCodec proc) (parsed proc r) (snd e).
Proof.
  intros Hwf Hc Hm. destruct (config_destinations proc p r Hc) as (Hp & _ & Hd). unfold match_one in Hm.
  destruct (std_find (mConf r) (mCommands p)) as [cbd|] eqn:Hf; [cbn [mbind option_bind] in Hm|done].
  destruct (Hd cbd eq_refl) as (cbd0 & Hf0 & Heq).
  destruct ((cbd : list (string * Commands)) !! k) as [[d c]|] eqn:Hk; [cbn [mbind option_bind fst snd] in Hm|done].
  pose proof (location_wf p r cbd Hwf Hf) as [_ Hall]. rewrite Forall_forall in Hall.
  destruct (Hall (d, c) (list_elem_of_lookup_2 _ _ _ Hk)) as [Hs _ _ _ _ _]. cbn [snd] in Hs.
  destruct (matchesFilter_spec (mUrlCodec p) (parsed p r) c Hs) as [Hres He].
  destruct (matchesFilter _ _ c) as [c' f]. injection Hm as <- <-. cbn [fst snd] in Hres, He.
  assert (Hset : Forall2 dest_equiv (<[k:=(d, c')]> cbd) cbd).
  { rewrite <- (list_insert_id cbd k (d, c) Hk) at 2. apply Forall2_insert; [reflexivity|done]. }
  destruct (set_destinations p (mConf r) cbd _ Hwf Hf Hset) as [Hwf' Hc'].
  split; [exact Hwf'|]. split; [by etrans; [exact Hc|]|].
  destruct (Forall2_lookup_l _ _ _ _ _ Heq Hk) as ([d0 c0] & Hk0 & _ & Hcc). exists (d0, c0).
  unfold destinations_of. rewrite Hf0. split; [done|]. rewrite Hres, Hp, (proj1 Hc). cbn [snd] in *. by rewrite Hcc.
Qed.

Lemma match_one_total proc p r k :
  same_config proc p -> (k < length (destinations_of proc r))%nat -> is_Some (match_one p r k).
Proof.
  intros [_ Hd] Hk. specialize (Hd (mConf r)). unfold match_one, destinations_of in *.
  inversion Hd as [cbd cbd0 Hf E E0|E E0]; rewrite <- ?E, <- ?E0 in *; cbn [mbind option_bind default from_option id] in *;
    [|by apply Nat.nlt_0_r in Hk].
  apply Forall2_length in Hf. destruct (lookup_lt_is_Some_2 cbd k) as [e ->]; [lia|]. cbn.
  by destruct (matchesFilter _ _ _).
Qed.

(** A filter that was found is still in the configuration, with some [mMatch]. *)
Lemma as_now_exists proc p r f :
  processor_wf proc -> same_config proc p -> f ∈ matched_filters proc r -> exists g, as_now p r f g.
Proof.
  intros Hwf [_ Hd] Hf. unfold matched_filters, destinations_of in Hf. specialize (Hd (mConf r)).
  destruct (std_find (mConf r) (mCommands proc)) as [cbd0|] eqn:Hf0; [cbn in Hf|by apply elem_of_nil in Hf].
  pose proof (location_wf proc r cbd0 Hwf Hf0) as [Hs Hall]. inversion Hd as [cbd x Heq E|]; subst.
  apply list_elem_of_omap in Hf as ([d c0] & Hin & Hm). cbn [snd] in Hm. rewrite Forall_forall in Hall.
  pose proof (matched_destination _ _ _ _ _ (Hall _ Hin) Hm) as Hdest.
  pose proof (dest_equiv_find cbd cbd0 d Heq) as Hc. rewrite (std_find_elem d c0 cbd0 Hs Hin) in Hc.
  destruct (std_find d cbd) as [c|] eqn:Hfd; [|done]. destruct Hc as (HF & HR & _).
  apply matches_spec_sound in Hm as (_ & g0 & Hg0 & Hfg).
  assert (Hsame : exists g, (g ∈ snd <$> mFilters c \/ g ∈ mRawFilters c) /\ same_filter g g0).
  { destruct Hg0 as [Hg0|Hg0].
    - apply list_elem_of_fmap in Hg0 as ([k g1] & -> & Hg1).
      apply (list_elem_of_fmap_2 (prod_map id (set_mMatch EmptyString))) in Hg1. rewrite <- HF in Hg1.
      apply list_elem_of_fmap in Hg1 as ([k' g] & Hg & Hin').
      apply (f_equal snd) in Hg. exists g. split; [left|by symmetry].
      by apply (list_elem_of_fmap_2 snd) in Hin'.
    - apply (list_elem_of_fmap_2 (set_mMatch EmptyString)) in Hg0. rewrite <- HR in Hg0.
      apply list_elem_of_fmap in Hg0 as (g & Hg & Hin'). exists g. split; [by right|by symmetry]. }
  destruct Hsame as (g & Hg & Hsg). exists g, cbd, c. rewrite Hdest. split_and!; [done..|].
  unfold same_filter in *. rewrite Hsg, Hfg. done.
Qed.

(** Sending: [runFilters] returns, after the plan of these readings. *)
Lemma send_spec proc p r read w :
  processor_wf proc -> same_config proc p -> header_keys_ok r ->
  exists w' r', runFilters p (matched_filters proc r) w (to_send_read p r read) = Ret (w', r') /\
    follows (read_plan proc r read (draws w)) w w'.
Proof.
  intros Hwf Hc Hok. destruct (config_destinations proc p r Hc) as (Hp & Hdest & _).
  assert (Hto : to_send_read p r read = to_send_read proc r read).
  { unfold to_send_read. rewrite Hp.
    destruct (matched_equiv (mUrlCodec proc) (parsed proc r) _ _ Hdest) as (_ & -> & ->). done. }
  rewrite Hto. unfold read_plan. set (rs := to_send_read proc r read).
  destruct (addValidationHeadersRead_keeps (parsed proc r) read (N.of_nat (length (destinations_of proc r)))
    (filters_count (destinations_of proc r))) as [Hh Hconf]. fold (to_send_read proc r read) in Hh, Hconf. fold rs in Hh, Hconf.
  pose proof Hc as [Hcodec Hd]. specialize (Hd (mConf r)). unfold matched_filters, destinations_of in *.
  destruct (std_find (mConf r) (mCommands proc)) as [cbd0|] eqn:Hf0; cbn [default from_option id] in *.
  - inversion Hd as [cbd x Heq E|]; subst. rewrite <- Hcodec.
    destruct (runFilters_spec p cbd0 cbd (parsed proc r) rs cbd0 w rs) as (w' & r' & Hrun & _ & Hf); try done.
    + rewrite Hconf. by symmetry.
    + by eapply location_wf.
    + unfold header_keys_ok. by rewrite Hh.
    + exists w', r'. done.
  - exists w, rs. split; [done|]. exists [], []. rewrite app_nil_r, N.add_0_r. repeat split; constructor.
Qed.

(** *** Threads and hands *)

Lemma kept_idle proc joined threads hs :
  Forall2 (fits proc) threads hs -> joinable threads joined ->
  Forall2 (fits proc) (kept joined threads) (kept joined hs) /\ omap holding (kept joined hs) = omap holding hs.
Proof.
  intros Hf. revert joined. induction Hf as [|t h threads hs Hth _ IH]; intros joined Hj; inversion Hj as [|? j ? js Htj Hjs]; subst.
  { by split; [constructor|]. }
  destruct (IH js Hjs) as [H1 H2]. unfold kept in *. cbn [zip zip_with List.filter snd].
  destruct j; cbn [negb fmap list_fmap fst omap list_omap]; [|by split; [constructor|rewrite H2]].
  by rewrite (proj1 Hth (Htj eq_refl)).
Qed.

Lemma starting_idle proc n :
  Forall2 (fits proc) (replicate n Alive) (replicate n Starting) /\ omap holding (replicate n Starting) = [].
Proof. split; [by apply Forall2_replicate|]. by induction n. Qed.

(** ** The invariant *)

(** What a deed must be: each handling follows the plan of the configuration. *)
Definition deed_ok (proc : RequestProcessor) (d : deed) : Prop :=
  match d with
  | Handled r w w' => exists read, Forall2 read_of (matched_filters proc r) read /\
                        follows (read_plan proc r read (draws w)) w w'
  | Queued _ => True
  end.

Record machine_inv (p : ThreadPool RequestInfo W) (w0 : W) (proc : RequestProcessor) (ds : list deed) (m : machine) :
    Prop := {
  mi_run : rtc (pstep isPoison pid) (started p w0) (sys m);
  mi_queue : qsteps (mQueue (start p)) (queue_events ds) (queue m);
  mi_events : Forall (fun e => event_ok isPoison e = true) (queue_events ds);
  mi_hands : Forall2 (fits proc) (mThreads (pool (sys m))) (hands m);
  mi_start : processor_wf proc;
  mi_wf : processor_wf (processor m);
  mi_config : same_config proc (processor m);
  mi_headers : Forall header_keys_ok (requests (MultiThreadQueue.mQueue (queue m)) ++ held m);
  mi_balance : requests (queue_events ds ≫= popped) ≡ₚ handled ds ++ held m;
  mi_deeds : Forall (deed_ok proc) ds
}.

(** The parts that the queue decides, for any step that adds the events [evs] and keeps
    what the threads hold. *)
Lemma inv_queue p w0 proc ds m s' hs evs :
  machine_inv p w0 proc ds m -> rtc (pstep isPoison pid) (sys m) s' ->
  qsteps (queue m) evs (mQueue (pool s')) -> Forall (fun e => event_ok isPoison e = true) evs ->
  Forall2 (fits proc) (mThreads (pool s')) hs -> omap holding hs = held m ->
  requests (evs ≫= popped) = [] ->
  Forall header_keys_ok (requests (MultiThreadQueue.mQueue (mQueue (pool s')))) ->
  machine_inv p w0 proc (ds ++ (Queued <$> evs)) (mkMachine s' (processor m) hs).
Proof.
  intros [Hrun Hq Hev Hh Hwf0 Hwf Hc Hok Hbal Hds] Hs Hevs Hgood Hhs Hheld Hpop Hhead.
  split; cbn [sys processor hands queue]; try done.
  - by etrans.
  - rewrite queue_events_app, queue_events_queued. by eapply qsteps_app.
  - rewrite queue_events_app, queue_events_queued. by apply Forall_app.
  - apply Forall_app. apply Forall_app in Hok as [_ Hok]. split; [done|]. unfold held in *. cbn [hands]. by rewrite Hheld.
  - rewrite queue_events_app, queue_events_queued, handled_app, handled_queued, app_nil_r, bind_app, requests_app, Hpop, app_nil_r.
    unfold held in *. cbn [hands]. by rewrite Hheld.
  - apply Forall_app. split; [done|]. by apply Forall_fmap, Forall_true.
Qed.

(** The requests of the queue after a step of the manager are among those before. *)
Lemma manager_requests (q q' : MultiThreadQueue RequestInfo) evs :
  qsteps q evs q' -> Forall (fun e => manager_event e = true) evs ->
  Forall (fun e => event_ok isPoison e = true) evs /\ requests (evs ≫= popped) = [] /\
  (requests (MultiThreadQueue.mQueue q')) `sublist_of` (requests (MultiThreadQueue.mQueue q)).
Proof.
  intros Hq Hm.
  assert (Hok : Forall (fun e => event_ok isPoison e = true) evs)
    by (eapply Forall_impl; [exact Hm|]; by intros []).
  assert (Hpop : evs ≫= popped = []) by (clear Hq Hok; induction Hm as [|e evs He _ IH]; [done|]; destruct e; try done; cbn; by rewrite IH).
  assert (Hpush : evs ≫= pushed = []) by (clear Hq Hpop Hok; induction Hm as [|e evs He _ IH]; [done|]; destruct e; try done; cbn; by rewrite IH).
  split_and!; [done|by rewrite Hpop|].
  destruct (fifo_spec isPoison q q' evs Hq Hok) as [Hf _]. rewrite Hpop, Hpush, app_nil_r in Hf. exact Hf.
Qed.

Lemma inv_request p w0 proc ds m x :
  machine_inv p w0 proc ds m -> isPoison x = false -> header_keys_ok x ->
  machine_inv p w0 proc (ds ++ [Queued (EPush x (negb (full (queue m))))])
    (mkMachine (at_phase (manager (sys m)) (push x (pool (sys m))) (sys m)) (processor m) (hands m)).
Proof.
  intros HI Hx Hok. pose proof (mi_headers _ _ _ _ _ HI) as [Hq _]%Forall_app.
  apply (inv_queue p w0 proc ds m _ _ [_] HI); try done.
  - apply rtc_once, p_step. by apply t_push.
  - apply qsteps_one. by constructor.
  - repeat constructor. cbn. by rewrite Hx.
  - apply HI.
  - cbn. unfold MultiThreadQueue.push. destruct (full _); [done|]. cbn. rewrite requests_app.
    apply Forall_app. split; [done|]. cbn. rewrite Hx. by repeat constructor.
Qed.

Lemma inv_manager p w0 proc ds m s' evs joined n :
  machine_inv p w0 proc ds m -> mstep pid (sys m) s' -> qsteps (queue m) evs (mQueue (pool s')) ->
  Forall (fun e => manager_event e = true) evs -> joinable (mThreads (pool (sys m))) joined ->
  mThreads (pool s') = kept joined (mThreads (pool (sys m))) ++ replicate n Alive ->
  machine_inv p w0 proc (ds ++ (Queued <$> evs))
    (mkMachine s' (processor m) (kept joined (hands m) ++ replicate n Starting)).
Proof.
  intros HI Hm Hq Hev Hj Hth. pose proof (mi_headers _ _ _ _ _ HI) as [Hok _]%Forall_app.
  destruct (manager_requests _ _ _ Hq Hev) as (Hgood & Hpop & Hsub).
  destruct (kept_idle proc joined _ _ (mi_hands _ _ _ _ _ HI) Hj) as [Hk Hheld].
  destruct (starting_idle proc n) as [Hn Hnone].
  apply (inv_queue p w0 proc ds m _ _ evs HI); try done.
  - apply rtc_once, p_step. by apply t_manager.
  - rewrite Hth. by apply Forall2_app.
  - by rewrite omap_app, Hnone, app_nil_r, Hheld.
  - apply Forall_forall. intros r Hr. rewrite Forall_forall in Hok. apply Hok. by eapply elem_of_sublist.
Qed.

Lemma inv_take p w0 proc ds m i w x q pl :
  machine_inv p w0 proc ds m -> hands m !! i = Some (Idle w) -> pop (queue m) = Some (x, q) ->
  work isPoison i (pool (sys m)) = Some pl ->
  machine_inv p w0 proc (ds ++ [Queued (EPop x)])
    (mkMachine (at_phase (manager (sys m)) pl (sys m)) (processor m)
       (if isPoison x then hands m else <[i := Busy w x (Matching [] 0)]> (hands m))).
Proof.
  intros HI Hi Hp Hw. destruct (work_queue _ _ _ _ _ Hw Hp) as (Hq & Hth & Hal).
  pose proof (mi_headers _ _ _ _ _ HI) as [Hok Hheld]%Forall_app. rewrite (pop_Some _ _ _ Hp) in Hok.
  change (x :: MultiThreadQueue.mQueue q) with ([x] ++ MultiThreadQueue.mQueue q) in Hok.
  rewrite requests_app in Hok. apply Forall_app in Hok as [Hx Hok].
  assert (Hrun : rtc (pstep isPoison pid) (sys m) (at_phase (manager (sys m)) pl (sys m)))
    by (apply rtc_once, p_step; by eapply t_work).
  assert (Hpop : qsteps (queue m) [EPop x] (mQueue pl)) by (rewrite Hq; apply qsteps_one; by constructor).
  destruct (isPoison x) eqn:Ex.
  - apply (inv_queue p w0 proc ds m _ _ [EPop x] HI); try done.
    + by repeat constructor.
    + cbn. rewrite Hth, <- (list_insert_id _ _ _ Hi). by apply Forall2_insert; [apply HI|].
    + cbn. by rewrite Ex.
    + cbn. by rewrite Hq.
  - pose proof (held_insert i (Idle w) (Busy w x (Matching [] 0)) x _ Hi eq_refl eq_refl) as Hins.
    cbn in Hx. rewrite Ex in Hx. destruct HI as [Hr Hqs Hev Hh Hwf0 Hwf Hc _ Hbal Hds].
    split; cbn [sys processor hands]; try done.
    + by etrans.
    + rewrite queue_events_app. by eapply qsteps_app.
    + rewrite queue_events_app. apply Forall_app. split; [done|]. by repeat constructor.
    + cbn [pool at_phase]. rewrite Hth, <- (list_insert_id _ _ _ Hal). apply Forall2_insert; [done|].
      split; [done|]. split; [done|apply Nat.le_0_l].
    + unfold queue, held. cbn [sys pool at_phase hands]. rewrite Hq, Hins. apply Forall_app. split; [done|].
      by constructor; [inversion Hx|].
    + rewrite queue_events_app, bind_app, requests_app, handled_app. unfold held in *. cbn [hands].
      rewrite Hins, Hbal. cbn. rewrite Ex, !app_nil_r. cbn.
      by rewrite <- app_assoc, (Permutation_app_comm _ [x]).
    + apply Forall_app. split; [done|]. by repeat constructor.
Qed.

(** A thread that begins, or is lost: no deed, and nothing is held. *)
Lemma omap_none {X Y} (f : X -> option Y) i h h' (l : list X) :
  l !! i = Some h -> f h = None -> f h' = None -> omap f (<[i := h']> l) = omap f l.
Proof.
  revert i. induction l as [|x l IH]; intros [|i]; try done; cbn; [intros [= ->] -> ->; done|].
  intros Hi Hh Hh'. destruct (f x); [f_equal|]; by apply IH.
Qed.

Lemma inv_silent p w0 proc ds m s' hs :
  machine_inv p w0 proc ds m -> rtc (pstep isPoison pid) (sys m) s' -> mQueue (pool s') = queue m ->
  Forall2 (fits proc) (mThreads (pool s')) hs -> omap holding hs = held m ->
  machine_inv p w0 proc (ds ++ []) (mkMachine s' (processor m) hs).
Proof.
  intros HI Hs Hq Hh Hheld. apply (inv_queue p w0 proc ds m s' hs [] HI Hs); try done.
  - rewrite Hq. constructor.
  - rewrite Hq. pose proof (mi_headers _ _ _ _ _ HI) as [Hok _]%Forall_app. exact Hok.
Qed.

Lemma inv_begin p w0 proc ds m i w :
  machine_inv p w0 proc ds m -> hands m !! i = Some Starting -> mThreads (pool (sys m)) !! i = Some Alive ->
  machine_inv p w0 proc (ds ++ []) (mkMachine (sys m) (processor m) (<[i := Idle w]> (hands m))).
Proof.
  intros HI Hi Hal. apply (inv_silent p w0 proc ds m _ _ HI); try done.
  - rewrite <- (list_insert_id _ _ _ Hal). by apply Forall2_insert; [apply HI|].
  - by apply (omap_none _ i Starting).
Qed.

Lemma inv_lost p w0 proc ds m i pl :
  machine_inv p w0 proc ds m -> hands m !! i = Some Starting -> lost i (pool (sys m)) = Some pl ->
  machine_inv p w0 proc (ds ++ []) (mkMachine (at_phase (manager (sys m)) pl (sys m)) (processor m) (hands m)).
Proof.
  intros HI Hi Hl. pose proof (p_lost isPoison pid (sys m) i pl Hl) as Hs. apply rtc_once in Hs.
  revert Hl Hs. unfold lost. case_match; [|done]. case_match; [|done]. intros [= <-] Hs.
  apply (inv_silent p w0 proc ds m _ _ HI); try done. cbn [at_phase pool mThreads set_mThreads].
  rewrite <- (list_insert_id _ _ _ Hi). by apply Forall2_insert; [apply HI|].
Qed.

(** A hand that holds the same after a step. *)
Lemma held_same i h h' (l : list hand) :
  l !! i = Some h -> holding h' = holding h -> omap holding (<[i := h']> l) = omap holding l.
Proof.
  revert i. induction l as [|x l IH]; intros [|i]; try done; cbn; [intros [= ->] ->; done|].
  intros Hi Hh. destruct (holding x); [f_equal|]; by apply (IH i).
Qed.

(** What a thread holds, and where it is with it. *)
Lemma held_ok p w0 proc ds m i w r a :
  machine_inv p w0 proc ds m -> hands m !! i = Some (Busy w r a) -> header_keys_ok r /\ activity_ok proc r a.
Proof.
  intros [_ _ _ Hh _ _ _ Hok _ _] Hi. split.
  - rewrite Forall_forall in Hok. apply Hok, elem_of_app. right. apply list_elem_of_omap.
    exists (Busy w r a). split; [by eapply list_elem_of_lookup_2|done].
  - by destruct (Forall2_lookup_r _ _ _ _ _ Hh Hi) as (t & _ & _ & Ha).
Qed.

(** A step of the handling: the configuration is the same but for [mMatch], and the hand
    goes on as it would alone. *)
Lemma inv_busy p w0 proc ds m i w r a p' a' :
  machine_inv p w0 proc ds m -> hands m !! i = Some (Busy w r a) ->
  processor_wf p' -> same_config proc p' -> activity_ok proc r a' ->
  machine_inv p w0 proc (ds ++ []) (mkMachine (sys m) p' (<[i := Busy w r a']> (hands m))).
Proof.
  intros [Hr Hqs Hev Hh Hwf0 _ _ Hok Hbal Hds] Hi Hwf Hc Ha. rewrite app_nil_r.
  pose proof (held_same i _ (Busy w r a') (hands m) Hi eq_refl) as Hheld.
  split; cbn [sys processor hands]; try done; unfold held in *; cbn [hands]; rewrite ?Hheld; try done.
  destruct (Forall2_lookup_r _ _ _ _ _ Hh Hi) as (t & Ht & Hidle & _).
  rewrite <- (list_insert_id _ _ _ Ht). by apply Forall2_insert.
Qed.

Lemma inv_match p w0 proc ds m i w r found k p' matched :
  machine_inv p w0 proc ds m -> hands m !! i = Some (Busy w r (Matching found k)) ->
  match_one (processor m) r k = Some (p', matched) ->
  machine_inv p w0 proc (ds ++ [])
    (mkMachine (sys m) p' (<[i := Busy w r (Matching (found ++ option_list matched) (S k))]> (hands m))).
Proof.
  intros HI Hi Hm. destruct (held_ok _ _ _ _ _ _ _ _ _ HI Hi) as (_ & -> & Hk).
  destruct (match_one_spec proc _ _ _ _ _ (mi_wf _ _ _ _ _ HI) (mi_config _ _ _ _ _ HI) Hm) as (Hwf & Hc & e & He & ->).
  apply (inv_busy _ _ _ _ _ _ _ _ _ _ _ HI Hi Hwf Hc). split; [|by eapply lookup_lt_Some].
  rewrite (take_S_r _ _ e He), omap_app. f_equal; cbn; by destruct (matches_spec _ _ _).
Qed.

Lemma inv_matched p w0 proc ds m i w r found :
  machine_inv p w0 proc ds m ->
  hands m !! i = Some (Busy w r (Matching found (length (destinations_of (processor m) r)))) ->
  machine_inv p w0 proc (ds ++ []) (mkMachine (sys m) (processor m) (<[i := Busy w r (Marking found [] None)]> (hands m))).
Proof.
  intros HI Hi. destruct (held_ok _ _ _ _ _ _ _ _ _ HI Hi) as (_ & -> & _).
  destruct (config_destinations proc (processor m) r (mi_config _ _ _ _ _ HI)) as (_ & Hd & _).
  apply (inv_busy _ _ _ _ _ _ _ _ _ _ _ HI Hi); [apply HI..|]. rewrite (Forall2_length _ _ _ Hd), firstn_all.
  split; [done|]. exists [], (matched_filters proc r). split; [done|]. by split; [constructor|].
Qed.

Lemma activity_log proc r found read f g :
  activity_ok proc r (Marking found read None) -> found !! length read = Some f -> same_filter g f ->
  activity_ok proc r (Marking found read (Some g)).
Proof.
  intros (-> & seen & rest & Hs & Hf & _) Hl Hg. split; [done|]. exists seen, rest. split_and!; [done..|].
  intros ? [= <-]. rewrite Hs, <- (Forall2_length _ _ _ Hf), lookup_app_r, Nat.sub_diag in Hl by lia.
  destruct rest as [|f' t]; [done|]. injection Hl as ->. eauto.
Qed.

Lemma activity_pattern proc r found read g s :
  activity_ok proc r (Marking found read (Some g)) -> activity_ok proc r (Marking found (read ++ [(g, s)]) None).
Proof.
  intros (-> & seen & rest & Hs & Hf & Hg). split; [done|]. destruct (Hg g eq_refl) as (f & t & -> & Hsame).
  exists (seen ++ [f]), t. rewrite <- app_assoc. split; [done|]. split; [|done].
  apply Forall2_app; [done|]. by repeat constructor.
Qed.

Lemma inv_send p w0 proc ds m i w r found read w' r' :
  machine_inv p w0 proc ds m -> hands m !! i = Some (Busy w r (Marking found read None)) ->
  length read = length found ->
  runFilters (processor m) found w (to_send_read (processor m) r read) = Ret (w', r') ->
  machine_inv p w0 proc (ds ++ [Handled r w w']) (mkMachine (sys m) (processor m) (<[i := Idle w']> (hands m))).
Proof.
  intros HI Hi Hlen Hrun. destruct (held_ok _ _ _ _ _ _ _ _ _ HI Hi) as (Hk & -> & seen & rest & Hs & Hread & _).
  destruct (send_spec proc (processor m) r read w (mi_start _ _ _ _ _ HI) (mi_config _ _ _ _ _ HI) Hk) as (w1 & r1 & Hrun' & Hf).
  rewrite Hrun in Hrun'. injection Hrun' as <- <-.
  pose proof (held_clear i (Busy w r _) (Idle w') r _ Hi eq_refl eq_refl) as Hins.
  destruct HI as [Hr Hqs Hev Hh Hwf0 Hwf Hc Hok Hbal Hds].
  split; cbn [sys processor hands]; try done.
  - by rewrite queue_events_app, app_nil_r.
  - by rewrite queue_events_app, app_nil_r.
  - destruct (Forall2_lookup_r _ _ _ _ _ Hh Hi) as (t & Ht & Hidle).
    rewrite <- (list_insert_id _ _ _ Ht). by apply Forall2_insert.
  - unfold held in *. rewrite Hins in Hok. apply Forall_app in Hok as [Hq Hok]. apply Forall_app.
    split; [done|]. by inversion Hok.
  - rewrite queue_events_app, app_nil_r, Hbal, handled_app. unfold held in *. cbn [hands]. rewrite Hins.
    cbn. by rewrite <- app_assoc.
  - apply Forall_app. split; [done|]. constructor; [|done]. exists read. split; [|done].
    assert (Hnil : rest = []).
    { apply (f_equal length) in Hs. rewrite length_app, (Forall2_length _ _ _ Hread) in Hs. apply nil_length_inv. lia. }
    by rewrite Hs, Hnil, app_nil_r.
Qed.

Lemma machine_inv_start p w0 proc m :
  fresh p -> processor_wf proc -> begun p w0 proc m -> machine_inv p w0 proc [] m.
Proof.
  intros (Hth & _ & Hq) Hwf (Hs & Hp & Hh). destruct (starting_idle proc (length (mThreads (pool (sys m))))) as [Hi Hnone].
  rewrite <- Hh in Hi, Hnone.
  assert (Hthreads : mThreads (pool (sys m)) = replicate (length (mThreads (pool (sys m)))) Alive).
  { rewrite Hs. unfold started. cbn [pool]. unfold start. rewrite newThreads_iter. cbn [mThreads set_mManagerThread set_mThreads set_mQueue set_mRunning].
    by rewrite Hth, length_app, length_replicate. }
  split; rewrite ?Hp; try done.
  - by rewrite Hs.
  - unfold queue. rewrite Hs. constructor.
  - by rewrite Hthreads.
  - unfold queue, held. rewrite Hs, Hnone, app_nil_r. unfold started. cbn [pool]. unfold start. rewrite newThreads_iter.
    cbn. by rewrite Hq.
  - unfold held. by rewrite Hnone.
Qed.

Lemma machine_inv_step p w0 proc ds m d m' :
  machine_inv p w0 proc ds m -> dstep m d m' -> machine_inv p w0 proc (ds ++ d) m'.
Proof.
  intros HI Hd. destruct Hd as [m x|m|m s' evs joined n|m i curl d r|m i pl|m i w x q pl|m i w r found k p' matched Hi Hm
    |m i w r found k Hi <-|m i w r found read f g Hi Hl Hn|m i w r found read f g g' Hi Hl Hn|m i w r found read w' r' Hi Hlen Hrun].
  - by apply inv_request.
  - apply (inv_queue p w0 proc ds m _ _ [EStop] HI); try done.
    + apply rtc_once, p_step. by apply t_stop.
    + apply qsteps_one. by constructor.
    + by repeat constructor.
    + apply HI.
    + pose proof (mi_headers _ _ _ _ _ HI) as [Hq _]%Forall_app. exact Hq.
  - by eapply inv_manager.
  - by apply inv_begin.
  - by eapply inv_lost.
  - by eapply inv_take.
  - by eapply inv_match.
  - by apply inv_matched.
  - eapply (inv_busy _ _ _ _ _ _ _ _ _ _ _ HI Hi); [apply HI..|]. destruct (held_ok _ _ _ _ _ _ _ _ _ HI Hi) as [_ Ha].
    destruct Hn as (cbd & c & _ & _ & _ & Hs). by eapply activity_log.
  - eapply (inv_busy _ _ _ _ _ _ _ _ _ _ _ HI Hi); [apply HI..|]. destruct (held_ok _ _ _ _ _ _ _ _ _ HI Hi) as [_ Ha].
    by eapply activity_pattern.
  - by eapply inv_send.
Qed.

Lemma machine_inv_steps p w0 proc m0 ds m :
  machine_inv p w0 proc [] m0 -> dsteps m0 ds m -> machine_inv p w0 proc ds m.
Proof.
  intros H0 Hs. induction Hs as [m|m0 ds m1 d m2 _ IH Hd]; [done|]. by eapply machine_inv_step; [apply IH|].
Qed.

(** *** A request in hand can always be handled *)

Lemma dsteps_cons m d m1 ds m2 : dstep m d m1 -> dsteps m1 ds m2 -> dsteps m (d ++ ds) m2.
Proof.
  intros Hd Hs. induction Hs as [m1|m1 ds m3 d' m2 _ IH Hd'].
  - apply (dsteps_snoc m [] m d m1 (dsteps_nil m)) in Hd. by rewrite app_nil_r.
  - rewrite app_assoc. econstructor; [by apply IH|done].
Qed.

(** By the steps of its own worker: from where it is, the request can be handled. *)
Definition can_handle (m : machine) (i : nat) (w : Worker) (r : RequestInfo) : Prop :=
  exists w' m', dsteps m [Handled r w w'] m' /\ hands m' !! i = Some (Idle w').

Lemma can_handle_step m i w r m1 : dstep m [] m1 -> can_handle m1 i w r -> can_handle m i w r.
Proof.
  intros Hd (w' & m' & Hs & Hi). exists w', m'. split; [|done]. by apply (dsteps_cons m [] m1 [Handled r w w']).
Qed.

Lemma marking_handled p w0 proc ds m i w r found read half n :
  machine_inv p w0 proc ds m -> hands m !! i = Some (Busy w r (Marking found read half)) ->
  (length found = length read + n)%nat -> can_handle m i w r.
Proof.
  revert ds m read half. induction n as [|n IH]; intros ds m read half HI Hi Hn;
    destruct (held_ok _ _ _ _ _ _ _ _ _ HI Hi) as (Hok & Hfound & seen & rest & Hs & Hread & Hhalf).
  - pose proof (Forall2_length _ _ _ Hread) as Hlen. pose proof (f_equal length Hs) as Hls. rewrite length_app in Hls.
    destruct half as [g|].
    { destruct (Hhalf g eq_refl) as (f & t & -> & _). cbn in Hls. lia. }
    destruct (send_spec proc (processor m) r read w (mi_start _ _ _ _ _ HI) (mi_config _ _ _ _ _ HI) Hok)
      as (w' & r' & Hrun & _). rewrite <- Hfound in Hrun.
    exists w', (mkMachine (sys m) (processor m) (<[i := Idle w']> (hands m))). split.
    + apply (dsteps_snoc m [] m); [constructor|]. eapply d_send; [done|lia|done].
    + apply list_lookup_insert_eq. by eapply lookup_lt_Some.
  - destruct (lookup_lt_is_Some_2 found (length read)) as [f Hf]; [lia|].
    destruct (as_now_exists proc (processor m) r f (mi_start _ _ _ _ _ HI) (mi_config _ _ _ _ _ HI)) as [g Hg].
    { rewrite <- Hfound. by eapply list_elem_of_lookup_2. }
    assert (Hsecond : forall ds m g0, machine_inv p w0 proc ds m -> as_now (processor m) r f g ->
      hands m !! i = Some (Busy w r (Marking found read (Some g0))) -> can_handle m i w r).
    { intros ds' m' g0 HI' Hg' Hi'. pose proof (d_pattern m' i w r found read f g0 g Hi' Hf Hg') as Hd.
      eapply can_handle_step; [exact Hd|]. eapply IH; [eapply machine_inv_step; [exact HI'|exact Hd]| |].
      - apply list_lookup_insert_eq. by eapply lookup_lt_Some.
      - rewrite length_app. cbn. lia. }
    destruct half as [g0|]; [by eapply Hsecond|].
    pose proof (d_log m i w r found read f g Hi Hf Hg) as Hd. eapply can_handle_step; [exact Hd|].
    eapply Hsecond; [eapply machine_inv_step; [exact HI|exact Hd]|exact Hg|].
    apply list_lookup_insert_eq. by eapply lookup_lt_Some.
Qed.

Lemma matching_handled p w0 proc ds m i w r found k n :
  machine_inv p w0 proc ds m -> hands m !! i = Some (Busy w r (Matching found k)) ->
  (length (destinations_of proc r) = k + n)%nat -> can_handle m i w r.
Proof.
  revert ds m found k. induction n as [|n IH]; intros ds m found k HI Hi Hn.
  - destruct (config_destinations proc (processor m) r (mi_config _ _ _ _ _ HI)) as (_ & Hd%Forall2_length & _).
    assert (Hk : length (destinations_of (processor m) r) = k) by (rewrite Hd, Hn; apply Nat.add_0_r).
    pose proof (d_matched m i w r found k Hi Hk) as Hstep. eapply can_handle_step; [exact Hstep|].
    pose proof (machine_inv_step _ _ _ _ _ _ _ HI Hstep) as HI'.
    eapply (marking_handled _ _ _ _ _ _ _ _ found [] None (length found) HI'); [|done].
    apply list_lookup_insert_eq. by eapply lookup_lt_Some.
  - destruct (match_one_total proc (processor m) r k (mi_config _ _ _ _ _ HI)) as [[p' matched] Hm]; [lia|].
    pose proof (d_match m i w r found k p' matched Hi Hm) as Hstep. eapply can_handle_step; [exact Hstep|].
    eapply (IH _ _ _ (S k)); [eapply machine_inv_step; [exact HI|exact Hstep]| |lia].
    apply list_lookup_insert_eq. by eapply lookup_lt_Some.
Qed.

Lemma busy_handled p w0 proc ds m i w r a :
  machine_inv p w0 proc ds m -> hands m !! i = Some (Busy w r a) -> can_handle m i w r.
Proof.
  intros HI Hi. destruct (held_ok _ _ _ _ _ _ _ _ _ HI Hi) as [_ Ha]. destruct a as [found k|found read half].
  - destruct Ha as [_ Hk]. apply (matching_handled p w0 proc ds m i w r found k (length (destinations_of proc r) - k) HI Hi). lia.
  - destruct Ha as (_ & seen & rest & -> & Hf%Forall2_length & _).
    apply (marking_handled p w0 proc ds m i w r (seen ++ rest) read half (length rest) HI Hi). rewrite length_app. lia.
Qed.

(** Collecting nobody. *)
Lemma kept_all {X} (l : list X) : kept (replicate (length l) false) l = l.
Proof. unfold kept. induction l as [|x l IH]; [done|]. cbn. by rewrite IH. Qed.

Lemma joinable_none threads : joinable threads (replicate (length threads) false).
Proof. unfold joinable. induction threads; cbn; constructor; done. Qed.

(** Every step of the manager is one of the machine. *)
Lemma manager_moves m s' :
  isPoison (mPoisonItem (pool (sys m))) = true -> length (hands m) = length (mThreads (pool (sys m))) ->
  mstep pid (sys m) s' -> exists ds' m', dstep m ds' m' /\ sys m' = s'.
Proof.
  intros Hpill Hlen Hm. destruct (manager_events _ _ Hpill Hm) as (evs & Hq & Hev).
  assert (Hgo : forall joined n, joinable (mThreads (pool (sys m))) joined ->
    mThreads (pool s') = kept joined (mThreads (pool (sys m))) ++ replicate n Alive ->
    exists ds' m', dstep m ds' m' /\ sys m' = s').
  { intros joined n Hj Hth. eexists _, _. split; [by eapply d_manager|done]. }
  pose (none := replicate (length (mThreads (pool (sys m)))) false).
  assert (Hsame : mThreads (pool s') = mThreads (pool (sys m)) -> exists ds' m', dstep m ds' m' /\ sys m' = s').
  { intros Hth. apply (Hgo none 0%nat); [apply joinable_none|].
    unfold none. by rewrite kept_all, app_nil_r. }
  destruct Hm as [s|s n|s n f joined Hph Hj|s n f|s n|s|s i|s i|s joined Hph Hj]; try (by apply Hsame).
  - apply (Hgo joined 0%nat); [done|]. by rewrite app_nil_r.
  - assert (Hcase : mThreads (adapt f (pool s)) = mThreads (pool s) \/
                    mThreads (adapt f (pool s)) = mThreads (pool s) ++ [Alive])
      by (unfold adapt; repeat case_match; [by right|by left..]).
    destruct Hcase as [Hth|Hth]; [by apply Hsame|].
    apply (Hgo none 1%nat); [apply joinable_none|]. unfold none. by rewrite kept_all.
  - apply Hsame. unfold stats_step. case_match; [|done]. unfold reportStats. repeat case_match. by simplify_eq.
  - apply (Hgo joined 0%nat); [done|]. by rewrite app_nil_r.
Qed.

(** ** The property *)

(** [C6] The whole pool, whatever the order in which its threads proceed, between the
    destinations of a request and between the two readings of a filter too. It is a run of
    the pool of threads, lost workers included; the requests taken by workers are,
    in the order of their arrival, those accepted, and none is missing but those that a pill
    pushed out of a full queue; each request taken is either in the hands of one worker or
    has been handled exactly once; what is in hand can always be handled, by steps of its
    own worker. A request is handled by the plan of the configuration, whatever the
    workers do meanwhile: the same filters, as many transfers to the same destinations of
    the request with the same substitutions; but for the texts of the filters' [mMatch] in
    [X-MATCHED-PATTERN] and [X_DUP_LOG], that the workers share without a lock, and which
    are what the filter held when it was read: the text may be one that another request
    matched ([pattern_of_another]). *)
Theorem requests_handled_once p (w0 : W) proc m0 ds m :
  fresh p -> processor_wf proc -> begun p w0 proc m0 -> dsteps m0 ds m ->
  let evs := queue_events ds in
  let waiting := MultiThreadQueue.mQueue (queue m) in
  rtc (pstep isPoison pid) (started p w0) (sys m) /\
  (requests ((evs ≫= popped) ++ waiting) `sublist_of` requests (evs ≫= pushed) /\
   (evs ≫= evicted = [] -> requests ((evs ≫= popped) ++ waiting) = requests (evs ≫= pushed))) /\
  requests (evs ≫= popped) ≡ₚ handled ds ++ held m /\
  (forall r w w', Handled r w w' ∈ ds ->
     exists read, Forall2 read_of (matched_filters proc r) read /\
       follows (dup_plan (mUrlCodec proc) (parsed proc r) (to_send_read proc r read) (destinations_of proc r) (draws w)) w w') /\
  (forall i w r a, hands m !! i = Some (Busy w r a) ->
     exists w' m', dsteps m [Handled r w w'] m' /\ hands m' !! i = Some (Idle w')).
Proof.
  intros Hf Hwf Hb Hs. pose proof (machine_inv_steps _ _ _ _ _ _ (machine_inv_start _ _ _ _ Hf Hwf Hb) Hs) as HI.
  cbv zeta. split; [apply HI|]. split; [|split_and!; try apply HI].
  - pose proof (fifo_spec isPoison _ _ _ (mi_queue _ _ _ _ _ HI) (mi_events _ _ _ _ _ HI)) as Hfifo.
    assert (Hq : MultiThreadQueue.mQueue (mQueue (start p)) = []).
    { unfold start. rewrite newThreads_iter. apply Hf. }
    rewrite Hq in Hfifo. exact Hfifo.
  - intros r w w' Hin. pose proof (mi_deeds _ _ _ _ _ HI) as Hd. rewrite Forall_forall in Hd. exact (Hd _ Hin).
  - intros i w r a Hi. by eapply busy_handled.
Qed.
End Workers.

(** *** Two requests for one filter *)

Module WorkersExamples.
Import Reference FilterExamples CurlExamples ApplicationScope DuplicationType.

#[local] Existing Instance Percent.percent_url.
#[local] Existing Instance ProcessorExamples.draws_7.
#[local] Existing Instance ProcessorExamples.always_running.

#[local] Instance literal_eq_dec : EqDecision literal.
Proof. solve_decision. Defined.

#[local] Instance filter_eq_dec : EqDecision tFilter.
Proof. change (@regex literal_regex) with literal in *. solve_decision. Defined.

(** Runs by script: the number is that of the worker. *)
Inductive action : Type :=
  | Request (x : RequestInfo) | Begin (i : nat) | Take (i : nat) | Match (i : nat) | Matched (i : nat)
  | Log (i : nat) | Pattern (i : nat) | Send (i : nat).

(** The first raw filter of the destination, if it is the one sought. *)
Definition raw_now (p : RequestProcessor) (r : RequestInfo) (f : tFilter) : option tFilter :=
  cbd ← std_find (mConf r) (mCommands p);
  c ← std_find (mDestination f) cbd;
  g ← head (mRawFilters c);
  if bool_decide (set_mMatch EmptyString g = set_mMatch EmptyString f) then Some g else None.

Lemma raw_now_ok p r f g : raw_now p r f = Some g -> as_now p r f g.
Proof.
  unfold raw_now, as_now. destruct (std_find (mConf r) (mCommands p)) as [cbd|]; [cbn [mbind option_bind]|done].
  destruct (std_find (mDestination f) cbd) as [c|] eqn:Hc; [cbn [mbind option_bind]|done].
  destruct (mRawFilters c) as [|g' l] eqn:Hl; [done|]. cbn [head mbind option_bind].
  case_bool_decide as Hs; [|done]. intros [= ->]. exists cbd, c. rewrite Hl. split_and!; [done..|right; left|exact Hs].
Qed.

Definition act (a : action) (m : machine (W := unit)) : option (list deed * machine) :=
  let busy i h := mkMachine (sys m) (processor m) (<[i := h]> (hands m)) in
  match a with
  | Request x =>
      if isPoison x || negb (forallb (fun v => header_key_ok (fst v)) (mHeadersIn x)) then None
      else Some ([Queued (EPush x (negb (full (queue m))))],
        mkMachine (at_phase (manager (sys m)) (push x (pool (sys m))) (sys m)) (processor m) (hands m))
  | Begin i =>
      match hands m !! i, mThreads (pool (sys m)) !! i, initCurl (processor m) true with
      | Some Starting, Some Alive, Some curl => Some ([], busy i (Idle (mkWorker (mkSender curl [] 0 0 []) 0 0)))
      | _, _, _ => None
      end
  | Take i =>
      match hands m !! i, pop (queue m), work isPoison i (pool (sys m)) with
      | Some (Idle w), Some (x, _), Some p =>
          Some ([Queued (EPop x)], mkMachine (at_phase (manager (sys m)) p (sys m)) (processor m)
             (if isPoison x then hands m else <[i := Busy w x (Matching [] 0)]> (hands m)))
      | _, _, _ => None
      end
  | Match i =>
      match hands m !! i with
      | Some (Busy w r (Matching found k)) =>
          '(p', matched) ← match_one (processor m) r k;
          Some ([], mkMachine (sys m) p' (<[i := Busy w r (Matching (found ++ option_list matched) (S k))]> (hands m)))
      | _ => None
      end
  | Matched i =>
      match hands m !! i with
      | Some (Busy w r (Matching found k)) =>
          if (length (destinations_of (processor m) r) =? k)%nat then Some ([], busy i (Busy w r (Marking found [] None)))
          else None
      | _ => None
      end
  | Log i =>
      match hands m !! i with
      | Some (Busy w r (Marking found read None)) =>
          f ← found !! length read; g ← raw_now (processor m) r f;
          Some ([], busy i (Busy w r (Marking found read (Some g))))
      | _ => None
      end
  | Pattern i =>
      match hands m !! i with
      | Some (Busy w r (Marking found read (Some g))) =>
          f ← found !! length read; g' ← raw_now (processor m) r f;
          Some ([], busy i (Busy w r (Marking found (read ++ [(g, mMatch g')]) None)))
      | _ => None
      end
  | Send i =>
      match hands m !! i with
      | Some (Busy w r (Marking found read None)) =>
          if (length read =? length found)%nat then
            match runFilters (processor m) found w (to_send_read (processor m) r read) with
            | Ret (w', _) => Some ([Handled r w w'], busy i (Idle w'))
            | Throw _ => None
            end
          else None
      | _ => None
      end
  end.

Lemma act_dstep a m d m' : act a m = Some (d, m') -> dstep 1 m d m'.
Proof.
  unfold act. intros Ha. destruct a as [x|i|i|i|i|i|i|i]; [|destruct (hands m !! i) as [[|w|w r [found k|found read [g|]]]|] eqn:Hi; try done..].
  - destruct (isPoison x) eqn:Hx; [done|]. destruct (forallb _ _) eqn:Hk; [|done]. injection Ha as <- <-.
    apply d_request; [done|]. unfold header_keys_ok. by apply (Forall_of_forallb (fun v => header_key_ok (fst v))).
  - destruct (mThreads _ !! i) as [[]|] eqn:Ht; try done. destruct (initCurl _ true) as [curl|] eqn:Hc; [|done].
    injection Ha as <- <-. by apply d_begin.
  - destruct (pop (queue m)) as [[x q]|] eqn:Hp; [|done]. destruct (work _ _ _) as [p|] eqn:Hw; [|done].
    injection Ha as <- <-. by eapply d_take.
  - destruct (match_one _ _ _) as [[p' matched]|] eqn:Hm; [|done]. injection Ha as <- <-. by eapply d_match.
  - destruct (Nat.eqb_spec (length (destinations_of (processor m) r)) k) as [Hk|]; [|done].
    injection Ha as <- <-. by eapply d_matched.
  - destruct (found !! length read) as [f|] eqn:Hf; [cbn [mbind option_bind] in Ha|done].
    destruct (raw_now _ _ _) as [g|] eqn:Hg; [|done]. injection Ha as <- <-. by eapply d_log, raw_now_ok.
  - destruct (found !! length read) as [f|] eqn:Hf; [cbn [mbind option_bind] in Ha|done].
    destruct (raw_now _ _ _) as [g'|] eqn:Hg; [|done]. injection Ha as <- <-. by eapply d_pattern, raw_now_ok.
  - destruct (Nat.eqb_spec (length read) (length found)) as [Hl|]; [|done].
    destruct (runFilters _ _ _ _) as [[w' r']|] eqn:Hr; [|done]. injection Ha as <- <-. by eapply d_send.
Qed.

Fixpoint replay (l : list action) (m : machine (W := unit)) : option (list deed * machine) :=
  match l with
  | [] => Some ([], m)
  | a :: l => '(d, m1) ← act a m; '(ds, m2) ← replay l m1; Some (d ++ ds, m2)
  end.

Lemma replay_ok l m ds m' : replay l m = Some (ds, m') -> dsteps 1 m ds m'.
Proof.
  revert m ds. induction l as [|a l IH]; intros m ds; cbn [replay]; [intros [= <- <-]; constructor|].
  destruct (act a m) as [[d m1]|] eqn:Ha; [|done]. cbn [mbind option_bind].
  destruct (replay l m1) as [[ds1 m2]|] eqn:Hr; [|done]. intros [= <- <-].
  eapply dsteps_cons; [by eapply act_dstep|by apply IH].
Qed.

(** Two threads; one destination, with a raw filter on the path that matches in any case,
    and that sends the answer and the pattern along. *)
Definition pool2 : ThreadPool RequestInfo unit := setQueue 1 2 (setThreads 2 3 (newThreadPool (RequestInfo_poison 0))).

Definition path_filter : tFilter :=
  {| mScope := PATH; mRegex := {| pattern := "/path"; icase := true |}; mDestination := "beta:80";
     mErrorLogBodyMatch := regex_default; mDuplicationType := REQUEST_WITH_ANSWER; mFilterType := REGULAR;
     mMatch := "" |}.

Definition proc : RequestProcessor :=
  set_mCommands [(Some 7, [("beta:80"%string, set_mRawFilters [path_filter] newCommands)])] newRequestProcessor.

Lemma proc_wf : processor_wf proc.
Proof. repeat constructor. Qed.

Definition query (path : string) : RequestInfo :=
  set_mConf (Some 7) (set_mHeadersIn [("Accept", "text/html")]%string
    (RequestInfo_of_request 0 "id" "" "GET" path "x=1" (Some EmptyString))).

Definition at_start : machine (W := unit) := mkMachine (started pool2 tt) proc [Starting; Starting].

Lemma begun_here : begun pool2 tt proc at_start.
Proof. by split. Qed.

(** The second worker matches its request before the first one reads the pattern of its own. *)
Definition mixed : list action :=
  [Begin 0; Begin 1; Request (query "/path"); Request (query "/PATH"); Take 0; Take 1;
   Match 0; Matched 0; Match 1; Log 0; Pattern 0; Send 0].

Definition deeds : list deed := default [] (fst <$> replay mixed at_start).
Definition after : machine (W := unit) := default at_start (snd <$> replay mixed at_start).

Lemma some_parts {X Y} (o : option (X * Y)) x y :
  (if o then true else false) = true -> o = Some (default x (fst <$> o), default y (snd <$> o)).
Proof. by destruct o as [[]|]. Qed.

Lemma steps_here : dsteps 1 at_start deeds after.
Proof. apply (replay_ok mixed), some_parts. vm_compute. reflexivity. Qed.

(** The headers sent with the requests that were handled. *)
Definition patterns_sent (ds : list deed) : list (string * list string) :=
  omap (fun d => match d with
                 | Handled r w w' => Some (mPath r,
                     List.filter (starts_with "X-MATCHED-PATTERN")
                       (transfers (sender w') ≫= fun t => eff_headers (effective (fst t))))
                 | Queued _ => None
                 end) ds.

(** The request for [/path] is sent with the pattern of the request for [/PATH], which is
    still in the hands of the other worker. *)
Example pattern_of_another :
  patterns_sent deeds = [("/path", ["X-MATCHED-PATTERN: /PATH"])]%string /\ (mPath <$> held after) = ["/PATH"%string].
Proof. by vm_compute. Qed.

Lemma requests_handled_once_witness :
  (fresh pool2 /\ processor_wf proc /\ begun pool2 tt proc at_start /\ dsteps 1 at_start deeds after) /\
  requests (queue_events deeds ≫= popped) ≡ₚ handled deeds ++ held after.
Proof.
  assert (Hf : fresh pool2) by (by repeat split).
  split; [exact (conj Hf (conj proc_wf (conj begun_here steps_here)))|].
  exact (proj1 (proj2 (proj2 (requests_handled_once (HB := boost_string_laws) 1 pool2 tt proc at_start deeds after
    Hf proc_wf begun_here steps_here)))).
Defined.
End WorkersExamples.
