(* ===== verification/ModDup.v ===== *)
(** * The directives of mod_dup

    mod_dup.cc: the functions Apache calls for the directives of the
    configuration, and [init], [childInit], [cleanUp]. A directive
    returns [None] (the null pointer) or an error message. The state is the two
    globals and the configuration object the directive applies to; the stat
    providers of the pool act on the counters of the processor ([Sender]).
    [gCmds] is the table of the directives with their numbers of arguments, and
    [load_config] the configuration Apache builds with it, a directory object per
    location. When a regular expression is rejected the commands are left as they
    were: at worst the code has created an empty entry for a destination. *)
From stdpp Require Import gmap.
From S2P Require Import Prelude CxxString StdMap Boost RequestCommon RequestInfo UrlCodec.
From S2P Require Import DupConf Filters Substitution CurlCall RequestProcessor MultiThreadQueue ThreadPool.
Local Open Scope N_scope.

Import ApplicationScope DuplicationType.

Section ModDup.
Context `{BoostRegex} {B : BoostString} {HB : BoostStringLaws B} {A : ApacheUrl}.
Local Existing Instance B.

Definition Pool : Type := ThreadPool RequestInfo Sender.

Record Globals : Type := mkGlobals {
  gProcessor : option RequestProcessor;
  gThreadPool : option Pool
}.

(** What a directive sees: the globals, [pCfg] (its address and contents, if not
    null), [pParams->path], and whether mod_rewrite is loaded. *)
Record Directive : Type := mkDirective {
  globals : Globals;
  pCfg : option (N * DupConf);
  params_path : string;
  mod_rewrite_loaded : bool
}.

Definition set_globals (g : Globals) (d : Directive) : Directive :=
  {| globals := g; pCfg := pCfg d; params_path := params_path d;
     mod_rewrite_loaded := mod_rewrite_loaded d |}.

Definition on_conf (f : DupConf -> DupConf) (d : Directive) : Directive :=
  {| globals := globals d; pCfg := (fun '(a, c) => (a, f c)) <$> pCfg d;
     params_path := params_path d; mod_rewrite_loaded := mod_rewrite_loaded d |}.

Definition result : Type := Directive * option string.

(** ** init *)

Definition POISON_REQUEST : RequestInfo := RequestInfo_poison 0.

Definition timeout_stat (s : Sender) : Sender * string :=
  let '(s, n) := getTimeoutCount s in (s, cast_string (Z.of_N n)).

Definition duplicated_stat (s : Sender) : Sender * string :=
  let '(s, n) := getDuplicatedCount s in (s, cast_string (Z.of_N n)).

Definition init (g : Globals) : Globals :=
  {| gProcessor := Some newRequestProcessor;
     gThreadPool := Some (addStat "#DupReq" duplicated_stat
                            (addStat "#TmOut" timeout_stat (newThreadPool POISON_REQUEST))) |}.

(** [if (!gProcessor) init();] and [if (!gThreadPool) init();] *)
Definition need_processor (g : Globals) : Globals :=
  match gProcessor g with None => init g | Some _ => g end.

Definition need_pool (g : Globals) : Globals :=
  match gThreadPool g with None => init g | Some _ => g end.

(** [gProcessor->f()], [gThreadPool->f()]: the pointer is set. *)
Definition on_processor (f : RequestProcessor -> RequestProcessor) (g : Globals) : Globals :=
  {| gProcessor := f <$> gProcessor g; gThreadPool := gThreadPool g |}.

Definition on_pool (f : Pool -> Pool) (g : Globals) : Globals :=
  {| gProcessor := gProcessor g; gThreadPool := f <$> gThreadPool g |}.

(** ** Server directives *)

Definition setName (pName : option string) (d : Directive) : result :=
  match pName with
  | Some n =>
      if str_empty n then (d, Some "Missing program name"%string)
      else (set_globals (on_pool (setProgramName n) (need_pool (globals d))) d, None)
  | None => (d, Some "Missing program name"%string)
  end.

Definition setUrlCodec (pUrlCodec : option string) (d : Directive) : result :=
  match pUrlCodec with
  | Some n =>
      if str_empty n then (d, Some "Missing url codec style"%string)
      else (set_globals (on_processor (RequestProcessor.setUrlCodec n) (need_processor (globals d))) d,
            None)
  | None => (d, Some "Missing url codec style"%string)
  end.

Definition invalid_threads : string := "Invalid value(s) for minimum and maximum number of threads.".
Definition invalid_queue : string := "Invalid value(s) for minimum and maximum queue size.".

Definition setThreads (pMin pMax : string) (d : Directive) : result :=
  match cast_size_t pMin, cast_size_t pMax with
  | Some lMin, Some lMax =>
      if lMax <? lMin then (d, Some invalid_threads)
      else (set_globals (on_pool (ThreadPool.setThreads lMin lMax) (need_pool (globals d))) d, None)
  | _, _ => (d, Some invalid_threads)
  end.

Definition setTimeout (pTimeout : string) (d : Directive) : result :=
  match cast_unsigned pTimeout with
  | Some lTimeout =>
      (set_globals (on_processor (RequestProcessor.setTimeout lTimeout) (need_processor (globals d))) d,
       None)
  | None => (d, Some "Invalid value(s) for timeout."%string)
  end.

Definition setQueue (pMin pMax : string) (d : Directive) : result :=
  match cast_size_t pMin, cast_size_t pMax with
  | Some lMin, Some lMax =>
      if lMax <? lMin then (d, Some invalid_queue)
      else (set_globals (on_pool (ThreadPool.setQueue lMin lMax) (need_pool (globals d))) d, None)
  | _, _ => (d, Some invalid_queue)
  end.

(** ** Location directives *)

Definition no_conf : string := "No per_dir conf defined. This should never happen!".

Definition setActive (d : Directive) : result :=
  match pCfg d with
  | None => (d, Some no_conf)
  | Some (_, lConf) =>
      let d := match dirName lConf with
               | None => on_conf (set_dirName (Some (params_path d))) d
               | Some _ => d
               end in
      if mod_rewrite_loaded d then (d, None)
      else (d, Some "'mod_rewrite' is not loaded, Enable mod_rewrite to use mod_dup"%string)
  end.

(** [lErrorMsg = setActive(...); if (lErrorMsg) return lErrorMsg;] and the
    configuration object, which is not null afterwards. *)
Definition when_active (d : Directive) (k : Directive -> N -> DupConf -> result) : result :=
  match setActive d with
  | (d, Some lErrorMsg) => (d, Some lErrorMsg)
  | (d, None) => match pCfg d with Some (addr, conf) => k d addr conf | None => (d, None) end
  end.

Definition bad_percentage : string :=
  "Duplication percentage value not valid: must be an integer between 0 and 10000".

Definition setDestination (pDestination duplicationPercentage : option string) (d : Directive) : result :=
  when_active d (fun d addr _ =>
    let d := set_globals (need_processor (globals d)) d in
    match pDestination with
    | Some dest =>
        if str_empty dest then (d, Some "Missing destination argument"%string) else
        let d := on_conf (set_currentDupDestination dest) d in
        let store (perc : N) : result :=
          (set_globals (on_processor
             (setDestinationDuplicationPercentage (Some addr) dest perc) (globals d)) d, None) in
        match duplicationPercentage with
        | None => store 100
        | Some s =>
            match cast_unsigned s with
            | None => (d, Some ("Duplication percentage value not valid: " +:+ s))
            | Some perc => if 10000 <? perc then (d, Some bad_percentage) else store perc
            end
        end
    | None => (d, Some "Missing destination argument"%string)
    end).

Definition setApplicationScope (pAppScope : string) (d : Directive) : result :=
  when_active d (fun d _ _ =>
    let d := set_globals (need_processor (globals d)) d in
    match ApplicationScope.stringToEnum pAppScope with
    | Ret scope => (on_conf (set_currentApplicationScope scope) d, None)
    | Throw _ => (d, Some ApplicationScope.c_ERROR_ON_STRING_VALUE)
    end).

(** A call of the processor that may throw; [handler] is the text the catch
    clauses return. *)
Definition on_processor_try (f : RequestProcessor -> outcome RequestProcessor)
    (handler : exn -> string) (d : Directive) : result :=
  match gProcessor (globals d) with
  | None => (d, None)
  | Some p =>
      match f p with
      | Ret p => (set_globals (on_processor (fun _ => p) (globals d)) d, None)
      | Throw e => (d, Some (handler e))
      end
  end.

Definition setRawSubstitute (pMatch pReplace : string) (d : Directive) : result :=
  when_active d (fun d addr conf =>
    let d := set_globals (need_processor (globals d)) d in
    if str_empty (currentDupDestination conf)
    then (d, Some "a DupDestination is required before a DupRawSubstitute"%string)
    else on_processor_try (addRawSubstitution pMatch pReplace (Some addr) conf)
           (fun _ => "Invalid regular expression in substitution definition."%string) d).

Definition setSubstitute (pField pMatch pReplace : string) (d : Directive) : result :=
  when_active d (fun d addr conf =>
    let d := set_globals (need_processor (globals d)) d in
    if str_empty (currentDupDestination conf)
    then (d, Some "a DupDestination is required before a DupSubstitute"%string)
    else on_processor_try (addSubstitution pField pMatch pReplace (Some addr) conf)
           (fun _ => "Invalid regular expression in substitution definition."%string) d).

Definition setSynchronous (d : Directive) : result :=
  match pCfg d with
  | None => (d, Some no_conf)
  | Some _ => (on_conf (set_synchronous true) d, None)
  end.

Definition setDuplicationType (pDupType : string) (d : Directive) : result :=
  when_active d (fun d _ _ =>
    match DuplicationType.stringToEnum pDupType with
    | Ret t => (on_conf (setCurrentDuplicationType t) d, None)
    | Throw _ => (d, Some DuplicationType.c_ERROR_ON_STRING_VALUE)
    end).

(** The assertion on [pCfg] holds: Apache passes the object of the directory. *)
Definition setErrorLogBodyMatch (pMatch : string) (d : Directive) : result :=
  match pCfg d with
  | None => (d, None)
  | Some (_, conf) =>
      (on_conf (fun c => fst (DupConf.setErrorLogBodyMatch pMatch c)) d,
       snd (DupConf.setErrorLogBodyMatch pMatch conf))
  end.

Definition filter_error (e : exn) : string :=
  match e with
  | BadExpression => "Invalid regular expression in filter definition."
  | _ => "This filter can never match with the current DupApplicationScope, it needs BODY|QUERY_STRING|HEADER"
  end.

Definition _setFilter (pField pFilter : string) (fType : eFilterTypes) (d : Directive) : result :=
  when_active d (fun d addr conf =>
    let d := set_globals (need_processor (globals d)) d in
    if str_empty (currentDupDestination conf)
    then (d, Some "a DupDestination is required before a filter"%string)
    else on_processor_try (addFilter pField pFilter (Some addr) conf fType) filter_error d).

Definition setFilter (pField pFilter : string) : Directive -> result := _setFilter pField pFilter REGULAR.
Definition setPreventFilter (pField pFilter : string) : Directive -> result :=
  _setFilter pField pFilter PREVENT_DUPLICATION.

Definition _setRawFilter (pExpression : string) (fType : eFilterTypes) (d : Directive) : result :=
  when_active d (fun d addr conf =>
    let d := set_globals (need_processor (globals d)) d in
    if str_empty (currentDupDestination conf)
    then (d, Some "a DupDestination is required before a RawFilter"%string)
    else on_processor_try (addRawFilter pExpression (Some addr) conf fType)
           (fun _ => "Invalid regular expression in filter definition."%string) d).

Definition setRawFilter (pExpression : string) : Directive -> result := _setRawFilter pExpression REGULAR.
Definition setRawPreventFilter (pExpression : string) : Directive -> result :=
  _setRawFilter pExpression PREVENT_DUPLICATION.

(** ** The child process *)

(** [childInit] starts the pool; [cleanUp] stops it (the manager is joined, see
    ThreadPool) and deletes both objects. *)
Definition childInit (g : Globals) : Globals := on_pool start g.

Definition cleanUp (g : Globals) : Globals := {| gProcessor := None; gThreadPool := None |}.

(** ** The table of the directives *)

Definition gCmds (name : string) (args : list string) : option (Directive -> result) :=
  match args with
  | [] =>
      if String.eqb name "DupSync" then Some setSynchronous
      else if String.eqb name "Dup" then Some setActive
      else None
  | [a] =>
      if String.eqb name "DupName" then Some (setName (Some a))
      else if String.eqb name "DupUrlCodec" then Some (setUrlCodec (Some a))
      else if String.eqb name "DupTimeout" then Some (setTimeout a)
      else if String.eqb name "DupDuplicationType" then Some (setDuplicationType a)
      else if String.eqb name "DupDestination" then Some (setDestination (Some a) None)
      else if String.eqb name "DupApplicationScope" then Some (setApplicationScope a)
      else if String.eqb name "DupRawFilter" then Some (setRawFilter a)
      else if String.eqb name "DupRawPreventFilter" then Some (setRawPreventFilter a)
      else if String.eqb name "DupErrorLogBodyMatch" then Some (setErrorLogBodyMatch a)
      else None
  | [a; b] =>
      if String.eqb name "DupThreads" then Some (setThreads a b)
      else if String.eqb name "DupQueue" then Some (setQueue a b)
      else if String.eqb name "DupDestination" then Some (setDestination (Some a) (Some b))
      else if String.eqb name "DupFilter" then Some (setFilter a b)
      else if String.eqb name "DupPreventFilter" then Some (setPreventFilter a b)
      else if String.eqb name "DupRawSubstitute" then Some (setRawSubstitute a b)
      else None
  | [a; b; c] =>
      if String.eqb name "DupSubstitute" then Some (setSubstitute a b c) else None
  | _ => None
  end.

(** ** A configuration *)

(** The object of a directory, made by [createDirConfig] on its first use. *)
Definition createDirConfig : DupConf := newDupConf.

(** A line of the configuration: the address and path of its location, the
    directive and its arguments. *)
Record line : Type := { l_addr : N; l_path : string; l_name : string; l_args : list string }.

Record server : Type := { sv_globals : Globals; sv_confs : gmap N DupConf }.

Definition load_line (rewrite : bool) (sv : server) (l : line) : server + string :=
  match gCmds (l_name l) (l_args l) with
  | None => inr "Invalid command"%string
  | Some f =>
      let conf := default createDirConfig (sv_confs sv !! l_addr l) in
      let '(d, err) := f {| globals := sv_globals sv; pCfg := Some (l_addr l, conf);
                            params_path := l_path l; mod_rewrite_loaded := rewrite |} in
      match err with
      | Some msg => inr msg
      | None =>
          inl {| sv_globals := globals d;
                 sv_confs := <[l_addr l := match pCfg d with Some (_, c) => c | None => conf end]>
                               (sv_confs sv) |}
      end
  end.

Fixpoint load_config (rewrite : bool) (sv : server) (lines : list line) : server + string :=
  match lines with
  | [] => inl sv
  | l :: rest =>
      match load_line rewrite sv l with
      | inr msg => inr msg
      | inl sv => load_config rewrite sv rest
      end
  end.

Definition no_server : server :=
  {| sv_globals := {| gProcessor := None; gThreadPool := None |}; sv_confs := ∅ |}.

(** ** What a configuration guarantees *)

(** A destination has a name and a percentage of at most 10000. *)
Definition destination_ok (e : string * Commands) : Prop :=
  fst e <> EmptyString /\ mDuplicationPercentage (snd e) <= 10000.

Record processor_ok (p : RequestProcessor) : Prop := {
  po_wf : processor_wf p;
  po_dest : Forall (fun e => Forall destination_ok (snd e)) (mCommands p)
}.

Record pool_ok (p : Pool) : Prop := {
  po_fresh : fresh p;
  po_poison : isPoison (mPoisonItem p) = true;
  po_threads : mMinThreads p <= mMaxThreads p;
  po_queue : mMinQueued p <= mMaxQueued p
}.

(** Both objects exist, or none. *)
Definition globals_ok (g : Globals) : Prop :=
  match gProcessor g, gThreadPool g with
  | None, None => True
  | Some p, Some t => processor_ok p /\ pool_ok t
  | _, _ => False
  end.

Lemma init_ok g : globals_ok (init g).
Proof. split; [split; [by repeat constructor|constructor]|]. split; [done|done|done|done]. Qed.

Lemma need_processor_ok g : globals_ok g -> globals_ok (need_processor g).
Proof. unfold need_processor. destruct (gProcessor g); [done|]. intros _. apply init_ok. Qed.

Lemma need_pool_ok g : globals_ok g -> globals_ok (need_pool g).
Proof. unfold need_pool. destruct (gThreadPool g); [done|]. intros _. apply init_ok. Qed.

Lemma on_processor_ok f g :
  (forall p, processor_ok p -> processor_ok (f p)) -> globals_ok g -> globals_ok (on_processor f g).
Proof.
  unfold globals_ok, on_processor. intros Hf. cbn.
  destruct (gProcessor g), (gThreadPool g); cbn; try done. intros []. auto.
Qed.

Lemma on_pool_ok f g :
  (forall p, pool_ok p -> pool_ok (f p)) -> globals_ok g -> globals_ok (on_pool f g).
Proof.
  unfold globals_ok, on_pool. intros Hf. cbn.
  destruct (gProcessor g), (gThreadPool g); cbn; try done. intros []. auto.
Qed.

Lemma at_destination_ok addr dest f p :
  dest <> EmptyString ->
  (forall c, mDuplicationPercentage c <= 10000 -> mDuplicationPercentage (f c) <= 10000) ->
  Forall (fun e => Forall destination_ok (snd e)) (mCommands p) ->
  Forall (fun e => Forall destination_ok (snd e)) (mCommands (at_destination addr dest f p)).
Proof.
  intros Hd Hf Hp. cbn.
  assert (Hcbd : forall cbd, Forall destination_ok cbd ->
                   Forall destination_ok (std_modify newCommands f dest cbd)).
  { intros cbd Hc. apply Forall_modify; [done| |].
    - split; [done|]. cbn. apply Hf. cbn. lia.
    - intros k v _ [Hk Hv]. split; [done|]. by apply Hf. }
  apply Forall_modify; [done|apply Hcbd; constructor|]. intros k v _. apply Hcbd.
Qed.

(** The calls of the processor, on a destination with a name. *)
Lemma config_do_ok addr conf call p p' :
  currentDupDestination conf <> EmptyString ->
  match call with SetPercentage n => n <= 10000 | _ => True end ->
  config_do addr conf call p = Ret p' -> processor_ok p -> processor_ok p'.
Proof.
  intros Hd Hn Hdo [Hwf Hdest]. split; [by eapply config_do_wf|].
  destruct call; cbn in Hdo; try (by injection Hdo as <-).
  - unfold addFilter in Hdo. case_match; [done|].
    destruct (newFilter _ _ _ _ _ _); cbn in Hdo; [|done]. injection Hdo as <-.
    by apply at_destination_ok.
  - unfold addRawFilter in Hdo. destruct (newFilter _ _ _ _ _ _); cbn in Hdo; [|done].
    injection Hdo as <-. by apply at_destination_ok.
  - unfold addSubstitution in Hdo. destruct (newSubstitute _ _ _); cbn in Hdo; [|done].
    injection Hdo as <-. by apply at_destination_ok.
  - unfold addRawSubstitution in Hdo. destruct (newSubstitute _ _ _); cbn in Hdo; [|done].
    injection Hdo as <-. by apply at_destination_ok.
  - injection Hdo as <-. by apply at_destination_ok.
Qed.

(** ** Each directive keeps it *)

Definition dir_ok (d : Directive) : Prop := globals_ok (globals d).

Lemma setActive_globals d : globals (fst (setActive d)) = globals d.
Proof. unfold setActive. destruct (pCfg d) as [[a c]|]; [|done]. by destruct (dirName c), (mod_rewrite_loaded _). Qed.

Lemma when_active_ok d k :
  (forall d addr conf, dir_ok d -> dir_ok (fst (k d addr conf))) ->
  dir_ok d -> dir_ok (fst (when_active d k)).
Proof.
  unfold when_active, dir_ok. intros Hk Hd. pose proof (setActive_globals d) as Ha.
  destruct (setActive d) as [d' [m|]]; cbn [fst] in *; [by rewrite Ha|].
  destruct (pCfg d') as [[a c]|]; [apply Hk|]; by rewrite ?Ha; cbn; rewrite ?Ha.
Qed.

Lemma with_processor_ok d : dir_ok d -> dir_ok (set_globals (need_processor (globals d)) d).
Proof. apply need_processor_ok. Qed.

(** A guarded call of the processor. *)
Lemma guarded_call_ok addr conf call handler msg d :
  match call with SetPercentage _ => False | _ => True end ->
  dir_ok d ->
  dir_ok (fst (let d := set_globals (need_processor (globals d)) d in
               if str_empty (currentDupDestination conf) then (d, Some msg)
               else on_processor_try (config_do (Some addr) conf call) handler d)).
Proof.
  intros Hcall Hd%with_processor_ok. cbv zeta.
  destruct (str_empty (currentDupDestination conf)) eqn:E; [done|].
  assert (Hne : currentDupDestination conf <> EmptyString) by (by intros H0; rewrite H0 in E).
  unfold on_processor_try. revert Hd. unfold dir_ok. set (g := need_processor (globals d)).
  cbn [globals set_globals]. intros Hg.
  destruct (gProcessor g) as [p|] eqn:Ep; [|done].
  destruct (config_do (Some addr) conf call p) as [p'|e] eqn:Edo; [|done].
  cbn [fst globals set_globals]. unfold globals_ok, on_processor in *. cbn. rewrite Ep in *. cbn.
  destruct (gThreadPool g); [|done]. destruct Hg as [Hp Ht]. split; [|done].
  eapply config_do_ok; [exact Hne| |exact Edo|exact Hp]. by destruct call.
Qed.

Lemma setThreads_pool_ok lo hi (p : Pool) :
  lo <= hi -> pool_ok p -> pool_ok (ThreadPool.setThreads lo hi p).
Proof. intros Hle []. by split. Qed.

Lemma setQueue_pool_ok lo hi (p : Pool) :
  lo <= hi -> pool_ok p -> pool_ok (ThreadPool.setQueue lo hi p).
Proof. intros Hle []. by split. Qed.

Lemma setDestination_ok dest perc d : dir_ok d -> dir_ok (fst (setDestination dest perc d)).
Proof.
  intros Hd. apply when_active_ok; [|done]. intros d1 addr conf Hd1%with_processor_ok. cbv zeta.
  destruct dest as [dest|]; [|done]. destruct (str_empty dest) eqn:Ed; [done|].
  assert (Hstore : forall n d2, dir_ok d2 -> n <= 10000 ->
    dir_ok (set_globals (on_processor (setDestinationDuplicationPercentage (Some addr) dest n)
              (globals d2)) d2)).
  { intros n d2 Hd2 Hn. apply on_processor_ok; [|done]. intros p [Hwf Hp].
    split; [apply at_destination_wf; [|done]; by intros c []|].
    apply at_destination_ok; [by intros ->|done|done]. }
  destruct perc as [s|]; [|apply Hstore; [done|lia]].
  destruct (cast_unsigned s) as [n|]; [|done]. destruct (N.ltb_spec 10000 n); [done|].
  by apply Hstore.
Qed.

Lemma directive_ok name args f d :
  gCmds name args = Some f -> dir_ok d -> dir_ok (fst (f d)).
Proof.
  intros Hf Hd. unfold gCmds in Hf.
  destruct args as [|a [|b [|c [|? ?]]]]; repeat case_match; try done; injection Hf as <-.
  - unfold setSynchronous. by case_match.
  - unfold dir_ok. by rewrite setActive_globals.
  - unfold setName. case_match; [done|]. apply on_pool_ok; [|by apply need_pool_ok]. by intros p [].
  - unfold setUrlCodec. case_match; [done|]. apply on_processor_ok; [|by apply need_processor_ok].
    by intros p [].
  - unfold setTimeout. case_match; [|done]. apply on_processor_ok; [|by apply need_processor_ok].
    by intros p [].
  - apply when_active_ok; [|done]. intros d1 addr conf Hd1. by case_match.
  - by apply setDestination_ok.
  - apply when_active_ok; [|done]. intros d1 addr conf Hd1%with_processor_ok. cbv zeta. by case_match.
  - apply when_active_ok; [|done]. intros d1 addr conf Hd1.
    by apply (guarded_call_ok addr conf (AddRawFilter a REGULAR)).
  - apply when_active_ok; [|done]. intros d1 addr conf Hd1.
    by apply (guarded_call_ok addr conf (AddRawFilter a PREVENT_DUPLICATION)).
  - unfold setErrorLogBodyMatch. by case_match; [case_match|].
  - unfold setThreads. repeat case_match; try done. apply on_pool_ok; [|by apply need_pool_ok].
    intros p. apply setThreads_pool_ok. by apply N.ltb_ge.
  - unfold setQueue. repeat case_match; try done. apply on_pool_ok; [|by apply need_pool_ok].
    intros p. apply setQueue_pool_ok. by apply N.ltb_ge.
  - by apply setDestination_ok.
  - apply when_active_ok; [|done]. intros d1 addr conf Hd1.
    by apply (guarded_call_ok addr conf (AddFilter a b REGULAR)).
  - apply when_active_ok; [|done]. intros d1 addr conf Hd1.
    by apply (guarded_call_ok addr conf (AddFilter a b PREVENT_DUPLICATION)).
  - apply when_active_ok; [|done]. intros d1 addr conf Hd1.
    by apply (guarded_call_ok addr conf (AddRawSubstitution a b)).
  - apply when_active_ok; [|done]. intros d1 addr conf Hd1.
    by apply (guarded_call_ok addr conf (AddSubstitution a b c)).
Qed.

(** [C27] A configuration Apache accepts leaves both global objects or none, a
    processor whose destinations have a name and at most 10000%, and a pool with
    ordered bounds that has not started: what the properties of the processor and
    of the pool ask for. In particular no directive throws away what the ones
    before it built. *)
Theorem configuration_accepted rewrite lines sv :
  load_config rewrite no_server lines = inl sv -> globals_ok (sv_globals sv).
Proof.
  assert (Hgo : forall lines s0, globals_ok (sv_globals s0) ->
            load_config rewrite s0 lines = inl sv -> globals_ok (sv_globals sv)).
  { clear lines. induction lines as [|l lines IH]; intros s0 H0; cbn [load_config]; [by intros [= <-]|].
    unfold load_line. destruct (gCmds (l_name l) (l_args l)) as [f|] eqn:Ef; [|done].
    set (d0 := {| globals := _ |}).
    pose proof (directive_ok _ _ f d0 Ef H0) as Hd. destruct (f d0) as [d [msg|]]; [done|].
    by apply IH. }
  by apply Hgo.
Qed.

(** The filters, substitutions and percentages of the processor. *)
Definition commands_of (d : Directive) : list (option N * tCommandsByDestination) :=
  match gProcessor (globals d) with Some p => mCommands p | None => [] end.

Lemma need_processor_commands d :
  commands_of (set_globals (need_processor (globals d)) d) = commands_of d.
Proof. unfold commands_of, need_processor. cbn. by destruct (gProcessor (globals d)) eqn:E; rewrite ?E. Qed.

Lemma when_active_commands d k :
  (forall d addr conf, snd (k d addr conf) <> None -> commands_of (fst (k d addr conf)) = commands_of d) ->
  snd (when_active d k) <> None -> commands_of (fst (when_active d k)) = commands_of d.
Proof.
  unfold when_active. intros Hk. pose proof (setActive_globals d) as Ha.
  destruct (setActive d) as [d' [m|]]; cbn [fst] in Ha.
  - intros _. unfold commands_of. cbn. by rewrite Ha.
  - destruct (pCfg d') as [[a c]|]; [|done]. intros Hn. rewrite Hk by done.
    unfold commands_of. by rewrite Ha.
Qed.

Lemma guarded_call_commands conf f handler msg d :
  let r := (let d := set_globals (need_processor (globals d)) d in
            if str_empty (currentDupDestination conf) then (d, Some msg)
            else on_processor_try f handler d) in
  snd r <> None -> commands_of (fst r) = commands_of d.
Proof.
  cbv zeta. destruct (str_empty _); [intros _; apply need_processor_commands|].
  unfold on_processor_try. destruct (gProcessor _); [|done].
  destruct (f r) as [p|e]; [done|]. intros _. apply need_processor_commands.
Qed.

(** [C40] A directive that reports an error leaves the filters, the substitutions and
    the percentages of the processor as they were. *)
Theorem rejected_directive_changes_nothing name args f d :
  gCmds name args = Some f -> snd (f d) <> None -> commands_of (fst (f d)) = commands_of d.
Proof.
  intros Hf. unfold gCmds in Hf.
  destruct args as [|a [|b [|c [|? ?]]]]; repeat case_match; try done; injection Hf as <-.
  - unfold setSynchronous. by case_match.
  - intros _. unfold commands_of. by rewrite setActive_globals.
  - unfold setName. by case_match.
  - unfold setUrlCodec. by case_match.
  - unfold setTimeout. by case_match.
  - apply when_active_commands. intros d1 addr conf. by case_match.
  - apply when_active_commands. intros d1 addr conf. cbv zeta.
    case_match; [|done]. intros _. apply need_processor_commands.
  - apply when_active_commands. intros d1 addr conf. cbv zeta.
    case_match; [done|]. intros _. apply need_processor_commands.
  - apply when_active_commands. intros d1 addr conf. apply guarded_call_commands.
  - apply when_active_commands. intros d1 addr conf. apply guarded_call_commands.
  - unfold setErrorLogBodyMatch. by case_match; [case_match|].
  - unfold setThreads. by repeat case_match.
  - unfold setQueue. by repeat case_match.
  - apply when_active_commands. intros d1 addr conf. cbv zeta.
    case_match; [intros _; apply need_processor_commands|].
    destruct (cast_unsigned b); [|intros _; apply need_processor_commands].
    case_match; [intros _; apply need_processor_commands|done].
  - apply when_active_commands. intros d1 addr conf. apply guarded_call_commands.
  - apply when_active_commands. intros d1 addr conf. apply guarded_call_commands.
  - apply when_active_commands. intros d1 addr conf. apply guarded_call_commands.
  - apply when_active_commands. intros d1 addr conf. apply guarded_call_commands.
Qed.
End ModDup.

Module ModDupExamples.
Import Reference.
#[local] Existing Instance Percent.percent_url.

Definition at7 (name : string) (args : list string) : line :=
  {| l_addr := 7; l_path := "/spp"; l_name := name; l_args := args |}.

Definition conf_lines : list line :=
  [at7 "DupThreads" ["2"; "4"]; at7 "DupQueue" ["1"; "20"]; at7 "DupTimeout" ["1000"];
   at7 "DupDestination" ["localhost:8043"; "250"]; at7 "DupApplicationScope" ["BODY"];
   at7 "DupDuplicationType" ["COMPLETE_REQUEST"]; at7 "DupFilter" ["SID"; "mobile"];
   at7 "DupSubstitute" ["pwd"; "secret"; "none"]]%string.

Definition loaded : server := get_inl no_server (load_config true no_server conf_lines).

Lemma loaded_ok : load_config true no_server conf_lines = inl loaded.
Proof. apply inl_get. vm_compute. reflexivity. Qed.

Lemma configuration_accepted_witness :
  load_config true no_server conf_lines = inl loaded /\ globals_ok (sv_globals loaded).
Proof.
  split; [exact loaded_ok|].
  apply (configuration_accepted (HB := boost_string_laws) true conf_lines). exact loaded_ok.
Defined.

(** A percentage above the limit, a filter before its destination, a scope
    without keys. *)
Example rejected_lines :
  let err l := match load_config true no_server l with inl _ => ""%string | inr m => m end in
  (err [at7 "DupDestination" ["h"; "10001"]], err [at7 "DupFilter" ["k"; "v"]],
   err [at7 "DupDestination" ["h"]; at7 "DupApplicationScope" ["PATH"]; at7 "DupFilter" ["k"; "v"]])%string
  = ("Duplication percentage value not valid: must be an integer between 0 and 10000",
     "a DupDestination is required before a filter",
     "This filter can never match with the current DupApplicationScope, it needs BODY|QUERY_STRING|HEADER")%string.
Proof. vm_compute. reflexivity. Qed.

(** A negative maximum is read as a very large one. *)
Example negative_maximum_accepted :
  match load_config true no_server [at7 "DupThreads" ["1"; "-1"]]%string with
  | inl sv => mMaxThreads <$> gThreadPool (sv_globals sv)
  | inr _ => None
  end = Some 18446744073709551615.
Proof. vm_compute. reflexivity. Qed.

Definition before : Directive :=
  {| globals := sv_globals loaded; pCfg := Some (9, newDupConf); params_path := "/x";
     mod_rewrite_loaded := true |}.

Lemma rejected_directive_changes_nothing_witness :
  (gCmds "DupFilter" ["k"; "v"]%string = Some (setFilter "k" "v") /\
   snd (setFilter "k" "v" before) <> None) /\
  commands_of (fst (setFilter "k" "v" before)) = commands_of before.
Proof.
  assert (Hn : snd (setFilter "k" "v" before) <> None) by (vm_compute; discriminate).
  split; [split; [reflexivity|exact Hn]|].
  apply (rejected_directive_changes_nothing "DupFilter" ["k"; "v"]%string); [reflexivity|exact Hn].
Defined.
End ModDupExamples.
