(* ===== verification/Apache.v ===== *)
(** * Apache

    What the three modules use of Apache, and the functions of Utils.cc and
    Utils.hh they share. An [apr_table_t] is a parameter with the laws its
    documentation states; a brigade is the list of its buckets; what the next
    filter of a chain answers is an argument of the handlers. The objects the
    request pool owns are addressed by numbers. *)
From stdpp Require Import gmap.
From S2P Require Import Prelude CxxString StdMap Boost RequestInfo.

#[global] Arguments strcaseeq : simpl never.

(** ** Tables

    Keys are compared without case. [apr_table_elts] is the order in which
    [apr_table_do] visits the entries. *)

Class AprTable : Type := {
  table : Type;
  apr_table_get : table -> string -> option string;
  apr_table_set : string -> string -> table -> table;
  apr_table_unset : string -> table -> table;
  apr_table_elts : table -> list (string * string)
}.

(** The entries of a key, whatever its case, in order. *)
Definition named `{AprTable} (k : string) (t : table) : list (string * string) :=
  List.filter (fun e => strcaseeq (fst e) k) (apr_table_elts t).

Class AprTableLaws (T : AprTable) : Prop := {
  apr_get_set k v (t : table) k' :
    apr_table_get (apr_table_set k v t) k'
    = if strcaseeq k k' then Some v else apr_table_get t k';
  apr_get_unset k (t : table) k' :
    apr_table_get (apr_table_unset k t) k'
    = if strcaseeq k k' then None else apr_table_get t k';
  apr_get_elts (t : table) k :
    apr_table_get t k
    = snd <$> List.find (fun e => strcaseeq (fst e) k) (apr_table_elts t);
  apr_elts_set k v (t : table) e :
    e ∈ apr_table_elts (apr_table_set k v t) -> e = (k, v) \/ e ∈ apr_table_elts t;
  apr_named_set k v (t : table) k' :
    strcaseeq k k' = false -> named k' (apr_table_set k v t) = named k' t;
  apr_named_unset k (t : table) k' :
    strcaseeq k k' = false -> named k' (apr_table_unset k t) = named k' t
}.

(** The callbacks of the sources all answer 1: the visit never stops. *)
Definition apr_table_do {S} `{AprTable} (callback : S -> string -> string -> S) (s : S) (t : table) : S :=
  foldl (fun s kv => callback s (fst kv) (snd kv)) s (apr_table_elts t).

Definition APR_SUCCESS : Z := 0.
Definition CMaxBytes : N := 8192.
Definition c_UNIQUE_ID : string := "UNIQUE_ID".

(** ** Brigades

    [DATA rv data] is a bucket whose read returns the status [rv] and the data,
    [None] for a null pointer (of length 0). *)
Inductive bucket : Type :=
  | EOS
  | METADATA
  | DATA (rv : Z) (data : option string).

#[export] Instance bucket_eq_dec : EqDecision bucket.
Proof. solve_decision. Defined.

(** What the next filter returns for a brigade. *)
Class NextFilter : Type := ap_pass_brigade : list bucket -> Z.

(** The next random request id: [req_random n] is the [n]-th draw of the thread,
    [None] when [random_r] fails and leaves its result at 1. *)
Class ReqRandom : Type := req_random : nat -> option N.

Definition getNextReqId `{ReqRandom} (n : nat) : N * nat := (default 1%N (req_random n), S n).

Section Apache.
Context `{AprTable}.

(** The fields of a [request_rec] the modules use. Its tables are never null. *)
Record request_rec : Type := mkRequest {
  method : string;
  method_number : Z;
  uri : string;
  unparsed_uri : string;
  args : option string;
  status : Z;
  request_time : Z;
  headers_in : table;
  headers_out : table;
  subprocess_env : table;
  content_type : option string;
  remaining : Z;
  read_length : Z
}.

Definition set_method (x : string) (r : request_rec) : request_rec :=
    {| method := x; method_number := method_number r; uri := uri r; unparsed_uri :=
     unparsed_uri r; args := args r; status := status r; request_time := request_time r;
     headers_in := headers_in r; headers_out := headers_out r; subprocess_env :=
     subprocess_env r; content_type := content_type r; remaining := remaining r;
     read_length := read_length r |}.

Definition set_method_number (x : Z) (r : request_rec) : request_rec :=
    {| method := method r; method_number := x; uri := uri r; unparsed_uri :=
     unparsed_uri r; args := args r; status := status r; request_time := request_time r;
     headers_in := headers_in r; headers_out := headers_out r; subprocess_env :=
     subprocess_env r; content_type := content_type r; remaining := remaining r;
     read_length := read_length r |}.

Definition set_status (x : Z) (r : request_rec) : request_rec :=
    {| method := method r; method_number := method_number r; uri := uri r; unparsed_uri
     := unparsed_uri r; args := args r; status := x; request_time := request_time r;
     headers_in := headers_in r; headers_out := headers_out r; subprocess_env :=
     subprocess_env r; content_type := content_type r; remaining := remaining r;
     read_length := read_length r |}.

Definition set_headers_in (x : table) (r : request_rec) : request_rec :=
    {| method := method r; method_number := method_number r; uri := uri r; unparsed_uri
     := unparsed_uri r; args := args r; status := status r; request_time := request_time
     r; headers_in := x; headers_out := headers_out r; subprocess_env := subprocess_env
     r; content_type := content_type r; remaining := remaining r; read_length :=
     read_length r |}.

Definition set_headers_out (x : table) (r : request_rec) : request_rec :=
    {| method := method r; method_number := method_number r; uri := uri r; unparsed_uri
     := unparsed_uri r; args := args r; status := status r; request_time := request_time
     r; headers_in := headers_in r; headers_out := x; subprocess_env := subprocess_env
     r; content_type := content_type r; remaining := remaining r; read_length :=
     read_length r |}.

Definition set_subprocess_env (x : table) (r : request_rec) : request_rec :=
    {| method := method r; method_number := method_number r; uri := uri r; unparsed_uri
     := unparsed_uri r; args := args r; status := status r; request_time := request_time
     r; headers_in := headers_in r; headers_out := headers_out r; subprocess_env := x;
     content_type := content_type r; remaining := remaining r; read_length :=
     read_length r |}.

Definition set_content_type (x : option string) (r : request_rec) : request_rec :=
    {| method := method r; method_number := method_number r; uri := uri r; unparsed_uri
     := unparsed_uri r; args := args r; status := status r; request_time := request_time
     r; headers_in := headers_in r; headers_out := headers_out r; subprocess_env :=
     subprocess_env r; content_type := x; remaining := remaining r; read_length :=
     read_length r |}.

Definition set_remaining (x : Z) (r : request_rec) : request_rec :=
    {| method := method r; method_number := method_number r; uri := uri r; unparsed_uri
     := unparsed_uri r; args := args r; status := status r; request_time := request_time
     r; headers_in := headers_in r; headers_out := headers_out r; subprocess_env :=
     subprocess_env r; content_type := content_type r; remaining := x; read_length :=
     read_length r |}.

Definition set_read_length (x : Z) (r : request_rec) : request_rec :=
    {| method := method r; method_number := method_number r; uri := uri r; unparsed_uri
     := unparsed_uri r; args := args r; status := status r; request_time := request_time
     r; headers_in := headers_in r; headers_out := headers_out r; subprocess_env :=
     subprocess_env r; content_type := content_type r; remaining := remaining r;
     read_length := x |}.

(** [getOrSetUniqueID]: an id the client sent is kept, and shown in the answer;
    otherwise one is drawn, for both sets of headers. [n] counts the draws. *)
Definition getOrSetUniqueID `{ReqRandom} (pRequest : request_rec) (n : nat) :
    string * request_rec * nat :=
  match apr_table_get (headers_in pRequest) c_UNIQUE_ID with
  | None =>
      let '(lReqID, n) := getNextReqId n in
      let reqId := string_of_N lReqID in
      let pRequest := set_headers_in (apr_table_set c_UNIQUE_ID reqId (headers_in pRequest)) pRequest in
      (reqId, set_headers_out (apr_table_set c_UNIQUE_ID reqId (headers_out pRequest)) pRequest, n)
  | Some lID =>
      (lID, set_headers_out (apr_table_set c_UNIQUE_ID lID (headers_out pRequest)) pRequest, n)
  end.

(** *** The request and what the modules attach to it

    [request_config] is the module's slot, the address of the object
    [makeRequestInfo] made; [objects] are those objects. A slot is only written
    by [makeRequestInfo], so the shared pointer it holds is never empty. *)
Record Attached (I : Type) : Type := mkAttached {
  rec : request_rec;
  request_config : option N;
  objects : gmap N I;
  draws_made : nat
}.
Arguments mkAttached {I} rec request_config objects draws_made.
Arguments rec {I} a.
Arguments request_config {I} a.
Arguments objects {I} a.
Arguments draws_made {I} a.

Definition on_rec {I} (f : request_rec -> request_rec) (a : Attached I) : Attached I :=
  mkAttached (f (rec a)) (request_config a) (objects a) (draws_made a).

Definition on_object {I} (p : N) (f : I -> I) (a : Attached I) : Attached I :=
  mkAttached (rec a) (request_config a) (alter f p (objects a)) (draws_made a).

(** The address of a new object. *)
Definition new_address {I} (a : Attached I) : N := fresh (dom (objects a)).

(** [makeRequestInfo<T, mod>]: [new_T] is the constructor of [T]. *)
Definition makeRequestInfo `{ReqRandom} {I} (new_T : string -> Z -> I) (a : Attached I) :
    N * Attached I :=
  let '(uid, r, n) := getOrSetUniqueID (rec a) (draws_made a) in
  let p := new_address a in
  (p, mkAttached r (Some p) (<[p := new_T uid (request_time r)]> (objects a)) n).

(** *** Reading a brigade *)

(** [extractBrigadeContent]: [got] is what [ap_get_brigade] answers. The result is
    whether the body is over, and the content. *)
Fixpoint readBuckets (bb : list bucket) (content : string) : bool * string :=
  match bb with
  | [] => (false, content)
  | EOS :: _ => (true, content)
  | METADATA :: t => readBuckets t content
  | DATA rv data :: t =>
      if Z.eqb rv APR_SUCCESS
      then readBuckets t (content +:+ default EmptyString data)
      else (true, content)
  end.

Definition extractBrigadeContent (got : Z * list bucket) (content : string) : bool * string :=
  if Z.eqb (fst got) APR_SUCCESS then readBuckets (snd got) content else (true, content).

(** [while (!extractBrigadeContent(bb, filters, body)) apr_brigade_cleanup(bb)]:
    the successive answers of the filters below; [None] when they are used up
    and the thread still reads. *)
Fixpoint readBody (answers : list (Z * list bucket)) (content : string) :
    option (string * list (Z * list bucket)) :=
  match answers with
  | [] => None
  | got :: rest =>
      let '(over, content) := extractBrigadeContent got content in
      if over then Some (content, rest) else readBody rest content
  end.

(** ** Lemmas *)

Lemma new_address_fresh {I} (a : Attached I) : objects a !! new_address a = None.
Proof. apply not_elem_of_dom, is_fresh. Qed.

(** What the client sent, as the specification of the readers: the data up to the
    end of stream, or up to the first error. *)
Fixpoint body_of (bb : list bucket) : string :=
  match bb with
  | [] | EOS :: _ => EmptyString
  | METADATA :: t => body_of t
  | DATA rv data :: t =>
      if Z.eqb rv APR_SUCCESS then default EmptyString data +:+ body_of t else EmptyString
  end.

Definition is_over (bb : list bucket) : bool :=
  existsb (fun b => match b with
                    | EOS => true | METADATA => false
                    | DATA rv _ => negb (Z.eqb rv APR_SUCCESS) end) bb.

Lemma readBuckets_spec bb content :
  readBuckets bb content = (is_over bb, content +:+ body_of bb).
Proof.
  revert content. induction bb as [|[| |rv data] t IH]; intros content; cbn.
  - by rewrite sapp_nil_r.
  - by rewrite sapp_nil_r.
  - apply IH.
  - destruct (Z.eqb rv APR_SUCCESS); cbn.
    + by rewrite IH, sapp_assoc.
    + by rewrite sapp_nil_r.
Qed.

Definition ends (got : Z * list bucket) : bool :=
  negb (Z.eqb (fst got) APR_SUCCESS) || is_over (snd got).

Definition content_of (got : Z * list bucket) : string :=
  if Z.eqb (fst got) APR_SUCCESS then body_of (snd got) else EmptyString.

Lemma extractBrigadeContent_spec got content :
  extractBrigadeContent got content = (ends got, content +:+ content_of got).
Proof.
  unfold extractBrigadeContent, ends, content_of. destruct got as [st bb]. cbn [fst snd].
  destruct (Z.eqb st APR_SUCCESS); cbn; [apply readBuckets_spec|by rewrite sapp_nil_r].
Qed.

Lemma readBody_spec before last rest content :
  Forall (fun got => ends got = false) before -> ends last = true ->
  readBody (before ++ last :: rest) content
  = Some (content +:+ str_concat (content_of <$> before ++ [last]), rest).
Proof.
  intros Hb Hl. revert content. induction Hb as [|got before Hg _ IH]; intros content; cbn.
  - rewrite extractBrigadeContent_spec, Hl. by rewrite sapp_nil_r.
  - rewrite extractBrigadeContent_spec, Hg, IH. by rewrite sapp_assoc.
Qed.

(** The loop ends as soon as the client's stream does. *)
Lemma readBody_total answers content :
  existsb ends answers = true -> is_Some (readBody answers content).
Proof.
  revert content. induction answers as [|got l IH]; intros content; cbn; [done|].
  rewrite extractBrigadeContent_spec. destruct (ends got); cbn; [by eexists|apply IH].
Qed.

Section Unique.
Context {TL : AprTableLaws _} `{ReqRandom}.

(** The identifier is in both sets of headers afterwards, and it is the client's
    when the client gave one. *)
Lemma getOrSetUniqueID_spec r n :
  let '(id, r', n') := getOrSetUniqueID r n in
  apr_table_get (headers_in r') c_UNIQUE_ID = Some id /\
  apr_table_get (headers_out r') c_UNIQUE_ID = Some id /\
  (forall c, apr_table_get (headers_in r) c_UNIQUE_ID = Some c -> id = c /\ n' = n) /\
  (forall k, strcaseeq c_UNIQUE_ID k = false ->
     apr_table_get (headers_in r') k = apr_table_get (headers_in r) k).
Proof.
  unfold getOrSetUniqueID, getNextReqId. destruct (apr_table_get (headers_in r) c_UNIQUE_ID) eqn:E;
    cbn; rewrite ?apr_get_set; change (strcaseeq c_UNIQUE_ID c_UNIQUE_ID) with true.
  - repeat split; try done. congruence.
  - repeat split; try done. intros k Hk. by rewrite apr_get_set, Hk.
Qed.
End Unique.
End Apache.
Arguments mkAttached {_ I} rec request_config objects draws_made.
Arguments rec {_ I} a.
Arguments request_config {_ I} a.
Arguments objects {_ I} a.
Arguments draws_made {_ I} a.

(** ** A table, to evaluate with *)
Module TableList.
Fixpoint list_set (k v : string) (t : list (string * string)) : list (string * string) :=
  match t with
  | [] => [(k, v)]
  | e :: t' =>
      if strcaseeq (fst e) k
      then (k, v) :: List.filter (fun e => negb (strcaseeq (fst e) k)) t'
      else e :: list_set k v t'
  end.

Definition list_unset (k : string) (t : list (string * string)) : list (string * string) :=
  List.filter (fun e => negb (strcaseeq (fst e) k)) t.

Definition list_get (t : list (string * string)) (k : string) : option string :=
  snd <$> List.find (fun e => strcaseeq (fst e) k) t.

#[export] Instance table_list : AprTable := {
  table := list (string * string);
  apr_table_get := list_get;
  apr_table_set := list_set;
  apr_table_unset := list_unset;
  apr_table_elts := id
}.

Lemma strcaseeq_spec a b : reflect (lower a = lower b) (strcaseeq a b).
Proof. apply String.eqb_spec. Qed.

Lemma list_get_unset k t k' :
  list_get (list_unset k t) k' = if strcaseeq k k' then None else list_get t k'.
Proof.
  unfold list_get, list_unset. induction t as [|[a v] t IH]; cbn [List.filter List.find fst].
  - by case_match.
  - destruct (strcaseeq_spec a k), (strcaseeq_spec k k'), (strcaseeq_spec a k');
      cbn [negb List.find fst]; try congruence;
      destruct (strcaseeq_spec a k'); congruence.
Qed.

Lemma list_get_set k v t k' :
  list_get (list_set k v t) k' = if strcaseeq k k' then Some v else list_get t k'.
Proof.
  induction t as [|[a w] t IH]; [unfold list_get; cbn; by case_match|].
  cbn [list_set fst]. destruct (strcaseeq_spec a k) as [E|E].
  - unfold list_get at 1. cbn [List.find fst]. destruct (strcaseeq_spec k k') as [E'|E']; [done|].
    change (list_get (list_unset k t) k' = list_get ((a, w) :: t) k'). rewrite list_get_unset.
    unfold list_get. cbn [List.find fst].
    destruct (strcaseeq_spec k k'), (strcaseeq_spec a k'); congruence.
  - unfold list_get in *. cbn [List.find fst].
    destruct (strcaseeq_spec a k'), (strcaseeq_spec k k'); congruence.
Qed.

Lemma strcaseeq_false_l a b c : strcaseeq a b = true -> strcaseeq b c = false -> strcaseeq a c = false.
Proof. destruct (strcaseeq_spec a b), (strcaseeq_spec b c), (strcaseeq_spec a c); congruence. Qed.

Lemma list_named_unset k t k' : strcaseeq k k' = false -> named k' (list_unset k t) = named k' t.
Proof.
  intros Hk. unfold named, list_unset. cbn. induction t as [|[a v] t IH]; [done|]. cbn.
  destruct (strcaseeq a k) eqn:E; cbn; [by rewrite (strcaseeq_false_l _ _ _ E Hk)|]. by rewrite IH.
Qed.

Lemma list_named_set k v t k' : strcaseeq k k' = false -> named k' (list_set k v t) = named k' t.
Proof.
  intros Hk. unfold named. cbn. induction t as [|[a w] t IH]; cbn; [by rewrite Hk|].
  destruct (strcaseeq a k) eqn:E; cbn; [|by rewrite IH].
  rewrite Hk, (strcaseeq_false_l _ _ _ E Hk). by apply (list_named_unset k t k').
Qed.

#[export] Instance table_list_laws : AprTableLaws table_list.
Proof.
  split; [apply list_get_set|apply list_get_unset|done| |apply list_named_set|intros; by apply list_named_unset].
  intros k v t e. induction t as [|x t IH].
  - intros ->%list_elem_of_singleton. by left.
  - change (e ∈ list_set k v (x :: t) -> e = (k, v) \/ e ∈ x :: t). cbn [list_set].
    case_match; intros [->|He]%elem_of_cons.
    + by left.
    + right. right. by apply list_elem_of_In, filter_In in He as [He%list_elem_of_In _].
    + right. by left.
    + destruct (IH He) as [->|He']; [by left|right; by right].
Qed.
End TableList.
