(* ===== verification/FiltersDup.v ===== *)
(** * FiltersDup

    The three Apache filters of mod_dup (filters_dup.cc): the input filter that
    keeps the body of the request, the output filter that keeps the answer, and
    the output filter that starts the duplication when the headers of the answer
    are known. The filters of a request share its [RequestInfo] through pointers,
    and the queue of the pool holds the pointer as well: the pool here carries
    the addresses of [Attached]. *)
From stdpp Require Import gmap.
From S2P Require Import Prelude CxxString StdMap Boost RequestCommon RequestInfo UrlCodec.
From S2P Require Import DupConf Filters Substitution CurlCall RequestProcessor ThreadPool Apache.
Local Open Scope N_scope.

Import DuplicationType.

(** [pFilter->ctx]: null, a pointer to the [RequestInfo], or [(void * ) -1]. *)
Inductive filter_ctx : Type :=
  | CtxNull
  | CtxInfo (p : N)
  | CtxDone.

#[export] Instance filter_ctx_eq_dec : EqDecision filter_ctx.
Proof. solve_decision. Defined.

Class CurlError : Type := curl_easy_strerror : Z -> string.

Section FiltersDup.
Context `{BoostRegex, BoostString, ApacheUrl, Random, Running, Curl, AprTable, ReqRandom}.
Context `{CurlError, NextFilter}.

(** What the filters of a request see and change. [per_dir_config] is [None] when
    the filter has no request or the request no configuration; [thread] and
    [lCurl] are the thread's curl handle with the counters of the processor, and
    whether the handle was created; [passed] are the brigades given to the next
    output filter. *)
Record Chain : Type := mkChain {
  attached : Attached RequestInfo;
  per_dir_config : option (option (N * DupConf));
  gProcessor : RequestProcessor;
  thread : Worker;
  lCurl : bool;
  gThreadPool : ThreadPool N Sender;
  passed : list (list bucket)
}.

Definition set_attached (x : Attached RequestInfo) (r : Chain) : Chain :=
    {| attached := x; per_dir_config := per_dir_config r; gProcessor := gProcessor r;
     thread := thread r; lCurl := lCurl r; gThreadPool := gThreadPool r; passed :=
     passed r |}.

Definition set_gProcessor (x : RequestProcessor) (r : Chain) : Chain :=
    {| attached := attached r; per_dir_config := per_dir_config r; gProcessor := x;
     thread := thread r; lCurl := lCurl r; gThreadPool := gThreadPool r; passed :=
     passed r |}.

Definition set_thread (x : Worker) (r : Chain) : Chain :=
    {| attached := attached r; per_dir_config := per_dir_config r; gProcessor :=
     gProcessor r; thread := x; lCurl := lCurl r; gThreadPool := gThreadPool r; passed
     := passed r |}.

Definition set_lCurl (x : bool) (r : Chain) : Chain :=
    {| attached := attached r; per_dir_config := per_dir_config r; gProcessor :=
     gProcessor r; thread := thread r; lCurl := x; gThreadPool := gThreadPool r; passed
     := passed r |}.

Definition set_gThreadPool (x : ThreadPool N Sender) (r : Chain) : Chain :=
    {| attached := attached r; per_dir_config := per_dir_config r; gProcessor :=
     gProcessor r; thread := thread r; lCurl := lCurl r; gThreadPool := x; passed :=
     passed r |}.

Definition set_passed (x : list (list bucket)) (r : Chain) : Chain :=
    {| attached := attached r; per_dir_config := per_dir_config r; gProcessor :=
     gProcessor r; thread := thread r; lCurl := lCurl r; gThreadPool := gThreadPool r;
     passed := x |}.


Definition set_rec (f : request_rec -> request_rec) (s : Chain) : Chain :=
  set_attached (on_rec f (attached s)) s.

(** [*reqInfo] and an assignment through the pointer. *)
Definition deref (p : N) (s : Chain) : outcome RequestInfo :=
  of_option StdException (objects (attached s) !! p).

Definition write (p : N) (r : RequestInfo) (s : Chain) : Chain :=
  set_attached (on_object p (fun _ => r) (attached s)) s.

Definition header_in (s : Chain) (k : string) : option string :=
  apr_table_get (headers_in (rec (attached s))) k.

Definition set_out (k v : string) (q : request_rec) : request_rec :=
  set_headers_out (apr_table_set k v (headers_out q)) q.

(** ** The helpers *)

Definition iterateOverHeadersCallBack (headers : tKeyValList) (key value : string) : tKeyValList :=
  headers ++ [(key, value)].

Definition checkAdditionalHeaders (r : RequestInfo) (q : request_rec) : request_rec :=
  if negb (mValidationHeaderDup r) && negb (mValidationHeaderComp r) then q
  else foldl (fun q (header : tKeyVal) =>
         if String.eqb (fst header) "X_DUP_LOG" then set_out "X_DUP_LOG" (snd header) q
         else if String.eqb (fst header) "X_COMP_LOG" then set_out "X_COMP_LOG" (snd header) q
         else q) q (mHeadersOut r).

Definition checkCurlResponseCompareStatus (ri : RequestInfo) (q : request_rec) : request_rec :=
  if negb (bool_decide (is_Some (apr_table_get (headers_in q) "X_DUP_LOG"))) then q
  else match std_find "X-COMP-STATUS" (mCurlCompResponseHeader ri) with
       | Some v => set_out "X-COMP-STATUS" v q
       | None =>
           if Z.eqb (mCurlCompResponseStatus ri) (-1) then
             set_out "X-COMPARE-STATUS" "No Duplication, No Comparison" q
           else if negb (Z.eqb (mCurlCompResponseStatus ri) 0) then
             set_out "X-COMPARE-STATUS"
               ("NOT REACHED - curl status " +:+ curl_easy_strerror (mCurlCompResponseStatus ri)) q
           else set_out "X-COMPARE-STATUS" "Reached Destination - No Comparison" q
       end.

Definition push_header (kv : tKeyVal) (r : RequestInfo) : RequestInfo :=
  set_mHeadersIn (kv :: mHeadersIn r) r.

(** The duplication count of a request: the value of its header, 0 without one. *)
Definition dup_count (q : request_rec) : Z :=
  match apr_table_get (headers_in q) "X-DUP-COUNT" with Some v => atoi v | None => 0%Z end.

Definition prepareRequestInfo (tConf : N) (q : request_rec) (r : RequestInfo) : bool * RequestInfo :=
  let r := push_header ("X_DUP_HTTP_STATUS", cast_string (status q)) r in
  let r := match apr_table_get (headers_in q) "X-HTTP-METHOD-OVERRIDE" with
           | Some inOverride =>
               push_header ("X-HTTP-METHOD-OVERRIDE", inOverride)
                 (push_header ("X_DUP_METHOD", inOverride) r)
           | None =>
               push_header ("X-HTTP-METHOD-OVERRIDE", method q)
                 (push_header ("X_DUP_METHOD", method q) r)
           end in
  let r := match apr_table_get (headers_in q) "Content-Type" with
           | Some contentType => push_header ("X_DUP_CONTENT_TYPE", contentType) r
           | None => r
           end in
  let count := dup_count q in
  if bool_decide (is_Some (apr_table_get (headers_in q) "X-DUP-COUNT")) && (4 <=? count)%Z
  then (false, r)
  else
    let count := (count + 1)%Z in
    let r := push_header ("X-DUP-COUNT", string_of_Z count) r in
    let r := set_mHeadersIn
               (apr_table_do iterateOverHeadersCallBack (mHeadersIn r) (headers_in q)) r in
    let r := if bool_decide (is_Some (apr_table_get (headers_in q) "X_DUP_LOG"))
             then set_mValidationHeaderDup true r else r in
    let r := set_mPoison false r in
    let r := set_mConf (Some tConf) r in
    let r := set_mMethod (method q) r in
    let r := set_mPath (uri q) r in
    (true, set_mArgs (default EmptyString (args q)) r).

(** The thread's curl handle, created at its first synchronous duplication
    ([curl_easy_init] succeeds). *)
Definition use_handle (s : Chain) : Chain :=
  if lCurl s then s
  else
    let d := sender (thread s) in
    set_lCurl true (set_thread
      {| sender := {| handle := default [] (initCurl (gProcessor s) true);
                      transfers := transfers d; mTimeoutCount := mTimeoutCount d;
                      mDuplicatedCount := mDuplicatedCount d; errors := errors d |};
         draws := draws (thread s); reads := reads (thread s) |} s).

Definition initiateDuplication (tConf : N * DupConf) (p : N) (s : Chain) : outcome Chain :=
  let! ri := deref p s in
  let '(prepared, ri) := prepareRequestInfo (fst tConf) (rec (attached s)) ri in
  let s := write p ri s in
  if negb prepared then Ret s
  else
    let! s :=
      if DupConf.synchronous (snd tConf) || bool_decide (is_Some (header_in s "X_DUP_LOG"))
      then
        let s := use_handle s in
        let! '(proc, w, ri) := runOne (gProcessor s) (thread s) ri in
        Ret (write p ri (set_thread w (set_gProcessor proc s)))
      else Ret (set_gThreadPool (ThreadPool.push p (gThreadPool s)) s) in
    let! ri := deref p s in
    Ret (set_rec (fun q => checkCurlResponseCompareStatus ri (checkAdditionalHeaders ri q)) s).

(** The [DupConf] of the location, when it is one the module treats. *)
Definition location (s : Chain) : option (N * DupConf) :=
  match per_dir_config s with
  | Some (Some c) => match dirName (snd c) with Some _ => Some c | None => None end
  | _ => None
  end.

(** [reqInfo = makeRequestInfo(pRequest)] with its configuration and arguments. *)
Definition newInfo (tConf : N) (s : Chain) : N * Chain :=
  let '(p, a) := makeRequestInfo RequestInfo_at (attached s) in
  let fill r := set_mArgs (default EmptyString (args (rec a))) (set_mConf (Some tConf) r) in
  (p, set_attached (on_object p fill a) s).

(** ** The input filter

    [next] is what [ap_get_brigade(pFilter->next, ...)] answers. The result has
    the status and the brigade given to the caller. *)

(** The loop over the buckets: the body read, and the status. *)
Fixpoint appendBuckets (pB : list bucket) (body : string) : string * Z :=
  match pB with
  | [] => (body, APR_SUCCESS)
  | EOS :: _ => (body, APR_SUCCESS)
  | METADATA :: t => appendBuckets t body
  | DATA rv data :: t =>
      if negb (Z.eqb rv APR_SUCCESS) then (body, rv)
      else appendBuckets t (body +:+ default EmptyString data)
  end.

Definition inputFilterHandler (next : Z * list bucket) (ctx : filter_ctx) (s : Chain) :
    outcome (Chain * filter_ctx * (Z * list bucket)) :=
  match location s with
  | None => Ret (s, ctx, next)
  | Some c =>
      let '(s, ctx) :=
        match ctx with
        | CtxNull =>
            match request_config (attached s) with
            | Some p => (s, CtxInfo p)
            | None => let '(p, s) := newInfo (fst c) s in (s, CtxInfo p)
            end
        | _ => (s, ctx)
        end in
      match ctx with
      | CtxInfo p =>
          if negb (Z.eqb (fst next) APR_SUCCESS) then Ret (s, CtxDone, next)
          else
            let! info := deref p s in
            let '(body, st) := appendBuckets (snd next) (mBody info) in
            Ret (write p (set_mBody body info) s, ctx, (st, snd next))
      | _ => Ret (s, ctx, (APR_SUCCESS, []))
      end
  end.

(** ** The output filters *)

Definition pass (ctx : filter_ctx) (pBrigade : list bucket) (s : Chain) :
    outcome (Chain * filter_ctx * Z) :=
  Ret (set_passed (passed s ++ [pBrigade]) s, ctx, ap_pass_brigade pBrigade).

(** The location, unless no filter of it duplicates anything. *)
Definition duplicating (s : Chain) : option (N * DupConf) :=
  match location s with
  | Some c => if bool_decide (getHighestDuplicationType (snd c) = NONE) then None else Some c
  | None => None
  end.

(** [reqInfo], made when neither the request nor the filter has one; [None] when
    only the filter has. *)
Definition findInfo (tConf : N) (ctx : filter_ctx) (s : Chain) : option (N * Chain * filter_ctx) :=
  match request_config (attached s) with
  | Some p => Some (p, s, ctx)
  | None =>
      match ctx with
      | CtxNull => let '(p, s) := newInfo tConf s in Some (p, s, CtxInfo p)
      | _ => None
      end
  end.

(** The loop over the buckets up to the end of stream: the answer, and whether the
    end was seen. *)
Fixpoint appendAnswer (withAnswer : bool) (pBrigade : list bucket) (answer : string) : string * bool :=
  match pBrigade with
  | [] => (answer, false)
  | EOS :: _ => (answer, true)
  | METADATA :: t => appendAnswer withAnswer t answer
  | DATA rv data :: t =>
      appendAnswer withAnswer t
        (if withAnswer && Z.eqb rv APR_SUCCESS then answer +:+ default EmptyString data else answer)
  end.

(** [pRequest->headers_out] appended to [mHeadersOut]. *)
Definition keepHeadersOut (q : request_rec) (ri : RequestInfo) : RequestInfo :=
  set_mHeadersOut (apr_table_do iterateOverHeadersCallBack (mHeadersOut ri) (headers_out q)) ri.

Definition outputBodyFilterHandler (now : Z) (pBrigade : list bucket) (ctx : filter_ctx) (s : Chain) :
    outcome (Chain * filter_ctx * Z) :=
  if bool_decide (ctx = CtxDone) then pass ctx pBrigade s
  else
    match duplicating s with
    | None => pass ctx pBrigade s
    | Some c =>
        match findInfo (fst c) ctx s with
        | None => pass CtxDone pBrigade s
        | Some (p, s, ctx) =>
            let! ri := deref p s in
            let withAnswer := bool_decide (getHighestDuplicationType (snd c) = REQUEST_WITH_ANSWER) in
            let '(answer, eos) := appendAnswer withAnswer pBrigade (mAnswer ri) in
            let ri := set_mAnswer answer ri in
            if negb eos then pass ctx pBrigade (write p ri s)
            else
              let ri := set_eos_seen now true ri in
              let! s :=
                if bool_decide (is_Some (header_in s "X_DUP_LOG"))
                then initiateDuplication c p (write p (keepHeadersOut (rec (attached s)) ri) s)
                else Ret (write p ri s) in
              pass CtxDone pBrigade s
        end
    end.

Definition outputHeadersFilterHandler (pBrigade : list bucket) (ctx : filter_ctx) (s : Chain) :
    outcome (Chain * filter_ctx * Z) :=
  if bool_decide (ctx = CtxDone) then pass ctx pBrigade s
  else
    match duplicating s with
    | None => pass CtxDone pBrigade s
    | Some c =>
        match findInfo (fst c) ctx s with
        | None => pass CtxDone pBrigade s
        | Some (p, s, ctx) =>
            let! ri := deref p s in
            let ri := keepHeadersOut (rec (attached s)) ri in
            let s := write p ri s in
            if negb (eos_seen ri) then pass ctx pBrigade s
            else
              let! s := if bool_decide (is_Some (header_in s "X_DUP_LOG")) then Ret s
                        else initiateDuplication c p s in
              pass CtxDone pBrigade s
        end
    end.

(** ** The life of a request

    Apache calls the filters of a request in any order, each with its context. *)
Inductive call : Type :=
  | Input (next : Z * list bucket)
  | OutputBody (now : Z) (pBrigade : list bucket)
  | OutputHeaders (pBrigade : list bucket).

Record Request : Type := mkRequestFilters {
  chain : Chain;
  ctx_in : filter_ctx;
  ctx_body : filter_ctx;
  ctx_headers : filter_ctx
}.

Definition serve (r : Request) (e : call) : outcome Request :=
  match e with
  | Input next =>
      let! '(s, c, _) := inputFilterHandler next (ctx_in r) (chain r) in
      Ret (mkRequestFilters s c (ctx_body r) (ctx_headers r))
  | OutputBody now b =>
      let! '(s, c, _) := outputBodyFilterHandler now b (ctx_body r) (chain r) in
      Ret (mkRequestFilters s (ctx_in r) c (ctx_headers r))
  | OutputHeaders b =>
      let! '(s, c, _) := outputHeadersFilterHandler b (ctx_headers r) (chain r) in
      Ret (mkRequestFilters s (ctx_in r) (ctx_body r) c)
  end.

Fixpoint serve_all (r : Request) (es : list call) : outcome Request :=
  match es with
  | [] => Ret r
  | e :: es => let! r := serve r e in serve_all r es
  end.
End FiltersDup.

(** ** Lemmas *)

Section Theory.
Context `{BoostRegex} {B : BoostString} {HB : BoostStringLaws B} {A : ApacheUrl}.
Context {R : Random} {Q : Running} {C : Curl} {T : AprTable} {TL : AprTableLaws T}.
Context `{ReqRandom, CurlError, NextFilter}.
Local Existing Instance B.

(** *** The request sent *)

(** The headers [prepareRequestInfo] puts in front of those of the request. *)
Definition own_headers (q : request_rec) : tKeyValList :=
  let m := default (method q) (apr_table_get (headers_in q) "X-HTTP-METHOD-OVERRIDE") in
  ("X-DUP-COUNT", string_of_Z (dup_count q + 1))
  :: match apr_table_get (headers_in q) "Content-Type" with
     | Some t => [("X_DUP_CONTENT_TYPE", t)] | None => [] end
  ++ [("X-HTTP-METHOD-OVERRIDE", m); ("X_DUP_METHOD", m);
      ("X_DUP_HTTP_STATUS", cast_string (status q))].

Definition count_reached (q : request_rec) : bool :=
  bool_decide (is_Some (apr_table_get (headers_in q) "X-DUP-COUNT")) && (4 <=? dup_count q)%Z.

Lemma apr_table_do_headers l (t : table) :
  apr_table_do iterateOverHeadersCallBack l t = l ++ apr_table_elts t.
Proof.
  unfold apr_table_do. generalize (apr_table_elts t). intros es. revert l.
  induction es as [|[k v] es IH]; intros l; cbn [foldl]; [by rewrite app_nil_r|].
  rewrite IH. unfold iterateOverHeadersCallBack. cbn [fst snd]. by rewrite <- app_assoc.
Qed.

Lemma prepareRequestInfo_refused c q r :
  count_reached q = true -> fst (prepareRequestInfo c q r) = false.
Proof. unfold prepareRequestInfo, count_reached. cbv zeta. by intros ->. Qed.

Lemma prepareRequestInfo_spec c q r :
  count_reached q = false ->
  exists r', prepareRequestInfo c q r = (true, r') /\
  mHeadersIn r' = own_headers q ++ mHeadersIn r ++ apr_table_elts (headers_in q) /\
  mPoison r' = false /\ mConf r' = Some c /\ mMethod r' = method q /\ mPath r' = uri q /\
  mArgs r' = default EmptyString (args q) /\ mBody r' = mBody r /\ mAnswer r' = mAnswer r /\
  mHeadersOut r' = mHeadersOut r /\ mId r' = mId r /\ mElapsedTime r' = mElapsedTime r.
Proof.
  unfold prepareRequestInfo, count_reached, own_headers. cbv zeta. intros ->.
  eexists. split; [reflexivity|].
  destruct (apr_table_get (headers_in q) "X-HTTP-METHOD-OVERRIDE"),
    (apr_table_get (headers_in q) "Content-Type"),
    (bool_decide (is_Some (apr_table_get (headers_in q) "X_DUP_LOG")));
    cbn -[apr_table_do]; rewrite apr_table_do_headers; repeat split.
Qed.

(** *** The invariant of the filters *)

Definition keys_ok (l : tKeyValList) : Prop := Forall (fun e => header_key_ok (fst e) = true) l.

Record chain_ok (s : Chain) : Prop := {
  ok_processor : processor_wf (gProcessor s);
  ok_headers : keys_ok (apr_table_elts (headers_in (rec (attached s))));
  ok_objects p r : objects (attached s) !! p = Some r -> header_keys_ok r;
  ok_config p : request_config (attached s) = Some p -> is_Some (objects (attached s) !! p)
}.

Definition ctx_ok (s : Chain) (ctx : filter_ctx) : Prop :=
  match ctx with CtxInfo p => is_Some (objects (attached s) !! p) | _ => True end.

(** What no call changes: the configuration and the request for a log; an object
    never disappears. *)
Record keeps (s s' : Chain) : Prop := {
  keeps_conf : per_dir_config s' = per_dir_config s;
  keeps_log : header_in s' "X_DUP_LOG" = header_in s "X_DUP_LOG";
  keeps_objects p : is_Some (objects (attached s) !! p) -> is_Some (objects (attached s') !! p)
}.

#[export] Instance keeps_preorder : PreOrder keeps.
Proof. split; [by split|]. intros s1 s2 s3 [??] [??]. split; [congruence..|auto]. Qed.

Lemma keeps_ctx s s' ctx : keeps s s' -> ctx_ok s ctx -> ctx_ok s' ctx.
Proof. intros [_ _ Hk]. destruct ctx; cbn; auto. Qed.

(** Nothing was duplicated between [s] and [s']. *)
Record idle (s s' : Chain) : Prop := {
  idle_pool : gThreadPool s' = gThreadPool s;
  idle_thread : thread s' = thread s;
  idle_lCurl : lCurl s' = lCurl s;
  idle_processor : gProcessor s' = gProcessor s
}.

#[export] Instance idle_preorder : PreOrder idle.
Proof. split; [by split|]. intros s1 s2 s3 [] []. split; congruence. Qed.

(** One duplication: the pointer in the queue, or one synchronous [runOne]. *)
Inductive duplicated (s s' : Chain) : Prop :=
  | Queued p :
      gThreadPool s' = ThreadPool.push p (gThreadPool s) -> thread s' = thread s ->
      is_Some (objects (attached s') !! p) -> header_in s "X_DUP_LOG" = None ->
      duplicated s s'
  | Sent r r' :
      runOne (gProcessor s) (thread (use_handle s)) r = Ret (gProcessor s', thread s', r') ->
      gThreadPool s' = gThreadPool s -> duplicated s s'.

Lemma thread_use_handle s s' : idle s s' -> thread (use_handle s') = thread (use_handle s).
Proof. intros [_ Ht Hl Hp]. unfold use_handle. rewrite Hl. case_match; [done|]. cbn. by rewrite Ht, Hp. Qed.

Lemma idle_duplicated s1 s2 s3 : keeps s1 s2 -> idle s1 s2 -> duplicated s2 s3 -> duplicated s1 s3.
Proof.
  intros Hk Hi [p Hp Ht Ho Hl|r r' Hr Hp].
  - apply (Queued _ _ p); [by rewrite Hp, (idle_pool _ _ Hi)|by rewrite Ht, (idle_thread _ _ Hi)|done|].
    by rewrite <- (keeps_log _ _ Hk).
  - apply (Sent _ _ r r'); [|by rewrite Hp, (idle_pool _ _ Hi)].
    by rewrite <- (thread_use_handle _ _ Hi), <- (idle_processor _ _ Hi).
Qed.

Lemma duplicated_idle s1 s2 s3 : duplicated s1 s2 -> keeps s2 s3 -> idle s2 s3 -> duplicated s1 s3.
Proof.
  intros [p Hp Ht Ho Hl|r r' Hr Hp] Hk Hi.
  - apply (Queued _ _ p); [by rewrite (idle_pool _ _ Hi)|by rewrite (idle_thread _ _ Hi)| |done].
    by apply (keeps_objects _ _ Hk).
  - apply (Sent _ _ r r'); [|by rewrite (idle_pool _ _ Hi)].
    by rewrite (idle_processor _ _ Hi), (idle_thread _ _ Hi).
Qed.

Lemma own_headers_ok q : keys_ok (own_headers q).
Proof. unfold own_headers, keys_ok. destruct (apr_table_get _ "Content-Type"); repeat constructor. Qed.

(** *** Writing an object *)

Lemma lookup_write p r s p' :
  objects (attached (write p r s)) !! p'
  = if decide (p = p') then (fun _ => r) <$> objects (attached s) !! p else objects (attached s) !! p'.
Proof.
  unfold write, on_object. cbn. case_decide as E; [subst; by rewrite lookup_alter_eq|].
  by rewrite lookup_alter_ne.
Qed.

Lemma write_keeps p r s : keeps s (write p r s).
Proof.
  split; [done..|]. intros p'. rewrite lookup_write. case_decide; [subst|done].
  intros [x ->]. by eexists.
Qed.

Lemma write_ok p r s : chain_ok s -> header_keys_ok r -> chain_ok (write p r s).
Proof.
  intros [Hp Hh Ho Hc] Hr. split; [done..| |].
  - intros p' r'. rewrite lookup_write. case_decide; [|apply Ho].
    destruct (objects (attached s) !! p); [|done]. by intros [= <-].
  - intros p' ?%Hc. by apply (write_keeps p r s).
Qed.

Lemma write_idle p r s : idle s (write p r s).
Proof. by split. Qed.

(** *** Making the object *)

Lemma newInfo_spec c s :
  chain_ok s -> request_config (attached s) = None ->
  let '(p, s') := newInfo c s in
  chain_ok s' /\ keeps s s' /\ idle s s' /\ objects (attached s) !! p = None /\
  request_config (attached s') = Some p /\ is_Some (objects (attached s') !! p) /\
  passed s' = passed s.
Proof.
  intros [Hp Hh Ho Hc] Hn. unfold newInfo, makeRequestInfo.
  pose proof (getOrSetUniqueID_spec (rec (attached s)) (draws_made (attached s))) as Hu.
  assert (Hk : let '(_, q, _) := getOrSetUniqueID (rec (attached s)) (draws_made (attached s)) in
               keys_ok (apr_table_elts (headers_in q))).
  { unfold getOrSetUniqueID, getNextReqId. destruct (apr_table_get _ c_UNIQUE_ID); [done|].
    cbn. apply Forall_forall. intros e [->|He]%apr_elts_set; [done|].
    unfold keys_ok in Hh. rewrite Forall_forall in Hh. auto. }
  destruct (getOrSetUniqueID (rec (attached s)) (draws_made (attached s))) as [[id q] n].
  destruct Hu as (_ & _ & _ & Hu).
  set (p := new_address (attached s)).
  assert (Hf : objects (attached s) !! p = None) by apply new_address_fresh.
  cbn. rewrite lookup_alter_eq, lookup_insert_eq. split; [split|split; [split|split; [done|]]].
  - done.
  - done.
  - intros p' r'. cbn. destruct (decide (p = p')) as [<-|Hne].
    + rewrite lookup_alter_eq, lookup_insert_eq. intros [= <-]. constructor.
    + rewrite lookup_alter_ne, lookup_insert_ne by done. apply Ho.
  - intros p' [= <-]. cbn. rewrite lookup_alter_eq, lookup_insert_eq. by eexists.
  - done.
  - unfold header_in. cbn. by apply Hu.
  - intros p'. cbn. destruct (decide (p = p')) as [<-|Hne].
    + rewrite lookup_alter_eq, lookup_insert_eq. by eexists.
    + by rewrite lookup_alter_ne, lookup_insert_ne by done.
  - repeat split; [done|by eexists].
Qed.

Lemma findInfo_spec c ctx s :
  chain_ok s ->
  match findInfo c ctx s with
  | None => True
  | Some (p, s', ctx') =>
      chain_ok s' /\ keeps s s' /\ idle s s' /\ request_config (attached s') = Some p /\
      is_Some (objects (attached s') !! p) /\ passed s' = passed s /\
      (ctx <> CtxDone -> ctx' <> CtxDone) /\ (ctx_ok s ctx -> ctx_ok s' ctx')
  end.
Proof.
  intros Hok. unfold findInfo. destruct (request_config (attached s)) as [p|] eqn:E.
  - split_and!; try done. by apply Hok.
  - destruct ctx as [|p|]; [|done..].
    pose proof (newInfo_spec c s Hok E) as Hn. destruct (newInfo c s) as [p s'].
    destruct Hn as (? & ? & ? & _ & ? & ? & ?). by split_and!.
Qed.

(** *** Starting the duplication *)

Lemma prepare_keys_ok c q r :
  keys_ok (apr_table_elts (headers_in q)) -> header_keys_ok r ->
  header_keys_ok (snd (prepareRequestInfo c q r)).
Proof.
  intros Hq Hr. destruct (count_reached q) eqn:E.
  - unfold prepareRequestInfo. cbv zeta. unfold count_reached in E. rewrite E.
    destruct (apr_table_get _ "X-HTTP-METHOD-OVERRIDE"), (apr_table_get _ "Content-Type");
      cbn; repeat (apply Forall_cons_2; [done|]); done.
  - destruct (prepareRequestInfo_spec c q r E) as (r' & -> & Hh & _). cbn.
    unfold header_keys_ok. rewrite Hh. apply Forall_app_2; [apply own_headers_ok|].
    by apply Forall_app_2.
Qed.

Lemma use_handle_same s :
  attached (use_handle s) = attached s /\ gProcessor (use_handle s) = gProcessor s /\
  gThreadPool (use_handle s) = gThreadPool s /\ per_dir_config (use_handle s) = per_dir_config s /\
  passed (use_handle s) = passed s.
Proof. unfold use_handle. by case_match. Qed.

Lemma norm_headers r r' : norm r = norm r' -> mHeadersIn r = mHeadersIn r'.
Proof. intros He. by apply (f_equal mHeadersIn) in He. Qed.

Lemma to_send_headers p r : mHeadersIn (to_send p r) = mHeadersIn r.
Proof.
  unfold to_send. match goal with |- context [addValidationHeadersDup ?a ?l ?n ?k] =>
    destruct (addValidationHeadersDup_keeps a l n k) as [-> _] end. done.
Qed.

Lemma checked_headers ri q :
  headers_in (checkCurlResponseCompareStatus ri (checkAdditionalHeaders ri q)) = headers_in q.
Proof.
  assert (Ha : headers_in (checkAdditionalHeaders ri q) = headers_in q).
  { unfold checkAdditionalHeaders. case_match; [done|]. generalize (mHeadersOut ri). intros l.
    revert q. induction l as [|h l IH]; intros q; [done|]. cbn [foldl]. rewrite IH. by repeat case_match. }
  unfold checkCurlResponseCompareStatus. repeat case_match; done.
Qed.

Lemma set_rec_ok f s :
  (forall q, headers_in (f q) = headers_in q) -> chain_ok s ->
  chain_ok (set_rec f s) /\ keeps s (set_rec f s) /\ idle s (set_rec f s).
Proof.
  intros Hf [Hp Hh Ho Hc]. split; [split|]; cbn; try done.
  - by rewrite Hf.
  - split; [|done]. split; [done| |done]. unfold header_in. cbn. by rewrite Hf.
Qed.

(** Replacing the processor and the thread's state, as a synchronous run does. *)
Lemma ran_ok proc w s s1 :
  attached s1 = attached s -> per_dir_config s1 = per_dir_config s -> processor_wf proc ->
  chain_ok s -> let s' := set_thread w (set_gProcessor proc s1) in chain_ok s' /\ keeps s s'.
Proof.
  intros Ha Hd Hp [_ Hh Ho Hc]. cbv zeta. split; split; cbn; rewrite ?Ha; try done.
  unfold header_in. cbn. by rewrite Ha.
Qed.

(** The end of [initiateDuplication]: the answer of the duplicate is checked. *)
Lemma checked_end p s s2 :
  chain_ok s2 -> keeps s s2 -> duplicated s s2 -> passed s2 = passed s -> is_Some (objects (attached s2) !! p) ->
  exists s', (let! ri := deref p s2 in
              Ret (set_rec (fun q => checkCurlResponseCompareStatus ri (checkAdditionalHeaders ri q)) s2))
             = Ret s' /\ chain_ok s' /\ keeps s s' /\ passed s' = passed s /\ duplicated s s'.
Proof.
  intros Hok2 Hk2 Hd2 Hpass [x Hx]. unfold deref. rewrite Hx. cbn [of_option obind].
  destruct (set_rec_ok (fun q => checkCurlResponseCompareStatus x (checkAdditionalHeaders x q)) s2
              (checked_headers x) Hok2) as (? & ? & ?).
  eexists. split; [reflexivity|]. split_and!; [done|by etrans|done|by eapply duplicated_idle].
Qed.

Lemma initiateDuplication_spec c p s :
  chain_ok s -> is_Some (objects (attached s) !! p) ->
  exists s', initiateDuplication c p s = Ret s' /\ chain_ok s' /\ keeps s s' /\
    passed s' = passed s /\
    if count_reached (rec (attached s)) then idle s s' else duplicated s s'.
Proof.
  intros Hok [r Hr]. unfold initiateDuplication, deref at 1. rewrite Hr. cbn [of_option obind].
  pose proof (prepare_keys_ok (fst c) (rec (attached s)) r (ok_headers _ Hok) (ok_objects _ Hok _ _ Hr)) as Hk.
  destruct (count_reached (rec (attached s))) eqn:Ec.
  { pose proof (prepareRequestInfo_refused (fst c) (rec (attached s)) r Ec) as Hf.
    destruct (prepareRequestInfo (fst c) (rec (attached s)) r) as [b ri]. cbn in Hf, Hk. subst b.
    eexists. split; [reflexivity|]. split_and!; [by apply write_ok|apply write_keeps|done|apply write_idle]. }
  destruct (prepareRequestInfo_spec (fst c) (rec (attached s)) r Ec) as (ri & Heq & _).
  rewrite Heq in Hk |- *. cbn [snd negb] in Hk |- *.
  set (s1 := write p ri s).
  assert (Hok1 : chain_ok s1) by by apply write_ok.
  assert (Hp1 : is_Some (objects (attached s1) !! p)) by (apply (write_keeps p ri s); by eexists).
  destruct (DupConf.synchronous (snd c) || bool_decide (is_Some (header_in s1 "X_DUP_LOG"))) eqn:Esync.
  - destruct (use_handle_same s1) as (Ha & Hpr & Hpo & Hdir & Hpa).
    rewrite <- Ha in Hp1.
    destruct (runOne_spec (gProcessor (use_handle s1)) (thread (use_handle s1)) ri)
      as (proc & w & r' & Hrun & Hwf & _ & Hn & _); [rewrite Hpr; apply Hok|done|].
    rewrite Hrun. cbn [obind].
    destruct (ran_ok proc w s1 (use_handle s1) Ha Hdir Hwf Hok1) as [Hok2 Hk2].
    assert (Hr' : header_keys_ok r').
    { unfold header_keys_ok. apply norm_headers in Hn. rewrite to_send_headers in Hn. by rewrite Hn. }
    apply checked_end.
    + by apply write_ok.
    + etrans; [apply (write_keeps p ri)|]. etrans; [exact Hk2|apply write_keeps].
    + apply (Sent _ _ ri r'); [|done]. cbn. rewrite Hpr in Hrun.
      by rewrite <- (thread_use_handle s s1 (write_idle _ _ _)).
    + done.
    + apply write_keeps. cbn. by apply Hp1.
  - apply orb_false_iff in Esync as [_ Hl%bool_decide_eq_false].
    apply checked_end; try done.
    + split; [apply Hok1..].
    + etrans; [apply (write_keeps p ri)|]. by split.
    + apply (Queued _ _ p); try done. apply eq_None_not_Some. exact Hl.
Qed.

(** *** Each handler *)

(** What an output filter guarantees: the brigade is given to the next filter,
    once and unchanged, and whatever that filter answers is returned; a context
    that is over stays so; a duplication, when there is one, is the last thing the
    filter does for the request. [log] tells the filter that duplicates the
    requests with [X_DUP_LOG] from the one that duplicates the others. *)
Definition output_post (log : bool) (s : Chain) (ctx : filter_ctx) (b : list bucket)
    (o : outcome (Chain * filter_ctx * Z)) : Prop :=
  exists s' ctx', o = Ret (s', ctx', ap_pass_brigade b) /\
    chain_ok s' /\ keeps s s' /\ ctx_ok s' ctx' /\ passed s' = passed s ++ [b] /\
    (ctx = CtxDone -> ctx' = CtxDone /\ idle s s') /\
    (idle s s' \/
     bool_decide (is_Some (header_in s "X_DUP_LOG")) = log /\ ctx' = CtxDone /\ duplicated s s').

Lemma pass_idle log ctx ctx' b s s1 :
  chain_ok s1 -> keeps s s1 -> idle s s1 -> ctx_ok s1 ctx' -> passed s1 = passed s ->
  (ctx = CtxDone -> ctx' = CtxDone) -> output_post log s ctx b (pass ctx' b s1).
Proof.
  intros [] [] [] Hc Hp Hd. eexists _, _. split; [reflexivity|]. cbn. rewrite Hp.
  split_and!; try done; [by split..| |]; [intros ?; split; [auto|]|left]; by split.
Qed.

Lemma pass_duplicated log ctx b s s1 s2 :
  idle s s1 -> keeps s s1 -> chain_ok s2 -> keeps s1 s2 -> passed s2 = passed s -> ctx <> CtxDone ->
  bool_decide (is_Some (header_in s1 "X_DUP_LOG")) = log ->
  idle s1 s2 \/ duplicated s1 s2 -> output_post log s ctx b (pass CtxDone b s2).
Proof.
  intros Hi Hk Hok2 Hk2 Hp Hctx Hl [Hi2|Hd].
  - apply pass_idle; try done; by etrans.
  - assert (Hk' : keeps s s2) by (by etrans).
    destruct Hok2. eexists _, _. split; [reflexivity|]. cbn. rewrite Hp.
    split_and!; try done; [by destruct Hk'; split|].
    right. rewrite <- (keeps_log _ _ Hk). split_and!; [done|done|].
    apply (duplicated_idle _ s2); [by apply (idle_duplicated _ s1)|by split|by split].
Qed.

Lemma deref_ok p s :
  chain_ok s -> is_Some (objects (attached s) !! p) -> exists r, deref p s = Ret r /\ header_keys_ok r.
Proof. intros Hok [r Hr]. exists r. unfold deref. rewrite Hr. by split; [|apply (ok_objects _ Hok p)]. Qed.

Lemma initiate_post log c p b ctx s s1 :
  chain_ok s1 -> is_Some (objects (attached s1) !! p) -> idle s s1 -> keeps s s1 ->
  passed s1 = passed s -> ctx <> CtxDone ->
  bool_decide (is_Some (header_in s1 "X_DUP_LOG")) = log ->
  output_post log s ctx b (obind (initiateDuplication c p s1) (pass CtxDone b)).
Proof.
  intros Hok Hp Hi Hk Hpa Hc Hl.
  destruct (initiateDuplication_spec c p s1 Hok Hp) as (s2 & -> & Hok2 & Hk2 & Hpa2 & Hd). cbn [obind].
  apply (pass_duplicated log ctx b s s1 s2); try done; [by rewrite Hpa2|].
  destruct (count_reached (rec (attached s1))); [by left|by right].
Qed.

Lemma appendBuckets_spec pB body :
  exists st, appendBuckets pB body = (body +:+ body_of pB, st) /\
    (existsb (fun b => match b with DATA rv _ => negb (Z.eqb rv APR_SUCCESS) | _ => false end) pB = false
     -> st = APR_SUCCESS).
Proof.
  revert body. induction pB as [|[| |rv data] t IH]; intros body; cbn.
  - exists APR_SUCCESS. by rewrite sapp_nil_r.
  - exists APR_SUCCESS. by rewrite sapp_nil_r.
  - apply IH.
  - destruct (Z.eqb_spec rv APR_SUCCESS) as [->|Hrv]; cbn.
    + destruct (IH (body +:+ default EmptyString data)) as (st & -> & Hst).
      exists st. by rewrite sapp_assoc.
    + exists rv. by rewrite sapp_nil_r.
Qed.

Lemma input_spec next ctx s :
  chain_ok s -> ctx_ok s ctx ->
  exists s' ctx' out, inputFilterHandler next ctx s = Ret (s', ctx', out) /\
    chain_ok s' /\ keeps s s' /\ idle s s' /\ ctx_ok s' ctx' /\ passed s' = passed s.
Proof.
  intros Hok Hctx. unfold inputFilterHandler. destruct (location s) as [c|].
  2: { do 3 eexists. split; [reflexivity|]. by split_and!. }
  match goal with |- context [let '(a, b) := ?m in _] => set (sc := m) end.
  assert (Hsc : chain_ok (fst sc) /\ keeps s (fst sc) /\ idle s (fst sc) /\
                ctx_ok (fst sc) (snd sc) /\ passed (fst sc) = passed s).
  { subst sc. destruct ctx as [|p|]; [|by split_and!..].
    pose proof (findInfo_spec (fst c) CtxNull s Hok) as Hn. unfold findInfo in Hn.
    destruct (request_config (attached s)) as [p|].
    - destruct Hn as (_ & _ & _ & _ & Hp & _). by split_and!.
    - destruct (newInfo (fst c) s) as [p s']. destruct Hn as (? & ? & ? & _ & ? & ? & _).
      by split_and!. }
  clearbody sc. destruct sc as [s1 ctx1]. cbn [fst snd] in Hsc. destruct Hsc as (Hok1 & Hk1 & Hi1 & Hc1 & Hpa).
  destruct ctx1 as [|p|]; [do 3 eexists; split; [reflexivity|by split_and!]| |do 3 eexists; split; [reflexivity|by split_and!]].
  destruct (negb (Z.eqb (fst next) APR_SUCCESS)).
  { do 3 eexists. split; [reflexivity|by split_and!]. }
  destruct (deref_ok p s1 Hok1 Hc1) as (info & -> & Hinfo). cbn [obind].
  destruct (appendBuckets_spec (snd next) (mBody info)) as (st & -> & _).
  do 3 eexists. split; [reflexivity|]. split_and!; try done.
  - by apply write_ok.
  - etrans; [done|apply write_keeps].
  - by destruct Hi1.
  - by apply (write_keeps p).
Qed.

Lemma body_spec now b ctx s :
  chain_ok s -> ctx_ok s ctx -> output_post true s ctx b (outputBodyFilterHandler now b ctx s).
Proof.
  intros Hok Hctx. unfold outputBodyFilterHandler.
  destruct (bool_decide (ctx = CtxDone)) eqn:Ed; [by apply pass_idle|].
  apply bool_decide_eq_false in Ed. destruct (duplicating s) as [c|]; [|by apply pass_idle].
  pose proof (findInfo_spec (fst c) ctx s Hok) as Hf.
  destruct (findInfo (fst c) ctx s) as [[[p s1] ctx1]|]; [|by apply pass_idle].
  destruct Hf as (Hok1 & Hk1 & Hi1 & _ & Hp1 & Hpa1 & Hd1 & Hc1). specialize (Hc1 Hctx).
  destruct (deref_ok p s1 Hok1 Hp1) as (ri & -> & Hri). cbn [obind].
  destruct (appendAnswer _ b (mAnswer ri)) as [ans eos].
  assert (Hw : forall x, header_keys_ok x ->
    let sw := write p x s1 in chain_ok sw /\ keeps s sw /\ idle s sw /\ ctx_ok sw ctx1 /\
    is_Some (objects (attached sw) !! p)).
  { intros x Hx. cbv zeta. split_and!; [by apply write_ok|by etrans; [|apply write_keeps]| | |].
    - by etrans; [|apply write_idle].
    - by apply (keeps_ctx s1); [apply write_keeps|].
    - by apply (write_keeps p). }
  assert (He : header_keys_ok (set_eos_seen now true (set_mAnswer ans ri))).
  { unfold header_keys_ok, set_eos_seen. by case_match. }
  destruct eos; cbn [negb].
  - destruct (bool_decide (is_Some (header_in s1 "X_DUP_LOG"))) eqn:El.
    + match goal with |- context [write p ?x s1] => destruct (Hw x) as (? & ? & ? & ? & ?); [exact He|] end.
      by apply initiate_post.
    + cbn [obind]. destruct (Hw _ He) as (? & ? & ? & ? & ?).
      by apply pass_idle.
  - destruct (Hw (set_mAnswer ans ri) Hri) as (? & ? & ? & ? & ?). by apply pass_idle.
Qed.

Lemma headers_spec b ctx s :
  chain_ok s -> ctx_ok s ctx -> output_post false s ctx b (outputHeadersFilterHandler b ctx s).
Proof.
  intros Hok Hctx. unfold outputHeadersFilterHandler.
  destruct (bool_decide (ctx = CtxDone)) eqn:Ed; [by apply pass_idle|].
  apply bool_decide_eq_false in Ed. destruct (duplicating s) as [c|]; [|by apply pass_idle].
  pose proof (findInfo_spec (fst c) ctx s Hok) as Hf.
  destruct (findInfo (fst c) ctx s) as [[[p s1] ctx1]|]; [|by apply pass_idle].
  destruct Hf as (Hok1 & Hk1 & Hi1 & _ & Hp1 & Hpa1 & Hd1 & Hc1). specialize (Hc1 Hctx).
  destruct (deref_ok p s1 Hok1 Hp1) as (ri & -> & Hri). cbn [obind].
  set (sw := write p (keepHeadersOut (rec (attached s1)) ri) s1).
  assert (Hw : chain_ok sw) by by apply write_ok.
  assert (Hkw : keeps s sw) by (etrans; [exact Hk1|apply write_keeps]).
  assert (Hiw : idle s sw) by (etrans; [exact Hi1|apply write_idle]).
  destruct (negb _).
  - apply pass_idle; try done. by apply (keeps_ctx s1); [apply write_keeps|].
  - destruct (bool_decide (is_Some (header_in sw "X_DUP_LOG"))) eqn:El; cbn [obind]; [by apply pass_idle|].
    apply initiate_post; try done. by apply (write_keeps p).
Qed.

(** *** A whole request *)

Record request_ok (r : Request) : Prop := {
  ro_chain : chain_ok (chain r);
  ro_in : ctx_ok (chain r) (ctx_in r);
  ro_body : ctx_ok (chain r) (ctx_body r);
  ro_headers : ctx_ok (chain r) (ctx_headers r)
}.

Definition brigades (e : call) : list (list bucket) :=
  match e with Input _ => [] | OutputBody _ b | OutputHeaders b => [b] end.

(** The filter that may start the duplication of the request is over. *)
Definition finished (r : Request) : Prop :=
  (if bool_decide (is_Some (header_in (chain r) "X_DUP_LOG")) then ctx_body r else ctx_headers r)
  = CtxDone.

Lemma serve_spec r e :
  request_ok r ->
  exists r', serve r e = Ret r' /\ request_ok r' /\ keeps (chain r) (chain r') /\
    passed (chain r') = passed (chain r) ++ brigades e /\
    (finished r -> idle (chain r) (chain r') /\ finished r') /\
    (idle (chain r) (chain r') \/ duplicated (chain r) (chain r') /\ finished r').
Proof.
  intros [Hok Hi Hb Hh]. unfold finished. destruct e as [next|now b|b]; cbn [serve brigades].
  - destruct (input_spec next (ctx_in r) (chain r) Hok Hi) as (s' & c & out & -> & ? & Hk & ? & ? & Hpa).
    eexists. split; [reflexivity|]. cbn. rewrite (keeps_log _ _ Hk), Hpa, app_nil_r.
    split_and!; try done; [|by left]. split; cbn; first [done|by apply (keeps_ctx (chain r))].
  - destruct (body_spec now b (ctx_body r) (chain r) Hok Hb) as (s' & c & -> & ? & Hk & ? & Hpa & Hd & Hdup).
    eexists. split; [reflexivity|]. cbn. rewrite (keeps_log _ _ Hk), Hpa.
    split_and!; try done; [split; cbn; first [done|by apply (keeps_ctx (chain r))]| |].
    + destruct Hdup as [?|(-> & -> & ?)]; [|by intros [_ ?]%Hd].
      case_match; [|done]. intros [? ?]%Hd. done.
    + destruct Hdup as [?|(-> & -> & ?)]; [by left|by right].
  - destruct (headers_spec b (ctx_headers r) (chain r) Hok Hh) as (s' & c & -> & ? & Hk & ? & Hpa & Hd & Hdup).
    eexists. split; [reflexivity|]. cbn. rewrite (keeps_log _ _ Hk), Hpa.
    split_and!; try done; [split; cbn; first [done|by apply (keeps_ctx (chain r))]| |].
    + destruct Hdup as [?|(-> & -> & ?)]; [|by intros [_ ?]%Hd].
      case_match; [done|]. intros [? ?]%Hd. done.
    + destruct Hdup as [?|(-> & -> & ?)]; [by left|by right].
Qed.

(** [C5] Whatever the order in which Apache calls the three filters of a request,
    and however its body and its answer are cut into brigades: no call throws, no
    pointer dangles, the client receives every brigade of the answer unchanged, and
    the request is duplicated at most once, either through the queue of the pool
    or by one synchronous run, and only through the queue when it does not ask
    for the log. *)
Theorem duplicated_at_most_once (r : Request) (es : list call) :
  request_ok r ->
  exists r', serve_all r es = Ret r' /\ request_ok r' /\
    passed (chain r') = passed (chain r) ++ (es ≫= brigades) /\
    (idle (chain r) (chain r') \/ duplicated (chain r) (chain r')).
Proof.
  intros Hok.
  cut (exists r', serve_all r es = Ret r' /\ request_ok r' /\ keeps (chain r) (chain r') /\
    passed (chain r') = passed (chain r) ++ (es ≫= brigades) /\
    (finished r -> idle (chain r) (chain r')) /\
    (idle (chain r) (chain r') \/ duplicated (chain r) (chain r'))).
  { intros (r' & ? & ? & _ & ? & _ & ?). by exists r'. }
  revert r Hok. induction es as [|e es IH]; intros r Hok; cbn [serve_all].
  - exists r. cbn. rewrite app_nil_r. split_and!; try done. by left.
  - destruct (serve_spec r e Hok) as (r1 & -> & Hok1 & Hk1 & Hp1 & Hf1 & Hd1). cbn [obind].
    destruct (IH r1 Hok1) as (r' & -> & ? & Hk & Hp & Hf & Hd).
    exists r'. cbn [mbind list_bind]. rewrite Hp, Hp1, app_assoc.
    split_and!; try done; [by etrans|intros [Hi Hf']%Hf1; etrans; [exact Hi|by apply Hf]|].
    destruct Hd1 as [Hi|[Hdup Hf']].
    + destruct Hd as [Hi'|Hdup']; [left; by etrans|right; by apply (idle_duplicated _ (chain r1))].
    + right. apply (duplicated_idle _ (chain r1)); [done..|by apply Hf].
Qed.

(** *** What is duplicated *)

(** The data of a brigade of the answer: up to the end of stream, what could be
    read. *)
Fixpoint answer_of (b : list bucket) : string :=
  match b with
  | [] | EOS :: _ => EmptyString
  | METADATA :: t => answer_of t
  | DATA rv data :: t =>
      (if Z.eqb rv APR_SUCCESS then default EmptyString data else EmptyString) +:+ answer_of t
  end.

Definition has_eos (b : list bucket) : bool := existsb (fun x => bool_decide (x = EOS)) b.

Lemma appendAnswer_spec wa b a :
  appendAnswer wa b a = (a +:+ (if wa then answer_of b else EmptyString), has_eos b).
Proof.
  revert a. induction b as [|[| |rv data] t IH]; intros a; cbn.
  - destruct wa; by rewrite sapp_nil_r.
  - destruct wa; by rewrite sapp_nil_r.
  - by rewrite IH.
  - rewrite IH. destruct wa, (Z.eqb rv APR_SUCCESS); cbn; by rewrite ?sapp_assoc.
Qed.

(** The state of a request whose object exists. *)
Record holds (s : Chain) (c : N * DupConf) (p : N) (ri : RequestInfo) : Prop := {
  holds_location : duplicating s = Some c;
  holds_config : request_config (attached s) = Some p;
  holds_object : objects (attached s) !! p = Some ri
}.

Lemma holds_pass b s c p ri x :
  holds s c p ri -> holds (set_passed (passed s ++ [b]) (write p x s)) c p x.
Proof.
  intros [Hl Hc Ho]. split; [done..|]. change (objects (attached (write p x s)) !! p = Some x).
  by rewrite lookup_write, decide_True, Ho.
Qed.

Definition keeps_answer (c : N * DupConf) : bool :=
  bool_decide (getHighestDuplicationType (snd c) = REQUEST_WITH_ANSWER).

Definition with_answer (c : N * DupConf) (b : list bucket) (ri : RequestInfo) : RequestInfo :=
  set_mAnswer (mAnswer ri +:+ (if keeps_answer c then answer_of b else EmptyString)) ri.

Lemma body_run now b ctx s c p ri :
  holds s c p ri -> ctx <> CtxDone -> header_in s "X_DUP_LOG" = None ->
  outputBodyFilterHandler now b ctx s
  = Ret (set_passed (passed s ++ [b])
           (write p (if has_eos b then set_eos_seen now true (with_answer c b ri) else with_answer c b ri) s),
         if has_eos b then CtxDone else ctx, ap_pass_brigade b).
Proof.
  intros [Hl Hc Ho] Hctx Hlog. unfold outputBodyFilterHandler.
  rewrite bool_decide_eq_false_2, Hl by done. unfold findInfo. rewrite Hc. unfold deref.
  rewrite Ho. cbn [of_option obind]. rewrite appendAnswer_spec, Hlog. by destruct (has_eos b).
Qed.

Lemma headers_run b ctx s c p ri :
  holds s c p ri -> ctx <> CtxDone -> header_in s "X_DUP_LOG" = None ->
  outputHeadersFilterHandler b ctx s
  = let s1 := write p (keepHeadersOut (rec (attached s)) ri) s in
    if mEOS ri then obind (initiateDuplication c p s1) (pass CtxDone b) else pass ctx b s1.
Proof.
  intros [Hl Hc Ho] Hctx Hlog. unfold outputHeadersFilterHandler.
  rewrite bool_decide_eq_false_2, Hl by done. unfold findInfo. rewrite Hc. unfold deref.
  rewrite Ho. cbn [of_option obind]. unfold eos_seen. cbn [mEOS keepHeadersOut set_mHeadersOut].
  destruct (mEOS ri); [|done]. cbn [negb].
  rewrite (bool_decide_eq_false_2 (is_Some (header_in _ _))); [done|].
  change (~ is_Some (header_in s "X_DUP_LOG")). rewrite Hlog. by apply is_Some_None.
Qed.

(** The object after the brigades [bs] went through both output filters. *)
Definition collected (q : request_rec) (c : N * DupConf) (bs : list (list bucket)) (ri : RequestInfo) :
    RequestInfo :=
  foldl (fun ri b => keepHeadersOut q (with_answer c b ri)) ri bs.

Lemma collected_fields q c bs ri :
  mAnswer (collected q c bs ri)
  = mAnswer ri +:+ (if keeps_answer c then str_concat (answer_of <$> bs) else EmptyString) /\
  mHeadersOut (collected q c bs ri)
  = mHeadersOut ri ++ concat (replicate (length bs) (apr_table_elts (headers_out q))) /\
  mBody (collected q c bs ri) = mBody ri /\ mHeadersIn (collected q c bs ri) = mHeadersIn ri /\
  mEOS (collected q c bs ri) = mEOS ri /\ mStartTime (collected q c bs ri) = mStartTime ri /\
  mId (collected q c bs ri) = mId ri.
Proof.
  revert ri. induction bs as [|b bs IH]; intros ri; cbn [collected foldl].
  - cbn. rewrite app_nil_r. destruct (keeps_answer c); by rewrite ?sapp_nil_r.
  - fold (collected q c bs (keepHeadersOut q (with_answer c b ri))).
    destruct (IH (keepHeadersOut q (with_answer c b ri))) as (-> & -> & -> & -> & -> & -> & ->).
    cbn. rewrite apr_table_do_headers. split_and!; try done.
    + destruct (keeps_answer c); cbn; by rewrite ?sapp_nil_r, ?sapp_assoc.
    + by rewrite <- app_assoc.
Qed.

Definition through (now : Z) (bs : list (list bucket)) : list call :=
  bs ≫= fun b => [OutputBody now b; OutputHeaders b].

Lemma serve_all_app r es es' : serve_all r (es ++ es') = obind (serve_all r es) (fun r => serve_all r es').
Proof. revert r. induction es as [|e es IH]; intros r; cbn; [done|]. destruct (serve r e); cbn; [apply IH|done]. Qed.

Lemma through_spec now r c p ri bs :
  holds (chain r) c p ri -> mEOS ri = false -> ctx_body r <> CtxDone -> ctx_headers r <> CtxDone ->
  header_in (chain r) "X_DUP_LOG" = None -> Forall (fun b => has_eos b = false) bs ->
  exists s', serve_all r (through now bs) = Ret (mkRequestFilters s' (ctx_in r) (ctx_body r) (ctx_headers r)) /\
    holds s' c p (collected (rec (attached (chain r))) c bs ri) /\
    rec (attached s') = rec (attached (chain r)) /\ gThreadPool s' = gThreadPool (chain r).
Proof.
  intros Hh He Hb Hd Hl Hbs. revert r ri Hh He Hb Hd Hl.
  induction Hbs as [|b bs Hn _ IH]; intros [s ci cb ch] ri Hh He Hb Hd Hl; cbn [chain ctx_body ctx_headers ctx_in] in *.
  - by exists s.
  - change (through now (b :: bs)) with (OutputBody now b :: OutputHeaders b :: through now bs).
    cbn [serve_all serve chain ctx_body]. rewrite (body_run _ _ _ _ c p ri), Hn by done.
    cbn [obind serve_all serve chain ctx_headers ctx_in ctx_body].
    pose proof (holds_pass b s c p ri (with_answer c b ri) Hh) as Hh1.
    rewrite (headers_run _ _ _ c p (with_answer c b ri)) by done.
    change (mEOS (with_answer c b ri)) with (mEOS ri). rewrite He. unfold pass.
    cbn [obind ctx_body ctx_in].
    match goal with |- context [serve_all ?x _] => destruct (IH x (keepHeadersOut (rec (attached s)) (with_answer c b ri)))
      as (s' & -> & ? & ? & ?) end; try done.
    + exact (holds_pass b _ c p _ _ Hh1).
    + by exists s'.
Qed.

Lemma initiate_async c p s ri :
  objects (attached s) !! p = Some ri -> DupConf.synchronous (snd c) = false ->
  header_in s "X_DUP_LOG" = None -> count_reached (rec (attached s)) = false ->
  exists s' ri', initiateDuplication c p s = Ret s' /\
    gThreadPool s' = ThreadPool.push p (gThreadPool s) /\ objects (attached s') !! p = Some ri' /\
    prepareRequestInfo (fst c) (rec (attached s)) ri = (true, ri').
Proof.
  intros Ho Hsync Hl Hcount. unfold initiateDuplication, deref at 1. rewrite Ho. cbn [of_option obind].
  destruct (prepareRequestInfo_spec (fst c) (rec (attached s)) ri Hcount) as (ri' & -> & _).
  cbn [negb]. change (header_in (write p ri' s) "X_DUP_LOG") with (header_in s "X_DUP_LOG").
  rewrite Hsync, Hl. rewrite (bool_decide_eq_false_2 (is_Some None)) by apply is_Some_None.
  cbn [orb obind].
  assert (Hw : objects (attached (write p ri' s)) !! p = Some ri').
  { by rewrite lookup_write, decide_True, Ho. }
  unfold deref. cbn [attached set_gThreadPool]. rewrite Hw. cbn [of_option obind].
  eexists _, ri'. split; [reflexivity|]. by split_and!.
Qed.

(** [C9] The usual course: the answer goes in brigades through the two output filters.
    When the end of stream has been seen, the request is put in the queue, once,
    with everything its duplicates need: the body read so far, the whole answer
    when a filter of the location asks for it, the headers of the request behind
    those of the module, and the time the request took. The headers of the answer
    are copied at every brigade, not once. *)
Theorem answer_duplicated (now : Z) (r : Request) c p ri bs last :
  holds (chain r) c p ri -> mEOS ri = false -> ctx_body r <> CtxDone -> ctx_headers r <> CtxDone ->
  header_in (chain r) "X_DUP_LOG" = None -> DupConf.synchronous (snd c) = false ->
  count_reached (rec (attached (chain r))) = false ->
  Forall (fun b => has_eos b = false) bs -> has_eos last = true ->
  let q := rec (attached (chain r)) in
  exists r' ri', serve_all r (through now (bs ++ [last])) = Ret r' /\
    gThreadPool (chain r') = ThreadPool.push p (gThreadPool (chain r)) /\
    objects (attached (chain r')) !! p = Some ri' /\
    mBody ri' = mBody ri /\
    mAnswer ri' = mAnswer ri +:+ (if keeps_answer c then str_concat (answer_of <$> bs ++ [last]) else EmptyString) /\
    mHeadersIn ri' = own_headers q ++ mHeadersIn ri ++ apr_table_elts (headers_in q) /\
    mHeadersOut ri' = mHeadersOut ri ++ concat (replicate (S (length bs)) (apr_table_elts (headers_out q))) /\
    mMethod ri' = method q /\ mPath ri' = uri q /\ mArgs ri' = default EmptyString (args q) /\
    mConf ri' = Some (fst c) /\ mPoison ri' = false /\ mElapsedTime ri' = (now - mStartTime ri)%Z /\
    ctx_body r' = CtxDone /\ ctx_headers r' = CtxDone.
Proof.
  intros Hh He Hb Hd Hl Hsync Hcount Hbs Hlast q.
  unfold through. rewrite bind_app. fold (through now bs). rewrite serve_all_app.
  destruct (through_spec now r c p ri bs Hh He Hb Hd Hl Hbs) as (s & -> & Hs & Hq & Hpool).
  destruct (collected_fields q c bs ri) as (Ha & Ho & Hbo & Hi & Heo & Ht & Hid).
  fold q in Hs, Hq, Hcount. set (ri1 := collected q c bs ri) in *.
  assert (Hls : header_in s "X_DUP_LOG" = None) by (unfold header_in; rewrite Hq; exact Hl).
  cbn [obind mbind list_bind app serve_all serve chain ctx_body ctx_headers ctx_in].
  rewrite (body_run _ _ _ _ c p ri1), Hlast by done. cbn [obind chain ctx_body ctx_headers ctx_in].
  rewrite set_eos_first by (transitivity (mEOS ri1); [done|congruence]). change (mStartTime (with_answer c last ri1)) with (mStartTime ri1).
  rewrite Ht. set (ri2 := set_mEOS true _).
  pose proof (holds_pass last s c p ri1 ri2 Hs) as Hh2. set (s2 := set_passed _ _) in *.
  rewrite (headers_run _ _ _ c p ri2) by done. change (mEOS ri2) with true. cbv iota zeta.
  set (ri3 := keepHeadersOut (rec (attached s2)) ri2). set (s3 := write p ri3 s2).
  assert (Hq3 : rec (attached s3) = q) by done.
  assert (Hd3 : objects (attached s3) !! p = Some ri3) by exact (holds_object _ _ _ _ (holds_pass last s2 c p ri2 ri3 Hh2)).
  destruct (initiate_async c p s3 ri3 Hd3 Hsync Hls) as (s4 & ri4 & -> & Hp4 & Ho4 & Hpr); [by rewrite Hq3|].
  destruct (prepareRequestInfo_spec (fst c) q ri3 Hcount)
    as (ri5 & Hpr' & Gh & Gp & Gc & Gm & Gu & Ga & Gb & Gan & Gho & _ & Ge).
  rewrite Hq3, Hpr' in Hpr. injection Hpr as ->. unfold pass. cbn [obind].
  eexists _, ri4. split; [reflexivity|]. cbn [chain ctx_body ctx_headers].
  rewrite Gh, Gm, Gu, Ga, Gb, Gan, Gho, Gc, Gp, Ge.
  subst ri3 ri2. cbn [keepHeadersOut mHeadersIn mBody mAnswer mHeadersOut mElapsedTime set_mHeadersOut
    set_mEOS set_mElapsedTime set_mAnswer with_answer]. rewrite apr_table_do_headers.
  split_and!; try done.
  - cbn. by rewrite Hp4, <- Hpool.
  - rewrite Ha, sapp_assoc. destruct (keeps_answer c); [|done].
    rewrite fmap_app, str_concat_app. cbn. by rewrite sapp_nil_r.
  - by rewrite Hi.
  - rewrite Ho, <- app_assoc. f_equal. change (rec (attached s2)) with (rec (attached s)).
    rewrite Hq. apply concat_replicate_snoc.
Qed.

(** *** The body of the request *)

(** The successive calls of the input filter, with what each gives its caller. *)
Fixpoint read_all (answers : list (Z * list bucket)) (ctx : filter_ctx) (s : Chain) :
    outcome (Chain * filter_ctx * list (Z * list bucket)) :=
  match answers with
  | [] => Ret (s, ctx, [])
  | next :: t =>
      let! '(s, ctx, out) := inputFilterHandler next ctx s in
      let! '(s, ctx, outs) := read_all t ctx s in
      Ret (s, ctx, out :: outs)
  end.

Definition readable (next : Z * list bucket) : bool :=
  Z.eqb (fst next) APR_SUCCESS &&
  negb (existsb (fun b => match b with DATA rv _ => negb (Z.eqb rv APR_SUCCESS) | _ => false end) (snd next)).

Lemma input_done answers s c :
  location s = Some c ->
  read_all answers CtxDone s = Ret (s, CtxDone, replicate (length answers) (APR_SUCCESS, [])).
Proof.
  intros Hl. induction answers as [|next t IH]; [done|]. cbn [read_all].
  unfold inputFilterHandler. rewrite Hl. cbn [obind]. by rewrite IH.
Qed.

Lemma input_run next s c p info :
  location s = Some c -> objects (attached s) !! p = Some info -> readable next = true ->
  inputFilterHandler next (CtxInfo p) s
  = Ret (write p (set_mBody (mBody info +:+ body_of (snd next)) info) s, CtxInfo p, next).
Proof.
  unfold readable. intros Hl Ho [Hst Hr%negb_true_iff]%andb_prop. unfold inputFilterHandler.
  rewrite Hl, Hst. unfold deref. rewrite Ho. cbn [negb of_option obind].
  destruct (appendBuckets_spec (snd next) (mBody info)) as (st & -> & Hok).
  rewrite (Hok Hr). destruct next as [st' pB]. apply Z.eqb_eq in Hst as Hst'. cbn in Hst'. by subst.
Qed.

(** [C31] The input filter does not change what the client sends: while reads succeed
    each brigade is handed on as it is, and the data before the end of stream is
    appended to the body of the request. When the filter below fails, its status is
    handed on, and from then on the filter answers success with no data. *)
Theorem request_body_collected (s : Chain) c p info before rest :
  location s = Some c -> objects (attached s) !! p = Some info ->
  Forall (fun next => readable next = true) before ->
  match rest with [] => True | next :: _ => fst next <> APR_SUCCESS end ->
  exists s' ctx',
    read_all (before ++ rest) (CtxInfo p) s
    = Ret (s', ctx', before ++ firstn 1 rest ++ replicate (length rest - 1) (APR_SUCCESS, [])) /\
    objects (attached s') !! p
    = Some (set_mBody (mBody info +:+ str_concat (body_of <$> (snd <$> before))) info) /\
    idle s s' /\ ctx' = (if rest then CtxInfo p else CtxDone).
Proof.
  intros Hl Ho Hb Hrest. revert s info Hl Ho. induction Hb as [|next before Hn _ IH]; intros s info Hl Ho.
  - cbn [app fmap list_fmap str_concat]. rewrite sapp_nil_r.
    replace (set_mBody (mBody info) info) with info by by destruct info.
    destruct rest as [|next rest]; [by exists s, (CtxInfo p)|].
    exists s, CtxDone. cbn [read_all firstn app length].
    rewrite Nat.sub_succ, Nat.sub_0_r. unfold inputFilterHandler at 1. rewrite Hl.
    destruct (Z.eqb_spec (fst next) APR_SUCCESS) as [|_]; [done|]. cbn [negb obind].
    by rewrite (input_done rest s c Hl).
  - cbn [app read_all]. rewrite (input_run next s c p info) by done. cbn [obind].
    match goal with |- context [write p ?x s] => destruct (IH (write p x s) x) as (s' & ctx' & -> & Ho' & Hi & Hc) end.
    + done.
    + by rewrite lookup_write, decide_True, Ho.
    + cbn [obind]. exists s', ctx'. split_and!; [done| | |done].
      * rewrite Ho'. cbn [fmap list_fmap str_concat mBody set_mBody]. by rewrite sapp_assoc.
      * by etrans; [apply write_idle|].
Qed.

(** *** Loops of duplication *)

(** The value a receiver finds for a header among the lines of a request. *)
Definition header_value (name : string) (lines : list string) : option string :=
  (fun line => str_drop (str_len name + 2) line)
  <$> List.find (fun line => match header_name line with Some k => strcaseeq k name | None => false end) lines.

(** [q'] is a duplicate of [q], as another location configured for duplication
    receives it; the lines [slist] are those the module sends first. *)
Definition forwarded (q q' : request_rec) : Prop :=
  exists c r r' slist,
    prepareRequestInfo c q r = (true, r') /\
    Forall (fun line => match header_name line with Some k => strcaseeq k "X-DUP-COUNT" | None => false end = false) slist /\
    apr_table_get (headers_in q') "X-DUP-COUNT"
    = header_value "X-DUP-COUNT" (addOrigHeaders r' slist).

Lemma find_app_none {X} (f : X -> bool) l l' :
  Forall (fun x => f x = false) l -> List.find f (l ++ l') = List.find f l'.
Proof. induction 1 as [|x l Hx _ IH]; [done|]. cbn. by rewrite Hx. Qed.

Lemma has_char_string_of_Z c z :
  digit_value c = None -> Ascii.eqb "-" c = false -> has_char c (string_of_Z z) = false.
Proof.
  intros Hd Hc. destruct z as [|n|n]; cbn [string_of_Z]; [by apply has_char_string_of_N..|].
  cbn [has_char]. rewrite Hc. by apply has_char_string_of_N.
Qed.

Lemma forwarded_count q q' : forwarded q q' -> dup_count q' = (dup_count q + 1)%Z /\ (dup_count q < 4)%Z.
Proof.
  intros (c & r & r' & slist & Hp & Hs & Hq'). destruct (count_reached q) eqn:E.
  { pose proof (prepareRequestInfo_refused c q r E) as Hf. by rewrite Hp in Hf. }
  destruct (prepareRequestInfo_spec c q r E) as (r1 & Hp1 & Hh & _).
  rewrite Hp in Hp1. injection Hp1 as <-.
  assert (Hv : apr_table_get (headers_in q') "X-DUP-COUNT" = Some (string_of_Z (dup_count q + 1))).
  { rewrite Hq', addOrigHeaders_eq. unfold header_value. rewrite find_app_none by exact Hs.
    rewrite Hh. unfold own_headers. cbn [app copied fst].
    rewrite bool_decide_eq_false_2.
    2: { intros Hin. apply list_elem_of_omap in Hin as (line & Hin & Hn).
         rewrite Forall_forall in Hs. specialize (Hs _ Hin). by rewrite Hn in Hs. }
    change (not_copied "X-DUP-COUNT") with false. cbn [negb andb].
    rewrite fmap_cons. cbn [List.find]. rewrite header_name_line by done.
    change (strcaseeq "X-DUP-COUNT" "X-DUP-COUNT") with true. cbv iota.
    unfold header_line. cbn [fst snd fmap option_fmap option_map]. rewrite cstr_id by (by apply has_char_string_of_Z).
    f_equal. by apply (str_drop_app ("X-DUP-COUNT" +:+ ": ")). }
  split.
  - unfold dup_count at 1. rewrite Hv. apply atoi_string_of_Z.
  - unfold count_reached in E. unfold dup_count in *.
    destruct (apr_table_get (headers_in q) "X-DUP-COUNT"); [|lia].
    rewrite bool_decide_eq_true_2 in E by by eexists. apply Z.leb_gt in E. lia.
Qed.

(** Duplicates of duplicates die out: when the destination of a duplication
    leads back to a duplicating location, whatever the configurations on the way,
    the chain ends after 4 duplications (less what the first request announces). *)
Theorem duplication_loop_ends (n : nat) (q q' : request_rec) :
  nsteps forwarded n q q' -> (Z.of_nat n <= Z.max 0 (4 - dup_count q))%Z.
Proof.
  intros Hn. enough (n <> O -> dup_count q' = (dup_count q + Z.of_nat n)%Z /\ (dup_count q' <= 4)%Z).
  { destruct n; lia. }
  induction Hn as [|n q1 q2 q3 Hf Hn IH]; [done|]. intros _.
  apply forwarded_count in Hf as [Hc Hlt]. destruct n as [|n].
  - inversion Hn; subst. lia.
  - destruct (IH ltac:(done)). lia.
Qed.
End Theory.

(** ** A request at work *)
Module FiltersExamples.
Import TableList Reference CurlExamples.

#[local] Existing Instance boost_string.
#[local] Existing Instance boost_string_laws.
#[local] Existing Instance literal_regex.
#[local] Existing Instance Percent.percent_url.
#[local] Existing Instance ProcessorExamples.draws_7.
#[local] Existing Instance ProcessorExamples.always_running.
#[local] Instance ids : ReqRandom := fun n => Some (100 + N.of_nat n).
#[local] Instance strerror : CurlError := fun _ => "error".
#[local] Instance next_ok : NextFilter := fun _ => 0%Z.

Definition conf : DupConf :=
  setCurrentDuplicationType REQUEST_WITH_ANSWER (set_dirName (Some "/p") newDupConf).

Definition post (hs : list (string * string)) : request_rec :=
  mkRequest "POST" 2 "/p" "/p?a=1" (Some "a=1") 200 5000 hs [("Server", "x")] [] None 0 0.

Definition worker : Worker := {| sender := fresh_sender; draws := 0; reads := 0 |}.

Definition chain_of (hs : list (string * string)) : Chain :=
  mkChain (mkAttached (post hs) None ∅ 0) (Some (Some (7, conf))) newRequestProcessor worker false
    (newThreadPool 99) [].

Definition info : RequestInfo := set_mBody "hello" (RequestInfo_at "u1" 5000).

(** The input filter has read the body. *)
Definition reading : Chain :=
  mkChain (mkAttached (post [("UNIQUE_ID", "u1"); ("X-DUP-COUNT", "2")]) (Some 0) {[0 := info]} 0)
    (Some (Some (7, conf))) newRequestProcessor worker false (newThreadPool 99) [].

Definition started (s : Chain) : Request := mkRequestFilters s CtxNull CtxNull CtxNull.

Definition answer : list (list bucket) := [[DATA 0 (Some "one, "); METADATA]; [DATA 0 (Some "two"); EOS]].

Lemma started_ok hs :
  forallb (fun e => header_key_ok (fst e)) hs = true -> request_ok (started (chain_of hs)).
Proof.
  intros Hh. split; [|done..]. split; [split; constructor| |done|done].
  by apply (Forall_of_forallb (fun e => header_key_ok (fst e))).
Qed.

Lemma duplicated_at_most_once_witness :
  request_ok (started (chain_of [("Content-Type", "text/plain")])) /\
  exists r', serve_all (started (chain_of [("Content-Type", "text/plain")]))
               (OutputHeaders [METADATA] :: Input (0%Z, [DATA 0 (Some "hello"); EOS]) :: through 6000 answer)
             = Ret r' /\
    passed (chain r') = [METADATA] :: (answer ≫= fun b => [b; b]).
Proof.
  assert (Hok : request_ok (started (chain_of [("Content-Type", "text/plain")]))) by by apply started_ok.
  split; [exact Hok|].
  destruct (duplicated_at_most_once _
    (OutputHeaders [METADATA] :: Input (0%Z, [DATA 0 (Some "hello"); EOS]) :: through 6000 answer) Hok)
    as (r' & Hr & _ & Hp & _).
  exists r'. split; [exact Hr|]. rewrite Hp. reflexivity.
Defined.

Lemma answer_duplicated_witness :
  holds reading (7, conf) 0 info /\
  exists r' ri', serve_all (started reading) (through 6000 answer) = Ret r' /\
    gThreadPool (chain r') = ThreadPool.push 0 (newThreadPool 99) /\
    objects (attached (chain r')) !! 0 = Some ri' /\
    mBody ri' = "hello" /\ mAnswer ri' = "one, two" /\
    take 1 (mHeadersIn ri') = [("X-DUP-COUNT", "3")] /\
    mHeadersOut ri' = [("Server", "x"); ("Server", "x")] /\ mElapsedTime ri' = 1000%Z.
Proof.
  assert (Hh : holds reading (7, conf) 0 info) by (split; reflexivity). split; [exact Hh|].
  destruct (answer_duplicated 6000 (started reading) (7, conf) 0 info
    [[DATA 0 (Some "one, "); METADATA]] [DATA 0 (Some "two"); EOS])
    as (r' & ri' & Hr & Hp & Ho & Hb & Ha & Hi & Hho & _ & _ & _ & _ & _ & He & _);
    [exact Hh|reflexivity|done|done|reflexivity|reflexivity|reflexivity|by repeat constructor|reflexivity|].
  exists r', ri'. split_and!; [exact Hr|exact Hp|exact Ho|exact Hb|rewrite Ha; reflexivity| | |].
  - rewrite Hi. reflexivity.
  - rewrite Hho. reflexivity.
  - rewrite He. reflexivity.
Defined.

Lemma request_body_collected_witness :
  exists s' ctx',
    read_all ([(0%Z, [DATA 0 (Some " world"); METADATA])] ++ [(11%Z, []); (0%Z, [EOS])]) (CtxInfo 0) reading
    = Ret (s', ctx', [(0%Z, [DATA 0 (Some " world"); METADATA]); (11%Z, []); (0%Z, [])]) /\
    mBody <$> (objects (attached s') !! 0) = Some "hello world".
Proof.
  destruct (request_body_collected reading (7, conf) 0 info
    [(0%Z, [DATA 0 (Some " world"); METADATA])] [(11%Z, []); (0%Z, [EOS])])
    as (s' & ctx' & Hr & Ho & _); [reflexivity|reflexivity|by repeat constructor|done|].
  exists s', ctx'. split; [exact Hr|]. rewrite Ho. reflexivity.
Defined.

(** The location of [reading] receives the duplicate it sent. *)
Definition looped : request_rec := post [("X-Dup-Count", "3")].

Lemma duplication_loop_ends_witness :
  nsteps forwarded 1 (rec (attached reading)) looped /\
  (Z.of_nat 1 <= Z.max 0 (4 - dup_count (rec (attached reading))))%Z.
Proof.
  assert (Hs : nsteps forwarded 1 (rec (attached reading)) looped).
  { apply nsteps_once.
    destruct (prepareRequestInfo_spec 7 (rec (attached reading)) info) as (r' & Hp & Hh & _); [reflexivity|].
    exists 7, info, r', []. split; [exact Hp|]. split; [constructor|].
    rewrite addOrigHeaders_eq, Hh. reflexivity. }
  split; [exact Hs|]. exact (duplication_loop_ends 1 _ _ Hs).
Defined.
End FiltersExamples.
