(* ===== verification/Migrate.v ===== *)
(** * Migrate

    mod_migrate: its directives (mod_migrate.hh, mod_migrate.cc), the enrichment of
    the request context, the hook that reads the body before the translation of
    the URI, and the filter that gives the body back (filters_migrate.cc). *)
From stdpp Require Import gmap.
From S2P Require Import Prelude CxxString StdMap Boost RequestCommon RequestInfo Apache.
Local Open Scope N_scope.

Import ApplicationScope.

(** [ap_find_linked_module]. *)
Class LinkedModules : Type := ap_find_linked_module : string -> bool.

Module Migrate.
Section Migrate.
Context `{BoostRegex, AprTable}.

(** [MigrateModule::RequestInfo]; [mConf] is the address of the configuration. *)
Record RequestInfo : Type := mkInfo {
  mId : string;
  mBody : string;
  mArgs : string;
  mHeader : string;
  mConf : option N
}.

Definition newRequestInfo (pId : string) (startTime : Z) : RequestInfo :=
  {| mId := pId; mBody := ""; mArgs := ""; mHeader := ""; mConf := None |}.

Record MigrateEnv : Type := mkEnv {
  mVarName : string;
  mMatchRegex : regex;
  mSetValue : string;
  mApplicationScope : eApplicationScope
}.

Record MigrateConf : Type := mkMigrateConf {
  mDirName : option string;
  mCurrentApplicationScope : eApplicationScope;
  mEnvLists : list MigrateEnv
}.

Definition createDirConfig : MigrateConf :=
  {| mDirName := None; mCurrentApplicationScope := ALL; mEnvLists := [] |}.

(** ** Directives

    The configuration of the section, [None] when the pointer is null, and the
    error message, [None] on success. [path] is [pParams->path]. *)

Definition setActive `{LinkedModules} (path : string) (lConf : option MigrateConf) :
    option MigrateConf * option string :=
  match lConf with
  | None => (None, Some "No per_dir conf defined. This should never happen!"%string)
  | Some c =>
      let c := match mDirName c with
               | Some _ => c
               | None => {| mDirName := Some path;
                            mCurrentApplicationScope := mCurrentApplicationScope c;
                            mEnvLists := mEnvLists c |}
               end in
      (Some c,
       if negb (ap_find_linked_module "mod_rewrite.c")
       then Some "'mod_rewrite' is not loaded, Enable mod_rewrite to use mod_migrate"%string
       else if negb (ap_find_linked_module "mod_proxy.c")
       then Some "'mod_proxy' is not loaded, Enable mod_proxy to use mod_migrate"%string
       else if negb (ap_find_linked_module "mod_proxy_http.c")
       then Some "'mod_proxy_http' is not loaded, Enable mod_proxy_http to use mod_migrate"%string
       else None)
  end.

Definition setApplicationScope `{LinkedModules} (path pAppScope : string) (pCfg : option MigrateConf) :
    option MigrateConf * option string :=
  let '(lConf, lErrorMsg) := setActive path pCfg in
  match lErrorMsg, lConf with
  | Some e, _ => (lConf, Some e)
  | None, None => (None, None)
  | None, Some tC =>
      match stringToEnum pAppScope with
      | Ret scope => (Some {| mDirName := mDirName tC; mCurrentApplicationScope := scope;
                              mEnvLists := mEnvLists tC |}, None)
      | Throw _ => (Some tC, Some c_ERROR_ON_STRING_VALUE)
      end
  end.

(** The constructor of the regular expression is not guarded: it throws. *)
Definition setMigrateEnv `{LinkedModules} (path pVarName pMatchRegex pSetValue : string)
    (pCfg : option MigrateConf) : outcome (option MigrateConf * option string) :=
  let '(lConf, lErrorMsg) := setActive path pCfg in
  match lErrorMsg, lConf with
  | Some e, _ => Ret (lConf, Some e)
  | None, None => Ret (None, None)
  | None, Some conf =>
      let! re := of_option BadExpression (regex_make pMatchRegex true) in
      let env := {| mVarName := pVarName; mMatchRegex := re; mSetValue := pSetValue;
                    mApplicationScope := mCurrentApplicationScope conf |} in
      Ret (Some {| mDirName := mDirName conf;
                   mCurrentApplicationScope := mCurrentApplicationScope conf;
                   mEnvLists := mEnvLists conf ++ [env] |}, None)
  end.

(** The table of the directives, by name and arguments. *)
Definition gCmds `{LinkedModules} (name : string) (args : list string) :
    option (string -> option MigrateConf -> outcome (option MigrateConf * option string)) :=
  match args with
  | [a] =>
      if String.eqb name "MigrateApplicationScope"
      then Some (fun path c => Ret (setApplicationScope path a c)) else None
  | [a; b; c] =>
      if String.eqb name "MigrateEnv" then Some (fun path => setMigrateEnv path a b c) else None
  | _ => None
  end.

(** The directives of a location, in order, until the first error: Apache stops at its
    message. *)
Fixpoint load_location `{LinkedModules} (path : string) (c : MigrateConf) (lines : list (string * list string)) :
    outcome (MigrateConf + string) :=
  match lines with
  | [] => Ret (inl c)
  | (name, args) :: rest =>
      match gCmds name args with
      | None => Ret (inr "Invalid command"%string)
      | Some f =>
          let! '(c', err) := f path (Some c) in
          match err with
          | Some msg => Ret (inr msg)
          | None => load_location path (default c c') rest
          end
      end
  end.

(** ** Enrichment *)

Definition setEnvVar (pRequest : request_rec) (ctx : MigrateEnv) (toSet : string) : request_rec * bool :=
  if negb (str_empty toSet)
  then (set_subprocess_env (apr_table_set (mVarName ctx) toSet (subprocess_env pRequest)) pRequest, true)
  else (pRequest, false).

(** One of the three tests of the loop: [part] is matched when the scope has [s]. *)
Definition enrichPart (ctx : MigrateEnv) (s : eApplicationScope) (part : string) (unlessEmpty : bool)
    (rc : request_rec * Z) : request_rec * Z :=
  let '(pRequest, count) := rc in
  if has (mApplicationScope ctx) s && negb (unlessEmpty && str_empty part) then
    let toSet := regex_extract part (mMatchRegex ctx) (mSetValue ctx) in
    let '(pRequest, set) := setEnvVar pRequest ctx toSet in
    (pRequest, (count + if set then 1 else 0)%Z)
  else (pRequest, count).

Definition DECLINED : Z := -1.

(** [conf] is the configuration of the location, [None] when there is none. *)
Definition enrichContext (conf : option MigrateConf) (pRequest : request_rec) (rInfo : RequestInfo) :
    request_rec * Z :=
  match conf with
  | None => (pRequest, DECLINED)
  | Some c =>
      match mDirName c with
      | None => (pRequest, DECLINED)
      | Some _ =>
          foldl (fun rc ctx =>
            let rc := enrichPart ctx QUERY_STRING (mArgs rInfo) false rc in
            let rc := enrichPart ctx BODY (mBody rInfo) true rc in
            enrichPart ctx HEADERS (mHeader rInfo) true rc) (pRequest, 0%Z) (mEnvLists c)
      end
  end.

(** ** The translate-name hook *)

Definition iterateOverHeadersCallBack (headers key value : string) : string :=
  headers +:+ key +:+ ": " +:+ value +:+ String "013" (String "010" EmptyString).

(** The connection of the request: whether it has a pool, whether its bucket
    allocator exists or can be created, and whether a brigade can. *)
Record connection_rec : Type := mkConnection {
  has_pool : bool;
  has_alloc : bool;
  has_brigade : bool
}.

Context `{ReqRandom}.

(** The result is the request, the status (always [DECLINED]) and what is left of
    the [answers] of the input filters; [None] when the body does not end. *)
Definition translateHook (per_dir_config : option (N * MigrateConf)) (c : connection_rec)
    (answers : list (Z * list bucket)) (a : Attached RequestInfo) :
    option (Attached RequestInfo * Z * list (Z * list bucket)) :=
  match per_dir_config with
  | Some (addr, conf) =>
      match mDirName conf with
      | None => Some (a, DECLINED, answers)
      | Some _ =>
          if negb (has_pool c) || negb (has_alloc c) then Some (a, DECLINED, answers)
          else
            let '(p, a) := makeRequestInfo newRequestInfo a in
            if negb (has_brigade c) then Some (a, DECLINED, answers)
            else
              match readBody answers "" with
              | None => None
              | Some (body, rest) =>
                  let pRequest := rec a in
                  let info := {| mId := match objects a !! p with Some i => mId i | None => "" end;
                                 mBody := body;
                                 mArgs := default EmptyString (args pRequest);
                                 mHeader := apr_table_do iterateOverHeadersCallBack "" (headers_in pRequest);
                                 mConf := Some addr |} in
                  let pRequest := fst (enrichContext (Some conf) pRequest info) in
                  Some (mkAttached (set_read_length 0 pRequest) (request_config a)
                          (<[p := info]> (objects a)) (draws_made a), DECLINED, rest)
              end
      end
  | None => Some (a, DECLINED, answers)
  end.

(** ** The input filter that gives the body back

    [ctx] is the context of the filter as the number the source stores in the
    pointer: 0 at first, -1 when everything was given back, the offset otherwise.
    [written] is what [apr_brigade_write] returns, [next] what the next filter
    adds to the brigade. *)
Definition inputFilterBody2Brigade (has_conf : bool) (pReadbytes written : Z) (next : Z * list bucket)
    (ctx : Z) (a : Attached RequestInfo) : outcome (Attached RequestInfo * Z * (Z * list bucket)) :=
  if negb has_conf then Ret (a, ctx, next)
  else
    match request_config a with
    | None => Ret (a, ctx, next)
    | Some p =>
        let! info := of_option StdException (objects a !! p) in
        if Z.eqb ctx (-1) then Ret (a, ctx, next)
        else
          let size := Z.of_N (str_len (mBody info)) in
          let a := if Z.eqb ctx 0 then on_rec (set_remaining size) a else a in
          let bSize := to_int32 size in
          let toRead := to_int32 (Z.min (bSize - ctx) pReadbytes) in
          if (0 <? toRead)%Z then
            if negb (Z.eqb written APR_SUCCESS) then Ret (a, ctx, (written, []))
            else
              let piece := str_take (Z.to_N toRead) (str_drop (Z.to_N ctx) (mBody info)) in
              let read := (ctx + toRead)%Z in
              let a := on_rec (fun q => set_remaining (remaining q - toRead) q) a in
              if (bSize <=? read)%Z
              then Ret (a, -1, (fst next, DATA APR_SUCCESS (Some piece) :: snd next))%Z
              else Ret (a, read, (APR_SUCCESS, [DATA APR_SUCCESS (Some piece)]))
          else if (bSize <=? ctx)%Z then Ret (a, -1, next)%Z
          else Ret (a, ctx, (APR_SUCCESS, []))
    end.
End Migrate.

(** ** Lemmas *)

Section Theory.
Context `{BoostRegex} {T : AprTable} {TL : AprTableLaws T} `{ReqRandom}.

(** *** Enrichment *)

(** The variables the location sets for a request, in order: an entry gives at most
    one per part of the request its scope covers. *)
Definition part_assignment (ctx : MigrateEnv) (x : eApplicationScope * string * bool) :
    option (string * string) :=
  let '(s, part, unlessEmpty) := x in
  if has (mApplicationScope ctx) s && negb (unlessEmpty && str_empty part) then
    let v := regex_extract part (mMatchRegex ctx) (mSetValue ctx) in
    if str_empty v then None else Some (mVarName ctx, v)
  else None.

Definition parts (i : RequestInfo) : list (eApplicationScope * string * bool) :=
  [(QUERY_STRING, mArgs i, false); (BODY, mBody i, true); (HEADERS, mHeader i, true)].

Definition assignments (c : MigrateConf) (i : RequestInfo) : list (string * string) :=
  mEnvLists c ≫= fun ctx => omap (part_assignment ctx) (parts i).

Definition assign (q : request_rec) (vs : list (string * string)) : request_rec :=
  set_subprocess_env (foldl (fun t kv => apr_table_set (fst kv) (snd kv) t) (subprocess_env q) vs) q.

Lemma assign_nil q : assign q [] = q.
Proof. by destruct q. Qed.

Lemma assign_app q a b : assign q (a ++ b) = assign (assign q a) b.
Proof. unfold assign. rewrite foldl_app. by destruct q. Qed.

Lemma enrichPart_spec ctx x q n :
  enrichPart ctx (fst (fst x)) (snd (fst x)) (snd x) (q, n)
  = (assign q (option_list (part_assignment ctx x)),
     (n + Z.of_nat (length (option_list (part_assignment ctx x))))%Z).
Proof.
  destruct x as [[s part] u]. cbn [fst snd]. unfold enrichPart, part_assignment, setEnvVar.
  destruct (has (mApplicationScope ctx) s && negb (u && str_empty part)).
  - destruct (str_empty (regex_extract _ _ _)); cbn [negb option_list length]; [by rewrite assign_nil|done].
  - cbn. by rewrite assign_nil, Z.add_0_r.
Qed.

Lemma enrich_fold c i q n :
  foldl (fun rc ctx =>
    let rc := enrichPart ctx QUERY_STRING (mArgs i) false rc in
    let rc := enrichPart ctx BODY (mBody i) true rc in
    enrichPart ctx HEADERS (mHeader i) true rc) (q, n) c
  = (assign q (c ≫= fun ctx => omap (part_assignment ctx) (parts i)),
     (n + Z.of_nat (length (c ≫= fun ctx => omap (part_assignment ctx) (parts i))))%Z).
Proof.
  revert q n. induction c as [|ctx c IH]; intros q n.
  - cbn. by rewrite assign_nil, Z.add_0_r.
  - cbn [foldl]. cbv zeta.
    rewrite (enrichPart_spec ctx (QUERY_STRING, mArgs i, false)).
    rewrite (enrichPart_spec ctx (BODY, mBody i, true)).
    rewrite (enrichPart_spec ctx (HEADERS, mHeader i, true)).
    rewrite IH, <- !assign_app. rewrite bind_cons.
    replace (omap (part_assignment ctx) (parts i))
      with (option_list (part_assignment ctx (QUERY_STRING, mArgs i, false))
            ++ option_list (part_assignment ctx (BODY, mBody i, true))
            ++ option_list (part_assignment ctx (HEADERS, mHeader i, true))).
    2: { unfold parts. cbn [omap list_omap].
         by destruct (part_assignment ctx (QUERY_STRING, mArgs i, false)),
           (part_assignment ctx (BODY, mBody i, true)), (part_assignment ctx (HEADERS, mHeader i, true)). }
    rewrite !length_app, <- !app_assoc. f_equal. lia.
Qed.

Lemma assign_get q vs k :
  apr_table_get (subprocess_env (assign q vs)) k
  = match List.find (fun e => strcaseeq (fst e) k) (rev vs) with
    | Some e => Some (snd e)
    | None => apr_table_get (subprocess_env q) k
    end.
Proof.
  induction vs as [|v vs IH] using rev_ind; [done|].
  rewrite assign_app, rev_app_distr. cbn [rev app List.find].
  unfold assign at 1. cbn. rewrite apr_get_set. destruct (strcaseeq (fst v) k); [done|exact IH].
Qed.

(** The environment the rewriting rules see: for each variable the last value a
    matching entry of the location gives, in the order of the configuration and,
    within an entry, query string, body, headers; a variable no entry matches keeps
    its value, an entry that matches nothing sets nothing. The count returned is the
    number of assignments, and the request is not changed otherwise. *)
Theorem enriched_environment (c : MigrateConf) (q : request_rec) (i : RequestInfo) :
  let '(q', count) := enrichContext (Some c) q i in
  match mDirName c with
  | None => q' = q /\ count = DECLINED
  | Some _ =>
      count = Z.of_nat (length (assignments c i)) /\
      (forall k, apr_table_get (subprocess_env q') k
                 = match List.find (fun e => strcaseeq (fst e) k) (rev (assignments c i)) with
                   | Some e => Some (snd e)
                   | None => apr_table_get (subprocess_env q) k
                   end) /\
      set_subprocess_env (subprocess_env q) q' = q
  end.
Proof.
  unfold enrichContext. destruct (mDirName c); [|done].
  rewrite enrich_fold. fold (assignments c i). split_and!; [lia|apply assign_get|by destruct q].
Qed.

(** *** Reading the body *)

(** When the stream of the client ends, the hook has kept the whole body, with the
    query and the headers, in the object of the request; it has consumed no answer
    of the filters beyond the end, and always lets the other modules translate the
    URI. *)
Theorem hook_keeps_body addr conf c before last rest (a : Attached RequestInfo) dir :
  mDirName conf = Some dir -> has_pool c = true -> has_alloc c = true -> has_brigade c = true ->
  Forall (fun got => ends got = false) before -> ends last = true ->
  exists a' p info, translateHook (Some (addr, conf)) c (before ++ last :: rest) a = Some (a', DECLINED, rest) /\
    request_config a' = Some p /\ objects a' !! p = Some info /\ objects a !! p = None /\
    mBody info = str_concat (content_of <$> before ++ [last]) /\
    mArgs info = default EmptyString (args (rec a)) /\ mConf info = Some addr /\
    apr_table_get (headers_in (rec a')) c_UNIQUE_ID = Some (mId info) /\
    read_length (rec a') = 0%Z.
Proof.
  intros Hd Hp Hal Hbr Hb Hl. unfold translateHook. rewrite Hd, Hp, Hal, Hbr. cbn [negb orb].
  unfold makeRequestInfo.
  pose proof (getOrSetUniqueID_spec (rec a) (draws_made a)) as Hu.
  assert (Hargs : let '(_, q, _) := getOrSetUniqueID (rec a) (draws_made a) in args q = args (rec a)).
  { unfold getOrSetUniqueID. by destruct (apr_table_get _ _). }
  destruct (getOrSetUniqueID (rec a) (draws_made a)) as [[id q] n]. destruct Hu as (Hu & _).
  rewrite readBody_spec by done. cbn [objects rec request_config draws_made].
  rewrite lookup_insert_eq. cbn [mId newRequestInfo].
  eexists _, (new_address a), _. split; [reflexivity|].
  cbn [objects rec request_config]. rewrite lookup_insert_eq.
  unfold enrichContext. rewrite Hd, enrich_fold. cbn [fst].
  split_and!; try done; [apply new_address_fresh|by rewrite Hargs].
Qed.

(** *** Giving the body back *)

(** Successive reads of the filter, of the given sizes, when [apr_brigade_write]
    succeeds; [nexts] is what the next filter adds each time. *)
Fixpoint read_back (ks : list Z) (nexts : nat -> Z * list bucket) (ctx : Z) (a : Attached RequestInfo) :
    outcome (Attached RequestInfo * Z * list (Z * list bucket)) :=
  match ks with
  | [] => Ret (a, ctx, [])
  | k :: ks' =>
      let! '(a, ctx, out) := inputFilterBody2Brigade true k APR_SUCCESS (nexts (length ks)) ctx a in
      let! '(a, ctx, outs) := read_back ks' nexts ctx a in
      Ret (a, ctx, out :: outs)
  end.

(** One read: the next piece of the body, nothing when it is empty. *)
Lemma body2Brigade_spec k next ctx a p info :
  request_config a = Some p -> objects a !! p = Some info -> body_of (snd next) = "" ->
  let size := Z.of_N (str_len (mBody info)) in
  let read := Z.min size (ctx + k) in
  (0 < k)%Z -> (size < 2147483648)%Z -> (0 <= ctx)%Z -> (ctx < size)%Z \/ ctx = 0%Z ->
  exists q next', inputFilterBody2Brigade true k APR_SUCCESS next ctx a
    = Ret (on_rec (fun _ => q) a, if (size <=? read)%Z then (-1)%Z else read, next') /\
  body_of (snd next') = str_take (Z.to_N (read - ctx)) (str_drop (Z.to_N ctx) (mBody info)) /\
  remaining q = ((if Z.eqb ctx 0 then size else remaining (rec a)) - (read - ctx))%Z.
Proof.
  intros Hc Ho Hn size read Hk Hs Hctx Hlt. unfold inputFilterBody2Brigade. cbn [negb].
  rewrite Hc, Ho. cbn [of_option obind]. fold size.
  replace (Z.eqb ctx (-1)) with false by (symmetry; apply Z.eqb_neq; lia).
  rewrite (to_int32_small size) by lia.
  rewrite to_int32_small by lia.
  destruct (Z.ltb_spec 0 (Z.min (size - ctx) k)) as [Hpos|Hpos].
  - change (negb (Z.eqb APR_SUCCESS APR_SUCCESS)) with false. cbv iota.
    replace (ctx + Z.min (size - ctx) k)%Z with read by lia.
    replace (Z.min (size - ctx) k) with (read - ctx)%Z by lia.
    exists (set_remaining ((if Z.eqb ctx 0 then size else remaining (rec a)) - (read - ctx)) (rec a)).
    destruct (Z.eqb ctx 0), (size <=? read)%Z; eexists; (split; [reflexivity|]);
      (split; [|done]); cbn; rewrite ?Hn, ?sapp_nil_r; done.
  - assert (size = 0 /\ ctx = 0)%Z as [Hs0 ->] by (subst size; lia).
    assert (Hb : mBody info = "") by (apply str_len_0; subst size; lia).
    exists (set_remaining size (rec a)), next. cbn [Z.eqb].
    replace (size <=? 0)%Z with true by (symmetry; apply Z.leb_le; lia).
    replace (size <=? read)%Z with true by (symmetry; apply Z.leb_le; subst read; lia).
    split; [done|]. rewrite Hn, Hb. split; [done|]. cbn. subst read. lia.
Qed.

Lemma read_back_done ks nexts a p info :
  request_config a = Some p -> objects a !! p = Some info -> (forall n, body_of (snd (nexts n)) = "") ->
  exists outs, read_back ks nexts (-1) a = Ret (a, (-1)%Z, outs) /\
    str_concat ((fun o => body_of (snd o)) <$> outs) = "".
Proof.
  intros Hc Ho Hn. induction ks as [|k ks (outs & IH & He)]; [by exists []|].
  cbn [read_back]. unfold inputFilterBody2Brigade at 1. rewrite Hc, Ho. cbn [negb of_option obind].
  rewrite Z.eqb_refl. cbn [obind]. rewrite IH. cbn [obind]. eexists. split; [reflexivity|]. cbn. by rewrite Hn, He.
Qed.

Lemma read_back_spec ks nexts ctx a p info :
  request_config a = Some p -> objects a !! p = Some info -> (forall n, body_of (snd (nexts n)) = "") ->
  let size := Z.of_N (str_len (mBody info)) in
  Forall (fun k => 0 < k)%Z ks -> (size < 2147483648)%Z ->
  ctx = 0%Z \/ (0 < ctx < size /\ remaining (rec a) = size - ctx)%Z ->
  exists a' ctx' outs, read_back ks nexts ctx a = Ret (a', ctx', outs) /\
    str_concat ((fun o => body_of (snd o)) <$> outs)
    = str_take (Z.to_N (zsum ks)) (str_drop (Z.to_N ctx) (mBody info)) /\
    (ks = [] -> a' = a /\ ctx' = ctx) /\
    (ks <> [] -> remaining (rec a') = size - Z.min size (ctx + zsum ks) /\
                 ctx' = if size <=? ctx + zsum ks then -1 else ctx + zsum ks)%Z.
Proof.
  intros Hc Ho Hn size Hks Hs. revert ctx a Hc Ho.
  induction Hks as [|k ks Hk Hks IH]; intros ctx a Hc Ho Hctx.
  { exists a, ctx, []. split_and!; [done| |done|done]. cbn. by destruct (str_drop _ _). }
  pose proof (zsum_nonneg ks Hks) as Hsum. cbn [read_back].
  destruct (body2Brigade_spec k (nexts (length (k :: ks))) ctx a p info)
    as (q & next' & -> & Hb & Hr); [done|done|done|done|done|lia|fold size; lia|].
  cbn [obind]. fold size in Hr |- *. set (read := Z.min size (ctx + k)) in *.
  assert (Hr' : remaining q = (size - read)%Z) by (destruct (Z.eqb_spec ctx 0); lia).
  assert (Hpiece : forall n, (read - ctx <= n)%Z -> (size <= read)%Z ->
    body_of (snd next') = str_take (Z.to_N n) (str_drop (Z.to_N ctx) (mBody info))).
  { intros n Hn1 Hn2. rewrite Hb, !str_take_all; [done|rewrite str_len_drop; lia..]. }
  destruct (Z.leb_spec size read) as [Hend|Hend].
  - destruct (read_back_done ks nexts (on_rec (fun _ => q) a) p info Hc Ho Hn) as (outs & -> & He).
    cbn [obind]. do 3 eexists. split; [reflexivity|]. cbn [fmap list_fmap str_concat zsum foldr]. split_and!; [|done|].
    + fold (zsum ks). rewrite He, sapp_nil_r. apply Hpiece; lia.
    + intros _. fold (zsum ks). cbn. rewrite Hr'.
      replace (size <=? ctx + (k + zsum ks))%Z with true by (symmetry; apply Z.leb_le; lia).
      split; [lia|done].
  - assert (read = ctx + k)%Z as Hread by lia.
    destruct (IH read (on_rec (fun _ => q) a) Hc Ho) as (a' & ctx' & outs & -> & Hcat & Hnil & Hend').
    { right. cbn. split; [|exact Hr']. destruct Hctx; lia. }
    cbn [obind]. do 3 eexists. split; [reflexivity|]. cbn [fmap list_fmap str_concat zsum foldr]. split_and!; [|done|].
    + fold (zsum ks). rewrite Hcat, Hb, Hread. fold size read.
      replace (read - ctx)%Z with k by lia.
      replace (Z.to_N (ctx + k)) with (Z.to_N k + Z.to_N ctx) by lia.
      rewrite <- str_drop_drop, str_take_add. f_equal. lia.
    + intros _. fold (zsum ks). destruct ks as [|k' ks'].
      * destruct Hnil as [-> ->]; [done|]. cbn. rewrite Hr'.
        replace (size <=? ctx + (k + 0))%Z with false by (symmetry; apply Z.leb_gt; lia). lia.
      * destruct Hend' as [-> ->]; [done|]. rewrite Hread, Z.add_assoc. done.
Qed.

(** [C28] What the hook read is given back unchanged to whoever reads the request
    afterwards, however the reads are sized: the data returned is the prefix of the
    body as long as the sizes asked for, [remaining] is what is left, and the filter
    is over exactly when everything was given. *)
Theorem body_given_back (a : Attached RequestInfo) p info ks nexts :
  request_config a = Some p -> objects a !! p = Some info ->
  (forall n, body_of (snd (nexts n)) = "") -> ks <> [] -> Forall (fun k => 0 < k)%Z ks ->
  let size := Z.of_N (str_len (mBody info)) in
  (size < 2147483648)%Z ->
  exists a' ctx' outs, read_back ks nexts 0 a = Ret (a', ctx', outs) /\
    str_concat ((fun o => body_of (snd o)) <$> outs) = str_take (Z.to_N (zsum ks)) (mBody info) /\
    remaining (rec a') = (size - Z.min size (zsum ks))%Z /\
    ctx' = (if size <=? zsum ks then -1 else zsum ks)%Z.
Proof.
  intros Hc Ho Hn Hne Hks size Hs.
  destruct (read_back_spec ks nexts 0 a p info Hc Ho Hn Hks Hs (or_introl eq_refl))
    as (a' & ctx' & outs & Hr & Hcat & _ & Hend).
  destruct (Hend Hne) as [Hrem Hctx]. exists a', ctx', outs. split_and!; [done| |done|done].
  rewrite Hcat. by destruct (mBody info).
Qed.

(** *** Directives *)

(** A [MigrateEnv] directive either adds exactly its entry, at the end of the list
    and with the scope declared last, in an active location, or reports an error and
    adds nothing; an invalid regular expression is not reported but thrown. *)
Theorem setMigrateEnv_adds `{LinkedModules} path var re value c :
  let linked := ap_find_linked_module "mod_rewrite.c" && ap_find_linked_module "mod_proxy.c"
                && ap_find_linked_module "mod_proxy_http.c" in
  match setMigrateEnv path var re value (Some c) with
  | Ret (Some c', None) =>
      linked = true /\ is_Some (mDirName c') /\
      exists r, regex_make re true = Some r /\
        mEnvLists c' = mEnvLists c ++ [mkEnv var r value (mCurrentApplicationScope c)]
  | Ret (Some c', Some _) => linked = false /\ mEnvLists c' = mEnvLists c
  | Ret (None, _) => False
  | Throw e => linked = true /\ e = BadExpression /\ regex_make re true = None
  end.
Proof.
  unfold setMigrateEnv, setActive.
  destruct (ap_find_linked_module "mod_rewrite.c"), (ap_find_linked_module "mod_proxy.c"),
    (ap_find_linked_module "mod_proxy_http.c"), (mDirName c) eqn:E; cbn; try done;
  destruct (regex_make re true) eqn:Er; cbn; try done; rewrite ?E; (split_and!; [done|by eexists|by eexists]).
Qed.

(** The variables that some directives declare, each with the scope declared last before
    it. *)
Fixpoint declared (scope : eApplicationScope) (lines : list (string * list string)) : list MigrateEnv :=
  match lines with
  | (_, [a]) :: rest => declared (get_ret scope (stringToEnum a)) rest
  | (_, [var; re; value]) :: rest =>
      match regex_make re true with
      | Some r => mkEnv var r value scope :: declared scope rest
      | None => []
      end
  | _ => []
  end.

Lemma setApplicationScope_inv `{LinkedModules} path a c c' :
  setApplicationScope path a (Some c) = (c', None) ->
  exists d scope, c' = Some d /\ is_Some (mDirName d) /\ mEnvLists d = mEnvLists c /\
    stringToEnum a = Ret scope /\ mCurrentApplicationScope d = scope.
Proof.
  unfold setApplicationScope, setActive. intros Hs. repeat case_match; simplify_eq; cbn in *;
    (eexists _, _; split_and!; [reflexivity|cbn; by eexists|done|done|done]).
Qed.

Lemma setMigrateEnv_inv `{LinkedModules} path var re value c c' :
  setMigrateEnv path var re value (Some c) = Ret (c', None) ->
  exists d r, c' = Some d /\ is_Some (mDirName d) /\ regex_make re true = Some r /\
    mEnvLists d = mEnvLists c ++ [mkEnv var r value (mCurrentApplicationScope c)] /\
    mCurrentApplicationScope d = mCurrentApplicationScope c.
Proof.
  unfold setMigrateEnv, setActive, of_option, obind. intros Hs. repeat case_match; simplify_eq; cbn in *;
    (eexists _, _; split_and!; [reflexivity|cbn; by eexists|done|done|done]).
Qed.

(** The directives of a location, when Apache accepts them: the variables are those the
    directives declare, in their order, each with the scope in force at its line; the
    location is active as soon as there is a directive. *)
Theorem location_loaded `{LinkedModules} path c lines c' :
  load_location path c lines = Ret (inl c') ->
  mEnvLists c' = mEnvLists c ++ declared (mCurrentApplicationScope c) lines /\
  (lines <> [] -> is_Some (mDirName c')).
Proof.
  assert (Hgo : load_location path c lines = Ret (inl c') ->
    mEnvLists c' = mEnvLists c ++ declared (mCurrentApplicationScope c) lines /\
    (is_Some (mDirName c) \/ lines <> [] -> is_Some (mDirName c'))).
  { revert c. induction lines as [|[name args] lines IH]; intros c; cbn [load_location].
    { intros [= ->]. rewrite app_nil_r. split; [done|]. by intros []. }
    unfold gCmds. destruct args as [|a [|b [|v [|x args]]]]; try done;
      (destruct (String.eqb name _); [|done]); cbn [obind].
    - destruct (setApplicationScope path a (Some c)) as [d [err|]] eqn:Hs; [done|].
      apply setApplicationScope_inv in Hs as (e & scope & -> & Hdir & Henv & Hsc & Hcur). cbn [default from_option id].
      intros [He Hd]%IH. cbn [declared]. rewrite He, Henv, Hcur, Hsc. split; [done|]. intros _. apply Hd. by left.
    - destruct (setMigrateEnv path a b v (Some c)) as [[d [err|]]|e] eqn:Hs; try done.
      apply setMigrateEnv_inv in Hs as (e & r & -> & Hdir & Hr & Henv & Hcur). cbn [obind default from_option id].
      intros [He Hd]%IH. cbn [declared]. rewrite He, Henv, Hcur, Hr, <- app_assoc. split; [done|].
      intros _. apply Hd. by left. }
  intros [He Hd]%Hgo. split; [done|]. intros Hne. apply Hd. by right.
Qed.
End Theory.
End Migrate.

(** ** A location that migrates *)
Module MigrateExamples.
Import TableList Reference Migrate.

#[local] Existing Instance literal_regex.
#[local] Instance ids : ReqRandom := fun n => Some (100 + N.of_nat n).
#[local] Instance all_linked : LinkedModules := fun _ => true.

Definition re (p : string) : regex := {| pattern := p; icase := true |}.

Definition conf : MigrateConf :=
  {| mDirName := Some "/p"; mCurrentApplicationScope := ALL;
     mEnvLists := [mkEnv "TARGET" (re "old") "new" ALL; mkEnv "target" (re "body") "b" BODY;
                   mkEnv "OTHER" (re "zzz") "z" ALL] |}.

Definition req : request_rec :=
  mkRequest "POST" 2 "/p" "/p?v=OLD" (Some "v=OLD") 200 5000 [("Host", "h")] [] [("PATH", "/bin")] None 0 0.

Definition start : Attached RequestInfo := mkAttached req None ∅ 0.

Definition answers : list (Z * list bucket) :=
  [(0%Z, [DATA 0 (Some "the "); METADATA]); (0%Z, [DATA 0 (Some "body"); EOS]); (0%Z, [EOS])].

Definition read_info : RequestInfo :=
  {| mId := "100"; mBody := "the body"; mArgs := "v=OLD"; mHeader := ""; mConf := Some 7 |}.

Lemma enriched_environment_witness :
  let '(q', count) := enrichContext (Some conf) req read_info in
  count = 2%Z /\ apr_table_get (subprocess_env q') "TARGET" = Some "b" /\
  apr_table_get (subprocess_env q') "OTHER" = None /\
  apr_table_get (subprocess_env q') "PATH" = Some "/bin".
Proof.
  pose proof (enriched_environment conf req read_info) as He.
  destruct (enrichContext (Some conf) req read_info) as [q' count].
  destruct He as (Hc & He & _). rewrite !He, Hc. by split_and!.
Defined.

Lemma hook_keeps_body_witness :
  exists a' p info,
    translateHook (Some (7, conf)) (mkConnection true true true) answers start
    = Some (a', DECLINED, [(0%Z, [EOS])]) /\
    objects a' !! p = Some info /\ mBody info = "the body" /\ mArgs info = "v=OLD" /\
    request_config a' = Some p.
Proof.
  destruct (hook_keeps_body 7 conf (mkConnection true true true)
    [(0%Z, [DATA 0 (Some "the "); METADATA])] (0%Z, [DATA 0 (Some "body"); EOS]) [(0%Z, [EOS])] start "/p")
    as (a' & p & info & Ht & Hc & Ho & _ & Hb & Ha & _); try reflexivity; [by repeat constructor|].
  exists a', p, info. by split_and!.
Defined.

Lemma body_given_back_witness :
  exists a' ctx' outs,
    read_back [3; 2]%Z (fun _ => (0%Z, [EOS])) 0 (mkAttached req (Some 0) {[0 := read_info]} 0)
    = Ret (a', ctx', outs) /\
    str_concat ((fun o => body_of (snd o)) <$> outs) = "the b" /\ remaining (rec a') = 3%Z /\ ctx' = 5%Z.
Proof.
  destruct (body_given_back (mkAttached req (Some 0) {[0 := read_info]} 0) 0 read_info [3; 2]%Z
    (fun _ => (0%Z, [EOS]))) as (a' & ctx' & outs & Hr & Hs & Hrem & Hctx);
    [done|done|done|done|by repeat constructor|done|].
  exists a', ctx', outs. split_and!; [exact Hr|rewrite Hs; reflexivity|rewrite Hrem; reflexivity|rewrite Hctx; reflexivity].
Defined.

Lemma setMigrateEnv_adds_witness :
  mEnvLists <$> match setMigrateEnv "/p" "X" "abc" "1" (Some createDirConfig) with
                | Ret (c, None) => c | _ => None end
  = Some [mkEnv "X" (re "abc") "1" ALL].
Proof.
  pose proof (setMigrateEnv_adds "/p" "X" "abc" "1" createDirConfig) as Ha.
  cbv zeta in Ha. destruct (setMigrateEnv "/p" "X" "abc" "1" (Some createDirConfig)) as [[[c'|] [e|]]|e].
  - by destruct Ha.
  - destruct Ha as (_ & _ & r & Hr & Hl). injection Hr as <-. exact (f_equal Some Hl).
  - done.
  - done.
  - by destruct Ha as (_ & _ & Hr).
Defined.
End MigrateExamples.
