(* ===== verification/DiffPrinter.v ===== *)
(** * DiffPrinter

    The abstract class of DiffPrinter/diffPrinter.hh as a type class, and the
    calls a client makes on a printer. The numbers given as [double] are whole
    milliseconds, so they are integers here. *)
From S2P Require Import Prelude CxxString StdMap.

Inductive diffTypeAvailable : Type := JSON | UTF8JSON | MULTILINE.

#[export] Instance diffTypeAvailable_eq_dec : EqDecision diffTypeAvailable.
Proof. solve_decision. Defined.

Definition diffTypeStr (d : diffTypeAvailable) : string :=
  match d with
  | MULTILINE => "MULTILINE"
  | JSON => "SIMPLEJSON"
  | UTF8JSON => "UTF8JSON"
  end.

(** The virtual methods. [retrieveDiff] appends to its argument, except for the
    UTF-8 printer, which replaces it. *)
Class DiffPrinter (P : Type) : Type := {
  isDiff : P -> bool;
  getPrinterType : P -> diffTypeAvailable;
  addInfo : string -> string -> P -> P;
  addInfoNumber : string -> Z -> P -> P;
  addRequestUri : string -> string -> P -> P;
  addRequestBody : string -> P -> P;
  addRequestHeader : string -> string -> P -> P;
  addStatus : string -> Z -> P -> P;
  addRuntime : string -> Z -> P -> P;
  addCassandraDiff : string -> string -> string -> string -> P -> P;
  addHeaderDiff : string -> option string -> option string -> P -> P;
  addFullDiff : string -> P -> P;
  retrieveDiff : string -> P -> P * string * bool
}.

(** A call of a printer, so that what a client does with one is a list. *)
Inductive printer_call : Type :=
  | Info (key value : string)
  | InfoNumber (key : string) (value : Z)
  | RequestUri (uri paramsBody : string)
  | RequestBody (body : string)
  | RequestHeader (key value : string)
  | Status (service : string) (statusCode : Z)
  | Runtime (service : string) (milli : Z)
  | CassDiff (fieldName multiValue dbValue reqValue : string)
  | HeaderDiff (key : string) (srcValue dstValue : option string)
  | FullDiff (diffLines : string).

#[export] Instance printer_call_eq_dec : EqDecision printer_call.
Proof. solve_decision. Defined.

Definition call_printer {P} `{DiffPrinter P} (p : P) (c : printer_call) : P :=
  match c with
  | Info k v => addInfo k v p
  | InfoNumber k v => addInfoNumber k v p
  | RequestUri u b => addRequestUri u b p
  | RequestBody b => addRequestBody b p
  | RequestHeader k v => addRequestHeader k v p
  | Status s c => addStatus s c p
  | Runtime s m => addRuntime s m p
  | CassDiff f m d r => addCassandraDiff f m d r p
  | HeaderDiff k s d => addHeaderDiff k s d p
  | FullDiff d => addFullDiff d p
  end.

Definition call_all {P} `{DiffPrinter P} (p : P) (l : list printer_call) : P := foldl call_printer p l.

Lemma fold_calls {P A} `{DiffPrinter P} (f : A -> printer_call) (l : list A) (p : P) :
  foldl (fun p e => call_printer p (f e)) p l = call_all p (f <$> l).
Proof. revert p. induction l as [|x l IH]; intros p; [done|]. apply IH. Qed.

(** The calls that make a difference, whatever the printer. *)
Definition differs (c : printer_call) : bool :=
  match c with
  | CassDiff _ _ _ _ | HeaderDiff _ _ _ => true
  | FullDiff d => negb (str_empty d)
  | _ => false
  end.

(** What every printer promises its clients; a client never gives an empty difference
    to [addFullDiff]. *)
Class PrinterLaws (P : Type) `{DiffPrinter P} : Prop := {
  diff_kept p c : isDiff p = true -> isDiff (call_printer p c) = true;
  diff_shown p c : differs c = true -> isDiff (call_printer p c) = true;
  type_kept p c : getPrinterType (call_printer p c) = getPrinterType p;
  plain_calls p c :
    match c with FullDiff _ => True | _ => differs c = false -> isDiff (call_printer p c) = isDiff p end;
  retrieved p res : snd (retrieveDiff res p) = isDiff p;
  retrieved_type p res : getPrinterType (fst (fst (retrieveDiff res p))) = getPrinterType p
}.

(** [createDiffPrinter(id, type)] *)
Class PrinterFactory (P : Type) : Type := createDiffPrinter : string -> diffTypeAvailable -> P.

(** A new printer has nothing to show. *)
Class FactoryLaws (P : Type) `{DiffPrinter P, PrinterFactory P} : Prop :=
  new_shows_nothing id t : isDiff (createDiffPrinter id t) = false.

Section Laws.
Context {P : Type} `{PrinterLaws P}.

Lemma call_all_app p a b : call_all p (a ++ b) = call_all (call_all p a) b.
Proof. apply foldl_app. Qed.

Lemma call_all_kept p l : isDiff p = true -> isDiff (call_all p l) = true.
Proof. revert p. induction l as [|c l IH]; intros p Hp; [done|]. by apply IH, diff_kept. Qed.

(** A printer shows a difference as soon as one call made one. *)
Lemma call_all_shown p l : existsb differs l = true -> isDiff (call_all p l) = true.
Proof.
  revert p. induction l as [|c l IH]; intros p; [done|]. cbn [existsb]. intros [Hc|Hl]%orb_prop.
  - change (isDiff (call_all (call_printer p c) l) = true). by apply call_all_kept, diff_shown.
  - by apply (IH (call_printer p c)).
Qed.

(** The calls of a client decide alone whether there is a difference to show. *)
Lemma call_all_diff p l :
  Forall (fun c => differs c = true \/ match c with FullDiff _ => False | _ => True end) l ->
  isDiff (call_all p l) = isDiff p || existsb differs l.
Proof.
  revert p. induction l as [|c l IH]; intros p Hl; [by rewrite orb_false_r|].
  apply Forall_cons in Hl as [Hc Hl]. change (call_all p (c :: l)) with (call_all (call_printer p c) l).
  rewrite IH by done. cbn [existsb]. destruct (differs c) eqn:Ec.
  - by rewrite diff_shown, orb_true_r.
  - destruct Hc as [|Hc]; [done|]. pose proof (plain_calls p c) as Hp. destruct c; try done; by rewrite Hp.
Qed.

Lemma call_all_type p l : getPrinterType (call_all p l) = getPrinterType p.
Proof. revert p. induction l as [|c l IH]; intros p; [done|]. etrans; [apply IH|apply type_kept]. Qed.
End Laws.

(** ** A reference printer: it keeps its calls *)
Module Trace.
Definition shows (c : printer_call) : bool :=
  match c with FullDiff _ => true | _ => differs c end.

#[export] Instance trace_printer : DiffPrinter (list printer_call) := {
  isDiff := existsb shows;
  getPrinterType := fun _ => MULTILINE;
  addInfo k v p := p ++ [Info k v];
  addInfoNumber k v p := p ++ [InfoNumber k v];
  addRequestUri u b p := p ++ [RequestUri u b];
  addRequestBody b p := p ++ [RequestBody b];
  addRequestHeader k v p := p ++ [RequestHeader k v];
  addStatus s c p := p ++ [Status s c];
  addRuntime s m p := p ++ [Runtime s m];
  addCassandraDiff f m d r p := p ++ [CassDiff f m d r];
  addHeaderDiff k s d p := p ++ [HeaderDiff k s d];
  addFullDiff d p := p ++ [FullDiff d];
  retrieveDiff res p := (p, res, existsb shows p)
}.

Lemma trace_call (p : list printer_call) c : call_printer p c = p ++ [c].
Proof. by destruct c. Qed.

#[export] Instance trace_laws : PrinterLaws (list printer_call).
Proof.
  split; [| |done| |done|done]; intros p c; rewrite trace_call; cbn; rewrite existsb_app; cbn.
  - intros Hp. by rewrite Hp.
  - intros Hc. replace (shows c) with true by by destruct c. by rewrite orb_true_r.
  - destruct c; cbn; try done; intros _; by rewrite orb_false_r.
Qed.

Lemma trace_calls (p l : list printer_call) : call_all p l = p ++ l.
Proof.
  revert p. induction l as [|c l IH]; intros p; [by rewrite app_nil_r|].
  change (call_all (call_printer p c) l = p ++ c :: l). by rewrite trace_call, IH, <- app_assoc.
Qed.
End Trace.
