(* ===== verification/MultilineDiffPrinter.v ===== *)
(** * MultilineDiffPrinter

    DiffPrinter/multilineDiffPrinter.hh and .cc: the text is kept in one string per
    part of the report, and put together in the order of the parts. *)
From S2P Require Import Prelude CxxString StdMap DiffPrinter.
Local Open Scope N_scope.

Inductive diffPartitionning : Type :=
  | BEGIN | INFO | RUNTIME | STATUS | URI | HEADER | BODY | CASSDIFF | HEADERDIFF | BODYDIFF.

#[export] Instance diffPartitionning_eq_dec : EqDecision diffPartitionning.
Proof. solve_decision. Defined.

(** The value of the enumerator, the order of the map of streams. *)
Definition partition_value (d : diffPartitionning) : N :=
  match d with
  | BEGIN => 0 | INFO => 1 | RUNTIME => 2 | STATUS => 3 | URI => 4 | HEADER => 5 | BODY => 6
  | CASSDIFF => 7 | HEADERDIFF => 8 | BODYDIFF => 9
  end.

#[export] Instance partition_less : CxxLess diffPartitionning :=
  fun a b => partition_value a <? partition_value b.

#[export] Instance partition_swo : StrictWeakOrder diffPartitionning.
Proof. split; unfold less, partition_less; intros []; try intros []; try intros []; done. Qed.

#[export] Instance partition_total : TotalKeys diffPartitionning.
Proof. unfold TotalKeys, less, partition_less. intros [] []; done. Qed.

Definition SEPARATOR : string := "-------------------" +:+ endl.

Definition prettyfyStartLine (d : diffPartitionning) : option string :=
  match d with
  | RUNTIME => Some "Elapsed time for requests (ms):"%string
  | URI => Some "URI : "%string
  | STATUS => Some "Http Status Codes:"%string
  | _ => None
  end.

Definition prettyfyEndLine (d : diffPartitionning) : option string :=
  match d with RUNTIME | STATUS => Some endl | _ => None end.

Definition partitionSeparator (d : diffPartitionning) : string :=
  match d with
  | BEGIN | INFO | RUNTIME | STATUS | URI => ""
  | HEADER => "---REQ_HEADER---" +:+ endl
  | BODY => "---REQ_BODY---" +:+ endl
  | CASSDIFF => "---CASS_DIFF---" +:+ endl
  | HEADERDIFF => "---HDR_DIFF---" +:+ endl
  | BODYDIFF => "---BODY_DIFF---" +:+ endl
  end.

(** [printerType] is set by the constructor to MULTILINE and never changed. *)
Record multilineDiffPrinter : Type := mkMultiline {
  isADiff : bool;
  id : string;
  hadPreviousCassDiff : bool;
  streams : list (diffPartitionning * string)
}.

(** [getStream(part)->append(text)] *)
Definition append_to (part : diffPartitionning) (text : string) (p : multilineDiffPrinter) :
    multilineDiffPrinter :=
  {| isADiff := isADiff p; id := id p; hadPreviousCassDiff := hadPreviousCassDiff p;
     streams := std_modify EmptyString (fun s => s +:+ text) part (streams p) |}.

Definition set_isADiff (p : multilineDiffPrinter) : multilineDiffPrinter :=
  {| isADiff := true; id := id p; hadPreviousCassDiff := hadPreviousCassDiff p; streams := streams p |}.

Definition newMultiline (id_ : string) : multilineDiffPrinter :=
  append_to BEGIN ("BEGIN NEW REQUEST DIFFERENCE n: " +:+ id_ +:+ endl)
    {| isADiff := false; id := id_; hadPreviousCassDiff := false; streams := [] |}.

Definition ml_addInfo (key value : string) : multilineDiffPrinter -> multilineDiffPrinter :=
  append_to INFO (key +:+ " : " +:+ value +:+ endl).

Definition ml_addInfoNumber (key : string) (value : Z) : multilineDiffPrinter -> multilineDiffPrinter :=
  append_to INFO (key +:+ " : " +:+ string_of_Z value +:+ endl).

Definition ml_addRequestUri (uri paramsBody : string) (p : multilineDiffPrinter) : multilineDiffPrinter :=
  let p := append_to URI uri p in
  let p := if str_empty paramsBody then p else append_to URI paramsBody p in
  append_to URI endl p.

Definition ml_addRequestBody (body : string) (p : multilineDiffPrinter) : multilineDiffPrinter :=
  if str_empty body then p else append_to BODY endl (append_to BODY body p).

Definition ml_addRequestHeader (key value : string) : multilineDiffPrinter -> multilineDiffPrinter :=
  append_to HEADER (key +:+ " : " +:+ value +:+ endl).

Definition ml_addStatus (service : string) (statusCode : Z) : multilineDiffPrinter -> multilineDiffPrinter :=
  append_to STATUS (" " +:+ service +:+ " " +:+ string_of_Z statusCode).

Definition ml_addRuntime (service : string) (milli : Z) : multilineDiffPrinter -> multilineDiffPrinter :=
  append_to RUNTIME (" " +:+ service +:+ " " +:+ string_of_Z milli).

Definition ml_addHeaderDiff (key : string) (srcValue dstValue : option string) (p : multilineDiffPrinter) :
    multilineDiffPrinter :=
  append_to HEADERDIFF
    (key +:+ " ==> " +:+ default EmptyString srcValue +:+ "/" +:+ default EmptyString dstValue +:+ endl)
    (set_isADiff p).

Definition cass_text (fieldName multiValue dbValue reqValue : string) : string :=
  "Field name in the db : '" +:+ fieldName +:+ "'" +:+ endl +:+
  "Multivalue/Collection index/key : '" +:+ multiValue +:+ "'" +:+ endl +:+
  "Value retrieved in Database : '" +:+ dbValue +:+ "'" +:+ endl +:+
  "Value about to be set from Request : '" +:+ reqValue +:+ "'" +:+ endl.

Definition ml_addCassandraDiff (fieldName multiValue dbValue reqValue : string)
    (p : multilineDiffPrinter) : multilineDiffPrinter :=
  let p := append_to CASSDIFF
             ((if hadPreviousCassDiff p then SEPARATOR else EmptyString)
              +:+ cass_text fieldName multiValue dbValue reqValue) (set_isADiff p) in
  {| isADiff := isADiff p; id := id p; hadPreviousCassDiff := true; streams := streams p |}.

(** The overload that takes a vector of lines, and the one that takes the text. *)
Definition ml_addFullDiffLines (diffLines : list string) (p : multilineDiffPrinter) : multilineDiffPrinter :=
  foldl (fun p l => append_to BODYDIFF (l +:+ endl) p) (set_isADiff p) diffLines.

Definition ml_addFullDiff (diffLines : string) (p : multilineDiffPrinter) : multilineDiffPrinter :=
  append_to BODYDIFF (diffLines +:+ endl) (set_isADiff p).

Definition print_part (res : string) (e : diffPartitionning * string) : string :=
  let '(part, text) := e in
  if str_empty text then res
  else res +:+ partitionSeparator part +:+ default EmptyString (prettyfyStartLine part)
           +:+ text +:+ default EmptyString (prettyfyEndLine part).

Definition ml_retrieveDiff (res : string) (p : multilineDiffPrinter) : multilineDiffPrinter * string * bool :=
  let res :=
    if isADiff p
    then foldl print_part res (streams p) +:+ "END DIFFERENCE : " +:+ id p +:+ endl
    else res in
  (p, res, isADiff p).

#[export] Instance multiline_printer : DiffPrinter multilineDiffPrinter := {
  isDiff := isADiff;
  getPrinterType := fun _ => MULTILINE;
  addInfo := ml_addInfo;
  addInfoNumber := ml_addInfoNumber;
  addRequestUri := ml_addRequestUri;
  addRequestBody := ml_addRequestBody;
  addRequestHeader := ml_addRequestHeader;
  addStatus := ml_addStatus;
  addRuntime := ml_addRuntime;
  addCassandraDiff := ml_addCassandraDiff;
  addHeaderDiff := ml_addHeaderDiff;
  addFullDiff := ml_addFullDiff;
  retrieveDiff := ml_retrieveDiff
}.

#[export] Instance multiline_laws : PrinterLaws multilineDiffPrinter.
Proof.
  split.
  - intros p [] Hp; cbn; try done; unfold ml_addRequestUri, ml_addRequestBody; by case_match.
  - by intros p [].
  - done.
  - intros p []; cbn; try done; unfold ml_addRequestUri, ml_addRequestBody; intros _; by case_match.
  - by intros p res.
  - by intros p res.
Qed.

(** ** The report

    The specification: the text of each part, as a function of the calls. *)
Fixpoint cass_section (first : bool) (calls : list printer_call) : string :=
  match calls with
  | [] => EmptyString
  | CassDiff f m d r :: t =>
      (if first then EmptyString else SEPARATOR) +:+ cass_text f m d r +:+ cass_section false t
  | _ :: t => cass_section first t
  end.

(** What one call adds to a part other than that of the database differences. *)
Definition adds (d : diffPartitionning) (c : printer_call) : string :=
  match d, c with
  | INFO, Info k v => k +:+ " : " +:+ v +:+ endl
  | INFO, InfoNumber k v => k +:+ " : " +:+ string_of_Z v +:+ endl
  | RUNTIME, Runtime s m => " " +:+ s +:+ " " +:+ string_of_Z m
  | STATUS, Status s c => " " +:+ s +:+ " " +:+ string_of_Z c
  | URI, RequestUri u b => u +:+ b +:+ endl
  | HEADER, RequestHeader k v => k +:+ " : " +:+ v +:+ endl
  | BODY, RequestBody b => if str_empty b then EmptyString else b +:+ endl
  | HEADERDIFF, HeaderDiff k s t =>
      k +:+ " ==> " +:+ default EmptyString s +:+ "/" +:+ default EmptyString t +:+ endl
  | BODYDIFF, FullDiff x => x +:+ endl
  | _, _ => EmptyString
  end.

Definition begin_text (id_ : string) : string := "BEGIN NEW REQUEST DIFFERENCE n: " +:+ id_ +:+ endl.

Definition section (id_ : string) (calls : list printer_call) (d : diffPartitionning) : string :=
  match d with
  | BEGIN => begin_text id_
  | CASSDIFF => cass_section true calls
  | _ => str_concat (adds d <$> calls)
  end.

Definition all_parts : list diffPartitionning :=
  [BEGIN; INFO; RUNTIME; STATUS; URI; HEADER; BODY; CASSDIFF; HEADERDIFF; BODYDIFF].

Definition render (d : diffPartitionning) (text : string) : string :=
  if str_empty text then EmptyString
  else partitionSeparator d +:+ default EmptyString (prettyfyStartLine d) +:+ text
       +:+ default EmptyString (prettyfyEndLine d).

Definition report (id_ : string) (calls : list printer_call) : string :=
  str_concat ((fun d => render d (section id_ calls d)) <$> all_parts)
  +:+ "END DIFFERENCE : " +:+ id_ +:+ endl.

Definition shows (c : printer_call) : bool :=
  match c with CassDiff _ _ _ _ | HeaderDiff _ _ _ | FullDiff _ => true | _ => false end.

(** *** The streams *)

Definition stream_of (p : multilineDiffPrinter) (d : diffPartitionning) : string :=
  default EmptyString (std_find d (streams p)).

Lemma stream_append d text p d' :
  map_sorted (streams p) ->
  stream_of (append_to d text p) d' = stream_of p d' +:+ (if decide (d = d') then text else EmptyString).
Proof.
  intros Hs. unfold stream_of, append_to. cbn [streams]. case_decide as E.
  - subst. rewrite std_find_modify_eq by done. cbn. by destruct (std_find d' (streams p)).
  - rewrite std_find_modify_ne by done. by rewrite sapp_nil_r.
Qed.

(** What a printer has kept: the parts in order, and their text. *)
Record kept (p : multilineDiffPrinter) (id_ : string) (calls : list printer_call) : Prop := {
  kept_sorted : map_sorted (streams p);
  kept_id : id p = id_;
  kept_diff : isADiff p = existsb shows calls;
  kept_cass : hadPreviousCassDiff p = existsb (fun c => match c with CassDiff _ _ _ _ => true | _ => false end) calls;
  kept_text d : stream_of p d = section id_ calls d
}.

Lemma cass_section_app first a b :
  cass_section first (a ++ b)
  = cass_section first a
    +:+ cass_section (first && negb (existsb (fun c => match c with CassDiff _ _ _ _ => true | _ => false end) a)) b.
Proof.
  revert first. induction a as [|c a IH]; intros first.
  - cbn. by rewrite andb_true_r, sapp_nil_l.
  - destruct c; cbn [app cass_section existsb orb]; rewrite IH; try done.
    by rewrite andb_false_r, !sapp_assoc.
Qed.

Lemma section_snoc id_ calls c d :
  section id_ (calls ++ [c]) d
  = section id_ calls d
    +:+ match d with
        | BEGIN => EmptyString
        | CASSDIFF =>
            cass_section (negb (existsb (fun c => match c with CassDiff _ _ _ _ => true | _ => false end) calls)) [c]
        | _ => adds d c
        end.
Proof.
  destruct d; cbn [section]; try (rewrite fmap_app, str_concat_app; cbn; by rewrite sapp_nil_r).
  - by rewrite sapp_nil_r.
  - by rewrite cass_section_app.
Qed.

Lemma append_kept_sorted d text p : map_sorted (streams p) -> map_sorted (streams (append_to d text p)).
Proof. apply std_modify_sorted. Qed.

Lemma kept_new id_ : kept (newMultiline id_) id_ [].
Proof.
  split; [| |done|done|].
  - apply std_modify_sorted. constructor.
  - done.
  - by intros [].
Qed.

Lemma orb_false_snoc f (c : printer_call) calls : existsb f (calls ++ [c]) = existsb f calls || f c.
Proof. rewrite existsb_app. cbn. by rewrite orb_false_r. Qed.

Lemma stream_set p d : stream_of (set_isADiff p) d = stream_of p d.
Proof. done. Qed.

Ltac appended :=
  rewrite ?stream_append by (repeat apply append_kept_sorted; done); rewrite ?stream_set;
  repeat case_decide; simplify_eq; autorewrite with cxx_str; try done.

Lemma text_call p id_ calls c d :
  kept p id_ calls ->
  stream_of (call_printer p c) d
  = stream_of p d
    +:+ match d with
        | BEGIN => EmptyString
        | CASSDIFF => cass_section (negb (hadPreviousCassDiff p)) [c]
        | _ => adds d c
        end.
Proof.
  intros [Hs _ _ _ _]. destruct c; cbn [call_printer addInfo addInfoNumber addRequestUri addRequestBody
    addRequestHeader addStatus addRuntime addCassandraDiff addHeaderDiff addFullDiff multiline_printer].
  8: { change (stream_of (append_to CASSDIFF ((if hadPreviousCassDiff p then SEPARATOR else EmptyString)
         +:+ cass_text fieldName multiValue dbValue reqValue) p) d = stream_of p d +:+
         match d with
         | BEGIN => EmptyString
         | CASSDIFF => cass_section (negb (hadPreviousCassDiff p)) [CassDiff fieldName multiValue dbValue reqValue]
         | _ => adds d (CassDiff fieldName multiValue dbValue reqValue)
         end).
       rewrite stream_append by done. cbn [cass_section]. rewrite sapp_nil_r.
       destruct d; case_decide; try done; rewrite ?sapp_nil_r; try done. by destruct (hadPreviousCassDiff p). }
  all: unfold ml_addInfo, ml_addInfoNumber, ml_addRequestUri, ml_addRequestBody, ml_addRequestHeader,
    ml_addStatus, ml_addRuntime, ml_addHeaderDiff, ml_addFullDiff; cbn [cass_section adds].
  all: repeat match goal with |- context [str_empty ?x] =>
         destruct (str_empty x) eqn:?; [destruct x; [|done]|] end.
  all: destruct d; appended.
  cbn [adds]. match goal with E : str_empty _ = false |- _ => by rewrite E end.
Qed.

Lemma kept_call p id_ calls c : kept p id_ calls -> kept (call_printer p c) id_ (calls ++ [c]).
Proof.
  intros Hk. pose proof Hk as [Hs Hi Hd Hc Ht]. split.
  - destruct c; cbn; unfold ml_addRequestUri, ml_addRequestBody; repeat case_match;
      by repeat apply append_kept_sorted.
  - destruct c; cbn; unfold ml_addRequestUri, ml_addRequestBody; by repeat case_match.
  - rewrite orb_false_snoc, <- Hd. destruct c; cbn; unfold ml_addRequestUri, ml_addRequestBody;
      repeat case_match; cbn; by rewrite ?orb_false_r, ?orb_true_r.
  - rewrite orb_false_snoc, <- Hc. destruct c; cbn; unfold ml_addRequestUri, ml_addRequestBody;
      repeat case_match; cbn; by rewrite ?orb_false_r, ?orb_true_r.
  - intros d. rewrite (text_call p id_ calls c d Hk), section_snoc, <- Ht, Hc. done.
Qed.

Lemma kept_calls p id_ calls l : kept p id_ calls -> kept (call_all p l) id_ (calls ++ l).
Proof.
  revert p calls. induction l as [|c l IH]; intros p calls Hk; [by rewrite app_nil_r|].
  replace (calls ++ c :: l) with ((calls ++ [c]) ++ l) by by rewrite <- app_assoc.
  by apply IH, kept_call.
Qed.

(** *** Putting the parts together *)

Lemma print_part_render res d text : print_part res (d, text) = res +:+ render d text.
Proof. unfold print_part, render. case_match; [by rewrite sapp_nil_r|done]. Qed.

(** Going through the entries of an ordered map is going through all the keys. *)
Lemma fold_parts ks (m : list (diffPartitionning * string)) res :
  StronglySorted (fun a b => less a b = true) ks -> map_sorted m ->
  Forall (fun e => fst e ∈ ks) m ->
  foldl print_part res m
  = res +:+ str_concat ((fun d => render d (default EmptyString (std_find d m))) <$> ks).
Proof.
  intros Hks. revert m res. induction Hks as [|k ks Hks IH Hk]; intros m res Hm Hin.
  - destruct Hin as [|e m Hin _]; [by cbn; rewrite sapp_nil_r|by apply not_elem_of_nil in Hin].
  - rewrite Forall_forall in Hk. destruct m as [|[d text] m].
    + rewrite (IH [] res) by constructor. done.
    + apply StronglySorted_inv in Hm as Hm'. destruct Hm' as [Hm' Hlt]. rewrite Forall_forall in Hlt.
      apply Forall_cons in Hin as [Hd Hin]. cbn [fst] in Hd. cbn [fmap list_fmap str_concat].
      apply elem_of_cons in Hd as [->|Hd].
      * assert (Hin' : Forall (fun e => fst e ∈ ks) m).
        { rewrite Forall_forall in Hin |- *. intros e He. apply Hin in He as He'.
          apply elem_of_cons in He' as [He'|]; [|done]. apply Hlt in He. cbn in He.
          rewrite He', less_irrefl in He. done. }
        cbn [foldl]. rewrite print_part_render, IH by done. cbn [std_find]. rewrite less_irrefl. cbn [default].
        rewrite sapp_assoc. f_equal. f_equal. f_equal. apply list_fmap_ext. intros i a Ha.
        apply list_elem_of_lookup_2 in Ha. cbn [std_find]. by rewrite (Hk _ Ha).
      * assert (Hkd : less k d = true) by by apply Hk.
        assert (Hin' : Forall (fun e => fst e ∈ ks) ((d, text) :: m)).
        { constructor; [done|]. rewrite Forall_forall in Hin |- *. intros e He. apply Hin in He as He'.
          apply elem_of_cons in He' as [He'|]; [|done]. apply Hlt in He. cbn in He. rewrite He' in He.
          by rewrite (less_asym _ _ Hkd) in He. }
        rewrite IH by done. cbn [std_find]. rewrite (less_asym _ _ Hkd), Hkd.
        cbn [default]. done.
Qed.

Lemma retrieve_report p id_ calls res :
  kept p id_ calls ->
  ml_retrieveDiff res p
  = (p, if existsb shows calls then res +:+ report id_ calls else res, existsb shows calls).
Proof.
  intros [Hs Hi Hd Hc Ht]. unfold ml_retrieveDiff. rewrite Hd, Hi. case_match; [|done].
  rewrite (fold_parts all_parts); [| |done|].
  - unfold report. rewrite sapp_assoc.
    rewrite (list_fmap_ext _ (fun d => render d (section id_ calls d)) all_parts); [done|].
    intros i d _. f_equal. apply Ht.
  - repeat constructor.
  - apply Forall_forall. intros [d text] _. cbn. destruct d; set_solver.
Qed.

(** [C33] The report: whatever the calls and their order, the text is the parts in their
    fixed order, each with its mark and the texts of its calls in the order of the
    calls, the database differences separated from each other; nothing is appended,
    and the answer is no, unless a call made a difference. The order, the marks and the
    last line are those of the code; the example in the comment of the class has others:
    the times of the requests before the infos, lines of dashes between the parts, and
    [END DIFFERENCE n°:] at the end. *)
Theorem multiline_report (id_ : string) (calls : list printer_call) (res : string) :
  let p := call_all (newMultiline id_) calls in
  retrieveDiff res p
  = (p, if existsb shows calls then res +:+ report id_ calls else res, existsb shows calls).
Proof. apply retrieve_report. apply (kept_calls _ _ []), kept_new. Qed.

Example small_report :
  snd (fst (retrieveDiff "" (call_all (newMultiline "7")
    [HeaderDiff "k" (Some "a"%string) None; Runtime "DUP" 12; Info "Date" "today"; Runtime "COMP" (-1)])))
  = ("BEGIN NEW REQUEST DIFFERENCE n: 7" +:+ endl +:+ "Date : today" +:+ endl
     +:+ "Elapsed time for requests (ms): DUP 12 COMP -1" +:+ endl
     +:+ "---HDR_DIFF---" +:+ endl +:+ "k ==> a/" +:+ endl +:+ "END DIFFERENCE : 7" +:+ endl)%string.
Proof. reflexivity. Qed.
