(* ===== verification/JsonDiffPrinter.v ===== *)
(** * JsonDiffPrinter

    DiffPrinter/jsonDiffPrinter.cc and utf8JsonDiffPrinter.cc, and the choice of a
    printer of diffPrinter.cc. jsoncpp is not part of the repository: a document is a
    value of the class [Json], whose laws state its documented behaviour. [Tree] is a
    concrete implementation. *)
From S2P Require Import Prelude CxxString StdMap Boost Utf8 DiffPrinter.
From S2P Require MultilineDiffPrinter.
Local Open Scope N_scope.

#[local] Existing Instances MultilineDiffPrinter.multiline_printer MultilineDiffPrinter.multiline_laws.

(** ** Json::Value

    A path is a list of keys. [json_get [a; b] v] is the value [v[a][b]] when both
    members exist; [json_set [a; b] x v] is [v] after [v[a][b] = x], which creates the
    missing members. A member can be looked for in an object or in null only. *)
Class Json : Type := {
  Value : Type;
  json_null : Value;
  json_string : string -> Value;
  json_int : Z -> Value;
  json_real : Z -> Value;
  json_strings : list string -> Value;
  json_container : Value -> bool;
  json_members : Value -> list string;
  json_get : list string -> Value -> option Value;
  json_set : list string -> Value -> Value -> Value;
  json_write : Value -> string
}.

Definition strict_prefix (q p : list string) : Prop := exists k r, p = q ++ k :: r.

Definition settable `{Json} (p : list string) (v : Value) : Prop :=
  forall q w, strict_prefix q p -> json_get q v = Some w -> json_container w = true.

Class JsonLaws (J : Json) : Prop := {
  json_null_container : json_container json_null = true;
  json_get_nil v : json_get [] v = Some v;
  json_get_app p q v : json_get (p ++ q) v = json_get p v ≫= json_get q;
  json_members_get k v :
    json_container v = true -> (k ∈ json_members v <-> is_Some (json_get [k] v));
  json_null_empty k : json_get [k] json_null = None;
  json_get_set p x v : settable p v -> json_get p (json_set p x v) = Some x;
  json_get_set_above p q x v :
    settable p v -> strict_prefix q p -> exists w, json_get q (json_set p x v) = Some w /\ json_container w = true;
  json_get_set_other p q x v :
    settable p v -> ~ p `prefix_of` q -> ~ q `prefix_of` p -> json_get q (json_set p x v) = json_get q v;
  json_write_line v : exists t, json_write v = t +:+ endl
}.

Definition JSONMAXSIZE : N := 14000.

Section JsonDiffPrinter.
Context `{BoostRegex, BoostString, Json}.
Local Open Scope string_scope.

Record jsonDiffPrinter : Type := mkJson { isADiff : bool; mJsonRes : Value }.

(** [mJsonRes[k1]...[kn] = x] *)
Definition assign (path : list string) (x : Value) (p : jsonDiffPrinter) : jsonDiffPrinter :=
  mkJson (isADiff p) (json_set path x (mJsonRes p)).
Definition set_isADiff (p : jsonDiffPrinter) : jsonDiffPrinter := mkJson true (mJsonRes p).

Definition newJson (id : string) : jsonDiffPrinter := assign ["id"] (json_string id) (mkJson false json_null).

Definition js_addInfo (key value : string) : jsonDiffPrinter -> jsonDiffPrinter := assign [key] (json_string value).
Definition js_addInfoNumber (key : string) (value : Z) : jsonDiffPrinter -> jsonDiffPrinter :=
  assign [key] (json_real value).
Definition js_addRequestBody (body : string) : jsonDiffPrinter -> jsonDiffPrinter := js_addInfo "ReqBody" body.

(** One argument; without an equals sign its name is also its value, since [int pos] is
    then -1. *)
Definition add_arg (p : jsonDiffPrinter) (s : string) : jsonDiffPrinter :=
  let '(name, value) := match find_char "="%char s with
                        | Some pos => (str_take pos s, str_drop (pos + 1)%N s)
                        | None => (s, s)
                        end in
  assign ["request"; "args"; to_upper name] (json_string value) p.

(** [pivot] is compared with the length of the URI, which it never is: without a
    question mark it is [npos], and the whole URI is taken for the arguments. *)
Definition js_addRequestUri (uri paramsBody : string) (p : jsonDiffPrinter) : jsonDiffPrinter :=
  let p := assign ["request"; "uri"] (json_string uri) p in
  let '(url, params) := match find_char "?"%char uri with
                        | Some pivot => (str_take pivot uri, str_drop (pivot + 1)%N uri)
                        | None => (uri, uri)
                        end in
  let p := assign ["request"; "url"] (json_string url) p in
  let p := foldl add_arg p (split "&"%char params) in
  if str_empty paramsBody then p else foldl add_arg p (split "&"%char paramsBody).

Definition js_addRequestHeader (key value : string) : jsonDiffPrinter -> jsonDiffPrinter :=
  assign ["request"; "header"; to_upper key] (json_string value).
Definition js_addStatus (service : string) (statusCode : Z) : jsonDiffPrinter -> jsonDiffPrinter :=
  assign ["status"; service] (json_int statusCode).
Definition js_addRuntime (service : string) (milli : Z) : jsonDiffPrinter -> jsonDiffPrinter :=
  assign ["runtime"; service] (json_int milli).

(** [mJsonRes["diff"]["cassandra"]], null when it is missing. *)
Definition cassandra (v : Value) : Value := default json_null (json_get ["diff"; "cassandra"] v).

(** The first of [fieldName], [fieldName1], [fieldName2], ... that is not a member. The
    fuel is the number of members, plus one. *)
Fixpoint free_name (fuel : nat) (i : Z) (fieldName lField : string) (cass : Value) : string :=
  match fuel with
  | O => lField
  | S fuel =>
      if bool_decide (is_Some (json_get [lField] cass))
      then free_name fuel (i + 1)%Z fieldName (fieldName +:+ string_of_Z i) cass
      else lField
  end.

Definition cass_name (fieldName : string) (v : Value) : string :=
  free_name (S (length (json_members (cassandra v)))) 1%Z fieldName fieldName (cassandra v).

Definition js_addCassandraDiff (fieldName multiValue dbValue reqValue : string) (p : jsonDiffPrinter) : jsonDiffPrinter :=
  let p := set_isADiff p in
  let lField := cass_name fieldName (mJsonRes p) in
  let p := assign ["diff"; "cassandra"; lField; "mulVal"] (json_string multiValue) p in
  let p := assign ["diff"; "cassandra"; lField; "dbVal"] (json_string dbValue) p in
  assign ["diff"; "cassandra"; lField; "reqVal"] (json_string reqValue) p.

Definition js_addHeaderDiff (key : string) (srcValue dstValue : option string) (p : jsonDiffPrinter) : jsonDiffPrinter :=
  let p := set_isADiff p in
  let p := match srcValue with Some s => assign ["diff"; "header"; key; "src"] (json_string s) p | None => p end in
  match dstValue with Some d => assign ["diff"; "header"; key; "dst"] (json_string d) p | None => p end.

(** *** The differences of the bodies *)

Definition quote_char : ascii := ascii_of_nat 34.
Definition quoted_tag : string := String quote_char (".*?" +:+ String quote_char EmptyString).

(** [find(a) < find(b)], where [None] is [npos]. *)
Definition found_before (a b : option N) : bool :=
  match a, b with
  | Some i, Some j => (i <? j)%N
  | Some _, None => true
  | None, _ => false
  end.

Record tally : Type := mkTally { posDiff : Z; posList : list (string * unit); negDiff : Z; negList : list (string * unit) }.

Definition tally_line (tagToIdentify : regex) (firstChar : ascii) (t : tally) (line : string) : tally :=
  match regex_search line tagToIdentify with
  | None => t
  | Some what =>
      if found_before (find_char "+"%char line) (find_char firstChar line)
      then mkTally (posDiff t + 1)%Z (std_insert what tt (posList t)) (negDiff t) (negList t)
      else if found_before (find_char "-"%char line) (find_char firstChar line)
      then mkTally (posDiff t) (posList t) (negDiff t + 1)%Z (std_insert what tt (negList t))
      else t
  end.

Definition tally_lines (diffLines : list string) (type : string) : tally :=
  let '(tag, firstChar) := if String.eqb type "XML" then ("<.*?>", "<"%char) else (quoted_tag, quote_char) in
  foldl (tally_line (default regex_default (regex_make tag false)) firstChar) (mkTally 0%Z [] 0%Z []) diffLines.

Definition add_tally (count list_ : string) (n : Z) (l : list (string * unit)) (p : jsonDiffPrinter) : jsonDiffPrinter :=
  if Z.eqb n 0 then p
  else assign ["diff"; "body"; list_] (json_strings (fst <$> l)) (assign ["diff"; "body"; count] (json_int n) p).

Definition js_addFullDiffLines (diffLines : list string) (truncSize : N) (type : string) (p : jsonDiffPrinter) :
    jsonDiffPrinter :=
  let t := tally_lines diffLines type in
  let p := add_tally "posDiff" "posList" (posDiff t) (posList t) p in
  let p := add_tally "negDiff" "negList" (negDiff t) (negList t) p in
  let fullDiff := join diffLines endl in
  if (JSONMAXSIZE <=? str_len fullDiff)%N then
    let p := set_isADiff p in
    let truncatedDiff := str_concat ((fun l => str_take truncSize l +:+ endl) <$> diffLines) in
    if (str_len truncatedDiff <? JSONMAXSIZE)%N then assign ["diff"; "body"; "full"] (json_string truncatedDiff) p else p
  else if str_empty fullDiff then p
  else assign ["diff"; "body"; "full"] (json_string fullDiff) (set_isADiff p).

Definition js_addFullDiff (diffLines : string) : jsonDiffPrinter -> jsonDiffPrinter :=
  js_addFullDiffLines (split_compress newline diffLines) 100%N "XML".

Definition js_retrieveDiff (res : string) (p : jsonDiffPrinter) : jsonDiffPrinter * string * bool :=
  (p, res +:+ json_write (mJsonRes p), isADiff p).

#[export] Instance json_printer : DiffPrinter jsonDiffPrinter := {
  isDiff := isADiff;
  getPrinterType := fun _ => JSON;
  addInfo := js_addInfo;
  addInfoNumber := js_addInfoNumber;
  addRequestUri := js_addRequestUri;
  addRequestBody := js_addRequestBody;
  addRequestHeader := js_addRequestHeader;
  addStatus := js_addStatus;
  addRuntime := js_addRuntime;
  addCassandraDiff := js_addCassandraDiff;
  addHeaderDiff := js_addHeaderDiff;
  addFullDiff := js_addFullDiff;
  retrieveDiff := js_retrieveDiff
}.

(** The UTF-8 printer: the whole text is replaced. *)
Definition utf8_retrieveDiff (res : string) (p : jsonDiffPrinter) : jsonDiffPrinter * string * bool :=
  let '(p, res, v) := js_retrieveDiff res p in
  match replace_invalid res with
  | Ret temp => (p, temp, v)
  | Throw _ => (p, res, false)
  end.

(** ** Any printer *)
Inductive anyPrinter : Type :=
  | AMultiline (p : MultilineDiffPrinter.multilineDiffPrinter)
  | AJson (p : jsonDiffPrinter)
  | AUtf8Json (p : jsonDiffPrinter).

Definition on_any (fm : MultilineDiffPrinter.multilineDiffPrinter -> MultilineDiffPrinter.multilineDiffPrinter)
    (fj : jsonDiffPrinter -> jsonDiffPrinter) (p : anyPrinter) : anyPrinter :=
  match p with
  | AMultiline p => AMultiline (fm p)
  | AJson p => AJson (fj p)
  | AUtf8Json p => AUtf8Json (fj p)
  end.

(** [printerType] is set by the constructor; that of the UTF-8 printer leaves JSON. *)
#[export] Instance any_printer : DiffPrinter anyPrinter := {
  isDiff p := match p with AMultiline p => isDiff p | AJson p | AUtf8Json p => isDiff p end;
  getPrinterType p := match p with AMultiline p => getPrinterType p | AJson p | AUtf8Json p => getPrinterType p end;
  addInfo k v := on_any (addInfo k v) (addInfo k v);
  addInfoNumber k v := on_any (addInfoNumber k v) (addInfoNumber k v);
  addRequestUri u b := on_any (addRequestUri u b) (addRequestUri u b);
  addRequestBody b := on_any (addRequestBody b) (addRequestBody b);
  addRequestHeader k v := on_any (addRequestHeader k v) (addRequestHeader k v);
  addStatus s c := on_any (addStatus s c) (addStatus s c);
  addRuntime s m := on_any (addRuntime s m) (addRuntime s m);
  addCassandraDiff f m d r := on_any (addCassandraDiff f m d r) (addCassandraDiff f m d r);
  addHeaderDiff k s d := on_any (addHeaderDiff k s d) (addHeaderDiff k s d);
  addFullDiff d := on_any (addFullDiff d) (addFullDiff d);
  retrieveDiff res p :=
    match p with
    | AMultiline p => let '(p, res, v) := retrieveDiff res p in (AMultiline p, res, v)
    | AJson p => let '(p, res, v) := retrieveDiff res p in (AJson p, res, v)
    | AUtf8Json p => let '(p, res, v) := utf8_retrieveDiff res p in (AUtf8Json p, res, v)
    end
}.

#[export] Instance any_factory : PrinterFactory anyPrinter := fun id type =>
  match type with
  | MULTILINE => AMultiline (MultilineDiffPrinter.newMultiline id)
  | JSON => AJson (newJson id)
  | UTF8JSON => AUtf8Json (newJson id)
  end.
End JsonDiffPrinter.

#[global] Arguments utf8_retrieveDiff : simpl never.

Section Laws.
Context `{BoostRegex} {B : BoostString} {HB : BoostStringLaws B} {J : Json} {JL : JsonLaws J}.
Local Existing Instance B.
Local Open Scope string_scope.

(** ** The verdict of a printer *)

Lemma args_diff l p : isADiff (foldl add_arg p l) = isADiff p.
Proof.
  revert p. induction l as [|s l IH]; intros p; [done|]. cbn [foldl]. rewrite IH. unfold add_arg.
  by destruct (find_char _ _).
Qed.

Lemma uri_diff uri body p : isADiff (js_addRequestUri uri body p) = isADiff p.
Proof.
  unfold js_addRequestUri. destruct (find_char _ _), (str_empty body); by rewrite !args_diff.
Qed.

Lemma tally_diff count l_ n l p : isADiff (add_tally count l_ n l p) = isADiff p.
Proof. unfold add_tally. by destruct (Z.eqb n 0). Qed.

Lemma lines_diff ls n type p : isADiff (js_addFullDiffLines ls n type p) = isADiff p || negb (str_empty (join ls endl)).
Proof.
  unfold js_addFullDiffLines. destruct (N.leb_spec JSONMAXSIZE (str_len (join ls endl))) as [Hle|Hlt].
  - destruct (join ls endl) as [|c t]; [done|]. rewrite orb_true_r. by destruct (_ <? _)%N.
  - destruct (str_empty (join ls endl)); [|by rewrite orb_true_r]. by rewrite !tally_diff, orb_false_r.
Qed.

(** The text the printer keeps is the one it is given, its empty lines removed. *)
Lemma full_text d : join (split_compress newline d) endl = squeeze newline d.
Proof. rewrite split_compress_spec, join_spec. apply sjoin_split_on. Qed.

Lemma full_diff d p : isADiff (js_addFullDiff d p) = isADiff p || negb (str_empty d).
Proof. unfold js_addFullDiff. by rewrite lines_diff, full_text, squeeze_empty. Qed.

Lemma json_call_diff p c : isADiff (call_printer p c) = isADiff p || differs c.
Proof.
  destruct c; cbn; rewrite ?orb_false_r, ?orb_true_r; try done; [apply uri_diff| |apply full_diff].
  unfold js_addHeaderDiff. by destruct srcValue, dstValue.
Qed.

Lemma json_calls_diff p l : isADiff (call_all p l) = isADiff p || existsb differs l.
Proof.
  revert p. induction l as [|c l IH]; intros p; [by rewrite orb_false_r|].
  change (isADiff (call_all (call_printer p c) l) = isADiff p || (differs c || existsb differs l)).
  by rewrite IH, json_call_diff, orb_assoc.
Qed.

#[export] Instance json_laws : PrinterLaws jsonDiffPrinter.
Proof.
  split; try done.
  - intros p c Hp. change (isADiff (call_printer p c) = true). rewrite json_call_diff. by apply orb_true_intro; left.
  - intros p c Hc. change (isADiff (call_printer p c) = true). by rewrite json_call_diff, Hc, orb_true_r.
  - intros p c.
    assert (Hc : differs c = false -> isADiff (call_printer p c) = isADiff p) by (intros E; by rewrite json_call_diff, E, orb_false_r).
    by destruct c.
Qed.

(** The text of the UTF-8 printer ends with an end of line, so that it always has a
    replacement. *)
Lemma utf8_spec res p :
  exists text, utf8_retrieveDiff res p = (p, text, isADiff p) /\ is_valid text = true /\
    (is_valid (res +:+ json_write (mJsonRes p)) = true -> text = res +:+ json_write (mJsonRes p)).
Proof.
  unfold utf8_retrieveDiff, js_retrieveDiff. destruct (json_write_line (mJsonRes p)) as [t Ht].
  destruct (replace_invalid_spec (res +:+ json_write (mJsonRes p))) as [Hout Hid].
  destruct Hout as (text & Htext & Hv).
  { rewrite Ht, <- sapp_assoc. clear. induction (res +:+ t) as [|c s IH]; [done|].
    rewrite sapp_cons. cbn [ends_ascii]. destruct (s +:+ endl) eqn:E; [by destruct s|exact IH]. }
  rewrite Htext. exists text. split_and!; [done|exact Hv|]. intros Hvalid. rewrite (Hid Hvalid) in Htext. congruence.
Qed.

Lemma call_any p c :
  call_printer p c = on_any (fun m => call_printer m c) (fun j => call_printer j c) p.
Proof. by destruct c, p. Qed.

Lemma call_all_any p l :
  call_all p l = on_any (fun m => call_all m l) (fun j => call_all j l) p.
Proof.
  revert p. induction l as [|c l IH]; intros p; [by destruct p|].
  change (call_all p (c :: l)) with (call_all (call_printer p c) l). rewrite IH, call_any. by destruct p.
Qed.

#[export] Instance any_laws : PrinterLaws anyPrinter.
Proof.
  split.
  - intros p c. rewrite call_any. destruct p as [p|p|p]; exact (diff_kept p c).
  - intros p c Hc. rewrite call_any. destruct p as [p|p|p]; exact (diff_shown p c Hc).
  - intros p c. rewrite call_any. destruct p as [p|p|p]; exact (type_kept p c).
  - intros p c. rewrite call_any. destruct p as [p|p|p]; exact (plain_calls p c).
  - intros [p|p|p] res; [done..|]. cbn. by destruct (utf8_spec res p) as (text & -> & _).
  - intros [p|p|p] res; [done..|]. cbn. by destruct (utf8_spec res p) as (text & -> & _).
Qed.

#[export] Instance any_factory_laws : FactoryLaws anyPrinter.
Proof. by intros id []. Qed.

(** [C19] The default printer: whatever a client tells it, the report is a valid UTF-8 text,
    the one the JSON printer would give when that one is valid, and the verdict is
    whether a call made a difference. *)
Theorem utf8_report_valid id l res :
  let '(p, text, diff) := retrieveDiff res (call_all (createDiffPrinter id UTF8JSON : anyPrinter) l) in
  is_valid text = true /\ diff = existsb differs l /\
  let '(_, plain, _) := retrieveDiff res (call_all (createDiffPrinter id JSON : anyPrinter) l) in
  is_valid plain = true -> text = plain.
Proof.
  rewrite !call_all_any. cbn. destruct (utf8_spec res (call_all (newJson id) l)) as (text & -> & Hv & Heq).
  split_and!; [done| |done].
  by rewrite json_calls_diff.
Qed.
End Laws.

(** ** The document *)

(** The keys of the first level that hold objects. *)
Definition reserved (k : string) : bool :=
  existsb (String.eqb k) ["request"; "status"; "runtime"; "diff"]%string.

(** The paths that lead to objects, when they lead to something. *)
Definition structural (p : list string) : bool :=
  match p with
  | [] => true
  | [k] => reserved k
  | [a; k] => (String.eqb a "request" && existsb (String.eqb k) ["args"; "header"]%string) ||
              (String.eqb a "diff" && existsb (String.eqb k) ["cassandra"; "header"; "body"]%string)
  | [a; k; _] => String.eqb a "diff" && existsb (String.eqb k) ["cassandra"; "header"]%string
  | _ => false
  end.

(** The paths the printer assigns. *)
Definition leaf (p : list string) : bool := negb (structural p) && structural (removelast p).

Definition cass_path (name field : string) : list string := ["diff"; "cassandra"; name; field]%string.
Definition in_cassandra (p : list string) : bool :=
  match p with a :: k :: _ => String.eqb a "diff" && String.eqb k "cassandra" | _ => false end.

(** An information with the name of one of the objects would break the document. *)
Definition call_ok (c : printer_call) : Prop :=
  match c with Info k _ | InfoNumber k _ => reserved k = false | _ => True end.

Definition cass_of (c : printer_call) : option (string * string * string * string) :=
  match c with CassDiff f m d r => Some (f, m, d, r) | _ => None end.

Section Document.
Context `{BoostRegex, BoostString} {J : Json} {JL : JsonLaws J}.
Local Open Scope string_scope.

Definition doc_ok (v : Value) : Prop :=
  forall q w, structural q = true -> json_get q v = Some w -> json_container w = true.

(** The difference is in the document, under this name. *)
Definition kept_in (v : Value) (name : string) (c : string * string * string * string) : Prop :=
  let '(fieldName, multiValue, dbValue, reqValue) := c in
  starts_with fieldName name = true /\
  json_get (cass_path name "mulVal") v = Some (json_string multiValue) /\
  json_get (cass_path name "dbVal") v = Some (json_string dbValue) /\
  json_get (cass_path name "reqVal") v = Some (json_string reqValue).

Lemma structural_prefix p q : structural (p ++ q) = true -> structural p = true.
Proof.
  destruct p as [|a [|b [|c [|d p]]]]; [done|..|done].
  - destruct q as [|b [|c [|d q]]]; cbn -[existsb reserved]; [done| | |done].
    + intros [[->%String.eqb_eq _]%andb_prop|[->%String.eqb_eq _]%andb_prop]%orb_prop; done.
    + by intros [->%String.eqb_eq _]%andb_prop.
  - destruct q as [|c [|d q]]; cbn -[existsb]; [done| |done].
    intros [->%String.eqb_eq Hb]%andb_prop. apply orb_true_intro. right. cbn in *.
    by destruct (String.eqb b "cassandra"), (String.eqb b "header").
  - destruct q as [|d q]; [by rewrite app_nil_r|done].
Qed.

Lemma leaf_above p q : leaf p = true -> strict_prefix q p -> structural q = true.
Proof.
  unfold leaf. intros [_ Hp]%andb_prop (k & r & ->).
  destruct (exists_last (l := k :: r)) as (r' & x & E); [done|]. rewrite E, app_assoc, removelast_last in Hp.
  by apply structural_prefix in Hp.
Qed.

Lemma leaf_not_structural p q : leaf p = true -> structural q = true -> ~ p `prefix_of` q.
Proof.
  unfold leaf. intros [Hp _]%andb_prop Hq [r ->]. apply structural_prefix in Hq. by rewrite Hq in Hp.
Qed.

Lemma leaf_settable p v : doc_ok v -> leaf p = true -> settable p v.
Proof. intros Hv Hp q w Hq. apply Hv. by apply (leaf_above p). Qed.

Lemma prefix_cases (p q : list string) : q `prefix_of` p -> q = p \/ strict_prefix q p.
Proof. intros [[|k r] ->]; [left; by rewrite app_nil_r|right; by exists k, r]. Qed.

Lemma set_leaf_ok p x v : doc_ok v -> leaf p = true -> doc_ok (json_set p x v).
Proof.
  intros Hv Hp q w Hq Hw. pose proof (leaf_settable p v Hv Hp) as Hs.
  destruct (decide (q `prefix_of` p)) as [[->|Hqp]%prefix_cases|Hqp].
  - unfold leaf in Hp. by rewrite Hq in Hp.
  - destruct (json_get_set_above p q x v Hs Hqp) as (w' & E & Hc). by simplify_eq.
  - rewrite json_get_set_other in Hw; [by apply (Hv q)|done|by apply leaf_not_structural|done].
Qed.

Lemma set_leaf_other p p' x v :
  doc_ok v -> leaf p = true -> leaf p' = true -> p <> p' -> json_get p' (json_set p x v) = json_get p' v.
Proof.
  intros Hv Hp Hp' Hne. pose proof (leaf_settable p v Hv Hp) as Hs. apply json_get_set_other; [done|..].
  - intros [->|Hstr]%prefix_cases; [done|]. apply (leaf_above _ _ Hp') in Hstr. unfold leaf in Hp. by rewrite Hstr in Hp.
  - intros [->|Hstr]%prefix_cases; [done|]. apply (leaf_above _ _ Hp) in Hstr. unfold leaf in Hp'. by rewrite Hstr in Hp'.
Qed.

(** *** What leaves the differences of the database alone *)

Definition keeps (p p' : jsonDiffPrinter) : Prop :=
  doc_ok (mJsonRes p) ->
  doc_ok (mJsonRes p') /\
  forall name field, json_get (cass_path name field) (mJsonRes p') = json_get (cass_path name field) (mJsonRes p).

#[export] Instance keeps_preorder : PreOrder keeps.
Proof.
  split; [done|]. intros p1 p2 p3 H12 H23 Hd. destruct (H12 Hd) as [Hd2 Hg2]. destruct (H23 Hd2) as [Hd3 Hg3].
  split; [done|]. intros n f. by rewrite Hg3.
Qed.

Lemma assign_keeps path x p : leaf path && negb (in_cassandra path) = true -> keeps p (assign path x p).
Proof.
  intros [Hl Hc]%andb_prop Hd. split; [by apply set_leaf_ok|]. intros n f. cbn.
  apply set_leaf_other; [done..|]. intros ->. by cbn in Hc.
Qed.

Lemma foldl_keeps {A} (f : jsonDiffPrinter -> A -> jsonDiffPrinter) l p :
  (forall p a, keeps p (f p a)) -> keeps p (foldl f p l).
Proof. intros Hf. revert p. induction l as [|a l IH]; intros p; [done|]. etrans; [apply Hf|apply IH]. Qed.

Lemma add_arg_keeps p s : keeps p (add_arg p s).
Proof. unfold add_arg. destruct (find_char _ s); by apply assign_keeps. Qed.

Lemma uri_keeps uri body p : keeps p (js_addRequestUri uri body p).
Proof.
  unfold js_addRequestUri. etrans; [by apply (assign_keeps ["request"; "uri"])|].
  destruct (find_char _ uri), (str_empty body);
    repeat (etrans; [|apply foldl_keeps; intros; apply add_arg_keeps]); by apply assign_keeps.
Qed.

Lemma tally_keeps count l_ n l p : keeps p (add_tally count l_ n l p).
Proof.
  unfold add_tally. destruct (Z.eqb n 0); [done|].
  etrans; [by apply (assign_keeps ["diff"; "body"; count])|by apply assign_keeps].
Qed.

Lemma flag_keeps p : keeps p (set_isADiff p).
Proof. done. Qed.

Lemma lines_keeps ls n type p : keeps p (js_addFullDiffLines ls n type p).
Proof.
  unfold js_addFullDiffLines. etrans; [apply tally_keeps|]. etrans; [apply tally_keeps|].
  destruct (_ <=? _)%N; [destruct (_ <? _)%N; [|apply flag_keeps]|destruct (str_empty _); [done|]];
    (etrans; [apply flag_keeps|by apply assign_keeps]).
Qed.

Lemma header_keeps k sv dv p : keeps p (js_addHeaderDiff k sv dv p).
Proof.
  unfold js_addHeaderDiff. destruct sv as [sv|], dv as [dv|]; [|by apply (assign_keeps _ _ (set_isADiff p))..|done].
  etrans; [by apply (assign_keeps ["diff"; "header"; k; "src"] (json_string sv) (set_isADiff p))|by apply assign_keeps].
Qed.

Lemma call_keeps p c : call_ok c -> cass_of c = None -> keeps p (call_printer p c).
Proof.
  destruct c; cbn [call_ok cass_of]; intros Hok Hc; try done;
    first [apply uri_keeps | apply header_keeps | apply lines_keeps | idtac].
  1-2: apply assign_keeps; cbn -[reserved]; unfold leaf; cbn -[reserved]; by rewrite Hok.
  all: by apply assign_keeps.
Qed.
(** *** A name for each difference of the database *)

Definition numbered (fieldName : string) (i : Z) : string := fieldName +:+ string_of_Z i.
Definition is_member (cass : Value) (k : string) : Prop := is_Some (json_get [k] cass).

Lemma free_name_tried fuel i f l cass :
  json_get [free_name fuel i f l cass] cass = None \/
  Forall (is_member cass) (take fuel (l :: (numbered f <$> seqZ i (Z.of_nat fuel)))).
Proof.
  revert i l. induction fuel as [|fuel IH]; intros i l; [by right|]. cbn [free_name take].
  case_bool_decide as Hl; [|left; by apply eq_None_not_Some].
  destruct (IH (i + 1)%Z (numbered f i)) as [Hn|Hall]; [by left|right]. constructor; [done|].
  rewrite seqZ_cons by lia. by rewrite Nat2Z.inj_succ, Z.pred_succ, <- Z.add_1_r.
Qed.

Lemma numbered_inj f i j : (0 < i)%Z -> (0 < j)%Z -> numbered f i = numbered f j -> i = j.
Proof.
  intros Hi Hj. unfold numbered. induction f as [|c f IH]; [|rewrite !sapp_cons; intros [=]; auto].
  rewrite !sapp_nil_l. destruct i, j; try lia. cbn [string_of_Z]. intros Hij%string_of_N_inj. congruence.
Qed.

Lemma numbered_new f i : (0 < i)%Z -> numbered f i <> f.
Proof.
  intros Hi. unfold numbered. induction f as [|c f IH]; [|rewrite sapp_cons; congruence].
  rewrite sapp_nil_l. destruct i as [|i|i]; [lia| |lia]. cbn [string_of_Z]. intros He.
  pose proof (digits_value_string_of_N (Npos i)) as Hv. by rewrite He in Hv.
Qed.

Lemma tried_NoDup f n : NoDup (f :: (numbered f <$> seqZ 1 (Z.of_nat n))).
Proof.
  constructor.
  - intros (i & Hi & Hin)%list_elem_of_fmap. apply elem_of_seqZ in Hin.
    apply (numbered_new f i); [lia|by symmetry].
  - apply NoDup_fmap_2_strong; [|apply NoDup_seqZ]. intros i j Hi%elem_of_seqZ Hj%elem_of_seqZ.
    apply numbered_inj; lia.
Qed.

(** The loop ends on a name that is not taken: there are more names to try than members. *)
Lemma cass_name_free f v :
  json_container (cassandra v) = true -> json_get [cass_name f v] (cassandra v) = None.
Proof.
  intros Hc. unfold cass_name. set (m := json_members (cassandra v)).
  destruct (free_name_tried (S (length m)) 1 f f (cassandra v)) as [Hn|Hall]; [done|exfalso].
  set (ts := take _ _) in Hall.
  assert (Hlen : length ts = S (length m)).
  { unfold ts. rewrite length_take. cbn. rewrite length_fmap, length_seqZ. lia. }
  assert (Hnd : NoDup ts).
  { pose proof (tried_NoDup f (S (length m))) as Hnd.
    rewrite <- (take_drop (S (length m)) (f :: _)) in Hnd. by apply NoDup_app in Hnd as [Hnd _]. }
  assert (Hin : ts ⊆ m).
  { intros k Hk. rewrite Forall_forall in Hall. by apply json_members_get, Hall. }
  pose proof (submseteq_length _ _ (NoDup_submseteq _ _ Hnd Hin)). lia.
Qed.

Lemma starts_with_app f t : starts_with f (f +:+ t) = true.
Proof. induction f as [|c f IH]; [done|]. rewrite sapp_cons. cbn. by rewrite Ascii.eqb_refl. Qed.

Lemma free_name_starts fuel i f l cass : starts_with f l = true -> starts_with f (free_name fuel i f l cass) = true.
Proof.
  revert i l. induction fuel as [|fuel IH]; intros i l Hl; [done|]. cbn [free_name].
  case_bool_decide; [|done]. apply IH, starts_with_app.
Qed.

Lemma cassandra_container v : doc_ok v -> json_container (cassandra v) = true.
Proof.
  intros Hv. unfold cassandra. destruct (json_get _ v) as [w|] eqn:E; [by apply (Hv _ w) in E|apply json_null_container].
Qed.

Lemma kept_member v name c : kept_in v name c -> is_member (cassandra v) name.
Proof.
  destruct c as [[[f m] d] r]. intros (_ & Hm & _). unfold is_member, cassandra.
  change (cass_path name "mulVal") with (["diff"; "cassandra"] ++ [name] ++ ["mulVal"])%list in Hm.
  rewrite json_get_app in Hm. destruct (json_get ["diff"; "cassandra"] v) as [w|]; [|done]. cbn [mbind option_bind] in Hm.
  rewrite json_get_app in Hm. cbn. by destruct (json_get [name] w).
Qed.

(** A new difference has a name of its own, and the others stay. *)
Lemma cass_added f m d r p :
  doc_ok (mJsonRes p) ->
  let name := cass_name f (mJsonRes p) in
  let p' := js_addCassandraDiff f m d r p in
  doc_ok (mJsonRes p') /\ kept_in (mJsonRes p') name (f, m, d, r) /\ ~ is_member (cassandra (mJsonRes p)) name /\
  forall name' field, name' <> name ->
    json_get (cass_path name' field) (mJsonRes p') = json_get (cass_path name' field) (mJsonRes p).
Proof.
  intros Hd. cbv zeta. unfold js_addCassandraDiff. cbn [mJsonRes set_isADiff assign isADiff].
  set (name := cass_name f (mJsonRes p)).
  set (v1 := json_set _ _ (mJsonRes p)). set (v2 := json_set _ _ v1). set (v3 := json_set _ _ v2).
  assert (H1' : doc_ok v1) by (by apply set_leaf_ok). assert (H2' : doc_ok v2) by (by apply set_leaf_ok).
  split_and!.
  - by apply set_leaf_ok.
  - split_and!.
    + apply free_name_starts. rewrite <- (sapp_nil_r f) at 2. apply starts_with_app.
    + unfold v3. rewrite set_leaf_other by done. unfold v2. rewrite set_leaf_other by done.
      by apply json_get_set, leaf_settable.
    + unfold v3. rewrite set_leaf_other by done. by apply json_get_set, leaf_settable.
    + by apply json_get_set, leaf_settable.
  - intros [w Hw]. pose proof (cass_name_free f _ (cassandra_container _ Hd)) as Hf. fold name in Hf. congruence.
  - intros name' field Hne.
    assert (Hp : forall field', cass_path name field' <> cass_path name' field) by (intros field' [=]; congruence).
    unfold v3. rewrite set_leaf_other by first [done | apply Hp]. unfold v2. rewrite set_leaf_other by first [done | apply Hp].
    unfold v1. by rewrite set_leaf_other by first [done | apply Hp].
Qed.
Lemma kept_frame v v' name c :
  (forall field, json_get (cass_path name field) v' = json_get (cass_path name field) v) ->
  kept_in v name c -> kept_in v' name c.
Proof. intros Hf. destruct c as [[[f m] d] r]. cbn. by rewrite !Hf. Qed.

Lemma calls_kept l p names cs :
  Forall call_ok l -> doc_ok (mJsonRes p) -> NoDup names -> Forall2 (kept_in (mJsonRes p)) names cs ->
  exists names', NoDup names' /\ Forall2 (kept_in (mJsonRes (call_all p l))) names' (cs ++ omap cass_of l)%list.
Proof.
  intros Hl. revert p names cs. induction Hl as [|c l Hc Hl IH]; intros p names cs Hd Hnd Hkept.
  { exists names. by rewrite app_nil_r. }
  change (call_all p (c :: l)) with (call_all (call_printer p c) l).
  destruct (cass_of c) as [[[[f m] d] r]|] eqn:Ec.
  - destruct c; simplify_eq/=. destruct (cass_added f m d r p Hd) as (Hd' & Hnew & Hfree & Hother).
    rewrite cons_middle, app_assoc. apply (IH _ (names ++ [cass_name f (mJsonRes p)])%list); [done| |].
    + apply NoDup_app. split_and!; [done| |apply NoDup_singleton].
      intros n Hn ->%list_elem_of_singleton. apply Hfree.
      apply list_elem_of_lookup in Hn as [i Hi]. destruct (Forall2_lookup_l _ _ _ _ _ Hkept Hi) as (c & _ & Hk).
      by apply (kept_member _ _ c).
    + apply Forall2_app; [|by constructor; [exact Hnew|constructor]]. eapply Forall2_impl; [exact Hkept|]. intros n c Hk.
      eapply kept_frame; [|exact Hk]. intros field. apply Hother. intros ->. by apply Hfree, (kept_member _ _ c).
  - destruct (call_keeps p c Hc Ec Hd) as [Hd' Hsame]. cbn [omap list_omap]. rewrite Ec.
    apply (IH _ names); [done..|]. eapply Forall2_impl; [exact Hkept|]. intros n e. by apply kept_frame.
Qed.

Lemma newJson_ok id : doc_ok (mJsonRes (newJson id)).
Proof.
  apply set_leaf_ok; [|done]. intros [|k q] w Hq Hw; [rewrite json_get_nil in Hw; simplify_eq; apply json_null_container|].
  change (json_get ([k] ++ q)%list json_null = Some w) in Hw. by rewrite json_get_app, json_null_empty in Hw.
Qed.

(** [C18] Whatever is told to the printer, in any order, all the differences of the database
    are in the document in the end, each under a name of its own that starts with the
    name of the field, as long as no information has the name of one of the objects of
    the document. *)
Theorem database_differences_kept id l :
  Forall call_ok l ->
  exists names, NoDup names /\
    Forall2 (kept_in (mJsonRes (call_all (newJson id) l))) names (omap cass_of l).
Proof. intros Hl. apply (calls_kept l (newJson id) [] [] Hl (newJson_ok id)); constructor. Qed.
End Document.

(** ** A document, to evaluate with

    The members of an object stay in the order in which they were created. *)
Module Tree.
Inductive tree : Type :=
  | TNull
  | TStr (s : string)
  | TNum (z : Z)
  | TArr (l : list string)
  | TObj (l : list (string * tree)).

Definition fields (v : tree) : list (string * tree) := match v with TObj l => l | _ => [] end.

Fixpoint field (k : string) (l : list (string * tree)) : option tree :=
  match l with
  | [] => None
  | (a, v) :: l => if String.eqb a k then Some v else field k l
  end.

Fixpoint update (f : tree -> tree) (k : string) (l : list (string * tree)) : list (string * tree) :=
  match l with
  | [] => [(k, f TNull)]
  | (a, v) :: l => if String.eqb a k then (a, f v) :: l else (a, v) :: update f k l
  end.

Fixpoint tree_get (p : list string) (v : tree) : option tree :=
  match p with
  | [] => Some v
  | k :: p => match field k (fields v) with Some w => tree_get p w | None => None end
  end.

Fixpoint tree_set (p : list string) (x v : tree) : tree :=
  match p with
  | [] => x
  | k :: p => TObj (update (tree_set p x) k (fields v))
  end.

Fixpoint escape (s : string) : string :=
  match s with
  | EmptyString => EmptyString
  | String c t =>
      if Ascii.eqb c quote_char || Ascii.eqb c (ascii_of_nat 92) then String (ascii_of_nat 92) (String c (escape t))
      else if Ascii.eqb c newline then String (ascii_of_nat 92) (String "n" (escape t))
      else String c (escape t)
  end.

Definition quoted (s : string) : string := String quote_char (escape s) +:+ String quote_char EmptyString.

Fixpoint tree_text (v : tree) : string :=
  match v with
  | TNull => "null"
  | TStr s => quoted s
  | TNum z => string_of_Z z
  | TArr l => "[" +:+ sjoin (quoted <$> l) "," +:+ "]"
  | TObj l => "{" +:+ sjoin ((fun e => quoted (fst e) +:+ ":" +:+ tree_text (snd e)) <$> l) "," +:+ "}"
  end.

#[export] Instance tree_json : Json := {
  Value := tree;
  json_null := TNull;
  json_string := TStr;
  json_int := TNum;
  json_real := TNum;
  json_strings := TArr;
  json_container v := match v with TNull | TObj _ => true | _ => false end;
  json_members v := (fields v).*1;
  json_get := tree_get;
  json_set := tree_set;
  json_write v := tree_text v +:+ endl
}.

Lemma field_update f k k' l :
  field k' (update f k l) = if String.eqb k k' then Some (f (default TNull (field k l))) else field k' l.
Proof.
  induction l as [|[a v] l IH]; cbn; [done|].
  destruct (String.eqb_spec a k) as [->|Hak]; cbn; [by destruct (String.eqb_spec k k')|].
  rewrite IH. destruct (String.eqb_spec a k') as [->|]; [|done].
  by destruct (String.eqb_spec k k') as [->|].
Qed.

Lemma field_member k l : k ∈ l.*1 <-> is_Some (field k l).
Proof.
  induction l as [|[a v] l IH]; cbn; [split; [by intros ?%elem_of_nil|by intros []]|].
  rewrite elem_of_cons, IH. destruct (String.eqb_spec a k) as [->|Hne].
  - split; [by eexists|by left].
  - split; [by intros [->|]|by right].
Qed.

Lemma get_null p : p <> [] -> tree_get p TNull = None.
Proof. by destruct p. Qed.

Lemma get_set_other p q x v :
  ~ p `prefix_of` q -> ~ q `prefix_of` p -> tree_get q (tree_set p x v) = tree_get q v.
Proof.
  revert q v. induction p as [|k p IH]; intros [|k' q] v Hp Hq.
  - by destruct Hp.
  - destruct Hp. apply prefix_nil.
  - destruct Hq. apply prefix_nil.
  - cbn. rewrite field_update. destruct (String.eqb_spec k k') as [->|Hne]; [|done].
    rewrite IH; [|by intros ?; apply Hp, prefix_cons..|by intros ?; apply Hq, prefix_cons].
    destruct (field k' (fields v)); [done|]. cbn. apply get_null. intros ->. apply Hq, prefix_cons, prefix_nil.
Qed.

Lemma get_above p r k x v : exists w, tree_get p (tree_set (p ++ k :: r) x v) = Some (TObj w).
Proof.
  revert v. induction p as [|a p IH]; intros v; [by eexists|]. cbn. rewrite field_update, String.eqb_refl. apply IH.
Qed.

#[export] Instance tree_laws : JsonLaws tree_json.
Proof.
  split; try done.
  - intros p q. cbn. induction p as [|k p IH]; intros v; cbn; [done|]. by destruct (field k (fields v)).
  - intros k v _. cbn. rewrite field_member. by destruct (field k (fields v)).
  - intros p x v _. cbn. revert v. induction p as [|k p IH]; intros v; [done|]. cbn. by rewrite field_update, String.eqb_refl.
  - intros p q x v _ (k & r & ->). destruct (get_above q r k x v) as [w Hw]. by exists (TObj w).
  - intros p q x v _. apply get_set_other.
  - intros v. by exists (tree_text v).
Qed.
End Tree.

Module JsonExamples.
Import Tree Reference.
#[local] Existing Instances boost_string boost_string_laws literal_regex.

(** The text of a document, its quotes as apostrophes. *)
Definition shown (p : anyPrinter) : string :=
  string_map (fun c => if Ascii.eqb c quote_char then "'"%char else c) (snd (fst (retrieveDiff EmptyString p))).

(** testNormalJsonPrint of testJsonDiffPrinter.cc *)
Example testNormalJsonPrint :
  shown (call_all (createDiffPrinter "2" JSON)
    [HeaderDiff "myHeaderKey" (Some "srcValue") (Some "dstValue");
     RequestUri "/spp/main?version=1.0.0&country=FR&infoS=AdviseCapping" "";
     RequestHeader "X-ACCEPTED" "Hello"; RequestHeader "X-Nawak" "Bouh"; Status "DUP" 400; Status "COMP" 200])%string
  = ("{'id':'2','diff':{'header':{'myHeaderKey':{'src':'srcValue','dst':'dstValue'}}},'request':{'uri':'/spp/main?version=1.0.0&country=FR&infoS=AdviseCapping','url':'/spp/main','args':{'VERSION':'1.0.0','COUNTRY':'FR','INFOS':'AdviseCapping'},'header':{'X-ACCEPTED':'Hello','X-NAWAK':'Bouh'}},'status':{'DUP':400,'COMP':200}}" +:+ endl)%string.
Proof. vm_compute. reflexivity. Qed.

(** A URI without arguments is taken for one. *)
Example uri_taken_for_argument :
  shown (call_all (createDiffPrinter "2" JSON) [RequestUri "/p" ""])%string
  = ("{'id':'2','request':{'uri':'/p','url':'/p','args':{'/P':'/p'}}}" +:+ endl)%string.
Proof. vm_compute. reflexivity. Qed.

(** The lines of a difference are those of the bodies, the empty ones removed. *)
Example empty_lines_removed :
  shown (call_all (createDiffPrinter "3" UTF8JSON) [FullDiff ("-a" +:+ endl +:+ endl +:+ "+b")])%string
  = ("{'id':'3','diff':{'body':{'full':'-a\n+b'}}}" +:+ endl)%string.
Proof. vm_compute. reflexivity. Qed.

Definition calls : list printer_call :=
  [CassDiff "name" "" "old" "new"; Info "Date" "today"; CassDiff "name" "k" "a" "b"; CassDiff "name1" "" "x" "y"]%string.

Lemma database_differences_kept_witness :
  exists names, NoDup names /\
    Forall2 (kept_in (mJsonRes (call_all (newJson "7") calls))) names
      [("name", "", "old", "new"); ("name", "k", "a", "b"); ("name1", "", "x", "y")]%string.
Proof.
  assert (Hok : Forall call_ok calls) by (by repeat constructor).
  exact (database_differences_kept "7" calls Hok).
Defined.

Lemma utf8_report_valid_witness :
  let '(_, plain, _) := retrieveDiff EmptyString (call_all (createDiffPrinter "7" JSON : anyPrinter) calls) in
  is_valid plain = true /\
  snd (fst (retrieveDiff EmptyString (call_all (createDiffPrinter "7" UTF8JSON : anyPrinter) calls))) = plain.
Proof.
  pose proof (utf8_report_valid "7" calls EmptyString) as Hr.
  destruct (retrieveDiff EmptyString (call_all (createDiffPrinter "7" UTF8JSON) calls)) as [[p text] diff].
  destruct Hr as (_ & _ & Hr). assert (Hv : is_valid (snd (fst (retrieveDiff EmptyString
    (call_all (createDiffPrinter "7" JSON : anyPrinter) calls)))) = true) by (vm_compute; reflexivity).
  destruct (retrieveDiff EmptyString (call_all (createDiffPrinter "7" JSON) calls)) as [[q plain] d].
  split; [exact Hv|exact (Hr Hv)].
Defined.
End JsonExamples.
