(* ===== verification/Dtl.v ===== *)
(** * Dtl

    The difference library of extern/dtl-cpp (variables.hpp, Sequence.hpp, Lcs.hpp,
    Ses.hpp, Diff.hpp) as stringCompare.cc uses it: [compose] computes the shortest
    edit script of two sequences with the algorithm of Wu, Manber and Myers. A
    sequence is a list, [long long] and [size_t] are integers: the lengths are
    those of objects in memory, far below their bounds. An access outside an array
    has no result ([None]), so that a result also says that there was none. *)
From S2P Require Import Prelude CxxString.
Local Open Scope Z_scope.

(** ** Arrays *)

Definition zlen {X} (l : list X) : Z := Z.of_nat (length l).

Definition vget {X} (l : list X) (i : Z) : option X :=
  if 0 <=? i then l !! Z.to_nat i else None.

Definition vset {X} (l : list X) (i : Z) (x : X) : option (list X) :=
  if (0 <=? i) && (i <? zlen l) then Some (<[Z.to_nat i := x]> l) else None.

(** ** Edits *)

Inductive edit_t : Type := SES_DELETE | SES_COMMON | SES_ADD.

#[export] Instance edit_t_eq_dec : EqDecision edit_t.
Proof. solve_decision. Defined.

Record elemInfo : Type := mkInfo { beforeIdx : Z; afterIdx : Z; type : edit_t }.

Definition MAX_CORDINATES_SIZE : Z := 2000000.

Record Point : Type := mkPoint { x_of : Z; y_of : Z; k_of : Z }.

Section Dtl.
Context {E : Type} `{EqDecision E}.

#[local] Notation sesElem := (E * elemInfo)%type.

(** Ses.hpp. The members [sequence], [onlyAdd], ... *)
Record Ses : Type := mkSes {
  ses_sequence : list sesElem;
  onlyAdd : bool;
  onlyDelete : bool;
  onlyCopy : bool;
  deletesFirst : bool;
  nextDeleteIdx : nat
}.

Definition newSes (moveDel : bool) : Ses := mkSes [] true true true moveDel 0.

Definition isChange (s : Ses) : bool := negb (onlyCopy s).
Definition isOnlyOneOperation (s : Ses) : bool := onlyAdd s || onlyDelete s || onlyCopy s.

Definition addSequence (e : E) (before after : Z) (ty : edit_t) (s : Ses) : Ses :=
  let pe := (e, mkInfo before after ty) in
  let seq := if deletesFirst s then ses_sequence s else ses_sequence s ++ [pe] in
  match ty with
  | SES_DELETE =>
      if deletesFirst s
      then mkSes (take (nextDeleteIdx s) seq ++ pe :: drop (nextDeleteIdx s) seq) false (onlyDelete s)
                 false true (S (nextDeleteIdx s))
      else mkSes seq false (onlyDelete s) false false (nextDeleteIdx s)
  | SES_COMMON =>
      if deletesFirst s
      then mkSes (seq ++ [pe]) false false (onlyCopy s) true (length (seq ++ [pe]))
      else mkSes seq false false (onlyCopy s) false (nextDeleteIdx s)
  | SES_ADD =>
      mkSes (if deletesFirst s then seq ++ [pe] else seq) (onlyAdd s) false false (deletesFirst s)
            (nextDeleteIdx s)
  end.

(** [cmp.impl] of functors.hpp *)
Definition cmp_impl (e1 e2 : E) : bool := bool_decide (e1 = e2).

(** The members of class [Diff]; [dA], [dB], [dM], [dN] are A, B, M, N. The
    pointer [fp] is the array it points to. *)
Record Diff : Type := mkDiff {
  dA : list E;
  dB : list E;
  dM : Z;
  dN : Z;
  delta : Z;
  offset : Z;
  fp : list Z;
  editDistance : Z;
  lcs : list E;
  ses : Ses;
  path : list Z;
  pathCordinates : list Point;
  swapped : bool;
  huge : bool;
  trivial : bool;
  editDistanceOnly : bool
}.

Definition set_fp (x : list Z) (r : Diff) : Diff :=
    {| dA := dA r; dB := dB r; dM := dM r; dN := dN r; delta := delta r; offset :=
     offset r; fp := x; editDistance := editDistance r; lcs := lcs r; ses := ses r; path
     := path r; pathCordinates := pathCordinates r; swapped := swapped r; huge := huge
     r; trivial := trivial r; editDistanceOnly := editDistanceOnly r |}.

Definition set_editDistance (x : Z) (r : Diff) : Diff :=
    {| dA := dA r; dB := dB r; dM := dM r; dN := dN r; delta := delta r; offset :=
     offset r; fp := fp r; editDistance := x; lcs := lcs r; ses := ses r; path := path
     r; pathCordinates := pathCordinates r; swapped := swapped r; huge := huge r;
     trivial := trivial r; editDistanceOnly := editDistanceOnly r |}.

Definition set_lcs (x : list E) (r : Diff) : Diff :=
    {| dA := dA r; dB := dB r; dM := dM r; dN := dN r; delta := delta r; offset :=
     offset r; fp := fp r; editDistance := editDistance r; lcs := x; ses := ses r; path
     := path r; pathCordinates := pathCordinates r; swapped := swapped r; huge := huge
     r; trivial := trivial r; editDistanceOnly := editDistanceOnly r |}.

Definition set_ses (x : Ses) (r : Diff) : Diff :=
    {| dA := dA r; dB := dB r; dM := dM r; dN := dN r; delta := delta r; offset :=
     offset r; fp := fp r; editDistance := editDistance r; lcs := lcs r; ses := x; path
     := path r; pathCordinates := pathCordinates r; swapped := swapped r; huge := huge
     r; trivial := trivial r; editDistanceOnly := editDistanceOnly r |}.

Definition set_path (x : list Z) (r : Diff) : Diff :=
    {| dA := dA r; dB := dB r; dM := dM r; dN := dN r; delta := delta r; offset :=
     offset r; fp := fp r; editDistance := editDistance r; lcs := lcs r; ses := ses r;
     path := x; pathCordinates := pathCordinates r; swapped := swapped r; huge := huge
     r; trivial := trivial r; editDistanceOnly := editDistanceOnly r |}.

Definition set_pathCordinates (x : list Point) (r : Diff) : Diff :=
    {| dA := dA r; dB := dB r; dM := dM r; dN := dN r; delta := delta r; offset :=
     offset r; fp := fp r; editDistance := editDistance r; lcs := lcs r; ses := ses r;
     path := path r; pathCordinates := x; swapped := swapped r; huge := huge r; trivial
     := trivial r; editDistanceOnly := editDistanceOnly r |}.

Definition set_huge (x : bool) (r : Diff) : Diff :=
    {| dA := dA r; dB := dB r; dM := dM r; dN := dN r; delta := delta r; offset :=
     offset r; fp := fp r; editDistance := editDistance r; lcs := lcs r; ses := ses r;
     path := path r; pathCordinates := pathCordinates r; swapped := swapped r; huge :=
     x; trivial := trivial r; editDistanceOnly := editDistanceOnly r |}.

Definition set_trivial (x : bool) (r : Diff) : Diff :=
    {| dA := dA r; dB := dB r; dM := dM r; dN := dN r; delta := delta r; offset :=
     offset r; fp := fp r; editDistance := editDistance r; lcs := lcs r; ses := ses r;
     path := path r; pathCordinates := pathCordinates r; swapped := swapped r; huge :=
     huge r; trivial := x; editDistanceOnly := editDistanceOnly r |}.

Definition set_editDistanceOnly (x : bool) (r : Diff) : Diff :=
    {| dA := dA r; dB := dB r; dM := dM r; dN := dN r; delta := delta r; offset :=
     offset r; fp := fp r; editDistance := editDistance r; lcs := lcs r; ses := ses r;
     path := path r; pathCordinates := pathCordinates r; swapped := swapped r; huge :=
     huge r; trivial := trivial r; editDistanceOnly := x |}.

(** ** Construction *)

(** [init]: the shorter sequence is put first. *)
Definition init (a b : list E) (deletesFirst : bool) : Diff :=
  let M := zlen a in
  let N := zlen b in
  let sw := negb (M <? N) in
  let A := if sw then b else a in
  let B := if sw then a else b in
  {| dA := A; dB := B; dM := zlen A; dN := zlen B; delta := zlen B - zlen A; offset := zlen A + 1;
     fp := []; editDistance := 0; lcs := []; ses := newSes deletesFirst; path := [];
     pathCordinates := []; swapped := sw; huge := false; trivial := false;
     editDistanceOnly := false |}.

Definition onUnserious (d : Diff) : Diff := set_trivial true d.
Definition onHuge (d : Diff) : Diff := set_huge true d.
Definition offHuge (d : Diff) : Diff := set_huge false d.
Definition offUnserious (d : Diff) : Diff := set_trivial false d.
Definition onOnlyEditDistance (d : Diff) : Diff := set_editDistanceOnly true d.
Definition enableHuge (d : Diff) : Diff := set_huge true d.
Definition disableHuge (d : Diff) : Diff := set_huge false d.
(** Declared [const], and changing a member: it compiles as long as nothing calls it. *)
Definition enableTrivial (d : Diff) : Diff := set_trivial true d.
Definition disableTrivial (d : Diff) : Diff := set_trivial false d.
(** Its name says that it answers; it sets. *)
Definition editDistanceOnlyEnabled (d : Diff) : Diff := set_editDistanceOnly true d.
Definition isHuge (d : Diff) : bool := huge d.
Definition isUnserious (d : Diff) : bool := trivial d.
Definition hugeEnabled (d : Diff) : bool := huge d.
Definition trivialEnabled (d : Diff) : bool := trivial d.
Definition getEditDistance (d : Diff) : Z := editDistance d.
Definition getLcsVec (d : Diff) : list E := lcs d.
Definition getSes (d : Diff) : Ses := ses d.

(** ** The search *)

(** The loop of [snake]; an index that is negative is beyond the end as a [size_t]. *)
Fixpoint slide (d : Diff) (fuel : nat) (x y : Z) : Z * Z :=
  match fuel, vget (dA d) x, vget (dB d) y with
  | S fuel, Some ex, Some ey =>
      if (if swapped d then cmp_impl ey ex else cmp_impl ex ey)
      then slide d fuel (x + 1) (y + 1) else (x, y)
  | _, _, _ => (x, y)
  end.

Definition snake (k above below : Z) (d : Diff) : option (Diff * Z) :=
  r ← (if below <? above then vget (path d) (k - 1 + offset d) else vget (path d) (k + 1 + offset d));
  let y := Z.max above below in
  let x := y - k in
  let '(x, y) := slide d (length (dA d)) x y in
  path' ← vset (path d) (k + offset d) (zlen (pathCordinates d));
  let d := set_path path' d in
  let d := if editDistanceOnly d then d
           else set_pathCordinates (pathCordinates d ++ [mkPoint x y r]) d in
  Some (d, y).

(** [fp[k+offset] = snake(k, fp[k-1+offset]+1, fp[k+1+offset])] *)
Definition advance (d : Diff) (k : Z) : option Diff :=
  above ← vget (fp d) (k - 1 + offset d);
  below ← vget (fp d) (k + 1 + offset d);
  '(d, y) ← snake k (above + 1) below d;
  fp' ← vset (fp d) (k + offset d) y;
  Some (set_fp fp' d).

Fixpoint advances (ks : list Z) (d : Diff) : option Diff :=
  match ks with
  | [] => Some d
  | k :: ks => d ← advance d k; advances ks d
  end.

(** The diagonals of one turn, in the order of the loops. *)
Definition below_delta (p : Z) (d : Diff) : list Z := seqZ (- p) (delta d + p).
Definition above_delta (p : Z) (d : Diff) : list Z := (fun i => delta d + p - i) <$> seqZ 0 p.

Definition turn (p : Z) (d : Diff) : option Diff :=
  advances (below_delta p d ++ above_delta p d ++ [delta d]) d.

(** The do-while loop; [p] is the value before the turn. *)
Fixpoint onp (fuel : nat) (p : Z) (d : Diff) : option (Z * Diff) :=
  match fuel with
  | O => None
  | S fuel =>
      let p := p + 1 in
      d ← turn p d;
      y ← vget (fp d) (delta d + offset d);
      if negb (y =? dN d) && (zlen (pathCordinates d) <? MAX_CORDINATES_SIZE)
      then onp fuel p d else Some (p, d)
  end.

(** The path found, from its end. *)
Fixpoint backtrack (fuel : nat) (pc : list Point) (r : Z) : option (list Point) :=
  if r =? -1 then Some []
  else match fuel with
       | O => None
       | S fuel =>
           c ← vget pc r;
           epc ← backtrack fuel pc (k_of c);
           Some (c :: epc)
       end.

(** ** Recording the script *)

(** The locals of [recordSequence]: the iterator [x], [x_idx - 1] and [px_idx]
    advance together, and so do those of [y]. *)
Record cursor : Type := mkCursor { px : Z; py : Z; rlcs : list E; rses : Ses }.

(** One turn of its inner loop, towards the point [(vx, vy)]. *)
Definition record_one (d : Diff) (vx vy : Z) (c : cursor) : option cursor :=
  if py c - px c <? vy - vx then
    e ← vget (dB d) (py c);
    Some (mkCursor (px c) (py c + 1) (rlcs c)
      (if swapped d then addSequence e (py c + 1) 0 SES_DELETE (rses c)
       else addSequence e 0 (py c + 1) SES_ADD (rses c)))
  else if vy - vx <? py c - px c then
    e ← vget (dA d) (px c);
    Some (mkCursor (px c + 1) (py c) (rlcs c)
      (if swapped d then addSequence e 0 (px c + 1) SES_ADD (rses c)
       else addSequence e (px c + 1) 0 SES_DELETE (rses c)))
  else
    if swapped d then
      e ← vget (dB d) (py c);
      Some (mkCursor (px c + 1) (py c + 1) (rlcs c ++ [e])
        (addSequence e (py c + 1) (px c + 1) SES_COMMON (rses c)))
    else
      e ← vget (dA d) (px c);
      Some (mkCursor (px c + 1) (py c + 1) (rlcs c ++ [e])
        (addSequence e (px c + 1) (py c + 1) SES_COMMON (rses c))).

Fixpoint record_to (d : Diff) (fuel : nat) (vx vy : Z) (c : cursor) : option cursor :=
  if (px c <? vx) || (py c <? vy) then
    match fuel with
    | O => None
    | S fuel => c ← record_one d vx vy c; record_to d fuel vx vy c
    end
  else Some c.

Fixpoint record_points (d : Diff) (v : list Point) (c : cursor) : option cursor :=
  match v with
  | [] => Some c
  | p :: v =>
      c ← record_to d (length (dA d) + length (dB d))%nat (x_of p) (y_of p) c;
      record_points d v c
  end.

(** [recordOddSequence]: the elements of [l] from index [idx - 1] to the last one;
    one is recorded even if there is none left. *)
Fixpoint odd_loop (fuel : nat) (l : list E) (idx length : Z) (et : edit_t) (s : Ses * Z) :
    option (Ses * Z) :=
  e ← vget l (idx - 1);
  let s := (addSequence e idx 0 et (fst s), snd s + 1) in
  if idx <? length then
    match fuel with
    | O => None
    | S fuel => odd_loop fuel l (idx + 1) length et s
    end
  else Some s.

Definition recordOddSequence (l : list E) (idx len : Z) (et : edit_t) (s : Ses * Z) : option (Ses * Z) :=
  odd_loop (length l) l idx len et s.

(** The result says whether everything is recorded. *)
Definition recordSequence (v : list Point) (d : Diff) : option (Diff * bool) :=
  c ← record_points d (reverse v) (mkCursor 0 0 (lcs d) (ses d));
  let d := set_lcs (rlcs c) (set_ses (rses c) d) in
  if (dM d <? px c + 1) && (dN d <? py c + 1) then Some (d, true)
  else if trivial d then
    s ← recordOddSequence (dA d) (px c + 1) (dM d) (if swapped d then SES_ADD else SES_DELETE)
          (ses d, editDistance d);
    '(s, ed) ← recordOddSequence (dB d) (py c + 1) (dN d) (if swapped d then SES_DELETE else SES_ADD) s;
    Some (set_editDistance ed (set_ses s d), true)
  else
    let A := drop (Z.to_nat (px c)) (dA d) in
    let B := drop (Z.to_nat (py c)) (dB d) in
    Some
      ({| dA := A; dB := B; dM := zlen A; dN := zlen B; delta := zlen B - zlen A;
          offset := zlen A + 1; fp := replicate (length A + length B + 3)%nat (-1);
          editDistance := editDistance d; lcs := lcs d; ses := ses d;
          path := (fun _ => -1) <$> path d; pathCordinates := pathCordinates d;
          swapped := swapped d; huge := huge d; trivial := trivial d;
          editDistanceOnly := editDistanceOnly d |}, false).

(** From the label ONP; [again] bounds the number of times the code goes back. *)
Fixpoint search (again : nat) (d : Diff) : option Diff :=
  '(p, d) ← onp (S (length (dA d))) (-1) d;
  let d := set_editDistance (editDistance d + delta d + 2 * p) d in
  r ← vget (path d) (delta d + offset d);
  if editDistanceOnly d then Some (set_fp [] d)
  else
    epc ← backtrack (length (pathCordinates d)) (pathCordinates d) r;
    '(d, complete) ← recordSequence epc d;
    if (complete : bool) then Some (set_fp [] d)
    else match again with
         | O => None
         | S again => search again (set_pathCordinates [] d)
         end.

Definition compose (d : Diff) : option Diff :=
  let n := (length (dA d) + length (dB d) + 3)%nat in
  search (length (dA d) + length (dB d))%nat
    (set_path (replicate n (-1)) (set_fp (replicate n (-1)) d)).

(** ** Patching *)

(** The list and the iterator in it: what is before the iterator, and from it on. *)
Fixpoint patch_loop (l : list sesElem) (front back : list E) : option (list E) :=
  match l with
  | [] => Some (front ++ back)
  | (e, i) :: l =>
      match type i, back with
      | SES_ADD, _ => patch_loop l (front ++ [e]) back
      | SES_DELETE, _ :: back => patch_loop l front back
      | SES_COMMON, b :: back => patch_loop l (front ++ [b]) back
      | _, [] => None
      end
  end.

Definition patch (d : Diff) (seq : list E) : option (list E) :=
  patch_loop (ses_sequence (ses d)) [] seq.
End Dtl.
