(* ===== verification/DtlSearch.v ===== *)
(** * DtlSearch

    The search of [compose] (Dtl): every array access is inside its array, the loop
    ends, the script recorded turns the one sequence into the other, and no script
    is shorter. [reach D x y] is the specification: the point (x, y) of the edit
    graph, [x] elements of the first sequence and [y] of the second, can be reached
    with [D] elements of the first left out. *)
From S2P Require Import Prelude CxxString Dtl.
Local Open Scope Z_scope.

(** ** Arrays *)

Lemma zlen_nonneg {X} (l : list X) : 0 <= zlen l.
Proof. unfold zlen. lia. Qed.

Lemma zlen_app {X} (l m : list X) : zlen (l ++ m) = zlen l + zlen m.
Proof. unfold zlen. rewrite length_app. lia. Qed.

Lemma vget_Some {X} (l : list X) i x : vget l i = Some x -> 0 <= i < zlen l.
Proof.
  unfold vget, zlen. case_match; [|done]. intros Hl%lookup_lt_Some.
  match goal with H : (0 <=? i) = true |- _ => apply Z.leb_le in H end. lia.
Qed.

Lemma vget_lookup {X} (l : list X) i : 0 <= i -> vget l i = l !! Z.to_nat i.
Proof. intros Hi. unfold vget. by rewrite (proj2 (Z.leb_le 0 i) Hi). Qed.

Lemma vget_is_Some {X} (l : list X) i : 0 <= i < zlen l -> is_Some (vget l i).
Proof. intros Hi. rewrite vget_lookup by lia. apply lookup_lt_is_Some. unfold zlen in Hi. lia. Qed.

Lemma vget_app_l {X} (l m : list X) i x : vget l i = Some x -> vget (l ++ m) i = Some x.
Proof.
  intros Hx. apply vget_Some in Hx as Hi. rewrite vget_lookup in * by lia. by apply lookup_app_l_Some.
Qed.

Lemma vget_last {X} (l : list X) x : vget (l ++ [x]) (zlen l) = Some x.
Proof.
  rewrite vget_lookup by apply zlen_nonneg. unfold zlen. rewrite Nat2Z.id. by apply list_lookup_middle.
Qed.

Lemma vget_replicate n i (x : Z) : 0 <= i < Z.of_nat n -> vget (replicate n x) i = Some x.
Proof. intros Hi. rewrite vget_lookup by lia. apply lookup_replicate_2. lia. Qed.

Lemma vset_spec {X} (l : list X) i x :
  0 <= i < zlen l ->
  exists l', vset l i x = Some l' /\ zlen l' = zlen l /\
    (forall j, vget l' j = if j =? i then Some x else vget l j).
Proof.
  intros Hi. eexists. unfold vset. rewrite (proj2 (Z.leb_le 0 i)), (proj2 (Z.ltb_lt i (zlen l))) by lia.
  split_and!; [done|unfold zlen; by rewrite length_insert|]. intros j. unfold vget.
  destruct (Z.leb_spec 0 j); [|destruct (Z.eqb_spec j i); [lia|done]].
  destruct (Z.eqb_spec j i) as [->|Hj].
  - rewrite list_lookup_insert_eq; [done|]. unfold zlen in Hi. lia.
  - rewrite list_lookup_insert_ne by lia. done.
Qed.

Section Search.
Context {E : Type} `{EqDecision E}.
Implicit Types (d : Diff (E := E)) (k x y D : Z).

(** ** The edit graph of two sequences *)
Section Graph.
Context (a b : list E).

Definition matches (x y n : Z) : Prop :=
  forall j, 0 <= j < n -> exists e, vget a (x + j) = Some e /\ vget b (y + j) = Some e.

(** No common element follows. *)
Definition stuck (x y : Z) : Prop := forall e, vget a x = Some e -> vget b y = Some e -> False.

Inductive reach : Z -> Z -> Z -> Prop :=
  | reach_start : reach 0 0 0
  | reach_left D x y : reach D x y -> x < zlen a -> reach (D + 1) (x + 1) y
  | reach_right D x y : reach D x y -> y < zlen b -> reach D x (y + 1)
  | reach_both D x y e :
      reach D x y -> vget a x = Some e -> vget b y = Some e -> reach D (x + 1) (y + 1).

Lemma reach_bounds D x y : reach D x y -> 0 <= D /\ 0 <= y - x + D /\ 0 <= x <= zlen a /\ 0 <= y <= zlen b.
Proof.
  pose proof (zlen_nonneg a). pose proof (zlen_nonneg b).
  induction 1 as [|D x y _ IH Hx|D x y _ IH Hy|D x y e _ IH Hx Hy]; try lia.
  apply vget_Some in Hx, Hy. lia.
Qed.

Lemma reach_matches D x y n : 0 <= n -> matches x y n -> reach D x y -> reach D (x + n) (y + n).
Proof.
  intros Hn Hm Hr. revert Hm. revert n Hn. refine (natlike_ind _ _ _).
  - intros _. by rewrite !Z.add_0_r.
  - intros n Hn IH Hm. destruct (Hm n) as (e & Hx & Hy); [lia|].
    rewrite <- Z.add_1_r, !Z.add_assoc. eapply reach_both; [|done..]. apply IH.
    intros j Hj. apply Hm. lia.
Qed.

(** A recorded path: the point of index [i] and the ones it comes from. *)
Inductive chain (pc : list Point) : Z -> Z -> Z -> Z -> Prop :=
  | chain_start i n :
      0 <= n -> vget pc i = Some (mkPoint n n (-1)) -> matches 0 0 n -> chain pc i 0 n n
  | chain_right i r D x y n :
      0 <= n -> chain pc r D x y -> r < i -> y < zlen b -> matches x (y + 1) n ->
      vget pc i = Some (mkPoint (x + n) (y + 1 + n) r) -> chain pc i D (x + n) (y + 1 + n)
  | chain_left i r D x y n :
      0 <= n -> chain pc r D x y -> r < i -> x < zlen a -> matches (x + 1) y n ->
      vget pc i = Some (mkPoint (x + 1 + n) (y + n) r) -> chain pc i (D + 1) (x + 1 + n) (y + n).

Lemma chain_app pc p i D x y : chain pc i D x y -> chain (pc ++ [p]) i D x y.
Proof.
  induction 1; [eapply chain_start|eapply chain_right|eapply chain_left]; eauto using vget_app_l.
Qed.

Lemma chain_reach pc i D x y : chain pc i D x y -> reach D x y.
Proof.
  induction 1 as [i n Hn Hp Hm|i r D x y n Hn _ IH Hr Hy Hm Hp|i r D x y n Hn _ IH Hr Hx Hm Hp].
  - apply (reach_matches 0 0 0); [done..|constructor].
  - apply reach_matches; [done..|]. by constructor.
  - apply reach_matches; [done..|]. by constructor.
Qed.

Lemma chain_index pc i D x y : chain pc i D x y -> 0 <= i < zlen pc.
Proof. by destruct 1 as [? ? ? Hp|? ? ? ? ? ? ? ? ? ? ? Hp|? ? ? ? ? ? ? ? ? ? ? Hp]; apply vget_Some in Hp. Qed.

(** ** The state of the search *)

Record Static d : Prop := {
  st_A : dA d = a;
  st_B : dB d = b;
  st_M : dM d = zlen a;
  st_N : dN d = zlen b;
  st_delta : delta d = zlen b - zlen a;
  st_offset : offset d = zlen a + 1;
  st_only : editDistanceOnly d = false
}.

(** [F] is what [fp] holds for each diagonal, and [C] how many elements of the
    first sequence the path of the diagonal leaves out. *)
Record Inv (F C : Z -> Z) d : Prop := {
  inv_static : Static d;
  inv_fp_len : zlen (fp d) = zlen a + zlen b + 3;
  inv_path_len : zlen a + zlen b + 3 <= zlen (path d);
  inv_fp k : - (zlen a + 1) <= k <= zlen b + 1 -> vget (fp d) (k + offset d) = Some (F k);
  inv_link k : - (zlen a + 1) <= k <= zlen b + 1 ->
    (F k = -1 /\ vget (path d) (k + offset d) = Some (-1)) \/
    (exists i, vget (path d) (k + offset d) = Some i /\
               chain (pathCordinates d) i (C k) (F k - k) (F k))
}.

Lemma inv_bounds F C d k :
  Inv F C d -> - (zlen a + 1) <= k <= zlen b + 1 -> F k <> -1 ->
  0 <= F k - k <= zlen a /\ 0 <= F k <= zlen b /\ 0 <= C k /\ 0 <= C k + k.
Proof.
  intros HI Hk HF. destruct (inv_link _ _ _ HI k Hk) as [[? _]|(i & _ & Hc)]; [done|].
  apply chain_reach, reach_bounds in Hc. lia.
Qed.

Lemma matches_step x y n e :
  matches (x + 1) (y + 1) n -> 0 <= n -> vget a x = Some e -> vget b y = Some e -> matches x y (n + 1).
Proof.
  intros Hm Hn Hx Hy j Hj. destruct (Z.eq_dec j 0) as [->|]; [exists e; by rewrite !Z.add_0_r|].
  destruct (Hm (j - 1)) as (e' & Hx' & Hy'); [lia|]. exists e'.
  by replace (x + j) with (x + 1 + (j - 1)) by lia; replace (y + j) with (y + 1 + (j - 1)) by lia.
Qed.

Lemma slide_spec d fuel x y :
  Static d -> 0 <= x -> zlen a - x <= Z.of_nat fuel ->
  exists n, 0 <= n /\ slide d fuel x y = (x + n, y + n) /\ matches x y n /\ stuck (x + n) (y + n).
Proof.
  intros Hd. revert x y. induction fuel as [|fuel IH]; intros x y Hx Hf;
    (assert (Hstop : (forall e, vget a x = Some e -> vget b y = Some e -> False) ->
       exists n, 0 <= n /\ (x, y) = (x + n, y + n) /\ matches x y n /\ stuck (x + n) (y + n));
     [intros Hs; exists 0; rewrite !Z.add_0_r; split_and!; [done..| |done]; intros j Hj; lia|]).
  - apply Hstop. intros e He. apply vget_Some in He. lia.
  - cbn [slide]. rewrite (st_A _ Hd), (st_B _ Hd).
    destruct (vget a x) as [ex|] eqn:Ex; [|apply Hstop; congruence].
    destruct (vget b y) as [ey|] eqn:Ey; [|apply Hstop; congruence].
    replace (if swapped d then cmp_impl ey ex else cmp_impl ex ey) with (bool_decide (ex = ey)).
    2: { destruct (swapped d); [|done]. unfold cmp_impl. apply bool_decide_ext. naive_solver. }
    case_bool_decide as He; [|apply Hstop; congruence]. subst ey.
    destruct (IH (x + 1) (y + 1)) as (n & Hn & -> & Hm & Hs); [lia..|].
    exists (n + 1). replace (x + (n + 1)) with (x + 1 + n) by lia.
    replace (y + (n + 1)) with (y + 1 + n) by lia. split_and!; [lia|done| |done].
    by eapply matches_step.
Qed.

Definition upd (F : Z -> Z) (k v : Z) : Z -> Z := fun j => if j =? k then v else F j.

Lemma upd_eq F k v : upd F k v k = v.
Proof. unfold upd. by rewrite Z.eqb_refl. Qed.

Lemma upd_ne F k v j : j <> k -> upd F k v j = F j.
Proof. intros H. unfold upd. by rewrite (proj2 (Z.eqb_neq j k) H). Qed.

(** What a turn leaves alone. *)
Record kept d d' : Prop := {
  kept_swapped : swapped d' = swapped d;
  kept_lcs : lcs d' = lcs d;
  kept_ses : ses d' = ses d;
  kept_distance : editDistance d' = editDistance d;
  kept_trivial : trivial d' = trivial d
}.

#[local] Instance kept_preorder : PreOrder kept.
Proof. split; [by split|]. intros d1 d2 d3 [] []. split; congruence. Qed.

(** Where the point of diagonal [k] comes from, before the slide. *)
Definition from_above (F : Z -> Z) k : Prop :=
  F (k + 1) < F (k - 1) + 1 /\ (k = 0 /\ F (k - 1) = -1 \/ 0 <= F (k - 1) < zlen b).
Definition from_below (F : Z -> Z) k : Prop :=
  F (k - 1) + 1 <= F (k + 1) /\ 0 <= F (k + 1) /\ F (k + 1) - (k + 1) < zlen a.

(** The number of elements left out that goes with it. *)
Definition cost_of (F C : Z -> Z) k : Z :=
  if F (k + 1) <? F (k - 1) + 1 then (if F (k - 1) =? -1 then 0 else C (k - 1)) else C (k + 1) + 1.

Lemma origin F C d k :
  Inv F C d -> - zlen a <= k <= zlen b -> from_above F k \/ from_below F k ->
  let y0 := Z.max (F (k - 1) + 1) (F (k + 1)) in
  exists r,
    (if F (k + 1) <? F (k - 1) + 1
     then vget (path d) (k - 1 + offset d) else vget (path d) (k + 1 + offset d)) = Some r /\
    0 <= y0 - k /\
    forall n, 0 <= n -> matches (y0 - k) y0 n ->
      chain (pathCordinates d ++ [mkPoint (y0 - k + n) (y0 + n) r]) (zlen (pathCordinates d))
            (cost_of F C k) (y0 - k + n) (y0 + n).
Proof.
  intros HI Hk Hfrom. unfold cost_of. destruct Hfrom as [[Hlt Hf]|(Hge & Hv & Hx)].
  - rewrite (proj2 (Z.ltb_lt _ _) Hlt), Z.max_l by lia.
    destruct (inv_link _ _ _ HI (k - 1) ltac:(lia)) as [[HF Hp]|(i & Hp & Hc)].
    + destruct Hf as [[-> _]|?]; [|lia]. exists (-1). rewrite HF. cbn.
      split_and!; [done..|]. intros n Hn Hm. rewrite !Z.add_0_l. apply chain_start; [done| |done]. by rewrite vget_last.
    + pose proof (chain_reach _ _ _ _ _ Hc) as Hr%reach_bounds.
      rewrite (proj2 (Z.eqb_neq (F (k - 1)) (-1))) by lia. exists i. split_and!; [done|lia|].
      intros n Hn Hm. replace (F (k - 1) + 1 - k) with (F (k - 1) - (k - 1)) in * by lia.
      eapply chain_right; [done|by apply chain_app|apply chain_index in Hc; lia|lia|done|]. by rewrite vget_last.
  - rewrite (proj2 (Z.ltb_ge _ _) Hge), Z.max_r by lia.
    destruct (inv_link _ _ _ HI (k + 1) ltac:(lia)) as [[HF Hp]|(i & Hp & Hc)]; [lia|].
    pose proof (chain_reach _ _ _ _ _ Hc) as Hr%reach_bounds. exists i. split_and!; [done|lia|].
    intros n Hn Hm. replace (F (k + 1) - k) with (F (k + 1) - (k + 1) + 1) in * by lia.
    eapply chain_left; [done|by apply chain_app|apply chain_index in Hc; lia|lia|done|]. by rewrite vget_last.
Qed.

(** One diagonal. *)
Lemma advance_spec F C d k :
  Inv F C d -> - zlen a <= k <= zlen b -> from_above F k \/ from_below F k ->
  exists d' y, advance d k = Some d' /\ Inv (upd F k y) (upd C k (cost_of F C k)) d' /\
    Z.max (F (k - 1) + 1) (F (k + 1)) <= y /\ stuck (y - k) y /\ kept d d'.
Proof.
  intros HI Hk Hfrom. destruct (origin F C d k HI Hk Hfrom) as (r & Hr & Hx & Hchain).
  pose proof (inv_static _ _ _ HI) as Hd. pose proof (zlen_nonneg a). pose proof (zlen_nonneg b).
  set (y0 := Z.max (F (k - 1) + 1) (F (k + 1))) in *.
  destruct (slide_spec d (length (dA d)) (y0 - k) y0) as (n & Hn & Hslide & Hm & Hs); [done..| |].
  { rewrite (st_A _ Hd). unfold zlen. lia. }
  pose proof (st_offset _ Hd) as Ho.
  destruct (vset_spec (path d) (k + offset d) (zlen (pathCordinates d))) as (path' & Hset & Hlen' & Hget').
  { pose proof (inv_path_len _ _ _ HI). lia. }
  destruct (vset_spec (fp d) (k + offset d) (y0 + n)) as (fp' & Hsetf & Hlenf & Hgetf).
  { rewrite (inv_fp_len _ _ _ HI). lia. }
  eexists _, (y0 + n). split_and!.
  - unfold advance. rewrite !(inv_fp _ _ _ HI) by lia. cbn [mbind option_bind]. unfold snake.
    rewrite Hr. cbn [mbind option_bind]. fold y0. rewrite Hslide, Hset. cbn.
    rewrite (st_only _ Hd). cbn. rewrite Hsetf. done.
  - split.
    + destruct Hd. by split.
    + cbn. rewrite Hlenf. apply (inv_fp_len _ _ _ HI).
    + cbn. rewrite Hlen'. apply (inv_path_len _ _ _ HI).
    + intros j Hj. cbn. rewrite Hgetf. unfold upd.
      destruct (Z.eqb_spec j k) as [->|Hjk]; [by rewrite Z.eqb_refl|].
      rewrite (proj2 (Z.eqb_neq _ _)) by lia. by apply (inv_fp _ _ _ HI).
    + intros j Hj. cbn. rewrite Hget'. unfold upd. destruct (Z.eqb_spec j k) as [->|Hjk].
      * right. exists (zlen (pathCordinates d)). rewrite Z.eqb_refl. split; [done|].
        replace (y0 + n - k) with (y0 - k + n) by lia. by apply Hchain.
      * rewrite (proj2 (Z.eqb_neq _ _)) by lia.
        destruct (inv_link _ _ _ HI j Hj) as [?|(i & Hp & Hc)]; [by left|right].
        exists i. split; [done|]. by apply chain_app.
  - lia.
  - by replace (y0 + n - k) with (y0 - k + n) by lia.
  - by split.
Qed.

(** ** One turn *)

Lemma advances_app ks1 ks2 d : advances (ks1 ++ ks2) d = (d' ← advances ks1 d; advances ks2 d').
Proof. revert d. induction ks1 as [|k ks IH]; intros d; [done|]. cbn. destruct (advance d k); [apply IH|done]. Qed.

Notation dl := (zlen b - zlen a).

(** Between two diagonals of a turn: those in [P] are done. *)
Record Partial (P : Z -> Prop) (F C G C' : Z -> Z) (d d' : Diff (E := E)) : Prop := {
  pt_inv : Inv G C' d';
  pt_kept : kept d d';
  pt_old j : ~ P j -> G j = F j /\ C' j = C j;
  pt_stuck j : P j -> 0 <= G j /\ stuck (G j - j) (G j)
}.

(** A diagonal that is done next. *)
Lemma partial_next (P Q : Z -> Prop) F C G C' d d' k :
  Partial P F C G C' d d' -> ~ P k -> (forall j, Q j <-> P j \/ j = k) ->
  - zlen a <= k <= zlen b -> from_above G k \/ from_below G k ->
  exists d'' y, advance d' k = Some d'' /\
    Partial Q F C (upd G k y) (upd C' k (cost_of G C' k)) d d'' /\
    Z.max (G (k - 1) + 1) (G (k + 1)) <= y.
Proof.
  intros [HI Hkept Hold Hst] HP HQ Hk Hfrom.
  destruct (advance_spec G C' d' k HI Hk Hfrom) as (d'' & y & Hadv & HI' & Hy & Hs & Hkept').
  assert (Hy0 : 0 <= y) by (unfold from_above, from_below in Hfrom; lia).
  exists d'', y. split_and!; [done| |done]. split; [done|by etrans| |].
  - intros j Hj. rewrite HQ in Hj. rewrite !upd_ne by naive_solver. apply Hold. naive_solver.
  - intros j Hj. rewrite HQ in Hj. destruct (decide (j = k)) as [->|Hne]; [by rewrite upd_eq|].
    rewrite upd_ne by done. apply Hst. naive_solver.
Qed.

Lemma partial_bounds P F C G C' d d' j :
  Partial P F C G C' d d' -> P j -> - (zlen a + 1) <= j <= zlen b + 1 ->
  0 <= G j - j <= zlen a /\ 0 <= G j <= zlen b /\ 0 <= C' j /\ 0 <= C' j + j.
Proof.
  intros HP Hj Hr. destruct (pt_stuck _ _ _ _ _ _ _ HP j Hj) as [Hv _].
  apply (inv_bounds _ _ _ j (pt_inv _ _ _ _ _ _ _ HP) Hr). lia.
Qed.

(** The costs of a diagonal, by its two neighbours [G] holds. *)
Ltac by_neighbours := unfold cost_of, from_above, from_below in *;
  repeat match goal with |- context [Z.ltb ?x ?y] => destruct (Z.ltb_spec x y) end;
  repeat match goal with |- context [Z.eqb ?x ?y] => destruct (Z.eqb_spec x y) end; lia.

Section Turn.
Context (q : Z) (F C : Z -> Z) (d0 : Diff (E := E)).
Hypothesis Hq : 0 <= q <= zlen a.
Hypothesis Hab : zlen a <= zlen b.
Hypothesis HI0 : Inv F C d0.
Hypothesis Hout : F (- q - 1) = -1 /\ F (dl + q + 1) = -1.
Hypothesis Hleft : forall k, - q < k <= dl ->
  q = 0 /\ F k = -1 \/ 0 <= F k /\ F k - k < zlen a /\ C k <= q - 1.
Hypothesis Hright : forall k, dl <= k < dl + q -> 0 <= F k < zlen b /\ C k <= q - 1 - (k - dl).

Lemma up_loop n :
  Z.of_nat n <= dl + q ->
  exists d G C', advances (seqZ (- q) (Z.of_nat n)) d0 = Some d /\
    Partial (fun j => - q <= j < - q + Z.of_nat n) F C G C' d0 d /\
    forall j, - q <= j < - q + Z.of_nat n ->
      F (j + 1) <= G j /\ C' j <= q /\ (- q < j -> G (j - 1) + 1 <= G j).
Proof.
  induction n as [|n IH]; intros Hn.
  - exists d0, F, C. split_and!; [done| |lia]. split; [done|done|done|lia].
  - destruct IH as (d & G & C' & Hadv & HP & Hfacts); [lia|].
    rewrite seqZ_S, advances_app, Hadv. cbn [mbind option_bind advances].
    set (k := - q + Z.of_nat n). pose proof (pt_old _ _ _ _ _ _ _ HP) as Hold. cbn in Hold.
    assert (Hbelow : G (k + 1) = F (k + 1) /\ C' (k + 1) = C (k + 1)) by (apply Hold; lia).
    assert (Habove : n = O /\ G (k - 1) = -1 \/
                     (0 < n)%nat /\ 0 <= G (k - 1) < zlen b /\ C' (k - 1) <= q).
    { destruct n as [|n]; [left|right].
      - split; [done|]. rewrite (proj1 (Hold (k - 1) ltac:(lia))).
        replace (k - 1) with (- q - 1) by lia. apply Hout.
      - pose proof (partial_bounds _ _ _ _ _ _ _ (k - 1) HP ltac:(cbn; lia) ltac:(lia)).
        pose proof (Hfacts (k - 1) ltac:(lia)). lia. }
    pose proof (Hleft (k + 1) ltac:(lia)) as Hl.
    destruct (partial_next _ (fun j => - q <= j < - q + Z.of_nat (S n)) _ _ _ _ _ _ k HP)
      as (d' & y & Hk & HP' & Hy); [cbn; lia|cbn; intros; lia|lia| |].
    { unfold from_above, from_below. destruct (Z.lt_ge_cases (G (k + 1)) (G (k - 1) + 1)); lia. }
    rewrite Hk. cbn [mbind option_bind advances]. eexists _, _, _. split_and!; [done..|].
    intros j Hj. destruct (decide (j = k)) as [->|Hne].
    + rewrite !upd_eq, upd_ne by lia. split_and!; [lia| |lia]. by_neighbours.
    + rewrite !upd_ne by lia. apply Hfacts. lia.
Qed.

Lemma down_loop n d G C' :
  Z.of_nat n <= q ->
  Inv G C' d -> kept d0 d -> (forall j, dl <= j -> G j = F j /\ C' j = C j) ->
  exists d' G' C'', advances ((fun i => dl + q - i) <$> seqZ 0 (Z.of_nat n)) d = Some d' /\
    Partial (fun j => dl + q - Z.of_nat n < j <= dl + q) G C' G' C'' d d' /\
    forall j, dl + q - Z.of_nat n < j <= dl + q ->
      F (j - 1) + 1 <= G' j /\ C'' j <= q - (j - dl) /\ (j < dl + q -> G' (j + 1) <= G' j).
Proof.
  intros Hn HI Hkept HG. induction n as [|n IH].
  - exists d, G, C'. split_and!; [done| |lia]. split; [done|done|done|lia].
  - destruct IH as (d1 & G' & C'' & Hadv & HP & Hfacts); [lia|].
    rewrite seqZ_S, fmap_app, advances_app, Hadv. cbn [mbind option_bind advances fmap list_fmap].
    set (k := dl + q - (0 + Z.of_nat n)). pose proof (pt_old _ _ _ _ _ _ _ HP) as Hold. cbn in Hold.
    assert (Habove : G' (k - 1) = F (k - 1) /\ C'' (k - 1) = C (k - 1)).
    { rewrite <- !(proj1 (HG (k - 1) ltac:(lia))), <- !(proj2 (HG (k - 1) ltac:(lia))). apply Hold. lia. }
    assert (Hbelow : n = O /\ G' (k + 1) = -1 \/
                     (0 < n)%nat /\ 0 <= G' (k + 1) <= zlen b /\ C'' (k + 1) <= q - (k + 1 - dl)).
    { destruct n as [|n]; [left|right].
      - split; [done|]. rewrite (proj1 (Hold (k + 1) ltac:(lia))), (proj1 (HG (k + 1) ltac:(lia))).
        replace (k + 1) with (dl + q + 1) by lia. apply Hout.
      - pose proof (partial_bounds _ _ _ _ _ _ _ (k + 1) HP ltac:(cbn; lia) ltac:(lia)).
        pose proof (Hfacts (k + 1) ltac:(lia)). lia. }
    pose proof (Hright (k - 1) ltac:(lia)) as Hr.
    destruct (partial_next _ (fun j => dl + q - Z.of_nat (S n) < j <= dl + q) _ _ _ _ _ _ k HP)
      as (d' & y & Hk & HP' & Hy); [cbn; lia|cbn; intros; lia|lia| |].
    { unfold from_above, from_below. destruct (Z.lt_ge_cases (G' (k + 1)) (G' (k - 1) + 1)); lia. }
    rewrite Hk. cbn [mbind option_bind advances]. eexists _, _, _. split_and!; [done..|].
    intros j Hj. destruct (decide (j = k)) as [->|Hne].
    + rewrite !upd_eq, upd_ne by lia. split_and!; [lia| |lia]. by_neighbours.
    + rewrite !upd_ne by lia. apply Hfacts. lia.
Qed.

Lemma turn_facts :
  exists d G C', turn q d0 = Some d /\ Inv G C' d /\ kept d0 d /\
    (forall j, j < - q \/ dl + q < j -> G j = F j) /\
    forall j, - q <= j <= dl + q ->
      0 <= G j /\ stuck (G j - j) (G j) /\ C' j <= q - Z.max 0 (j - dl) /\
      (j < dl -> F (j + 1) <= G j) /\ (dl < j -> F (j - 1) + 1 <= G j) /\
      (- q < j <= dl -> G (j - 1) + 1 <= G j) /\ (dl <= j < dl + q -> G (j + 1) <= G j).
Proof.
  unfold turn, below_delta, above_delta. pose proof (inv_static _ _ _ HI0) as Hd. rewrite (st_delta _ Hd).
  destruct (up_loop (Z.to_nat (dl + q))) as (d1 & G1 & C1 & Hadv1 & HP1 & Hf1); [lia|].
  rewrite Z2Nat.id in * by lia.
  pose proof (pt_old _ _ _ _ _ _ _ HP1) as Hold1. cbn in Hold1.
  destruct (down_loop (Z.to_nat q) d1 G1 C1) as (d2 & G2 & C2 & Hadv2 & HP2 & Hf2);
    [lia|apply (pt_inv _ _ _ _ _ _ _ HP1)|apply (pt_kept _ _ _ _ _ _ _ HP1)|intros; apply Hold1; lia|].
  rewrite Z2Nat.id in * by lia.
  pose proof (pt_old _ _ _ _ _ _ _ HP2) as Hold2. cbn in Hold2.
  assert (Habove : dl + q = 0 /\ G2 (dl - 1) = -1 \/
                   0 < dl + q /\ 0 <= G2 (dl - 1) < zlen b /\ C2 (dl - 1) <= q).
  { destruct (Hold2 (dl - 1) ltac:(lia)) as [HG HC].
    destruct (Z.eq_dec (dl + q) 0) as [Hz|Hz]; [left|right].
    - rewrite HG, (proj1 (Hold1 (dl - 1) ltac:(lia))). replace (dl - 1) with (- q - 1) by lia. split; [done|apply Hout].
    - pose proof (partial_bounds _ _ _ _ _ _ _ (dl - 1) HP1 ltac:(cbn; lia) ltac:(lia)).
      pose proof (Hf1 (dl - 1) ltac:(lia)). lia. }
  assert (Hbelow : q = 0 /\ G2 (dl + 1) = -1 \/
                   0 < q /\ 0 <= G2 (dl + 1) <= zlen b /\ C2 (dl + 1) <= q - 1).
  { destruct (Z.eq_dec q 0) as [Hz|Hz]; [left|right].
    - rewrite (proj1 (Hold2 (dl + 1) ltac:(lia))), (proj1 (Hold1 (dl + 1) ltac:(lia))).
      replace (dl + 1) with (dl + q + 1) by lia. split; [done|apply Hout].
    - pose proof (partial_bounds _ _ _ _ _ _ _ (dl + 1) HP2 ltac:(cbn; lia) ltac:(lia)).
      pose proof (Hf2 (dl + 1) ltac:(lia)). lia. }
  destruct (partial_next _ (fun j => dl <= j <= dl + q) _ _ _ _ _ _ dl HP2)
    as (d3 & y & Hk & HP3 & Hy); [cbn; lia|cbn; intros; lia|lia| |].
  { unfold from_above, from_below. destruct (Z.lt_ge_cases (G2 (dl + 1)) (G2 (dl - 1) + 1)); lia. }
  eexists d3, _, _. split_and!.
  - rewrite advances_app, Hadv1. cbn [mbind option_bind]. rewrite advances_app, Hadv2. cbn [mbind option_bind advances].
    rewrite Hk. done.
  - apply (pt_inv _ _ _ _ _ _ _ HP3).
  - etrans; [apply (pt_kept _ _ _ _ _ _ _ HP1)|apply (pt_kept _ _ _ _ _ _ _ HP3)].
  - intros j Hj. rewrite upd_ne by lia. rewrite (proj1 (Hold2 j ltac:(lia))). apply Hold1. lia.
  - intros j Hj. destruct (Z.lt_trichotomy j dl) as [Hlt|[->|Hgt]].
    + rewrite !upd_ne by lia. destruct (Hold2 j ltac:(lia)) as [-> ->].
      rewrite (proj1 (Hold2 (j - 1) ltac:(lia))).
      pose proof (pt_stuck _ _ _ _ _ _ _ HP1 j ltac:(cbn; lia)) as [Hv Hst].
      pose proof (Hf1 j ltac:(lia)). split_and!; try lia. done.
    + pose proof (pt_stuck _ _ _ _ _ _ _ HP3 dl ltac:(cbn; lia)) as [Hv Hst]. rewrite !upd_eq in *.
      rewrite !upd_ne by lia. split_and!; try lia; [done|]. by_neighbours.
    + rewrite !upd_ne by lia. pose proof (pt_stuck _ _ _ _ _ _ _ HP2 j ltac:(cbn; lia)) as [Hv Hst].
      pose proof (Hf2 j ltac:(lia)). split_and!; try lia; [done|]. intros. rewrite upd_ne by lia. lia.
Qed.
End Turn.

(** ** The turns *)

(** After turn [p]: the diagonals it has reached, and the furthest point of each
    that a path can reach with as many elements left out. *)
Definition budget (p k : Z) : Z := p - Z.max 0 (k - dl).

Record Phase (p : Z) (F C : Z -> Z) (d : Diff (E := E)) : Prop := {
  ph_inv : Inv F C d;
  ph_out k : ~ (0 <= p /\ - p <= k <= dl + p) -> F k = -1;
  ph_in k : 0 <= p -> - p <= k <= dl + p -> 0 <= F k /\ C k <= budget p k;
  ph_up k : 0 <= p -> - p <= k < dl -> F k + 1 <= F (k + 1);
  ph_down k : 0 <= p -> dl <= k < dl + p -> F (k + 1) <= F k;
  ph_far D x y : reach D x y -> D <= budget p (y - x) -> y <= F (y - x);
  ph_delta : 0 <= p -> dl + p <= F dl
}.

Lemma up_to_delta p F C d n :
  Phase p F C d -> 0 <= p -> Z.of_nat n <= dl + p -> F (dl - Z.of_nat n) + Z.of_nat n <= F dl.
Proof.
  intros HP Hp. induction n as [|n IH]; intros Hn; [by rewrite Z.sub_0_r, Z.add_0_r|].
  pose proof (ph_up _ _ _ _ HP (dl - Z.of_nat (S n)) Hp ltac:(lia)) as Hs.
  replace (dl - Z.of_nat (S n) + 1) with (dl - Z.of_nat n) in Hs by lia. lia.
Qed.

Lemma down_to_delta p F C d n :
  Phase p F C d -> Z.of_nat n <= p -> F (dl + Z.of_nat n) <= F dl.
Proof.
  intros HP. induction n as [|n IH]; intros Hn; [by rewrite Z.add_0_r|].
  pose proof (ph_down _ _ _ _ HP (dl + Z.of_nat n) ltac:(lia) ltac:(lia)) as Hs.
  replace (dl + Z.of_nat n + 1) with (dl + Z.of_nat (S n)) in Hs by lia. lia.
Qed.

(** When the end is not reached, no diagonal is at a border. *)
Lemma not_at_border p F C d k :
  Phase p F C d -> 0 <= p -> F dl < zlen b -> - p <= k <= dl + p ->
  (k <= dl -> F k - k < zlen a) /\ (dl <= k -> F k < zlen b).
Proof.
  intros HP Hp Hlt Hk. split; intros Hside.
  - pose proof (up_to_delta _ _ _ _ (Z.to_nat (dl - k)) HP Hp ltac:(lia)) as Hu.
    rewrite Z2Nat.id in Hu by lia. replace (dl - (dl - k)) with k in Hu by lia. lia.
  - pose proof (down_to_delta _ _ _ _ (Z.to_nat (k - dl)) HP ltac:(lia)) as Hu.
    rewrite Z2Nat.id in Hu by lia. replace (dl + (k - dl)) with k in Hu by lia. lia.
Qed.

(** The furthest points after a turn, from those before: a step left or right comes from a
    diagonal nearer to [dl] in the same turn, or further in the one before; a common
    element cannot come after the point of its diagonal. *)
Lemma turn_far p F C d G :
  Phase p F C d -> -1 <= p ->
  (forall j, - (p + 1) <= j <= dl + (p + 1) ->
    0 <= G j /\ stuck (G j - j) (G j) /\ (j < dl -> F (j + 1) <= G j) /\ (dl < j -> F (j - 1) + 1 <= G j) /\
    (- (p + 1) < j <= dl -> G (j - 1) + 1 <= G j) /\ (dl <= j < dl + (p + 1) -> G (j + 1) <= G j)) ->
  forall D x y, reach D x y -> D <= budget (p + 1) (y - x) -> y <= G (y - x).
Proof.
  intros HP Hp Hnew D x y Hr. pose proof (zlen_nonneg a).
  induction Hr as [|D x y Hr IH Hx|D x y Hr IH Hy|D x y e Hr IH Hx Hy]; unfold budget in *; intros HD.
  - pose proof (Hnew 0 ltac:(lia)). change (0 - 0) with 0. lia.
  - apply reach_bounds in Hr as Hb.
    pose proof (Hnew (y - (x + 1)) ltac:(lia)) as Hn. replace (y - (x + 1) + 1) with (y - x) in Hn by lia.
    destruct (Z.le_gt_cases (y - x) dl); [|lia].
    pose proof (ph_far _ _ _ _ HP D x y Hr ltac:(unfold budget; lia)). lia.
  - apply reach_bounds in Hr as Hb.
    pose proof (Hnew (y + 1 - x) ltac:(lia)) as Hn. replace (y + 1 - x - 1) with (y - x) in Hn by lia.
    destruct (Z.le_gt_cases (y + 1 - x) dl); [lia|].
    pose proof (ph_far _ _ _ _ HP D x y Hr ltac:(unfold budget; lia)). lia.
  - apply reach_bounds in Hr as Hb. replace (y + 1 - (x + 1)) with (y - x) in * by lia.
    pose proof (Hnew (y - x) ltac:(lia)) as (_ & Hst & _). specialize (IH HD).
    destruct (Z.eq_dec y (G (y - x))) as [Heq|]; [|lia].
    exfalso. apply (Hst e); [|by rewrite <- Heq]. by replace (G (y - x) - (y - x)) with x by lia.
Qed.

Lemma turn_spec p F C d :
  zlen a <= zlen b -> -1 <= p -> Phase p F C d -> (0 <= p -> F dl < zlen b) ->
  exists d' G C', turn (p + 1) d = Some d' /\ Phase (p + 1) G C' d' /\ kept d d'.
Proof.
  intros Hab Hp HP Hlt. pose proof (zlen_nonneg a). set (q := p + 1).
  assert (Hq : 0 <= q <= zlen a).
  { destruct (Z.eq_dec p (-1)); [lia|]. pose proof (ph_delta _ _ _ _ HP ltac:(lia)). lia. }
  destruct (turn_facts q F C d) as (d' & G & C' & Ht & HI & Hk & Hold & Hnew).
  - done.
  - done.
  - apply (ph_inv _ _ _ _ HP).
  - split; apply (ph_out _ _ _ _ HP); lia.
  - intros k Hk. destruct (Z.eq_dec q 0) as [Hz|Hz].
    + left. split; [done|]. apply (ph_out _ _ _ _ HP). lia.
    + right. pose proof (ph_in _ _ _ _ HP k ltac:(lia) ltac:(lia)) as [? Hc]. unfold budget in Hc.
      pose proof (not_at_border _ _ _ _ k HP ltac:(lia) (Hlt ltac:(lia)) ltac:(lia)). lia.
  - intros k Hk. pose proof (ph_in _ _ _ _ HP k ltac:(lia) ltac:(lia)) as [? Hc]. unfold budget in Hc.
    pose proof (not_at_border _ _ _ _ k HP ltac:(lia) (Hlt ltac:(lia)) ltac:(lia)). lia.
  - exists d', G, C'. split_and!; [done| |done]. split.
    + done.
    + intros k Hout. rewrite Hold by lia. apply (ph_out _ _ _ _ HP). lia.
    + intros k _ Hin. pose proof (Hnew k Hin). unfold budget. lia.
    + intros k _ Hin. pose proof (Hnew (k + 1) ltac:(lia)) as Hn.
      replace (k + 1 - 1) with k in Hn by lia. lia.
    + intros k _ Hin. pose proof (Hnew k ltac:(lia)). lia.
    + apply (turn_far p F C d G HP Hp). intros j Hj. fold q in Hj |- *.
      destruct (Hnew j Hj) as (? & ? & _ & ? & ? & ? & ?). by split_and!.
    + intros _. destruct (Z.eq_dec p (-1)) as [->|Hp'].
      * pose proof (Hnew dl ltac:(lia)) as (Hd & _).
        pose proof (inv_bounds _ _ _ dl HI ltac:(lia) ltac:(lia)). lia.
      * pose proof (Hnew dl ltac:(lia)). pose proof (Hnew (dl + 1) ltac:(lia)) as Hn.
        replace (dl + 1 - 1) with dl in Hn by lia. pose proof (ph_delta _ _ _ _ HP ltac:(lia)). lia.
Qed.

(** The points recorded by a turn. *)
Lemma advance_points k d d' :
  editDistanceOnly d = false -> advance d k = Some d' ->
  editDistanceOnly d' = false /\ zlen (pathCordinates d') = zlen (pathCordinates d) + 1.
Proof.
  intros Ho. unfold advance, snake. intros Hk.
  destruct (vget (fp d) (k - 1 + offset d)) as [above|]; [|done].
  destruct (vget (fp d) (k + 1 + offset d)) as [below|]; [|done]. cbn [mbind option_bind] in Hk.
  destruct (if below <? above + 1 then _ else _) as [r|]; [|done]. cbn [mbind option_bind] in Hk.
  destruct (slide d (length (dA d)) _ _) as [x y].
  destruct (vset (path d) _ _) as [path'|]; [|done]. cbn in Hk. rewrite Ho in Hk. cbn in Hk.
  destruct (vset (fp d) _ _) as [fp'|]; [|done]. simplify_eq/=. by rewrite zlen_app.
Qed.

Lemma advances_points ks d d' :
  editDistanceOnly d = false -> advances ks d = Some d' ->
  zlen (pathCordinates d') = zlen (pathCordinates d) + zlen ks.
Proof.
  revert d. induction ks as [|k ks IH]; intros d Ho; [intros [= ->]; unfold zlen; cbn; lia|].
  cbn [advances]. destruct (advance d k) as [d1|] eqn:Hk; [|done]. intros Hks.
  destruct (advance_points _ _ _ Ho Hk) as [Ho' Hn]. apply IH in Hks; [|done].
  rewrite Hks, Hn. unfold zlen. cbn [length]. lia.
Qed.

Lemma turn_points p F C d d' :
  0 <= p -> zlen a <= zlen b -> Inv F C d -> turn p d = Some d' ->
  zlen (pathCordinates d') = zlen (pathCordinates d) + dl + 2 * p + 1.
Proof.
  intros Hp Hab HI Ht. pose proof (inv_static _ _ _ HI) as Hd.
  apply advances_points in Ht; [|apply (st_only _ Hd)]. rewrite Ht, !zlen_app.
  unfold below_delta, above_delta, zlen. rewrite length_fmap, !length_seqZ, (st_delta _ Hd). cbn [length].
  unfold zlen in *. lia.
Qed.

(** Before a turn that is made: the end is not reached within [p]. *)
Definition Running (p : Z) (F C : Z -> Z) d : Prop :=
  Phase p F C d /\ -1 <= p /\ (0 <= p -> F dl < zlen b) /\
  zlen (pathCordinates d) = (p + 1) * (dl + p + 1).

Lemma running_not_reached p F C d D : Running p F C d -> reach D (zlen a) (zlen b) -> p + 1 <= D.
Proof.
  intros (HP & Hp & Hlt & _) Hr. apply reach_bounds in Hr as Hb.
  destruct (Z.le_gt_cases D p) as [Hle|]; [|lia].
  pose proof (ph_far _ _ _ _ HP _ _ _ Hr ltac:(unfold budget; lia)). lia.
Qed.

(** The do-while loop ends: at the end of the sequences, or at the limit. *)
Lemma onp_spec fuel p F C d :
  zlen a <= zlen b -> Running p F C d -> zlen a - p <= Z.of_nat fuel ->
  exists p' F' C' d', onp fuel p d = Some (p', d') /\ 0 <= p' <= zlen a /\ Phase p' F' C' d' /\ kept d d' /\
    zlen (pathCordinates d') = (p' + 1) * (dl + p' + 1) /\
    (F' dl = zlen b \/ MAX_CORDINATES_SIZE <= zlen (pathCordinates d')) /\
    forall D, reach D (zlen a) (zlen b) -> p' <= D.
Proof.
  intros Hab. revert p F C d. induction fuel as [|fuel IH]; intros p F C d HR Hfuel; pose proof HR as (HP & Hp & Hlt & Hpc).
  - pose proof (zlen_nonneg a). destruct (Z.eq_dec p (-1)); [lia|].
    pose proof (ph_delta _ _ _ _ HP ltac:(lia)). lia.
  - cbn [onp]. destruct (turn_spec p F C d Hab Hp HP Hlt) as (d1 & G & C1 & Ht & HP1 & Hk1).
    rewrite Ht. cbn [mbind option_bind].
    pose proof (turn_points (p + 1) F C d d1 ltac:(lia) Hab (ph_inv _ _ _ _ HP) Ht) as Hpc1.
    pose proof (ph_inv _ _ _ _ HP1) as HI1. pose proof (inv_static _ _ _ HI1) as Hd1.
    rewrite (st_delta _ Hd1), (inv_fp _ _ _ HI1), (st_N _ Hd1) by (pose proof (zlen_nonneg a); lia).
    cbn [mbind option_bind].
    assert (Hin : 0 <= G dl <= zlen b /\ dl + (p + 1) <= G dl).
    { pose proof (ph_delta _ _ _ _ HP1 ltac:(lia)).
      pose proof (inv_bounds _ _ _ dl HI1 ltac:(pose proof (zlen_nonneg a); lia) ltac:(lia)). lia. }
    assert (Hpc1' : zlen (pathCordinates d1) = (p + 1 + 1) * (dl + (p + 1) + 1)) by nia.
    destruct (negb (G dl =? zlen b) && (zlen (pathCordinates d1) <? MAX_CORDINATES_SIZE)) eqn:Hgo.
    + apply andb_true_iff in Hgo as [Hne%negb_true_iff%Z.eqb_neq _].
      destruct (IH (p + 1) G C1 d1) as (p' & F' & C' & d' & -> & Hp' & HP' & Hk' & Hpc' & Hend & Hmin).
      * split_and!; [done|lia|lia|done].
      * lia.
      * exists p', F', C', d'. split_and!; try done; [lia|lia|by etrans].
    + exists (p + 1), G, C1, d1. split_and!; try done; try lia.
      intros D. by apply (running_not_reached p F C d).
Qed.

End Graph.
End Search.
