(* ===== verification/DtlScript.v ===== *)
(** * DtlScript

    The edit script [compose] (Dtl) records: read one way it is the source, read
    the other way the destination, [patch] applies it, and it is the shortest one.
    The search it follows is in DtlSearch. *)
From S2P Require Import Prelude CxxString Dtl DtlSearch.
Local Open Scope Z_scope.

(** ** Reading a script *)

Definition is_added (t : edit_t) : bool := match t with SES_ADD => true | _ => false end.
Definition is_deleted (t : edit_t) : bool := match t with SES_DELETE => true | _ => false end.
Definition is_common (t : edit_t) : bool := match t with SES_COMMON => true | _ => false end.

Section Script.
Context {E : Type} `{EqDecision E}.
#[local] Notation sesElem := (E * elemInfo)%type.
#[local] Notation script := (list sesElem).

Definition pick (f : edit_t -> bool) (l : script) : list E :=
  fst <$> List.filter (fun e => f (type (snd e))) l.

(** The two sequences a script relates, and what they share. *)
Definition befores : script -> list E := pick (fun t => negb (is_added t)).
Definition afters : script -> list E := pick (fun t => negb (is_deleted t)).
Definition commons : script -> list E := pick is_common.
Definition edits (l : script) : Z := zlen (pick (fun t => negb (is_common t)) l).

(** The same for the sequences as the code has swapped them. *)
Definition first_of (sw : bool) (l : script) : list E := if sw then afters l else befores l.
Definition second_of (sw : bool) (l : script) : list E := if sw then befores l else afters l.

(** The elements of the first sequence that are left out. *)
Definition left_out (sw : bool) (l : script) : Z := zlen (pick (if sw then is_added else is_deleted) l).

Lemma pick_app f l m : pick f (l ++ m) = pick f l ++ pick f m.
Proof. unfold pick. by rewrite List.filter_app, fmap_app. Qed.

Lemma pick_one f e i : pick f [(e, i)] = if f (type i) then [e] else [].
Proof. unfold pick. cbn [List.filter snd]. by destruct (f (type i)). Qed.

Lemma pick_snoc f l e i : pick f (l ++ [(e, i)]) = pick f l ++ if f (type i) then [e] else [].
Proof. by rewrite pick_app, pick_one. Qed.

Lemma pick_cons f e i l : pick f ((e, i) :: l) = (if f (type i) then [e] else []) ++ pick f l.
Proof. unfold pick. cbn [List.filter snd]. by destruct (f (type i)). Qed.

Lemma pick_all f l t :
  Forall (fun e : sesElem => type (snd e) = t) l -> pick f l = if f t then fst <$> l else [].
Proof.
  induction 1 as [|[e i] l Ht _ IH]; [by destruct (f t)|]. cbn in Ht.
  change ((e, i) :: l) with ([(e, i)] ++ l). rewrite pick_app, pick_one, IH, Ht. by destruct (f t).
Qed.

Lemma zlen_one (x : bool) (e : E) : zlen (if x then [e] else []) = if x then 1 else 0.
Proof. by destruct x. Qed.

Lemma edits_nonneg (l : script) : 0 <= edits l.
Proof. apply zlen_nonneg. Qed.

Lemma edits_balance sw l :
  edits l = 2 * left_out sw l + zlen (second_of sw l) - zlen (first_of sw l).
Proof.
  unfold edits, left_out, second_of, first_of, befores, afters. induction l as [|[e i] l IH] using rev_ind; [by destruct sw|].
  destruct sw; rewrite !pick_snoc, !zlen_app, !zlen_one; destruct (type i); cbn; lia.
Qed.

(** The indices of the common elements are their places in the two sequences. *)
Definition well_indexed (l : script) : Prop :=
  forall p e i s, l = p ++ (e, i) :: s -> type i = SES_COMMON ->
    beforeIdx i = zlen (befores p) + 1 /\ afterIdx i = zlen (afters p) + 1.

Lemma well_indexed_app l new :
  well_indexed l -> Forall (fun e : sesElem => type (snd e) <> SES_COMMON) new -> well_indexed (l ++ new).
Proof.
  intros Hl Hnew p e i s Heq Hc. apply app_eq_inv in Heq as [(k & Hp & Hk)|(k & Hp & Hk)].
  - destruct k as [|x k]; cbn in Hk; [|injection Hk as <- ->; by eapply Hl].
    subst new. by apply Forall_cons in Hnew as [? _].
  - subst new. apply Forall_app in Hnew as [_ Hnew]. by apply Forall_cons in Hnew as [? _].
Qed.

Lemma well_indexed_snoc l e i :
  well_indexed l ->
  (type i = SES_COMMON -> beforeIdx i = zlen (befores l) + 1 /\ afterIdx i = zlen (afters l) + 1) ->
  well_indexed (l ++ [(e, i)]).
Proof.
  intros Hl Hi p e' i' s Heq Hc. destruct s as [|x s _] using rev_ind.
  - apply app_inj_tail in Heq as [<- [= -> ->]]. by apply Hi.
  - rewrite app_comm_cons, app_assoc in Heq. apply app_inj_tail in Heq as [Heq _]. by eapply Hl.
Qed.

(** ** Any script is a path of the edit graph *)
Lemma script_reach sw (a b : list E) l ra rb :
  a = first_of sw l ++ ra -> b = second_of sw l ++ rb ->
  reach a b (left_out sw l) (zlen (first_of sw l)) (zlen (second_of sw l)).
Proof.
  revert ra rb. induction l as [|[e i] l IH] using rev_ind; intros ra rb Ha Hb.
  - destruct sw; constructor.
  - unfold left_out, first_of, second_of, befores, afters in *.
    assert (Hlast : forall u v (w : list E), w = (u ++ [e]) ++ v -> vget w (zlen u) = Some e).
    { intros u v w ->. apply vget_app_l, vget_last. }
    assert (Hlt : forall u v (w : list E), w = (u ++ [e]) ++ v -> zlen u < zlen w).
    { intros u v w Hw. apply Hlast, vget_Some in Hw. lia. }
    destruct sw, (type i) eqn:Ht; rewrite !pick_snoc, !Ht in *; cbn [is_added is_deleted is_common negb] in *;
      rewrite ?app_nil_r, ?zlen_app in *; pose proof Ha as Ha'; pose proof Hb as Hb';
      rewrite <- ?app_assoc in Ha'; rewrite <- ?app_assoc in Hb'; specialize (IH _ _ Ha' Hb').
    all: change (zlen [e]) with 1.
    all: first [apply reach_left; [done|by eapply Hlt] | apply reach_right; [done|by eapply Hlt]
               | eapply reach_both; [done|by eapply Hlast|by eapply Hlast]].
Qed.

(** ** Recording *)

Lemma add_spec (e : E) i j t s :
  deletesFirst s = false ->
  ses_sequence (addSequence e i j t s) = ses_sequence s ++ [(e, mkInfo i j t)] /\
  deletesFirst (addSequence e i j t s) = false.
Proof. intros Hs. unfold addSequence. rewrite Hs. by destruct t. Qed.

Lemma take_next (l : list E) i e :
  vget l i = Some e -> take (Z.to_nat (i + 1)) l = take (Z.to_nat i) l ++ [e].
Proof.
  intros He. pose proof (vget_Some _ _ _ He). rewrite vget_lookup in He by lia.
  replace (Z.to_nat (i + 1)) with (S (Z.to_nat i)) by lia. by apply take_S_r.
Qed.

Section Record.
Context (a b : list E) (d : Diff (E := E)).
Hypothesis Hd : Static a b d.
Notation sw := (swapped d).

(** What is recorded at the point of the cursor: the beginnings of the sequences. *)
Record Rec (c : cursor (E := E)) (D : Z) : Prop := {
  rc_x : first_of sw (ses_sequence (rses c)) = take (Z.to_nat (px c)) a;
  rc_y : second_of sw (ses_sequence (rses c)) = take (Z.to_nat (py c)) b;
  rc_cost : left_out sw (ses_sequence (rses c)) = D;
  rc_lcs : rlcs c = commons (ses_sequence (rses c));
  rc_order : deletesFirst (rses c) = false;
  rc_index : well_indexed (ses_sequence (rses c));
  rc_bounds : 0 <= px c <= zlen a /\ 0 <= py c <= zlen b
}.

Lemma rec_start : Rec (mkCursor 0 0 [] (newSes false)) 0.
Proof.
  split; try done; try (by destruct sw).
  - intros p e i s Heq. by destruct p.
  - cbn. pose proof (zlen_nonneg a). pose proof (zlen_nonneg b). lia.
Qed.

Lemma rec_add c D e i j t px' py' :
  Rec c D -> 0 <= px' <= zlen a -> 0 <= py' <= zlen b ->
  take (Z.to_nat px') a
  = take (Z.to_nat (px c)) a ++ (if if sw then negb (is_deleted t) else negb (is_added t) then [e] else []) ->
  take (Z.to_nat py') b
  = take (Z.to_nat (py c)) b ++ (if if sw then negb (is_added t) else negb (is_deleted t) then [e] else []) ->
  (t = SES_COMMON -> i = (if sw then py c else px c) + 1 /\ j = (if sw then px c else py c) + 1) ->
  Rec (mkCursor px' py' (rlcs c ++ if is_common t then [e] else []) (addSequence e i j t (rses c)))
      (D + if (if sw then is_added t else is_deleted t) then 1 else 0).
Proof.
  intros [Hx Hy Hc Hl Ho Hi Hb] Hpx Hpy Ha Hb' Hij. destruct (add_spec e i j t _ Ho) as [Hs Ho'].
  split; cbn [px py rlcs rses]; rewrite ?Hs; try done;
    unfold first_of, second_of, left_out, befores, afters, commons in *.
  - rewrite Ha, <- Hx, !pick_snoc. by destruct sw.
  - rewrite Hb', <- Hy, !pick_snoc. by destruct sw.
  - rewrite pick_snoc, zlen_app, zlen_one, Hc. by destruct sw.
  - by rewrite pick_snoc, Hl.
  - apply well_indexed_snoc; [done|]. intros Ht. destruct (Hij Ht) as [-> ->]. cbn [beforeIdx afterIdx].
    assert (Hlx : zlen (take (Z.to_nat (px c)) a) = px c) by (unfold zlen in *; rewrite length_take; lia).
    assert (Hly : zlen (take (Z.to_nat (py c)) b) = py c) by (unfold zlen in *; rewrite length_take; lia).
    rewrite <- Hx in Hlx. rewrite <- Hy in Hly. unfold befores, afters. destruct sw; lia.
Qed.

Lemma rec_right c D vx vy :
  Rec c D -> py c - px c < vy - vx -> py c < zlen b ->
  exists c', record_one d vx vy c = Some c' /\ Rec c' D /\ px c' = px c /\ py c' = py c + 1.
Proof.
  intros HR Hk Hlt. pose proof (rc_bounds _ _ HR) as Hb.
  unfold record_one. rewrite (proj2 (Z.ltb_lt _ _) Hk), (st_B _ _ _ Hd).
  destruct (vget_is_Some b (py c)) as [e He]; [lia|]. rewrite He. cbn [mbind option_bind].
  eexists. split; [done|]. split; [|done].
  pose proof (fun i j t => rec_add c D e i j t (px c) (py c + 1) HR) as Hadd. rewrite (take_next _ _ _ He) in Hadd.
  destruct sw.
  - pose proof (Hadd (py c + 1) 0 SES_DELETE ltac:(lia) ltac:(lia)) as Hc. cbn in Hc.
    rewrite !app_nil_r, Z.add_0_r in Hc. by apply Hc.
  - pose proof (Hadd 0 (py c + 1) SES_ADD ltac:(lia) ltac:(lia)) as Hc. cbn in Hc.
    rewrite !app_nil_r, Z.add_0_r in Hc. by apply Hc.
Qed.

Lemma rec_left c D vx vy :
  Rec c D -> vy - vx < py c - px c -> px c < zlen a ->
  exists c', record_one d vx vy c = Some c' /\ Rec c' (D + 1) /\ px c' = px c + 1 /\ py c' = py c.
Proof.
  intros HR Hk Hlt. pose proof (rc_bounds _ _ HR) as Hb.
  unfold record_one. rewrite (proj2 (Z.ltb_ge (py c - px c) (vy - vx))), (proj2 (Z.ltb_lt _ _) Hk), (st_A _ _ _ Hd) by lia.
  destruct (vget_is_Some a (px c)) as [e He]; [lia|]. rewrite He. cbn [mbind option_bind].
  eexists. split; [done|]. split; [|done].
  pose proof (fun i j t => rec_add c D e i j t (px c + 1) (py c) HR) as Hadd. rewrite (take_next _ _ _ He) in Hadd.
  destruct sw.
  - pose proof (Hadd 0 (px c + 1) SES_ADD ltac:(lia) ltac:(lia)) as Hc. cbn in Hc.
    rewrite !app_nil_r in Hc. by apply Hc.
  - pose proof (Hadd (px c + 1) 0 SES_DELETE ltac:(lia) ltac:(lia)) as Hc. cbn in Hc.
    rewrite !app_nil_r in Hc. by apply Hc.
Qed.

Lemma rec_both c D vx vy e :
  Rec c D -> vy - vx = py c - px c -> vget a (px c) = Some e -> vget b (py c) = Some e ->
  exists c', record_one d vx vy c = Some c' /\ Rec c' D /\ px c' = px c + 1 /\ py c' = py c + 1.
Proof.
  intros HR Hk Hx Hy. pose proof (vget_Some _ _ _ Hx). pose proof (vget_Some _ _ _ Hy).
  unfold record_one. rewrite Hk, Z.ltb_irrefl, (st_A _ _ _ Hd), (st_B _ _ _ Hd), Hx, Hy. cbn [mbind option_bind].
  pose proof (fun i j => rec_add c D e i j SES_COMMON (px c + 1) (py c + 1) HR ltac:(lia) ltac:(lia)) as Hadd.
  rewrite (take_next _ _ _ Hx), (take_next _ _ _ Hy) in Hadd. cbn in Hadd.
  assert (H01 : D + (if if sw then false else false then 1 else 0) = D) by (destruct sw; lia).
  rewrite H01 in Hadd.
  assert (Hif : (if sw then true else true) = true) by (by destruct sw). rewrite !Hif in Hadd.
  destruct sw; (eexists; split; [done|]; split; [by apply Hadd|done]).
Qed.

(** Along a diagonal, then from a point to the next one of the path. *)
Lemma record_to_diagonal n fuel c D :
  0 <= n -> n <= Z.of_nat fuel -> Rec c D -> matches a b (px c) (py c) n ->
  exists c', record_to d fuel (px c + n) (py c + n) c = Some c' /\ Rec c' D /\
    px c' = px c + n /\ py c' = py c + n.
Proof.
  intros Hn. revert fuel c D. revert n Hn. refine (natlike_ind _ _ _).
  - intros fuel c D _ HR _. exists c. rewrite !Z.add_0_r.
    split_and!; try done. destruct fuel; cbn; by rewrite !Z.ltb_irrefl.
  - intros n Hn IH fuel c D Hf HR Hm. destruct fuel as [|fuel]; [lia|]. cbn [record_to].
    rewrite (proj2 (Z.ltb_lt (px c) _)) by lia. cbn [orb].
    destruct (Hm 0) as (e & Hx & Hy); [lia|]. rewrite Z.add_0_r in Hx, Hy.
    destruct (rec_both c D (px c + Z.succ n) (py c + Z.succ n) e HR) as (c' & Hone & HR' & Hpx & Hpy);
      [lia|done..|].
    rewrite Hone. cbn [mbind option_bind].
    destruct (IH fuel c' D) as (c'' & Hto & HR'' & Hpx' & Hpy'); [lia|done| |].
    { intros j Hj. destruct (Hm (j + 1)) as (e' & Hx' & Hy'); [lia|]. exists e'.
      rewrite Hpx, Hpy. split; [rewrite <- Hx'|rewrite <- Hy']; f_equal; lia. }
    exists c''. rewrite Hpx, Hpy in *.
    replace (px c + Z.succ n) with (px c + 1 + n) by lia. replace (py c + Z.succ n) with (py c + 1 + n) by lia.
    done.
Qed.

Lemma record_points_app v w c : record_points d (v ++ w) c = (c' ← record_points d v c; record_points d w c').
Proof.
  revert c. induction v as [|p v IH]; intros c; [done|]. cbn.
  destruct (record_to d _ _ _ c); [apply IH|done].
Qed.

(** The points of a recorded path, from its beginning, give a script up to its end. *)
Lemma chain_recorded pc i D x y c0 :
  chain a b pc i D x y -> Rec c0 0 -> px c0 = 0 -> py c0 = 0 ->
  forall fuel, i < Z.of_nat fuel ->
  exists v c, backtrack fuel pc i = Some v /\ record_points d (reverse v) c0 = Some c /\
    Rec c D /\ px c = x /\ py c = y.
Proof.
  intros Hc HR0 Hx0 Hy0. assert (HA : dA d = a) by apply Hd. assert (HB : dB d = b) by apply Hd.
  assert (Hlen : Z.of_nat (length (dA d) + length (dB d)) = zlen a + zlen b) by (rewrite HA, HB; unfold zlen; lia).
  induction Hc as [i n Hn Hp Hm|i r D x y n Hn Hc IH Hr Hy Hm Hp|i r D x y n Hn Hc IH Hr Hx Hm Hp]; intros fuel Hf;
    pose proof (vget_Some _ _ _ Hp) as Hi; (destruct fuel as [|fuel]; [lia|]); cbn [backtrack];
    rewrite (proj2 (Z.eqb_neq i (-1))), Hp by lia; cbn [mbind option_bind k_of].
  - assert (Hbt : backtrack fuel pc (-1) = Some []) by (by destruct fuel). rewrite Hbt. cbn [mbind option_bind].
    assert (Hb : n <= zlen a /\ n <= zlen b).
    { destruct (Z.eq_dec n 0) as [->|]; [unfold zlen; lia|].
      destruct (Hm (n - 1)) as (e & Hex & Hey); [lia|]. apply vget_Some in Hex, Hey. lia. }
    destruct (record_to_diagonal n (length (dA d) + length (dB d))%nat c0 0) as (c & Hto & HR & Hpx & Hpy);
      [done|lia|done|by rewrite Hx0, Hy0|].
    exists [mkPoint n n (-1)], c. rewrite Hx0, Hy0 in *. split_and!; [done| |done|lia|lia].
    cbn. rewrite !Z.add_0_l in Hto. by rewrite Hto.
  - destruct (IH fuel ltac:(lia)) as (v & c & Hbt & Hrec & HR & <- & <-). rewrite Hbt. cbn [mbind option_bind].
    pose proof (chain_reach _ _ _ _ _ _ _ (chain_right _ _ _ _ _ _ _ _ _ Hn Hc Hr Hy Hm Hp)) as Hb%reach_bounds.
    destruct (rec_right c D (px c + n) (py c + 1 + n) HR) as (c1 & Hone & HR1 & Hpx & Hpy); [lia..|].
    pose proof (rc_bounds _ _ HR). eexists (_ :: v). rewrite reverse_cons.
    destruct (record_to_diagonal n (length (dA d) + length (dB d) - 1)%nat c1 D) as (c' & Hto & HR' & Hpx' & Hpy');
      [done|lia|done|by rewrite Hpx, Hpy|].
    exists c'. split_and!; [done| |done|lia|lia]. rewrite record_points_app, Hrec. cbn.
    destruct (length (dA d) + length (dB d))%nat as [|m] eqn:Hm'; [lia|]. cbn [record_to].
    rewrite (proj2 (Z.ltb_lt (py c) _)), orb_true_r, Hone by lia. cbn [mbind option_bind].
    replace m with (S m - 1)%nat by lia. rewrite Hpx, Hpy in Hto. by rewrite Hto.
  - destruct (IH fuel ltac:(lia)) as (v & c & Hbt & Hrec & HR & <- & <-). rewrite Hbt. cbn [mbind option_bind].
    pose proof (chain_reach _ _ _ _ _ _ _ (chain_left _ _ _ _ _ _ _ _ _ Hn Hc Hr Hx Hm Hp)) as Hb%reach_bounds.
    destruct (rec_left c D (px c + 1 + n) (py c + n) HR) as (c1 & Hone & HR1 & Hpx & Hpy); [lia..|].
    pose proof (rc_bounds _ _ HR). eexists (_ :: v). rewrite reverse_cons.
    destruct (record_to_diagonal n (length (dA d) + length (dB d) - 1)%nat c1 (D + 1)) as (c' & Hto & HR' & Hpx' & Hpy');
      [done|lia|done|by rewrite Hpx, Hpy|].
    exists c'. split_and!; [done| |done|lia|lia]. rewrite record_points_app, Hrec. cbn.
    destruct (length (dA d) + length (dB d))%nat as [|m] eqn:Hm'; [lia|]. cbn [record_to].
    rewrite (proj2 (Z.ltb_lt (px c) _)), Hone by lia. cbn [mbind option_bind orb].
    replace m with (S m - 1)%nat by lia. rewrite Hpx, Hpy in Hto. by rewrite Hto.
Qed.

Lemma odd_spec fuel l idx et s ed :
  1 <= idx <= zlen l -> zlen l - idx <= Z.of_nat fuel -> deletesFirst s = false ->
  exists (new : list (sesElem)) s', odd_loop fuel l idx (zlen l) et (s, ed) = Some (s', ed + zlen new) /\
    ses_sequence s' = ses_sequence s ++ new /\ deletesFirst s' = false /\
    fst <$> new = drop (Z.to_nat (idx - 1)) l /\ Forall (fun e : sesElem => type (snd e) = et) new.
Proof.
  revert idx s ed. induction fuel as [|fuel IH]; intros idx s ed Hidx Hf Hs;
    (destruct (vget_is_Some l (idx - 1)) as [e He]; [lia|]); cbn [odd_loop]; rewrite He; cbn [mbind option_bind fst snd];
    destruct (add_spec e idx 0 et s Hs) as [Hadd Hs'];
    (assert (Hdrop : drop (Z.to_nat (idx - 1)) l = e :: drop (Z.to_nat (idx + 1 - 1)) l);
     [rewrite vget_lookup in He by lia; replace (Z.to_nat (idx + 1 - 1)) with (S (Z.to_nat (idx - 1))) by lia;
      by apply drop_S|]);
    (assert (Hend : idx = zlen l -> exists (new : list (sesElem)) s', Some (addSequence e idx 0 et s, ed + 1) = Some (s', ed + zlen new) /\
        ses_sequence s' = ses_sequence s ++ new /\ deletesFirst s' = false /\
        fst <$> new = drop (Z.to_nat (idx - 1)) l /\ Forall (fun e : sesElem => type (snd e) = et) new);
     [intros Hi; exists [(e, mkInfo idx 0 et)]; eexists; split_and!; [done..| |by constructor];
      rewrite Hdrop, Hi, (drop_ge l) by (unfold zlen; lia); done|]).
  - rewrite (proj2 (Z.ltb_ge _ _)) by lia. apply Hend. lia.
  - destruct (Z.ltb_spec idx (zlen l)); [|apply Hend; lia].
    destruct (IH (idx + 1) _ (ed + 1) ltac:(lia) ltac:(lia) Hs') as (new & s' & -> & Hseq & Hd' & Hfst & Hall).
    exists ((e, mkInfo idx 0 et) :: new), s'. split_and!; [|by rewrite Hseq, Hadd, <- app_assoc|done| |by constructor].
    + f_equal. f_equal. unfold zlen. cbn [length]. lia.
    + by rewrite Hdrop, <- Hfst.
Qed.

Notation dl := (zlen b - zlen a).

(** The script is complete, and costs what the path does when the path goes to the end. *)
Lemma recordSequence_spec v c D :
  trivial d = true \/ py c = zlen b -> record_points d (reverse v) (mkCursor 0 0 (lcs d) (ses d)) = Some c ->
  Rec c D -> py c - px c = dl ->
  exists d', recordSequence v d = Some (d', true) /\ pathCordinates d' = pathCordinates d /\ swapped d' = sw /\
    first_of sw (ses_sequence (ses d')) = a /\ second_of sw (ses_sequence (ses d')) = b /\
    well_indexed (ses_sequence (ses d')) /\ lcs d' = commons (ses_sequence (ses d')) /\
    edits (ses_sequence (ses d')) + editDistance d = 2 * D + dl + editDistance d' /\
    (py c = zlen b -> left_out sw (ses_sequence (ses d')) = D /\ editDistance d' = editDistance d).
Proof.
  intros Htr Hrec HR Hdiag. pose proof (rc_bounds _ _ HR) as Hb. unfold recordSequence.
  assert (Hedits : edits (ses_sequence (rses c)) = 2 * D + dl).
  { rewrite (edits_balance sw), (rc_x _ _ HR), (rc_y _ _ HR), (rc_cost _ _ HR). unfold zlen in *.
    rewrite !length_take. lia. }
  rewrite Hrec. cbn [mbind option_bind]. cbn [set_lcs set_ses dM dN dA dB trivial swapped].
  rewrite (st_M _ _ _ Hd), (st_N _ _ _ Hd), (st_A _ _ _ Hd), (st_B _ _ _ Hd).
  destruct (Z.ltb_spec (zlen a) (px c + 1)) as [Hx|Hx].
  - rewrite (proj2 (Z.ltb_lt (zlen b) (py c + 1))) by lia. cbn [andb]. eexists. split; [done|]. cbn [ses lcs editDistance pathCordinates].
    split_and!; [done|done|etrans; [apply (rc_x _ _ HR)|apply firstn_all2; unfold zlen in *; lia]
                |etrans; [apply (rc_y _ _ HR)|apply firstn_all2; unfold zlen in *; lia]|apply HR|apply HR| |].
    + cbn [editDistance ses set_lcs set_ses]. lia.
    + intros _. split; [apply HR|done].
  - cbn [andb]. destruct Htr as [-> | Hend]; [|lia].
    unfold recordOddSequence. cbn [ses set_lcs set_ses editDistance].
    destruct (odd_spec (length a) a (px c + 1) (if sw then SES_ADD else SES_DELETE) (rses c) (editDistance d))
      as (n1 & s1 & Ho1 & Hs1 & Hd1 & Hf1 & Ha1); [lia|unfold zlen; lia|apply HR|].
    rewrite Ho1. cbn [mbind option_bind].
    destruct (odd_spec (length b) b (py c + 1) (if sw then SES_DELETE else SES_ADD) s1 (editDistance d + zlen n1))
      as (n2 & s2 & Ho2 & Hs2 & Hd2 & Hf2 & Ha2); [lia|unfold zlen; lia|done|].
    rewrite Ho2. cbn [mbind option_bind]. eexists. split; [done|]. cbn [ses set_ses set_editDistance pathCordinates].
    rewrite Z.add_simpl_r in Hf1, Hf2. pose proof (rc_x _ _ HR) as Hrx. pose proof (rc_y _ _ HR) as Hry.
    assert (Hne : forall (x y : edit_t) (l : script), x <> SES_COMMON -> y <> SES_COMMON ->
      Forall (fun e : sesElem => type (snd e) = if sw then x else y) l ->
      Forall (fun e : sesElem => type (snd e) <> SES_COMMON) l).
    { intros x y l Hx0 Hy0 Hl. eapply Forall_impl; [exact Hl|]. cbn. intros e ->. by destruct sw. }
    split_and!; [done|done| | |rewrite Hs2, Hs1; repeat apply well_indexed_app; [apply HR|by apply (Hne SES_ADD SES_DELETE)|by apply (Hne SES_DELETE SES_ADD)]| | |lia];
      rewrite Hs2, Hs1; unfold first_of, second_of, befores, afters in *.
    + etrans; [|apply (take_drop (Z.to_nat (px c)))]. rewrite <- Hrx, <- Hf1.
      destruct sw; rewrite !pick_app, (pick_all _ _ _ Ha1), (pick_all _ _ _ Ha2); cbn; by rewrite app_nil_r.
    + etrans; [|apply (take_drop (Z.to_nat (py c)))]. rewrite <- Hry, <- Hf2.
      destruct sw; rewrite !pick_app, (pick_all _ _ _ Ha1), (pick_all _ _ _ Ha2); cbn; by rewrite app_nil_r.
    + cbn [lcs set_lcs set_ses set_editDistance]. rewrite (rc_lcs _ _ HR). unfold commons.
      rewrite !pick_app, (pick_all _ _ _ Ha1), (pick_all _ _ _ Ha2). destruct sw; by rewrite !app_nil_r.
    + cbn [editDistance set_editDistance set_ses set_lcs]. unfold edits in *.
      rewrite !pick_app, !zlen_app, Hedits, (pick_all _ _ _ Ha1), (pick_all _ _ _ Ha2). unfold zlen.
      destruct sw; cbn [is_common negb]; rewrite !length_fmap; lia.
Qed.
End Record.

(** ** compose *)

(** A search about to start: nothing is visited. The paths may be more than the
    diagonals, when there has been a search before. *)
Lemma fresh_running (a b : list E) (d : Diff (E := E)) n :
  Static a b d -> fp d = replicate (length a + length b + 3) (-1) -> path d = replicate n (-1) ->
  zlen a + zlen b + 3 <= Z.of_nat n -> pathCordinates d = [] ->
  Running a b (-1) (fun _ => -1) (fun _ => 0) d.
Proof.
  intros Hst Hfp Hpath Hn Hpc. unfold Running. rewrite Hpc. split_and!; [|lia|lia|done].
  split; try (by intros; lia); try done.
  - split; [done| | | |]; rewrite ?Hfp, ?Hpath, ?(st_offset _ _ _ Hst).
    + unfold zlen. rewrite length_replicate. lia.
    + unfold zlen at 3. by rewrite length_replicate.
    + intros k Hk. apply vget_replicate. unfold zlen in *. lia.
    + intros k Hk. left. split; [done|]. apply vget_replicate. unfold zlen in *. lia.
  - intros D x y Hr. apply reach_bounds in Hr. unfold budget. lia.
Qed.

Lemma start_running tr (src dst : list E) :
  let sw := negb (zlen src <? zlen dst) in
  let a := if sw then dst else src in
  let b := if sw then src else dst in
  let n := (length a + length b + 3)%nat in
  Running a b (-1) (fun _ => -1) (fun _ => 0)
    (set_path (replicate n (-1)) (set_fp (replicate n (-1)) (set_trivial tr (init src dst false)))).
Proof.
  intros sw a b n. apply (fresh_running a b _ n); try done. unfold n, zlen. lia.
Qed.

Lemma swap_read sw (src dst : list E) l :
  first_of sw l = (if sw then dst else src) -> second_of sw l = (if sw then src else dst) ->
  befores l = src /\ afters l = dst.
Proof. by destruct sw. Qed.

(** The edits of a script, from what it leaves out of the first sequence. *)
Lemma edits_of sw (src dst : list E) l :
  befores l = src -> afters l = dst ->
  edits l = 2 * left_out sw l + zlen (if sw then src else dst) - zlen (if sw then dst else src) /\
  reach (if sw then dst else src) (if sw then src else dst) (left_out sw l)
        (zlen (if sw then dst else src)) (zlen (if sw then src else dst)).
Proof.
  intros <- <-. split; [rewrite (edits_balance sw); by destruct sw|].
  pose proof (script_reach sw (first_of sw l) (second_of sw l) l [] []) as Hr.
  rewrite !app_nil_r in Hr. specialize (Hr eq_refl eq_refl). by destruct sw.
Qed.

Lemma reach_same (l : list E) : reach l l 0 (zlen l) (zlen l).
Proof.
  apply (reach_matches l l 0 0 0 (zlen l)); [apply zlen_nonneg| |constructor].
  intros j Hj. destruct (vget_is_Some l j Hj) as [e He]. by exists e.
Qed.

(** What the search starts from. *)
Definition started tr (src dst : list E) : Diff (E := E) :=
  let d := set_trivial tr (init src dst false) in
  let n := (length (dA d) + length (dB d) + 3)%nat in
  set_path (replicate n (-1)) (set_fp (replicate n (-1)) d).

(** Where the search ends: the chain of the points of the last path, and the fewest
    elements that any script leaves out. *)
Lemma search_ends (a b : list E) (d0 : Diff (E := E)) :
  zlen a <= zlen b -> Running a b (-1) (fun _ => -1) (fun _ => 0) d0 ->
  exists p D y d1 r, onp (S (length a)) (-1) d0 = Some (p, d1) /\ 0 <= p <= zlen a /\ D <= p /\
    zlen b - zlen a + p <= y /\ zlen a + zlen b + 3 <= zlen (path d1) /\
    kept d0 d1 /\ Static a b d1 /\ vget (path d1) (delta d1 + offset d1) = Some r /\
    chain a b (pathCordinates d1) r D (y - (zlen b - zlen a)) y /\
    zlen (pathCordinates d1) = (p + 1) * (zlen b - zlen a + p + 1) /\
    (y = zlen b \/ MAX_CORDINATES_SIZE <= zlen (pathCordinates d1)) /\
    forall D', reach a b D' (zlen a) (zlen b) -> p <= D'.
Proof.
  intros Hab HR. destruct (onp_spec a b (S (length a)) (-1) _ _ d0 Hab HR) as
    (p & F & C & d1 & Honp & Hp & HP & Hk & Hpc & Hend & Hmin); [unfold zlen; lia|].
  pose proof (ph_inv _ _ _ _ _ _ HP) as HI. pose proof (inv_static _ _ _ _ _ HI) as Hd1.
  destruct (inv_link _ _ _ _ _ HI (zlen b - zlen a)) as [[HF _]|(r & Hr & Hc)]; [lia| |].
  { pose proof (ph_delta _ _ _ _ _ _ HP ltac:(lia)). lia. }
  pose proof (ph_in _ _ _ _ _ _ HP (zlen b - zlen a) ltac:(lia) ltac:(lia)) as [_ HC]. unfold budget in HC.
  pose proof (ph_delta _ _ _ _ _ _ HP ltac:(lia)). pose proof (inv_path_len _ _ _ _ _ HI).
  exists p, (C (zlen b - zlen a)), (F (zlen b - zlen a)), d1, r. rewrite (st_delta _ _ _ Hd1).
  split_and!; try done; lia.
Qed.

(** A script that leaves out no more than any other needs is a shortest one. *)
Lemma least_edits (sw : bool) (src dst : list E) (l : script) p :
  let a := if sw then dst else src in
  let b := if sw then src else dst in
  befores l = src -> afters l = dst -> left_out sw l <= p ->
  (forall D, reach a b D (zlen a) (zlen b) -> p <= D) ->
  edits l = zlen b - zlen a + 2 * p /\
  forall other, befores other = src -> afters other = dst -> edits l <= edits other.
Proof.
  intros a b Hbef Haft Hl Hmin. destruct (edits_of sw src dst l Hbef Haft) as [Hcost Hreach].
  fold a b in Hcost, Hreach. pose proof (Hmin _ Hreach). split; [lia|]. intros other Hob Hoa.
  destruct (edits_of sw src dst other Hob Hoa) as [Hcost' Hreach']. fold a b in Hcost', Hreach'.
  pose proof (Hmin _ Hreach'). lia.
Qed.

(** One search, from the parts it goes through. *)
Lemma search_once again (d d1 : Diff (E := E)) p r epc :
  onp (S (length (dA d))) (-1) d = Some (p, d1) -> vget (path d1) (delta d1 + offset d1) = Some r ->
  editDistanceOnly d1 = false -> backtrack (length (pathCordinates d1)) (pathCordinates d1) r = Some epc ->
  search again d
  = ('(d3, complete) ← recordSequence epc (set_editDistance (editDistance d1 + delta d1 + 2 * p) d1);
     if (complete : bool) then Some (set_fp [] d3)
     else match again with O => None | S again => search again (set_pathCordinates [] d3) end).
Proof.
  intros Honp Hr Honly Hbt. destruct again; cbn [search]; rewrite Honp; cbn [mbind option_bind];
    cbn [path delta offset set_editDistance]; rewrite Hr; cbn [mbind option_bind editDistanceOnly set_editDistance];
    rewrite Honly; cbn [pathCordinates set_editDistance]; by rewrite Hbt.
Qed.

(** With the trivial mode on, or when the points to visit are fewer than the limit. *)
Lemma compose_found tr (src dst : list E) :
  tr = true \/ (zlen src + 1) * (zlen dst + 1) < MAX_CORDINATES_SIZE ->
  exists d, compose (set_trivial tr (init src dst false)) = Some d /\
    befores (ses_sequence (ses d)) = src /\ afters (ses_sequence (ses d)) = dst /\
    well_indexed (ses_sequence (ses d)) /\ swapped d = negb (zlen src <? zlen dst) /\
    zlen (pathCordinates d) <= (zlen src + 1) * (zlen dst + 1) /\
    (src = dst -> zlen (pathCordinates d) = 1) /\
    (exists p d1, onp (S (length (dA (started tr src dst)))) (-1) (started tr src dst) = Some (p, d1) /\
       pathCordinates d1 = pathCordinates d /\ is_Some (vget (path d1) (delta d1 + offset d1)) /\
       (zlen (pathCordinates d) < MAX_CORDINATES_SIZE ->
          editDistance d = editDistance d1 + delta d1 + 2 * p)) /\
    lcs d = commons (ses_sequence (ses d)) /\ edits (ses_sequence (ses d)) <= editDistance d /\
    (zlen (pathCordinates d) < MAX_CORDINATES_SIZE ->
       editDistance d = edits (ses_sequence (ses d)) /\
       forall other, befores other = src -> afters other = dst -> edits (ses_sequence (ses d)) <= edits other).
Proof.
  intros Hmode. set (sw := negb (zlen src <? zlen dst)). set (a := if sw then dst else src). set (b := if sw then src else dst).
  assert (Hab : zlen a <= zlen b).
  { unfold a, b, sw. destruct (Z.ltb_spec (zlen src) (zlen dst)); cbn; lia. }
  pose proof (start_running tr src dst) as HR. fold sw a b in HR. cbn zeta in HR.
  unfold compose. change (dA (set_trivial tr (init src dst false))) with a.
  change (dB (set_trivial tr (init src dst false))) with b.
  set (d0 := set_path _ _) in *. generalize (length a + length b)%nat as again. intros again.
  destruct (search_ends a b d0 Hab HR) as (p & D & y & d1 & r & Honp & Hp & HD & _ & _ & Hk & Hd1 & Hr & Hc & Hpc & Hend & Hmin).
  set (d2 := set_editDistance (editDistance d1 + delta d1 + 2 * p) d1).
  assert (Hd2 : Static a b d2) by (destruct Hd1; by split).
  assert (Hsw : swapped d2 = sw) by apply Hk.
  destruct (chain_recorded a b d2 Hd2 _ _ _ _ _ (mkCursor 0 0 (lcs d2) (ses d2)) Hc)
    with (fuel := length (pathCordinates d1)) as (v & c & Hbt & Hrec & HRec & Hcx & Hcy); [|done|done| |].
  { assert (Hlcs : lcs d2 = []) by apply Hk. assert (Hses : ses d2 = newSes false) by apply Hk.
    rewrite Hlcs, Hses. apply rec_start. }
  { apply chain_index in Hc. unfold zlen in Hc. lia. }
  assert (Hpts : zlen (pathCordinates d1) <= (zlen src + 1) * (zlen dst + 1)).
  { rewrite Hpc. transitivity ((zlen a + 1) * (zlen b + 1)); [nia|]. unfold a, b. destruct sw; lia. }
  assert (Htr : trivial d2 = true \/ py c = zlen b).
  { destruct Hmode as [Htr|Hlim]; [left; etrans; [apply (kept_trivial _ _ Hk)|exact Htr]|right].
    destruct Hend as [HN|]; lia. }
  destruct (recordSequence_spec a b d2 Hd2 v c _ Htr Hrec HRec) as
    (d3 & Hseq & Hpc3 & Hsw3 & Hfst & Hsnd & Hidx & Hlcs3 & Hed3 & Hfull); [lia|].
  assert (Hd2e : editDistance d2 = zlen b - zlen a + 2 * p).
  { assert (He1 : editDistance d1 = 0) by apply Hk. cbn [d2 editDistance set_editDistance].
    rewrite He1, (st_delta _ _ _ Hd1). lia. }
  rewrite Hsw in *. destruct (swap_read sw src dst _ Hfst Hsnd) as [Hbef Haft].
  exists (set_fp [] d3). split_and!; [|done|done|done|done| | | |exact Hlcs3| |].
  - rewrite (search_once again d0 d1 p r v Honp Hr (st_only _ _ _ Hd1) Hbt). fold d2. by rewrite Hseq.
  - cbn [pathCordinates set_fp]. rewrite Hpc3. exact Hpts.
  - intros Hsame. cbn [pathCordinates set_fp]. rewrite Hpc3. change (pathCordinates d2) with (pathCordinates d1).
    assert (Hba : b = a) by (unfold a, b; rewrite Hsame; by destruct sw). rewrite Hba in Hpc, Hmin.
    pose proof (Hmin 0 (reach_same a)). replace p with 0 in Hpc by lia. lia.
  - exists p, d1. split; [exact Honp|]. cbn [pathCordinates set_fp editDistance]. split; [by rewrite Hpc3|].
    split; [by rewrite Hr|]. rewrite Hpc3. change (pathCordinates d2) with (pathCordinates d1). intros Hlim.
    destruct Hend as [HN|]; [|lia]. destruct (Hfull ltac:(lia)) as (_ & ->). done.
  - cbn [ses editDistance set_fp]. lia.
  - cbn [pathCordinates set_fp editDistance ses]. rewrite Hpc3. change (pathCordinates d2) with (pathCordinates d1).
    intros Hlim. destruct Hend as [HN|]; [|lia]. destruct (Hfull ltac:(lia)) as (HDl & Hed).
    destruct (least_edits sw src dst _ p Hbef Haft ltac:(lia) Hmin) as [Hcost Hleast]. fold a b in Hcost.
    split; [lia|exact Hleast].
Qed.

Lemma compose_any tr (src dst : list E) :
  tr = true \/ (zlen src + 1) * (zlen dst + 1) < MAX_CORDINATES_SIZE ->
  exists d, compose (set_trivial tr (init src dst false)) = Some d /\
    befores (ses_sequence (ses d)) = src /\ afters (ses_sequence (ses d)) = dst /\
    well_indexed (ses_sequence (ses d)) /\ swapped d = negb (zlen src <? zlen dst) /\
    zlen (pathCordinates d) <= (zlen src + 1) * (zlen dst + 1) /\
    (src = dst -> zlen (pathCordinates d) = 1) /\
    lcs d = commons (ses_sequence (ses d)) /\ edits (ses_sequence (ses d)) <= editDistance d /\
    (zlen (pathCordinates d) < MAX_CORDINATES_SIZE ->
       editDistance d = edits (ses_sequence (ses d)) /\
       forall other, befores other = src -> afters other = dst -> edits (ses_sequence (ses d)) <= edits other).
Proof.
  intros Hmode. destruct (compose_found tr src dst Hmode) as (d & ? & ? & ? & ? & ? & ? & ? & _ & ?).
  by exists d.
Qed.

Lemma compose_spec (src dst : list E) :
  exists d, compose (onUnserious (init src dst false)) = Some d /\
    befores (ses_sequence (ses d)) = src /\ afters (ses_sequence (ses d)) = dst /\
    well_indexed (ses_sequence (ses d)) /\ swapped d = negb (zlen src <? zlen dst) /\
    zlen (pathCordinates d) <= (zlen src + 1) * (zlen dst + 1) /\
    (src = dst -> zlen (pathCordinates d) = 1) /\
    lcs d = commons (ses_sequence (ses d)) /\ edits (ses_sequence (ses d)) <= editDistance d /\
    (zlen (pathCordinates d) < MAX_CORDINATES_SIZE ->
       editDistance d = edits (ses_sequence (ses d)) /\
       forall other, befores other = src -> afters other = dst -> edits (ses_sequence (ses d)) <= edits other).
Proof. apply (compose_any true). by left. Qed.

(** Patching with any list of edits: what follows what it reads is left alone. *)
Lemma patch_loop_spec (l : script) front rest :
  patch_loop l front (befores l ++ rest) = Some (front ++ afters l ++ rest).
Proof.
  unfold befores, afters. revert front. induction l as [|[e i] l IH]; intros front; [done|].
  cbn [patch_loop]. change ((e, i) :: l) with ([(e, i)] ++ l). rewrite !pick_app, !pick_one.
  destruct (type i); cbn [is_added is_deleted negb app]; rewrite IH, <- ?app_assoc; done.
Qed.

(** [C8] The script is the shortest: when the points to visit are fewer than the limit
    of the library, the distance announced is the number of edits, no other script
    between the two sequences has fewer, and the common elements are the sequence
    announced. *)
Theorem compose_shortest (src dst : list E) :
  (zlen src + 1) * (zlen dst + 1) < MAX_CORDINATES_SIZE ->
  exists d, compose (onUnserious (init src dst false)) = Some d /\
    lcs d = commons (ses_sequence (ses d)) /\ editDistance d = edits (ses_sequence (ses d)) /\
    forall other, befores other = src -> afters other = dst -> edits (ses_sequence (ses d)) <= edits other.
Proof.
  intros Hlim. destruct (compose_spec src dst) as (d & Hc & _ & _ & _ & _ & Hpc & _ & Hl & _ & Hs).
  exists d. split; [done|]. split; [done|]. apply Hs. lia.
Qed.
End Script.

Module DtlExamples.
Definition small_src : list Z := [4; 1; 2; 7; 3; 8; 9].
Definition small_dst : list Z := [3; 1; 2; 5; 9; 4].

Lemma compose_shortest_witness :
  (zlen small_src + 1) * (zlen small_dst + 1) < MAX_CORDINATES_SIZE /\
  exists d, compose (onUnserious (init small_src small_dst false)) = Some d /\
    lcs d = commons (ses_sequence (ses d)) /\ editDistance d = edits (ses_sequence (ses d)) /\
    forall other, befores other = small_src -> afters other = small_dst ->
      edits (ses_sequence (ses d)) <= edits other.
Proof. split; [vm_compute; reflexivity|]. apply compose_shortest. vm_compute. reflexivity. Defined.

Example small_script :
  (d ← compose (onUnserious (init small_src small_dst false));
   Some (prod_map id type <$> ses_sequence (ses d), editDistance d))
  = Some ([(4, SES_DELETE); (3, SES_ADD); (1, SES_COMMON); (2, SES_COMMON); (7, SES_DELETE);
           (3, SES_DELETE); (8, SES_DELETE); (5, SES_ADD); (9, SES_COMMON); (4, SES_ADD)], 7).
Proof. vm_compute. reflexivity. Qed.
End DtlExamples.
