(* ===== verification/DtlRounds.v ===== *)
(** * DtlRounds

    The searches of [compose] (Dtl) when the trivial mode is off: a search that reaches
    the limit of its coordinates records the script of the part it has covered, and the
    code goes back to the label ONP with what is left of the two sequences. Here a search
    is a round; the rounds end, and their scripts together are a script of the two
    sequences, however long these are. *)
From S2P Require Import Prelude CxxString Dtl DtlSearch DtlScript.
Local Open Scope Z_scope.

Section Rounds.
Context {E : Type} `{EqDecision E}.
#[local] Notation sesElem := (E * elemInfo)%type.
#[local] Notation script := (list sesElem).

(** ** Recording after what is recorded

    [onto l s c c']: the cursor [c'] holds what [c] does after the common elements [l] and
    the script [s]. *)
Record onto (l : list E) (s : script) (c c' : cursor (E := E)) : Prop := {
  on_x : px c' = px c;
  on_y : py c' = py c;
  on_lcs : rlcs c' = l ++ rlcs c;
  on_ses : ses_sequence (rses c') = s ++ ses_sequence (rses c);
  on_order : deletesFirst (rses c) = false;
  on_order' : deletesFirst (rses c') = false
}.

Lemma onto_add l s c c' e i j t x y m :
  onto l s c c' ->
  onto l s (mkCursor x y (rlcs c ++ m) (addSequence e i j t (rses c)))
           (mkCursor x y (rlcs c' ++ m) (addSequence e i j t (rses c'))).
Proof.
  intros [_ _ Hl Hs Ho Ho']. destruct (add_spec e i j t _ Ho), (add_spec e i j t _ Ho') as [Hs' ?].
  split; cbn [px py rlcs rses]; try done; [by rewrite Hl, app_assoc|].
  rewrite Hs', Hs, <- app_assoc. congruence.
Qed.

Lemma record_one_onto l s d vx vy c c' c1 :
  onto l s c c' -> record_one d vx vy c = Some c1 ->
  exists c1', record_one d vx vy c' = Some c1' /\ onto l s c1 c1'.
Proof.
  intros Hon. unfold record_one. rewrite (on_x _ _ _ _ Hon), (on_y _ _ _ _ Hon).
  assert (Hadd : forall e i j t x y m, exists c1',
    Some (mkCursor x y (rlcs c' ++ m) (addSequence e i j t (rses c'))) = Some c1' /\
    onto l s (mkCursor x y (rlcs c ++ m) (addSequence e i j t (rses c))) c1').
  { intros. eexists. split; [done|]. by apply onto_add. }
  pose proof (fun e i j t x y => Hadd e i j t x y []) as Hnone. setoid_rewrite app_nil_r in Hnone.
  destruct (py c - px c <? vy - vx); [|destruct (vy - vx <? py c - px c)];
    [destruct (vget (dB d) (py c))|destruct (vget (dA d) (px c))
    |destruct (swapped d); [destruct (vget (dB d) (py c))|destruct (vget (dA d) (px c))]];
    try done; cbn [mbind option_bind]; intros [= <-]; try apply Hadd; destruct (swapped d); apply Hnone.
Qed.

Lemma record_to_onto l s d fuel vx vy c c' c1 :
  onto l s c c' -> record_to d fuel vx vy c = Some c1 ->
  exists c1', record_to d fuel vx vy c' = Some c1' /\ onto l s c1 c1'.
Proof.
  revert c c'. induction fuel as [|fuel IH]; intros c c' Hon; cbn [record_to];
    rewrite (on_x _ _ _ _ Hon), (on_y _ _ _ _ Hon); destruct ((px c <? vx) || (py c <? vy));
    try done; try (intros [= <-]; by exists c').
  destruct (record_one d vx vy c) as [c2|] eqn:Hone; [|done]. cbn [mbind option_bind].
  destruct (record_one_onto _ _ _ _ _ _ _ _ Hon Hone) as (c2' & -> & Hon'). by apply IH.
Qed.

Lemma record_points_onto l s d v c c' c1 :
  onto l s c c' -> record_points d v c = Some c1 ->
  exists c1', record_points d v c' = Some c1' /\ onto l s c1 c1'.
Proof.
  revert c c'. induction v as [|p v IH]; intros c c' Hon; cbn [record_points].
  { intros [= <-]. by exists c'. }
  destruct (record_to d _ _ _ c) as [c2|] eqn:Hto; [|done]. cbn [mbind option_bind].
  destruct (record_to_onto _ _ _ _ _ _ _ _ _ Hon Hto) as (c2' & -> & Hon'). by apply IH.
Qed.

(** ** One round *)

(** Before a round on the sequences [a] and [b], what the rounds before have recorded
    being in [d]. *)
Record Fresh (a b : list E) (d : Diff (E := E)) : Prop := {
  fr_shorter : zlen a <= zlen b;
  fr_static : Static a b d;
  fr_fp : fp d = replicate (length a + length b + 3) (-1);
  fr_path : exists n, path d = replicate n (-1) /\ zlen a + zlen b + 3 <= Z.of_nat n;
  fr_points : pathCordinates d = [];
  fr_trivial : trivial d = false;
  fr_order : deletesFirst (ses d) = false
}.

(** What a round adds to the difference [d]: the script [new], read as the beginnings [a]
    and [b] of the sequences. The distance grows by the number of its edits at least. *)
Record Added (a b : list E) (new : script) (d d' : Diff (E := E)) : Prop := {
  ad_first : first_of (swapped d) new = a;
  ad_second : second_of (swapped d) new = b;
  ad_ses : ses_sequence (ses d') = ses_sequence (ses d) ++ new;
  ad_lcs : lcs d' = lcs d ++ commons new;
  ad_distance : editDistance d + edits new <= editDistance d';
  ad_swapped : swapped d' = swapped d
}.

(** The search of a round and what it makes [recordSequence] record. *)
Lemma round_recorded a b d :
  Fresh a b d ->
  exists p y epc c d2 new,
    (forall again, search again d =
       ('(d3, complete) ← recordSequence epc d2;
        if (complete : bool) then Some (set_fp [] d3)
        else match again with O => None | S again => search again (set_pathCordinates [] d3) end)) /\
    record_points d2 (reverse epc) (mkCursor 0 0 (lcs d2) (ses d2)) = Some c /\
    px c = y - (zlen b - zlen a) /\ py c = y /\ 0 <= px c <= zlen a /\ 0 <= y <= zlen b /\
    deletesFirst (rses c) = false /\ Static a b d2 /\ trivial d2 = false /\
    zlen a + zlen b + 3 <= zlen (path d2) /\
    Added (take (Z.to_nat (px c)) a) (take (Z.to_nat (py c)) b) new d (set_lcs (rlcs c) (set_ses (rses c) d2)) /\
    0 <= p /\ zlen b - zlen a + p <= y /\ editDistance d2 = editDistance d + (zlen b - zlen a) + 2 * p /\
    (y = zlen b \/ MAX_CORDINATES_SIZE <= (p + 1) * (zlen b - zlen a + p + 1)) /\ (a = b -> p = 0).
Proof.
  intros [Hab Hst Hfp (n & Hpath & Hn) Hpts Htr Hord].
  pose proof (fresh_running a b d n Hst Hfp Hpath Hn Hpts) as HR.
  destruct (search_ends a b d Hab HR) as
    (p & D & y & d1 & r & Honp & Hp & HD & Hy & Hlen & Hk & Hd1 & Hr & Hc & Hpc & Hend & Hmin).
  set (d2 := set_editDistance (editDistance d1 + delta d1 + 2 * p) d1).
  assert (Hd2 : Static a b d2) by (destruct Hd1; by split).
  destruct (chain_recorded a b d2 Hd2 _ _ _ _ _ (mkCursor 0 0 [] (newSes false)) Hc (rec_start a b d2) eq_refl eq_refl
    (length (pathCordinates d1))) as (epc & c0 & Hbt & Hrec & HRec & Hcx & Hcy).
  { apply chain_index in Hc. unfold zlen in Hc. lia. }
  assert (Hon : onto (lcs d2) (ses_sequence (ses d2)) (mkCursor 0 0 [] (newSes false))
                     (mkCursor 0 0 (lcs d2) (ses d2))).
  { split; cbn; rewrite ?app_nil_r; try done. by rewrite (kept_ses _ _ Hk). }
  destruct (record_points_onto _ _ _ _ _ _ _ Hon Hrec) as (c & Hrec' & [Hx' Hy' Hl' Hs' _ Ho']).
  pose proof HRec as [Hfst Hsnd Hcost Hlcs _ _ Hbx]. rewrite <- Hx' in Hfst, Hbx, Hcx. rewrite <- Hy' in Hsnd, Hbx, Hcy.
  assert (Hdist : editDistance d2 = editDistance d + (zlen b - zlen a) + 2 * p).
  { cbn [d2 editDistance set_editDistance]. rewrite (kept_distance _ _ Hk), (st_delta _ _ _ Hd1). lia. }
  exists p, y, epc, c, d2, (ses_sequence (rses c0)). split_and!; try done; try lia.
  - intros again. rewrite <- (st_A _ _ _ Hst) in Honp. by apply search_once with (r := r); [..|apply Hd1|].
  - etrans; [apply (kept_trivial _ _ Hk)|exact Htr].
  - assert (Hsw : swapped d2 = swapped d) by apply Hk.
    split; cbn [ses lcs editDistance swapped set_lcs set_ses]; rewrite <- ?Hsw; try done.
    + rewrite Hs'. by rewrite <- (kept_ses _ _ Hk).
    + rewrite Hl', Hlcs. by rewrite <- (kept_lcs _ _ Hk).
    + rewrite (edits_balance (swapped d2)), Hfst, Hsnd, Hcost, Hdist. unfold zlen in *. rewrite !length_take. lia.
  - intros ->. pose proof (Hmin 0 (reach_same b)). lia.
Qed.

(** A round: it records everything, or the beginnings of the two sequences, and then the
    next round starts with what follows them, which is shorter. *)
Lemma round_spec a b d :
  Fresh a b d ->
  exists new d',
    (Added a b new d d' /\ (forall again, search again d = Some d') /\
     (a = b -> editDistance d' = editDistance d)) \/
    (exists x y : nat, (0 < y <= length b)%nat /\ a <> b /\
       Added (take x a) (take y b) new d d' /\ Fresh (drop x a) (drop y b) d' /\
       forall again, search (S again) d = search again d').
Proof.
  intros HF. destruct (round_recorded a b d HF) as
    (p & y & epc & c & d2 & new & Hsearch & Hrec & Hx & Hy & Hbx & Hby & Hord & Hd2 & Htr & Hlen & Hadd & Hp & Hdl &
     Hdist & Hend & Hsame).
  pose proof (fr_shorter _ _ _ HF) as Hab. unfold recordSequence in Hsearch. rewrite Hrec in Hsearch.
  cbn [mbind option_bind dM dN dA dB trivial set_lcs set_ses] in Hsearch.
  rewrite (st_M _ _ _ Hd2), (st_N _ _ _ Hd2), (st_A _ _ _ Hd2), (st_B _ _ _ Hd2), Htr in Hsearch.
  exists new. destruct (Z.eq_dec y (zlen b)) as [He|Hne].
  - rewrite !(proj2 (Z.ltb_lt _ _)) in Hsearch by lia. cbn [andb] in Hsearch. eexists. left.
    split_and!; [|exact Hsearch|].
    + rewrite !take_ge in Hadd by (unfold zlen in *; lia). destruct Hadd. by split.
    + intros Hs. rewrite (Hsame Hs) in Hdist. cbn [editDistance set_fp set_lcs set_ses]. rewrite Hdist, Hs. lia.
  - destruct Hend as [|Hlim]; [done|]. unfold MAX_CORDINATES_SIZE in Hlim.
    rewrite (proj2 (Z.ltb_ge (zlen b) (py c + 1))), andb_false_r in Hsearch by lia.
    eexists. right. exists (Z.to_nat (px c)), (Z.to_nat (py c)). split_and!; [| | | | |]; cycle 5.
    + intros again. exact (Hsearch (S again)).
    + unfold zlen in *. nia.
    + unfold zlen in *. lia.
    + intros Hs. rewrite (Hsame Hs), Hs in Hlim. lia.
    + destruct Hadd. by split.
    + assert (Hrest : zlen (drop (Z.to_nat (px c)) a) = zlen a - px c /\ zlen (drop (Z.to_nat (py c)) b) = zlen b - py c)
        by (unfold zlen in *; rewrite !length_drop; lia).
      split; cbn; try done; [lia| |].
      * split; cbn; try done. apply Hd2.
      * exists (length (path d2)). split; [by apply const_fmap|]. unfold zlen in *. lia.
Qed.

(** ** All the rounds *)

Lemma Added_app (a b : list E) x y new1 new2 d d1 d2 :
  Added (take x a) (take y b) new1 d d1 -> Added (drop x a) (drop y b) new2 d1 d2 ->
  Added a b (new1 ++ new2) d d2.
Proof.
  intros [F1 S1 Q1 L1 D1 W1] [F2 S2 Q2 L2 D2 W2]. rewrite W1 in *.
  split; unfold first_of, second_of, befores, afters, commons, edits in *;
    rewrite ?pick_app, ?zlen_app, ?Q2, ?Q1, ?L2, ?L1, <- ?app_assoc; try done; [| |lia].
  - rewrite <- (take_drop x a), <- F1, <- F2. by destruct (swapped d).
  - rewrite <- (take_drop y b), <- S1, <- S2. by destruct (swapped d).
Qed.

(** The rounds end: each makes the second sequence shorter. *)
Lemma rounds_spec again a b d :
  Fresh a b d -> (length b <= again)%nat ->
  exists new d', search again d = Some d' /\ Added a b new d d' /\
    (a = b -> editDistance d' = editDistance d).
Proof.
  revert a b d. induction again as [|again IH]; intros a b d HF Hl;
    destruct (round_spec a b d HF) as (new & d' & [(Ha & Hs & He)|(x & y & Hy & Hne & Ha & HF' & Hs)]);
    try (exists new, d'; split_and!; [apply Hs|done|done]); [lia|].
  destruct (IH _ _ _ HF') as (new' & d'' & Hs' & Ha' & _); [rewrite length_drop; lia|].
  exists (new ++ new'), d''. split_and!; [by rewrite Hs|by eapply Added_app|done].
Qed.

(** The difference without the trivial mode, whatever the lengths. *)
Lemma compose_rounds (src dst : list E) :
  exists d, compose (init src dst false) = Some d /\
    befores (ses_sequence (ses d)) = src /\ afters (ses_sequence (ses d)) = dst /\
    lcs d = commons (ses_sequence (ses d)) /\ edits (ses_sequence (ses d)) <= editDistance d /\
    (src = dst -> editDistance d = 0).
Proof.
  set (sw := negb (zlen src <? zlen dst)). set (a := if sw then dst else src). set (b := if sw then src else dst).
  assert (HF : Fresh a b (started false src dst)).
  { split; try done.
    - unfold a, b, sw. destruct (Z.ltb_spec (zlen src) (zlen dst)); cbn; lia.
    - exists (length a + length b + 3)%nat. split; [done|]. unfold zlen. lia. }
  destruct (rounds_spec (length a + length b) a b _ HF) as (new & d & Hs & [Hf Hsec Hq Hl Hd _] & He); [lia|].
  cbn [started ses lcs editDistance set_path set_fp set_trivial init newSes ses_sequence app swapped] in Hq, Hl, Hd, Hf, Hsec, He.
  destruct (swap_read sw src dst new Hf Hsec) as [Hb Ha]. exists d. rewrite Hq, Hl. split_and!; try done.
  intros Hsame. apply He. unfold a, b. rewrite Hsame. by destruct sw.
Qed.

(** [C7] The edit script of [compose], in both modes and for sequences of any lengths: it
    is always found, without any access outside an array, the search that starts again at
    its limit included; it reads as the source one way and as the destination the other
    way, and [patch] makes the destination of the source. The elements in common are the
    sequence announced, and the distance announced is at least the number of edits. *)
Theorem compose_script (tr : bool) (src dst : list E) :
  exists d, compose (set_trivial tr (init src dst false)) = Some d /\
    befores (ses_sequence (ses d)) = src /\ afters (ses_sequence (ses d)) = dst /\
    patch d src = Some dst /\
    lcs d = commons (ses_sequence (ses d)) /\ edits (ses_sequence (ses d)) <= editDistance d.
Proof.
  assert (Hd : exists d, compose (set_trivial tr (init src dst false)) = Some d /\
    befores (ses_sequence (ses d)) = src /\ afters (ses_sequence (ses d)) = dst /\
    lcs d = commons (ses_sequence (ses d)) /\ edits (ses_sequence (ses d)) <= editDistance d).
  { destruct tr.
    - destruct (compose_spec src dst) as (d & ? & ? & ? & _ & _ & _ & _ & ? & ? & _). by exists d.
    - destruct (compose_rounds src dst) as (d & ? & ? & ? & ? & ? & _). by exists d. }
  destruct Hd as (d & Hc & Hb & Ha & Hl & He). exists d. split_and!; try done.
  unfold patch. rewrite <- Hb at 1. rewrite <- (app_nil_r (befores _)), patch_loop_spec. cbn.
  by rewrite app_nil_r, Ha.
Qed.
End Rounds.
