(* ===== verification/Diff3.v ===== *)
(** * Diff3

    Diff3.hpp of extern/dtl-cpp: the changes of two sequences [A] and [C] to a common
    ancestor [B] are merged. [merge_] walks over the two edit scripts at once; its
    iterators are the rests of the scripts. The three separators of conflicts, which no
    function reads, are left out. *)
From S2P Require Import Prelude CxxString Dtl DtlSearch DtlScript DtlRounds.
Local Open Scope Z_scope.

Section Diff3.
Context {E : Type} `{EqDecision E}.
#[local] Notation sesElem := (E * elemInfo)%type.
#[local] Notation script := (list sesElem).

Record Diff3 : Type := mkDiff3 {
  A3 : list E;
  B3 : list E;
  C3 : list E;
  S3 : list E;
  diff_ba : Diff (E := E);
  diff_bc : Diff (E := E);
  conflict : bool
}.

Definition newDiff3 (a b c : list E) : Diff3 :=
  mkDiff3 a b c [] (init b a false) (init b c false) false.

Definition isConflict (d : Diff3) : bool := conflict d.
Definition getMergedSequence (d : Diff3) : list E := S3 d.

Definition compose3 (d : Diff3) : option Diff3 :=
  ba ← compose (diff_ba d);
  bc ← compose (diff_bc d);
  Some (mkDiff3 (A3 d) (B3 d) (C3 d) (S3 d) ba bc (conflict d)).

(** The inner loop of [merge_], over what both keep. *)
Fixpoint both_common (ba bc : script) (seq : list E) : script * script * list E :=
  match ba, bc with
  | (e, i) :: ba', (e', i') :: bc' =>
      if bool_decide (e = e') && is_common (type i) && is_common (type i')
      then both_common ba' bc' (seq ++ [e]) else (ba, bc, seq)
  | _, _ => (ba, bc, seq)
  end.

(** [addDecentSequence] *)
Fixpoint addDecentSequence (it : script) (seq : list E) : list E :=
  match it with
  | [] => seq
  | (e, i) :: it => addDecentSequence it (if is_added (type i) then seq ++ [e] else seq)
  end.

(** After the outer loop. *)
Definition merge_end (ba bc : script) (seq : list E) : list E :=
  match ba, bc with
  | [], _ => addDecentSequence bc seq
  | _, [] => addDecentSequence ba seq
  | _, _ => seq
  end.

(** The outer loop: the merged elements, or [inr] at a conflict. Two different elements
    that both sides keep are in no branch: the loop goes round. *)
Fixpoint merge_loop (fuel : nat) (ba bc : script) (seq : list E) : option (list E + unit) :=
  match fuel with
  | O => None
  | S fuel =>
      let '(ba, bc, seq) := both_common ba bc seq in
      match ba, bc with
      | (e, i) :: ba', (e', i') :: bc' =>
          match type i, type i' with
          | SES_COMMON, SES_DELETE | SES_DELETE, SES_COMMON => merge_loop fuel ba' bc' seq
          | SES_COMMON, SES_ADD => merge_loop fuel ba bc' (seq ++ [e'])
          | SES_DELETE, SES_DELETE =>
              if bool_decide (e = e') then merge_loop fuel ba' bc' seq else Some (inr tt)
          | SES_DELETE, SES_ADD | SES_ADD, SES_DELETE => Some (inr tt)
          | SES_ADD, SES_COMMON => merge_loop fuel ba' bc (seq ++ [e])
          | SES_ADD, SES_ADD =>
              if bool_decide (e = e') then merge_loop fuel ba' bc' (seq ++ [e]) else Some (inr tt)
          | SES_COMMON, SES_COMMON => merge_loop fuel ba bc seq
          end
      | _, _ => Some (inl (merge_end ba bc seq))
      end
  end.

(** [merge_]: at a conflict, [B]. One turn more than there are elements is enough. *)
Definition merge_ (d : Diff3) : option (list E * bool) :=
  let ba := ses_sequence (ses (diff_ba d)) in
  let bc := ses_sequence (ses (diff_bc d)) in
  r ← merge_loop (S (length ba + length bc)) ba bc [];
  Some (match r with inl s => (s, conflict d) | inr _ => (B3 d, true) end).

Definition set_merged (s : list E) (c : bool) (d : Diff3) : Diff3 :=
  mkDiff3 (A3 d) (B3 d) (C3 d) s (diff_ba d) (diff_bc d) c.

Definition merge (d : Diff3) : option (Diff3 * bool) :=
  if editDistance (diff_ba d) =? 0 then
    if editDistance (diff_bc d) =? 0 then Some (set_merged (B3 d) (conflict d) d, true)
    else Some (set_merged (C3 d) (conflict d) d, true)
  else if editDistance (diff_bc d) =? 0 then Some (set_merged (A3 d) (conflict d) d, true)
  else
    '(s, c) ← merge_ d;
    let d := set_merged s c d in
    Some (d, negb (isConflict d)).

(** ** What a merge is

    A script, seen from the ancestor: before each of its elements the additions, then
    whether the element is kept; and the additions at the end. *)

Fixpoint gaps (l : script) : list (list E * E * bool) * list E :=
  match l with
  | [] => ([], [])
  | (e, i) :: l =>
      let '(gs, last) := gaps l in
      match type i, gs with
      | SES_COMMON, _ => (([], e, true) :: gs, last)
      | SES_DELETE, _ => (([], e, false) :: gs, last)
      | SES_ADD, (adds, x, kept) :: gs => ((e :: adds, x, kept) :: gs, last)
      | SES_ADD, [] => ([], e :: last)
      end
  end.

(** The additions of the two sides at the same place, where [ka] and [kc] say whether the
    sides keep the element after it: one side may add more than the other, when the other
    keeps that element. *)
Fixpoint join (ka kc : bool) (aa ac : list E) : option (list E) :=
  match aa, ac with
  | [], [] => Some []
  | a :: aa, c :: ac => if bool_decide (a = c) then cons a <$> join ka kc aa ac else None
  | _, [] => if kc then Some aa else None
  | [], _ => if ka then Some ac else None
  end.

Fixpoint merge_gaps (ga gc : list (list E * E * bool)) (la lc : list E) : option (list E) :=
  match ga, gc with
  | [], [] => join true true la lc
  | (aa, x, ka) :: ga, (ac, _, kc) :: gc =>
      m ← join ka kc aa ac;
      rest ← merge_gaps ga gc la lc;
      Some (m ++ (if ka && kc then [x] else []) ++ rest)
  | _, _ => None
  end.

(** The ancestor with the changes of both, unless they conflict. *)
Definition merged (ba bc : script) : option (list E) :=
  merge_gaps (fst (gaps ba)) (fst (gaps bc)) (snd (gaps ba)) (snd (gaps bc)).

Lemma gap_elements l : (fun g => snd (fst g)) <$> fst (gaps l) = befores l.
Proof.
  unfold befores. induction l as [|[e i] l IH]; [done|]. rewrite pick_cons. cbn [gaps].
  destruct (gaps l) as [gs last]. cbn [fst] in IH.
  destruct (type i); cbn; [by rewrite IH| |].
  - by rewrite IH.
  - destruct gs as [|[[adds x] k] gs]; cbn; by rewrite <- IH.
Qed.

Lemma befores_cons e i (l : script) :
  befores ((e, i) :: l) = if is_added (type i) then befores l else e :: befores l.
Proof. unfold befores. rewrite pick_cons. by destruct (type i). Qed.

(** An addition in front. *)
Lemma gaps_add e i l :
  type i = SES_ADD ->
  gaps ((e, i) :: l) = match gaps l with
                       | ((adds, x, k) :: gs, last) => ((e :: adds, x, k) :: gs, last)
                       | ([], last) => ([], e :: last)
                       end.
Proof. intros Hi. cbn [gaps]. rewrite Hi. by destruct (gaps l) as [[|[[adds x] k] gs] last]. Qed.

(** Both scripts go over the same ancestor: their gaps are as many. *)
Lemma gaps_together ba bc :
  befores ba = befores bc ->
  (fst (gaps ba) = [] /\ fst (gaps bc) = []) \/
  (exists aa x ka ga ac kc gc, fst (gaps ba) = (aa, x, ka) :: ga /\ fst (gaps bc) = (ac, x, kc) :: gc).
Proof.
  rewrite <- !gap_elements. destruct (fst (gaps ba)) as [|[[aa x] ka] ga], (fst (gaps bc)) as [|[[ac y] kc] gc];
    cbn; try done; [by left|]. intros [= -> _]. right. by repeat eexists.
Qed.

Lemma join_comm ka kc aa ac : join ka kc aa ac = join kc ka ac aa.
Proof.
  revert ac. induction aa as [|a aa IH]; intros [|c ac]; try done. cbn [join].
  destruct (bool_decide_reflect (a = c)) as [->|Hn]; [by rewrite bool_decide_true, IH|].
  by rewrite bool_decide_false by congruence.
Qed.

Lemma merge_gaps_comm ga gc la lc :
  (fun g => snd (fst g)) <$> ga = (fun g => snd (fst g)) <$> gc ->
  merge_gaps ga gc la lc = merge_gaps gc ga lc la.
Proof.
  revert gc. induction ga as [|[[aa x] ka] ga IH]; intros [|[[ac y] kc] gc]; try done.
  - intros _. apply join_comm.
  - cbn. intros [= -> Hg]. by rewrite join_comm, (IH gc Hg), andb_comm.
Qed.

Lemma merged_comm ba bc : befores ba = befores bc -> merged ba bc = merged bc ba.
Proof. intros Hb. apply merge_gaps_comm. by rewrite !gap_elements. Qed.

(** *** The steps of the walk, as equations of [merged] *)

Ltac open_gaps := repeat match goal with |- context [gaps ?l] => destruct (gaps l) as [? ?] eqn:? end.

(** Both sides are at an element of the ancestor. *)
Lemma merged_element e i e' i' ba bc :
  type i <> SES_ADD -> type i' <> SES_ADD ->
  merged ((e, i) :: ba) ((e', i') :: bc)
  = app (if is_common (type i) && is_common (type i') then [e] else []) <$> merged ba bc.
Proof.
  intros Hi Hi'. unfold merged. cbn [gaps]. open_gaps.
  destruct (type i) eqn:?, (type i') eqn:?; try done; cbn [fst snd is_common];
    cbn [merge_gaps join mbind option_bind app andb]; by destruct (merge_gaps _ _ _ _).
Qed.

(** One side adds, and the other keeps the next element, or is at the end. *)
Lemma merged_add_one e i ba bc :
  type i = SES_ADD ->
  match bc with [] => befores ba = [] | (_, i') :: _ => type i' = SES_COMMON /\ befores ba = befores bc end ->
  merged ((e, i) :: ba) bc = cons e <$> merged ba bc.
Proof.
  intros Hi Hbc. unfold merged. rewrite gaps_add by done.
  assert (Hb : befores ba = befores bc) by (destruct bc as [|[]]; [exact Hbc|apply Hbc]).
  destruct (gaps_together ba bc Hb) as [[Ha Hc]|(aa & x & ka & ga & ac & kc & gc & Ha & Hc)].
  - destruct bc as [|[e' i'] bc]; [|destruct Hbc as [Hc' _]; cbn [gaps] in Hc; destruct (gaps bc); by rewrite Hc' in Hc].
    destruct (gaps ba) as [gs last]. cbn [fst] in Ha. subst gs. cbn. by destruct last.
  - destruct bc as [|[e' i'] bc]; [done|]. destruct Hbc as [Hc' _]. cbn [gaps] in *.
    destruct (gaps bc) as [gs' last']. rewrite Hc' in *. cbn [fst snd] in *. injection Hc as <- <- <- <-.
    destruct (gaps ba) as [gs last]. cbn [fst] in Ha. subst gs. cbn [fst snd merge_gaps join].
    destruct aa; cbn [join mbind option_bind]; by destruct (merge_gaps _ _ _ _).
Qed.

(** Both sides add. *)
Lemma merged_add_both e i e' i' ba bc :
  type i = SES_ADD -> type i' = SES_ADD -> befores ba = befores bc ->
  merged ((e, i) :: ba) ((e', i') :: bc) = if bool_decide (e = e') then cons e <$> merged ba bc else None.
Proof.
  intros Hi Hi' Hb. unfold merged. rewrite !gaps_add by done.
  destruct (gaps_together ba bc Hb) as [[Ha Hc]|(aa & x & ka & ga & ac & kc & gc & Ha & Hc)];
    destruct (gaps ba) as [gs last], (gaps bc) as [gs' last']; cbn [fst] in *; subst;
    cbn [fst snd merge_gaps join]; case_bool_decide; try done.
  destruct (join ka kc aa ac); cbn [mbind option_bind fmap option_fmap option_map]; [|done].
  by destruct (merge_gaps _ _ _ _).
Qed.

(** One side adds where the other deletes. *)
Lemma merged_clash e i e' i' ba bc :
  type i = SES_ADD -> type i' = SES_DELETE -> befores ((e, i) :: ba) = befores ((e', i') :: bc) ->
  merged ((e, i) :: ba) ((e', i') :: bc) = None.
Proof.
  intros Hi Hi' Hb. rewrite (befores_cons e i), Hi in Hb. unfold merged. rewrite gaps_add by done.
  destruct (gaps_together ba _ Hb) as [[Ha Hc]|(aa & x & ka & ga & ac & kc & gc & Ha & Hc)];
    cbn [gaps] in *; destruct (gaps bc) as [gs' last']; rewrite Hi' in *; [done|].
  cbn [fst snd] in *. injection Hc as <- <- <- <-. destruct (gaps ba) as [gs last]. cbn [fst] in Ha. by subst gs.
Qed.

(** One side has nothing left. *)
Lemma merged_end bc seq : befores bc = [] -> merged [] bc = Some (afters bc) /\ addDecentSequence bc seq = seq ++ afters bc.
Proof.
  revert seq. induction bc as [|[e i] bc IH]; intros seq; [by rewrite app_nil_r|].
  rewrite befores_cons. destruct (type i) eqn:Hi; cbn [is_added]; [done..|]. intros Hb.
  destruct (IH (seq ++ [e]) Hb) as [Hm Ha]. rewrite merged_comm by (rewrite befores_cons, Hi; done).
  rewrite merged_add_one, merged_comm, Hm by done. unfold afters in *. rewrite pick_cons, Hi. split; [done|].
  cbn [addDecentSequence]. rewrite Hi. cbn [is_added is_deleted negb]. by rewrite Ha, <- app_assoc.
Qed.

Lemma both_common_spec ba bc seq ba' bc' seq' :
  both_common ba bc seq = (ba', bc', seq') -> befores ba = befores bc ->
  exists m, seq' = seq ++ m /\ merged ba bc = app m <$> merged ba' bc' /\ befores ba' = befores bc' /\
    (length ba' + length bc' <= length ba + length bc)%nat /\
    match ba', bc' with (_, i) :: _, (_, i') :: _ => is_common (type i) && is_common (type i') = false | _, _ => True end.
Proof.
  assert (Hstop : forall ba bc seq, befores ba = befores bc ->
    match ba, bc with (_, i) :: _, (_, i') :: _ => is_common (type i) && is_common (type i') = false | _, _ => True end ->
    exists m : list E, seq = seq ++ m /\ merged ba bc = app m <$> merged ba bc /\ befores ba = befores bc /\
    (length ba + length bc <= length ba + length bc)%nat /\
    match ba, bc with (_, i) :: _, (_, i') :: _ => is_common (type i) && is_common (type i') = false | _, _ => True end).
  { intros ? ? ? ? ?. exists []. rewrite app_nil_r. split_and!; try done. by destruct (merged _ _). }
  revert bc seq. induction ba as [|[e i] ba IH]; intros bc seq; [intros [= <- <- <-] Hb; by apply Hstop|].
  destruct bc as [|[e' i'] bc]; [intros [= <- <- <-] Hb; by apply Hstop|]. cbn [both_common].
  destruct (is_common (type i) && is_common (type i')) eqn:Hc; cycle 1.
  { rewrite <- andb_assoc, Hc, andb_false_r. intros [= <- <- <-] Hb. by apply Hstop. }
  pose proof Hc as [Hi Hi']%andb_prop. rewrite <- andb_assoc, Hc, andb_true_r. rewrite !befores_cons.
  destruct (type i) eqn:Ti, (type i') eqn:Ti'; try done. cbn [is_added]. intros Hm [= -> Hb].
  rewrite bool_decide_true in Hm by done. destruct (IH bc _ Hm Hb) as (m & -> & Hmer & Hb' & Hl & Hh).
  exists (e' :: m). split_and!; [by rewrite <- app_assoc| |done|cbn; lia|done].
  rewrite merged_element by congruence. rewrite Ti, Ti', Hmer. by destruct (merged ba' bc').
Qed.

(** The walk of two scripts of the same ancestor ends, with their merge. *)
Lemma merge_loop_spec fuel ba bc seq :
  befores ba = befores bc -> (length ba + length bc < fuel)%nat ->
  merge_loop fuel ba bc seq
  = Some (match merged ba bc with Some m => inl (seq ++ m) | None => inr tt end).
Proof.
  revert ba bc seq. induction fuel as [|fuel IH]; intros ba bc seq Hb Hf; [lia|]. cbn [merge_loop].
  destruct (both_common ba bc seq) as [[ba' bc'] seq'] eqn:Hboth.
  apply both_common_spec in Hboth as (m & -> & -> & Hb' & Hl & Hheads); [|done].
  assert (Hgo : forall x y k, befores x = befores y -> (length x + length y < fuel)%nat ->
    merged ba' bc' = app k <$> merged x y ->
    merge_loop fuel x y ((seq ++ m) ++ k)
    = Some (match app m <$> merged ba' bc' with Some m => inl (seq ++ m) | None => inr tt end)).
  { intros x y k Hxy Hlen ->. rewrite (IH x y _ Hxy Hlen).
    destruct (merged x y); cbn; [by rewrite <- !app_assoc|done]. }
  clear IH. destruct ba' as [|[e i] ba'].
  { destruct (merged_end bc' (seq ++ m) ltac:(done)) as [-> He]. cbn. by rewrite He, <- app_assoc. }
  destruct bc' as [|[e' i'] bc'].
  { destruct (merged_end ((e, i) :: ba') (seq ++ m) ltac:(done)) as [Hm He].
    rewrite merged_comm, Hm by done. unfold merge_end. cbn [fmap option_fmap option_map]. by rewrite He, <- app_assoc. }
  cbn [length] in Hl. pose proof Hb' as Hb2. rewrite !befores_cons in Hb2.
  destruct (type i) eqn:Ti, (type i') eqn:Ti'; cbn [is_added is_common andb] in *; try done.
  - injection Hb2 as <- Hb2. rewrite bool_decide_true by done. rewrite <- (app_nil_r (seq ++ m)).
    apply Hgo; [done|cbn; lia|]. by rewrite merged_element, Ti, Ti' by congruence.
  - injection Hb2 as <- Hb2. rewrite <- (app_nil_r (seq ++ m)).
    apply Hgo; [done|cbn; lia|]. by rewrite merged_element, Ti, Ti' by congruence.
  - rewrite merged_comm by done. by rewrite merged_clash.
  - injection Hb2 as <- Hb2. rewrite <- (app_nil_r (seq ++ m)).
    apply Hgo; [done|cbn; lia|]. by rewrite merged_element, Ti, Ti' by congruence.
  - apply Hgo; [rewrite befores_cons, Ti; exact Hb2|cbn [length]; lia|].
    rewrite merged_comm by done. rewrite merged_add_one; [|done|by split; [|rewrite befores_cons, Ti]].
    by rewrite (merged_comm bc') by (rewrite befores_cons, Ti; done).
  - by rewrite merged_clash.
  - apply Hgo; [rewrite befores_cons, Ti'; exact Hb2|cbn [length]; lia|].
    rewrite merged_add_one; [done|done|]. by split; [|rewrite befores_cons, Ti'].
  - destruct (bool_decide_reflect (e = e')) as [<-|Hne].
    + apply Hgo; [done|lia|]. by rewrite merged_add_both, bool_decide_true.
    + by rewrite merged_add_both, bool_decide_false.
Qed.

(** *** A side that changed nothing *)

Lemma edits_none (l : script) : edits l = 0 -> Forall (fun e : sesElem => type (snd e) = SES_COMMON) l.
Proof.
  intros He. apply Forall_forall. intros [e i] Hin. apply list_elem_of_split in Hin as (l1 & l2 & ->).
  unfold edits, zlen in He. rewrite pick_app, length_app, pick_cons, length_app in He.
  destruct (type i) eqn:Ti; cbn in *; [lia|done|lia].
Qed.

Lemma readings_none (l : script) : edits l = 0 -> befores l = fst <$> l /\ afters l = fst <$> l.
Proof. intros He%edits_none. unfold befores, afters. by rewrite !(pick_all _ _ _ He). Qed.

(** Then the merge is what the other side made. *)
Lemma merged_unchanged ba bc : edits ba = 0 -> befores ba = befores bc -> merged ba bc = Some (afters bc).
Proof.
  intros He. apply edits_none in He. unfold afters. revert ba He.
  induction bc as [|[e i] bc IH]; intros ba He; rewrite ?befores_cons.
  - intros Hb. destruct He as [|[x j] ba Hj _]; [done|]. rewrite befores_cons in Hb. cbn in Hj. by rewrite Hj in Hb.
  - rewrite pick_cons. destruct (type i) eqn:Ti; cbn [is_added is_deleted negb app].
    1, 2: intros Hb; destruct He as [|[x j] ba Hj He]; [done|]; cbn in Hj; rewrite befores_cons, Hj in Hb;
      injection Hb as -> Hb; rewrite merged_element, Hj, Ti, (IH _ He Hb) by congruence; done.
    intros Hb. rewrite merged_comm by (by rewrite befores_cons, Ti).
    rewrite merged_add_one; [by rewrite merged_comm, (IH _ He Hb)|done|].
    destruct He as [|[x j] ba Hj _]; [done|]. cbn in Hj. by split.
Qed.

(** ** Properties *)

Lemma diff_composed (x y : list E) :
  exists d, compose (init x y false) = Some d /\ befores (ses_sequence (ses d)) = x /\
    afters (ses_sequence (ses d)) = y /\
    (editDistance d = 0 -> edits (ses_sequence (ses d)) = 0) /\ (x = y -> edits (ses_sequence (ses d)) = 0).
Proof.
  destruct (compose_rounds x y) as (d & Hc & Hb & Ha & _ & He & Hsame).
  pose proof (edits_nonneg (ses_sequence (ses d))). exists d. split_and!; [exact Hc|done..|lia|].
  intros Hxy. specialize (Hsame Hxy). lia.
Qed.

(** [merge] of the composed differences, the shortcuts for a side without changes included. *)
Lemma merge_spec (d : Diff3) :
  let ba := ses_sequence (ses (diff_ba d)) in
  let bc := ses_sequence (ses (diff_bc d)) in
  befores ba = B3 d -> afters ba = A3 d -> befores bc = B3 d -> afters bc = C3 d ->
  (editDistance (diff_ba d) = 0 -> edits ba = 0) -> (editDistance (diff_bc d) = 0 -> edits bc = 0) ->
  conflict d = false ->
  merge d = Some (match merged ba bc with
                  | Some s => (set_merged s false d, true)
                  | None => (set_merged (B3 d) true d, false)
                  end).
Proof.
  intros ba bc Hbb Haa Hbb' Hcc Hea Hec Hno. unfold merge. rewrite Hno.
  destruct (Z.eqb_spec (editDistance (diff_ba d)) 0) as [Ha%Hea|Ha].
  - rewrite (merged_unchanged ba bc Ha) by congruence.
    destruct (Z.eqb_spec (editDistance (diff_bc d)) 0) as [Hc%Hec|Hc]; [|by rewrite Hcc].
    apply readings_none in Hc as [H1 H2]. by rewrite H2, <- H1, Hbb'.
  - destruct (Z.eqb_spec (editDistance (diff_bc d)) 0) as [Hc%Hec|Hc].
    + rewrite merged_comm, (merged_unchanged bc ba Hc) by congruence. by rewrite Haa.
    + unfold merge_. fold ba bc. rewrite merge_loop_spec by (congruence || lia). cbn [mbind option_bind].
      destruct (merged ba bc); [by rewrite Hno|done].
Qed.

(** [C30] The merge of two sequences with a common ancestor, of any lengths: composing the differences and
    walking over them always ends. The result is the ancestor with the changes of both
    sides, where each element is kept that both keep, and at each place the additions of
    one side begin those of the other; or, exactly when no such sequence exists, a conflict
    is announced and the result is the ancestor. A side that changed nothing leaves the
    other as it is, and exchanging the sides changes nothing. *)
Theorem three_way_merge (a b c : list E) :
  exists d d' ok, compose3 (newDiff3 a b c) = Some d /\ merge d = Some (d', ok) /\
    (let ba := ses_sequence (ses (diff_ba d)) in
     let bc := ses_sequence (ses (diff_bc d)) in
     (befores ba = b /\ afters ba = a /\ befores bc = b /\ afters bc = c) /\
     match merged ba bc with
     | Some s => ok = true /\ isConflict d' = false /\ getMergedSequence d' = s
     | None => ok = false /\ isConflict d' = true /\ getMergedSequence d' = b
     end) /\
    (a = b -> ok = true /\ getMergedSequence d' = c) /\ (c = b -> ok = true /\ getMergedSequence d' = a) /\
    exists e e', compose3 (newDiff3 c b a) = Some e /\ merge e = Some (e', ok) /\
      getMergedSequence e' = getMergedSequence d' /\ isConflict e' = isConflict d'.
Proof.
  destruct (diff_composed b a) as (d1 & C1 & B1 & A1 & E1 & Z1).
  destruct (diff_composed b c) as (d2 & C2 & B2 & A2 & E2 & Z2).
  assert (Hcomp : forall x y dx dy, compose (init b x false) = Some dx -> compose (init b y false) = Some dy ->
    compose3 (newDiff3 x b y) = Some (mkDiff3 x b y [] dx dy false)).
  { intros x y dx dy Hx Hy. unfold compose3. cbn [newDiff3 diff_ba diff_bc]. by rewrite Hx, Hy. }
  set (d := mkDiff3 a b c [] d1 d2 false). set (e := mkDiff3 c b a [] d2 d1 false).
  pose proof (merge_spec d B1 A1 B2 A2 E1 E2 eq_refl) as Hd.
  pose proof (merge_spec e B2 A2 B1 A1 E2 E1 eq_refl) as He.
  cbn [d e diff_ba diff_bc B3] in Hd, He. rewrite merged_comm in He by congruence.
  set (ba := ses_sequence (ses d1)) in *. set (bc := ses_sequence (ses d2)) in *.
  assert (Hcd : compose3 (newDiff3 a b c) = Some d) by (by apply Hcomp).
  assert (Hce : compose3 (newDiff3 c b a) = Some e) by (by apply Hcomp).
  assert (Ha : a = b -> merged ba bc = Some c).
  { intros ->. rewrite <- A2. apply merged_unchanged; [by apply Z1|congruence]. }
  assert (Hc : c = b -> merged ba bc = Some a).
  { intros ->. rewrite merged_comm, <- A1 by congruence. apply merged_unchanged; [by apply Z2|congruence]. }
  exists d. destruct (merged ba bc) as [s|] eqn:Hm.
  - exists (set_merged s false d), true. split_and!; [done|done| | | |].
    + cbn [d diff_ba diff_bc]. fold ba bc. by rewrite Hm.
    + intros Hab. specialize (Ha Hab). by injection Ha as ->.
    + intros Hcb. specialize (Hc Hcb). by injection Hc as ->.
    + by exists e, (set_merged s false e).
  - exists (set_merged b true d), false. split_and!; [done|done| | | |].
    + cbn [d diff_ba diff_bc]. fold ba bc. by rewrite Hm.
    + intros Hab. by specialize (Ha Hab).
    + intros Hcb. by specialize (Hc Hcb).
    + by exists e, (set_merged b true e).
Qed.
End Diff3.

(** *** Concrete merges *)

Module Diff3Examples.
Definition merging (a b c : list Z) : option (list Z * bool) :=
  d ← compose3 (newDiff3 a b c); '(d, ok) ← merge d; Some (getMergedSequence d, ok).

Example both_change : merging [1; 2; 9; 3; 4] [1; 2; 3; 4] [1; 3; 4; 5] = Some ([1; 9; 3; 4; 5], true).
Proof. vm_compute. reflexivity. Qed.

Example add_against_delete : merging [1; 9; 2; 3] [1; 2; 3] [1; 3] = Some ([1; 2; 3], false).
Proof. vm_compute. reflexivity. Qed.
End Diff3Examples.
