(* ===== verification/UnifiedFormat.v ===== *)
(** * UnifiedFormat

    The hunks of dtl (Diff.hpp: [composeUnifiedHunks], [uniPatch]) and their
    printers (functors.hpp), and the printer of libws_diff/customPrinter.hpp. *)
From S2P Require Import Prelude CxxString Dtl DtlSearch DtlScript.
Local Open Scope Z_scope.

Definition DTL_SEPARATE_SIZE : Z := 3.
Definition DTL_CONTEXT_SIZE : Z := 3.

Section Hunks.
Context {E : Type} `{EqDecision E}.
#[local] Notation sesElem := (E * elemInfo)%type.
#[local] Notation script := (list sesElem).

(** [common[0]] and [common[1]] are [common0] and [common1]. *)
Record uniHunk : Type := mkHunk {
  hunk_a : Z;
  hunk_b : Z;
  hunk_c : Z;
  hunk_d : Z;
  hunk_common0 : script;
  hunk_change : script;
  hunk_common1 : script;
  hunk_inc_dec : Z
}.

(** The locals of [composeUnifiedHunks], and the hunks it appends to. *)
Record HunkState : Type := mkHunkState {
  hs_a : Z; hs_b : Z; hs_c : Z; hs_d : Z;
  common0 : script;
  common1 : script;
  change : script;
  adds : script;
  deletes : script;
  middle : Z;
  inc_dec_count : Z;
  isMiddle : bool;
  isAfter : bool;
  uniHunks : list uniHunk
}.

Definition is_nil {X} (l : list X) : bool := match l with [] => true | _ => false end.

(** The case SES_ADD of the loop; [last] is [l_cnt >= length]. *)
Definition on_add (it : sesElem) (last : bool) (s : HunkState) : HunkState :=
  {| hs_a := hs_a s; hs_b := hs_b s; hs_c := hs_c s; hs_d := hs_d s + 1;
     common0 := common0 s; common1 := common1 s;
     change := if last then change s ++ deletes s ++ (adds s ++ [it]) else change s;
     adds := adds s ++ [it]; deletes := deletes s; middle := 0;
     inc_dec_count := inc_dec_count s + 1; isMiddle := true; isAfter := last || isAfter s;
     uniHunks := uniHunks s |}.

Definition on_delete (it : sesElem) (last : bool) (s : HunkState) : HunkState :=
  {| hs_a := hs_a s; hs_b := hs_b s + 1; hs_c := hs_c s; hs_d := hs_d s;
     common0 := common0 s; common1 := common1 s;
     change := if last then change s ++ (deletes s ++ [it]) ++ adds s else change s;
     adds := adds s; deletes := deletes s ++ [it]; middle := 0;
     inc_dec_count := inc_dec_count s - 1; isMiddle := true; isAfter := last || isAfter s;
     uniHunks := uniHunks s |}.

(** A common element before any change: the last three are kept. *)
Definition lead (swapped : bool) (it : sesElem) (s : HunkState) : HunkState :=
  if is_nil (common1 s) && is_nil (adds s) && is_nil (deletes s) && is_nil (change s) then
    if zlen (common0 s) <? DTL_CONTEXT_SIZE then
      let fresh := (hs_a s =? 0) && (hs_c s =? 0) in
      let i := snd it in
      {| hs_a := if fresh then (if swapped then afterIdx i else beforeIdx i) else hs_a s; hs_b := hs_b s;
         hs_c := if fresh then (if swapped then beforeIdx i else afterIdx i) else hs_c s; hs_d := hs_d s;
         common0 := common0 s ++ [it]; common1 := common1 s; change := change s; adds := adds s;
         deletes := deletes s; middle := middle s; inc_dec_count := inc_dec_count s;
         isMiddle := isMiddle s; isAfter := isAfter s; uniHunks := uniHunks s |}
    else
      {| hs_a := hs_a s + 1; hs_b := hs_b s - 1; hs_c := hs_c s + 1; hs_d := hs_d s - 1;
         common0 := drop 1 (common0 s) ++ [it]; common1 := common1 s; change := change s; adds := adds s;
         deletes := deletes s; middle := middle s; inc_dec_count := inc_dec_count s;
         isMiddle := isMiddle s; isAfter := isAfter s; uniHunks := uniHunks s |}
  else s.

(** A common element after a change. *)
Definition follow (it : sesElem) (last : bool) (s : HunkState) : HunkState :=
  if isMiddle s && negb (isAfter s) then
    {| hs_a := hs_a s; hs_b := hs_b s; hs_c := hs_c s; hs_d := hs_d s;
       common0 := common0 s; common1 := common1 s;
       change := change s ++ deletes s ++ adds s ++ [it]; adds := []; deletes := [];
       middle := middle s + 1; inc_dec_count := inc_dec_count s; isMiddle := isMiddle s;
       isAfter := (DTL_SEPARATE_SIZE <=? middle s + 1) || last; uniHunks := uniHunks s |}
  else s.

Definition on_common (swapped : bool) (it : sesElem) (last : bool) (s : HunkState) : HunkState :=
  follow it last (lead swapped it
    {| hs_a := hs_a s; hs_b := hs_b s + 1; hs_c := hs_c s; hs_d := hs_d s + 1;
       common0 := common0 s; common1 := common1 s; change := change s; adds := adds s;
       deletes := deletes s; middle := middle s; inc_dec_count := inc_dec_count s;
       isMiddle := isMiddle s; isAfter := isAfter s; uniHunks := uniHunks s |}).

(** The common elements among the next three, the current one included. *)
Definition commons_ahead (cit : script) : Z :=
  zlen (List.filter (fun e : sesElem => is_common (type (snd e))) (take (Z.to_nat DTL_SEPARATE_SIZE) cit)).

Definition close_hunk (swapped : bool) (s : HunkState) : HunkState :=
  let extra := zlen (common0 s) - DTL_SEPARATE_SIZE in
  let long := DTL_SEPARATE_SIZE <=? zlen (common0 s) in
  let common0 := if long then drop (Z.to_nat extra) (common0 s) else common0 s in
  let a := if long then hs_a s + extra else hs_a s in
  let c := if long then hs_c s + extra else hs_c s in
  let a := if a =? 0 then a + 1 else a in
  let c := if c =? 0 then c + 1 else c in
  {| hs_a := 0; hs_b := 0; hs_c := 0; hs_d := 0; common0 := []; common1 := []; change := [];
     adds := []; deletes := []; middle := 0; inc_dec_count := 0; isMiddle := false; isAfter := false;
     uniHunks := uniHunks s ++
       [{| hunk_a := if swapped then c else a; hunk_b := hs_b s; hunk_c := if swapped then a else c;
           hunk_d := hs_d s; hunk_common0 := common0; hunk_change := change s;
           hunk_common1 := common1 s; hunk_inc_dec := inc_dec_count s |}] |}.

(** The end of an iteration; [cit] are the elements from the current one on. *)
Definition emit (swapped : bool) (cit : script) (last : bool) (s : HunkState) : HunkState :=
  if isAfter s && negb (is_nil (change s)) then
    if (commons_ahead cit <? DTL_SEPARATE_SIZE) && negb last then
      {| hs_a := hs_a s; hs_b := hs_b s; hs_c := hs_c s; hs_d := hs_d s; common0 := common0 s;
         common1 := common1 s; change := change s; adds := adds s; deletes := deletes s; middle := 0;
         inc_dec_count := inc_dec_count s; isMiddle := isMiddle s; isAfter := false;
         uniHunks := uniHunks s |}
    else close_hunk swapped s
  else s.

(** The loop from the element number [l_cnt] of [length]. *)
Fixpoint hunk_loop (swapped : bool) (l_cnt length : Z) (l : script) (s : HunkState) : HunkState :=
  match l with
  | [] => s
  | it :: rest =>
      let last := length <=? l_cnt in
      let s := match type (snd it) with
               | SES_ADD => on_add it last s
               | SES_DELETE => on_delete it last s
               | SES_COMMON => on_common swapped it last s
               end in
      hunk_loop swapped (l_cnt + 1) length rest (emit swapped l last s)
  end.

Definition newHunkState (hunks : list uniHunk) : HunkState :=
  mkHunkState 0 0 0 0 [] [] [] [] [] 0 0 false false hunks.

Definition composeUnifiedHunks (d : Diff (E := E)) (hunks : list uniHunk) : list uniHunk :=
  let ses_v := ses_sequence (ses d) in
  uniHunks (hunk_loop (swapped d) 1 (zlen ses_v) ses_v (newHunkState hunks)).

(** ** Patching with the hunks *)

(** [++lstIt], [n] times. *)
Fixpoint forward (n : nat) (front back : list E) : option (list E * list E) :=
  match n, back with
  | O, _ => Some (front, back)
  | S n, e :: back => forward n (front ++ [e]) back
  | S _, [] => None
  end.

Fixpoint apply_shunk (shunk : script) (front back : list E) : list E * list E :=
  match shunk with
  | [] => (front, back)
  | (e, i) :: shunk =>
      match type i, back with
      | SES_ADD, _ => apply_shunk shunk (front ++ [e]) back
      | SES_DELETE, _ :: back => apply_shunk shunk front back
      | SES_COMMON, x :: back => apply_shunk shunk (front ++ [x]) back
      | _, [] => apply_shunk shunk front back
      end
  end.

(** The hunks are updated as the code does, and the list is patched. *)
Fixpoint uniPatch_loop (hunks : list uniHunk) (inc_dec_total gap : Z) (front back : list E) :
    option (list uniHunk * list E) :=
  match hunks with
  | [] => Some ([], front ++ back)
  | h :: hunks =>
      let h := mkHunk (hunk_a h + inc_dec_total) (hunk_b h) (hunk_c h) (hunk_d h) (hunk_common0 h)
                 (hunk_change h) (hunk_common1 h) (hunk_inc_dec h) in
      '(front, back) ← forward (Z.to_nat (hunk_a h - gap)) front back;
      let '(front, back) :=
        apply_shunk (hunk_common0 h ++ hunk_change h ++ hunk_common1 h) front back in
      '(hunks, seq) ← uniPatch_loop hunks (inc_dec_total + hunk_inc_dec h)
                        (hunk_a h + hunk_b h + hunk_inc_dec h) front back;
      Some (h :: hunks, seq)
  end.

Definition uniPatch (hunks : list uniHunk) (seq : list E) : option (list uniHunk * list E) :=
  uniPatch_loop hunks 0 1 [] seq.

(** ** Printers

    [out] is [operator<<] of an element. *)
Context (out : E -> string).

Definition SES_MARK (t : edit_t) : string :=
  match t with SES_DELETE => "-" | SES_COMMON => " " | SES_ADD => "+" end.

Definition CommonPrinter (se : sesElem) : string := SES_MARK SES_COMMON +:+ out (fst se) +:+ endl.
Definition ChangePrinter (se : sesElem) : string := SES_MARK (type (snd se)) +:+ out (fst se) +:+ endl.

Definition hunk_header (h : uniHunk) : string :=
  "@@" +:+ " -" +:+ string_of_Z (hunk_a h) +:+ "," +:+ string_of_Z (hunk_b h)
  +:+ " +" +:+ string_of_Z (hunk_c h) +:+ "," +:+ string_of_Z (hunk_d h) +:+ " @@" +:+ endl.

Definition UniHunkPrinter (h : uniHunk) : string :=
  hunk_header h +:+ str_concat (CommonPrinter <$> hunk_common0 h)
  +:+ str_concat (ChangePrinter <$> hunk_change h) +:+ str_concat (CommonPrinter <$> hunk_common1 h).

Definition printSES (d : Diff (E := E)) : string := str_concat (ChangePrinter <$> ses_sequence (ses d)).
Definition printUnifiedFormat (hunks : list uniHunk) : string := str_concat (UniHunkPrinter <$> hunks).

(** customPrinter.hpp: the mark is printed when the type changes. Its state starts
    as the type of common elements, and [for_each] works on a copy of it. *)
Fixpoint customPrinter (prevType : edit_t) (l : script) : string :=
  match l with
  | [] => EmptyString
  | (e, i) :: l =>
      (if bool_decide (prevType = type i) then out e else endl +:+ SES_MARK (type i) +:+ out e)
      +:+ customPrinter (type i) l
  end.

Definition customHunkPrinter (h : uniHunk) : string :=
  hunk_header h +:+ customPrinter SES_COMMON (hunk_common0 h)
  +:+ customPrinter SES_COMMON (hunk_change h) +:+ customPrinter SES_COMMON (hunk_common1 h).
End Hunks.

(** ** What the hunks say *)
Section HunksTheory.
Context {E : Type} `{EqDecision E}.
#[local] Notation sesElem := (E * elemInfo)%type.
#[local] Notation script := (list sesElem).

Definition all_common (l : script) : Prop := Forall (fun e : sesElem => type (snd e) = SES_COMMON) l.

(** The same edits and the same two readings: deletions may come before additions. *)
Record rearranged (body text : script) : Prop := {
  same_befores : befores text = befores body;
  same_afters : afters text = afters body;
  same_adds : pick is_added text = pick is_added body;
  same_deletes : pick is_deleted text = pick is_deleted body
}.

Definition hunk_text (h : uniHunk (E := E)) : script := hunk_common0 h ++ hunk_change h ++ hunk_common1 h.

(** The hunks cover a script: between them are common elements only; the text of each
    is its part of the script, it changes something, and its numbers are the lines
    where it begins and the numbers of lines it reads and writes. *)
Inductive covered : script -> list (uniHunk (E := E)) -> Prop :=
  | covered_nil : covered [] []
  | covered_snoc s hs gap body h :
      covered s hs -> all_common gap -> rearranged body (hunk_text h) -> 0 < edits (hunk_change h) ->
      hunk_a h = zlen (befores (s ++ gap)) + 1 -> hunk_c h = zlen (afters (s ++ gap)) + 1 ->
      hunk_b h = zlen (befores body) -> hunk_d h = zlen (afters body) ->
      hunk_inc_dec h = zlen (afters body) - zlen (befores body) ->
      covered (s ++ gap ++ body) (hs ++ [h]).

Lemma covered_none s : covered s [] -> s = [].
Proof. intros Hc. inversion Hc as [|? hs ? ? h]; [done|]. by destruct hs. Qed.

Lemma zlen_nil {X} (l : list X) : zlen l = 0 -> l = [].
Proof. destruct l; [done|]. unfold zlen. cbn. lia. Qed.

Lemma edits_app l m : edits (l ++ m) = edits (E := E) l + edits m.
Proof. unfold edits. by rewrite pick_app, zlen_app. Qed.

Lemma rearranged_refl l : rearranged l l.
Proof. by split. Qed.

Lemma rearranged_snoc body text e : rearranged body text -> rearranged (body ++ [e]) (text ++ [e]).
Proof.
  intros [Hb Ha Hd Hl]. unfold befores, afters in *. split; unfold befores, afters; rewrite !pick_app; congruence.
Qed.

(** A deletion goes before the additions that wait. *)
Lemma rearranged_delete body u adds e i :
  rearranged body (u ++ adds) -> type i = SES_DELETE ->
  Forall (fun x : sesElem => type (snd x) = SES_ADD) adds ->
  rearranged (body ++ [(e, i)]) (u ++ (e, i) :: adds).
Proof.
  intros [Hb Ha Hd Hl] Hi Hadds. unfold befores, afters in *. rewrite pick_app, (pick_all _ _ _ Hadds) in Hb. rewrite pick_app, (pick_all _ _ _ Hadds) in Ha.
  rewrite pick_app, (pick_all _ _ _ Hadds) in Hd. rewrite pick_app, (pick_all _ _ _ Hadds) in Hl.
  split; unfold befores, afters; rewrite !pick_app, pick_one, pick_cons, (pick_all _ _ _ Hadds), Hi; cbn in *;
    rewrite ?app_nil_r in *; congruence.
Qed.

(** ** The loop *)
Section Loop.
Context (sw : bool).

Definition next_common (l : script) : Prop :=
  match l with [] => True | e :: _ => type (snd e) = SES_COMMON end.

Definition before_line (st : HunkState (E := E)) : Z := if sw then hs_c st else hs_a st.
Definition after_line (st : HunkState (E := E)) : Z := if sw then hs_a st else hs_c st.

(** The hunk in preparation: [body] is what it holds of the script, after the hunks
    made, which cover [s], and the common elements [gap] that are dropped. *)
Record Held (s gap body text : script) (st : HunkState (E := E)) : Prop := {
  hd_covered : covered s (uniHunks st);
  hd_gap : all_common gap;
  hd_common1 : common1 st = [];
  hd_text : rearranged body text;
  hd_short : zlen (common0 st) <= 3;
  hd_b : hs_b st = zlen (befores body);
  hd_d : hs_d st = zlen (afters body);
  hd_inc : inc_dec_count st = zlen (afters body) - zlen (befores body);
  hd_lines : common0 st <> [] ->
    before_line st = zlen (befores (s ++ gap)) + 1 /\ after_line st = zlen (afters (s ++ gap)) + 1;
  hd_no_lines : common0 st = [] -> hs_a st = 0 /\ hs_c st = 0 /\ gap = []
}.

Definition waiting (st : HunkState (E := E)) : script := change st ++ deletes st ++ adds st.

Record Open (suffix s gap body : script) (st : HunkState (E := E)) : Prop := {
  op_held : Held s gap body (common0 st ++ waiting st) st;
  op_after : isAfter st = false;
  op_leading : all_common (common0 st);
  op_adds : Forall (fun x : sesElem => type (snd x) = SES_ADD) (adds st);
  op_deletes : Forall (fun x : sesElem => type (snd x) = SES_DELETE) (deletes st);
  op_idle : isMiddle st = false -> waiting st = [] /\ body = common0 st;
  op_busy : isMiddle st = true -> 0 < edits (waiting st);
  op_first : common0 st = [] -> s = [] \/ body = [] /\ next_common suffix;
  op_last : suffix = [] -> isMiddle st = false
}.

(** A hunk is made. *)
Lemma close_spec rest s gap body st :
  Held s gap body (common0 st ++ change st) st -> 0 < edits (change st) ->
  (common0 st = [] -> s = []) -> next_common rest ->
  Open rest (s ++ gap ++ body) [] [] (close_hunk sw st).
Proof.
  intros [Hcov Hgap Hc1 Htext Hshort Hb Hd Hinc Hlines Hno] Hedit Hfirst Hrest.
  set (h := mkHunk (zlen (befores (s ++ gap)) + 1) (hs_b st) (zlen (afters (s ++ gap)) + 1) (hs_d st)
              (common0 st) (change st) (common1 st) (inc_dec_count st)).
  assert (Hclose : close_hunk sw st
    = mkHunkState 0 0 0 0 [] [] [] [] [] 0 0 false false (uniHunks st ++ [h])).
  { unfold close_hunk, DTL_SEPARATE_SIZE.
    assert (Hdrop : (if 3 <=? zlen (common0 st) then drop (Z.to_nat (zlen (common0 st) - 3)) (common0 st)
                     else common0 st) = common0 st).
    { destruct (Z.leb_spec 3 (zlen (common0 st))); [|done].
      by replace (Z.to_nat (zlen (common0 st) - 3)) with O by lia. }
    assert (Hsame : forall z, (if 3 <=? zlen (common0 st) then z + (zlen (common0 st) - 3) else z) = z).
    { intros z. destruct (Z.leb_spec 3 (zlen (common0 st))); lia. }
    rewrite Hdrop, !Hsame. unfold h. do 4 f_equal.
    all: destruct (decide (common0 st = [])) as [He|He];
      [destruct (Hno He) as (-> & -> & ->); rewrite (Hfirst He); by destruct sw|].
    all: destruct (Hlines He) as [Hbl Hal]; unfold before_line, after_line in *.
    all: pose proof (zlen_nonneg (befores (s ++ gap))); pose proof (zlen_nonneg (afters (s ++ gap))).
    all: destruct sw; rewrite ?Hbl, ?Hal; destruct (Z.eqb_spec (zlen (befores (s ++ gap)) + 1) 0),
      (Z.eqb_spec (zlen (afters (s ++ gap)) + 1) 0); lia. }
  rewrite Hclose. split; cbn [common0 isAfter isMiddle adds deletes uniHunks]; try done; try by constructor.
  - split; cbn; try done; try by constructor.
    apply covered_snoc; try done. unfold hunk_text, h. cbn. by rewrite Hc1, app_nil_r.
Qed.

Lemma zlen_befores_snoc l e i :
  zlen (befores (E := E) (l ++ [(e, i)])) = zlen (befores l) + (if is_added (type i) then 0 else 1).
Proof. unfold befores. rewrite pick_snoc, zlen_app. by destruct (type i). Qed.

Lemma zlen_afters_snoc l e i :
  zlen (afters (E := E) (l ++ [(e, i)])) = zlen (afters l) + (if is_deleted (type i) then 0 else 1).
Proof. unfold afters. rewrite pick_snoc, zlen_app. by destruct (type i). Qed.

Lemma edits_cons (e : E) i l : edits ((e, i) :: l) = (if is_common (type i) then 0 else 1) + edits l.
Proof. unfold edits. rewrite pick_cons, zlen_app. by destruct (type i). Qed.

Ltac same_held H :=
  destruct H as [Hcov Hgap Hc1 Htext Hshort Hb Hd Hinc Hlines Hno];
  split; cbn; try done; try (rewrite ?zlen_befores_snoc, ?zlen_afters_snoc; cbn; lia).

(** An added or deleted element waits for the next common one. *)
Lemma held_add last s gap body st e i :
  Held s gap body (common0 st ++ waiting st) st -> type i = SES_ADD ->
  Held s gap (body ++ [(e, i)]) (common0 st ++ waiting st ++ [(e, i)]) (on_add (e, i) last st).
Proof.
  intros H Hi. same_held H.
  - rewrite app_assoc. by apply rearranged_snoc.
  - rewrite zlen_befores_snoc, Hi. cbn. lia.
  - rewrite zlen_afters_snoc, Hi. cbn. lia.
  - rewrite zlen_befores_snoc, zlen_afters_snoc, Hi. cbn. lia.
Qed.

Lemma held_delete last s gap body st e i :
  Held s gap body (common0 st ++ waiting st) st -> type i = SES_DELETE ->
  Forall (fun x : sesElem => type (snd x) = SES_ADD) (adds st) ->
  Held s gap (body ++ [(e, i)]) (common0 st ++ change st ++ deletes st ++ (e, i) :: adds st) (on_delete (e, i) last st).
Proof.
  intros H Hi Hadds. same_held H.
  - rewrite !app_assoc. apply rearranged_delete; [|done|done]. unfold waiting in Htext. by rewrite !app_assoc in Htext.
  - rewrite zlen_befores_snoc, Hi. cbn. lia.
  - rewrite zlen_afters_snoc, Hi. cbn. lia.
  - rewrite zlen_befores_snoc, zlen_afters_snoc, Hi. cbn. lia.
Qed.

(** What the loop does with an element. *)
Definition treat (it : sesElem) (last : bool) (st : HunkState (E := E)) : HunkState :=
  match type (snd it) with
  | SES_ADD => on_add it last st
  | SES_DELETE => on_delete it last st
  | SES_COMMON => on_common sw it last st
  end.

Definition step (it : sesElem) (rest : script) (last : bool) (st : HunkState (E := E)) : HunkState :=
  emit sw (it :: rest) last (treat it last st).

Lemma emit_waits (cit : script) last st : isAfter st = false -> emit sw cit last st = st.
Proof. intros Ha. unfold emit. by rewrite Ha. Qed.

Lemma edits_not_nil (l : script) : 0 < edits l -> is_nil l = false.
Proof. by destruct l. Qed.

Lemma emit_closes (cit : script) st :
  isAfter st = true -> 0 < edits (change st) -> emit sw cit true st = close_hunk sw st.
Proof. intros Ha Hc. unfold emit. by rewrite Ha, (edits_not_nil _ Hc), andb_false_r. Qed.

Lemma step_change e i rest (last : bool) s gap body st :
  (last = true <-> rest = []) -> type i <> SES_COMMON -> Open ((e, i) :: rest) s gap body st ->
  exists s' gap' body', s' ++ gap' ++ body' = (s ++ gap ++ body) ++ [(e, i)] /\
    Open rest s' gap' body' (step (e, i) rest last st).
Proof.
  intros Hlast Hi [Hheld Hafter Hlead Hadds Hdels Hidle Hbusy Hfirst _].
  assert (Hs : common0 st = [] -> s = []).
  { intros He. destruct (Hfirst He) as [->|[_ Hn]]; [done|]. cbn in Hn. by rewrite Hn in Hi. }
  set (st' := treat (e, i) last st).
  assert (Hst : Held s gap (body ++ [(e, i)]) (common0 st' ++ change st ++ deletes st' ++ adds st') st' /\
    common0 st' = common0 st /\ 0 < edits (change st ++ deletes st' ++ adds st') /\ isMiddle st' = true /\
    Forall (fun x : sesElem => type (snd x) = SES_ADD) (adds st') /\
    Forall (fun x : sesElem => type (snd x) = SES_DELETE) (deletes st') /\
    isAfter st' = last /\ change st' = if last then change st ++ deletes st' ++ adds st' else change st).
  { unfold st', treat. cbn [snd]. destruct (type i) eqn:Ht; [| done |].
    - split_and!; cbn [common0 change adds deletes isMiddle isAfter on_delete]; try done.
      + rewrite <- !app_assoc. cbn [app]. by apply held_delete.
      + rewrite !edits_app, edits_cons, Ht. cbn. pose proof (edits_nonneg (change st)).
        pose proof (edits_nonneg (deletes st)). pose proof (edits_nonneg (adds st)). change (edits (E := E) []) with 0. lia.
      + apply Forall_app. by split; [|constructor].
      + by rewrite Hafter, orb_false_r.
    - split_and!; cbn [common0 change adds deletes isMiddle isAfter on_add]; try done.
      + pose proof (held_add last _ _ _ _ e i Hheld Ht) as Hh. unfold waiting in Hh. by rewrite <- !app_assoc in Hh.
      + rewrite !edits_app, edits_cons, Ht. cbn. pose proof (edits_nonneg (change st)).
        pose proof (edits_nonneg (deletes st)). pose proof (edits_nonneg (adds st)). change (edits (E := E) []) with 0. lia.
      + apply Forall_app. by split; [|constructor].
      + by rewrite Hafter, orb_false_r. }
  destruct Hst as (HH & Hc0 & He & Hm & Ha' & Hd' & Haft & Hch). unfold step. fold st'. destruct last.
  - rewrite (proj1 Hlast eq_refl) in *. rewrite emit_closes by (rewrite ?Hch; done).
    exists (s ++ gap ++ body ++ [(e, i)]), [], []. split; [by rewrite !app_nil_r, <- !app_assoc|].
    apply close_spec; [by rewrite Hch|by rewrite Hch|by rewrite Hc0|done].
  - rewrite emit_waits by done. exists s, gap, (body ++ [(e, i)]). split; [by rewrite <- !app_assoc|].
    split; try done.
    + unfold waiting. by rewrite Hch.
    + by rewrite Hc0.
    + by rewrite Hm.
    + intros _. unfold waiting. by rewrite Hch.
    + rewrite Hc0. intros Hn. left. by apply Hs.
    + intros Hr. by apply Hlast in Hr.
Qed.

(** The state after [++b; ++d]. *)
Definition counted (st : HunkState (E := E)) : HunkState :=
  {| hs_a := hs_a st; hs_b := hs_b st + 1; hs_c := hs_c st; hs_d := hs_d st + 1;
     common0 := common0 st; common1 := common1 st; change := change st; adds := adds st;
     deletes := deletes st; middle := middle st; inc_dec_count := inc_dec_count st;
     isMiddle := isMiddle st; isAfter := isAfter st; uniHunks := uniHunks st |}.

Lemma zlen_cons {X} (x : X) l : zlen (x :: l) = zlen l + 1.
Proof. unfold zlen. cbn [length]. lia. Qed.

Lemma zlen_snoc {X} (x : X) l : zlen (l ++ [x]) = zlen l + 1.
Proof. unfold zlen. rewrite length_app. cbn [length]. lia. Qed.

Lemma readings_common (l : script) : all_common l -> befores l = fst <$> l /\ afters l = fst <$> l.
Proof. intros Hl. unfold befores, afters. by rewrite !(pick_all _ _ _ Hl). Qed.

Lemma all_common_snoc l e i : all_common l -> type i = SES_COMMON -> all_common (l ++ [(e, i)]).
Proof. intros Hl Hi. apply Forall_app. by split; [|constructor]. Qed.

Lemma waiting_nil st : waiting st = [] -> change st = [] /\ deletes st = [] /\ adds st = [].
Proof. unfold waiting. intros [-> [-> ->]%app_nil]%app_nil. done. Qed.

Lemma zlen_common_cons x i (l : script) :
  type i = SES_COMMON ->
  zlen (befores ((x, i) :: l)) = zlen (befores l) + 1 /\ zlen (afters ((x, i) :: l)) = zlen (afters l) + 1.
Proof. intros Hi. unfold befores, afters. by rewrite !pick_cons, Hi, !zlen_app, !(Z.add_comm 1). Qed.

(** A common element before any change of the hunk. *)
Lemma step_leading e i rest last s gap body st :
  type i = SES_COMMON -> isMiddle st = false -> Open ((e, i) :: rest) s gap body st ->
  beforeIdx i = zlen (befores (s ++ gap ++ body)) + 1 -> afterIdx i = zlen (afters (s ++ gap ++ body)) + 1 ->
  exists gap' body', gap' ++ body' = (gap ++ body) ++ [(e, i)] /\
    Open rest s gap' body' (step (e, i) rest last st).
Proof.
  intros Hi Hm [[Hcov Hgap Hc1 Htext Hshort Hb Hd Hinc Hlines Hno] Hafter Hlead Hadds Hdels Hidle _ Hfirst _] Hbi Hai.
  destruct (Hidle Hm) as [Hw ->]. destruct (waiting_nil _ Hw) as (Hch & Hde & Had).
  destruct (readings_common _ Hlead) as [Hcb Hca].
  unfold step, treat. cbn [snd]. rewrite Hi. unfold on_common. fold (counted st).
  assert (Hfollow : forall x, isMiddle x = false -> follow (e, i) last x = x) by (intros x Hx; unfold follow; by rewrite Hx).
  unfold lead. cbn [counted common1 adds deletes change common0]. rewrite Hc1, Hch, Hde, Had. cbn [is_nil andb].
  unfold DTL_CONTEXT_SIZE. destruct (Z.ltb_spec (zlen (common0 st)) 3) as [Hlt|Hge].
  - rewrite Hfollow, emit_waits by done. exists gap, (common0 st ++ [(e, i)]). split; [by rewrite app_assoc|].
    assert (Hl : forall n, zlen (common0 st ++ [n]) <= 3) by (intros n; rewrite zlen_snoc; lia).
    split; cbn [common0 isAfter isMiddle adds deletes counted]; try done; try (by intros; congruence).
    + split; cbn; try done; rewrite ?zlen_befores_snoc, ?zlen_afters_snoc, ?Hi; cbn; try lia.
      * unfold waiting. cbn. rewrite app_nil_r. apply rearranged_refl.
      * intros _. unfold before_line, after_line. cbn.
        destruct (decide (common0 st = [])) as [He|He].
        -- destruct (Hno He) as (-> & -> & ->). rewrite He, !app_nil_r in Hbi, Hai. rewrite app_nil_r.
           cbn. destruct sw; lia.
        -- destruct (Hlines He) as [Hbl Hal]. unfold before_line, after_line in *.
           pose proof (zlen_nonneg (befores (s ++ gap))). pose proof (zlen_nonneg (afters (s ++ gap))).
           destruct (Z.eqb_spec (hs_a st) 0), (Z.eqb_spec (hs_c st) 0); cbn; destruct sw; lia.
      * intros Hn. by apply app_nil in Hn as [_ ?].
    + by apply all_common_snoc.
    + intros Hn. by apply app_nil in Hn as [_ ?].
  - destruct (common0 st) as [|[x j] c0] eqn:Ec0; [by unfold zlen in Hge|].
    apply Forall_cons in Hlead as [Hj Hlead]. cbn in Hj.
    rewrite Hfollow, emit_waits by done. exists (gap ++ [(x, j)]), (c0 ++ [(e, i)]).
    split; [by rewrite <- !app_assoc|]. rewrite zlen_cons in *. change (drop 1 ((x, j) :: c0)) with c0.
    destruct (zlen_common_cons x j c0 Hj) as [Hc0b Hc0a].
    pose proof (eq_trans Hb Hc0b) as Hb'. pose proof (eq_trans Hd Hc0a) as Hd'.
    assert (Hinc' : inc_dec_count st = zlen (afters c0) - zlen (befores c0)).
    { etrans; [exact Hinc|]. etrans; [exact (f_equal2 Z.sub Hc0a Hc0b)|]. lia. }
    split; cbn [common0 isAfter isMiddle adds deletes counted]; try done; try (by intros; congruence).
    + split; cbn; try done; rewrite ?zlen_befores_snoc, ?zlen_afters_snoc, ?Hi; cbn; try lia.
      * by apply all_common_snoc.
      * unfold waiting. cbn. rewrite app_nil_r. apply rearranged_refl.
      * rewrite zlen_snoc. lia.
      * intros _. unfold before_line, after_line. cbn. rewrite app_assoc, zlen_befores_snoc, zlen_afters_snoc, Hj. cbn.
        destruct (Hlines ltac:(done)) as [Hbl Hal]. unfold before_line, after_line in *. destruct sw; lia.
      * intros Hn. by apply app_nil in Hn as [_ ?].
    + by apply all_common_snoc.
    + intros Hn. by apply app_nil in Hn as [_ ?].
Qed.

Lemma lead_after_change it st : 0 < edits (waiting st) -> lead sw it st = st.
Proof.
  intros He. unfold lead. destruct (is_nil (common1 st)); [|done]. cbn [andb].
  destruct (change st) eqn:Hc, (deletes st) eqn:Hd, (adds st) eqn:Ha; cbn [is_nil andb]; try done.
  unfold waiting in He. by rewrite Hc, Hd, Ha in He.
Qed.

Lemma three_ahead (cit : script) :
  DTL_SEPARATE_SIZE <= commons_ahead cit -> match cit with [] => True | _ :: rest => next_common rest end.
Proof.
  unfold commons_ahead, DTL_SEPARATE_SIZE. destruct cit as [|x [|y rest]]; [done|done|].
  set (f := fun e : sesElem => is_common (type (snd e))). change (Z.to_nat 3) with 3%nat. cbn [take List.filter next_common].
  assert (Hle : (length (List.filter f (take 1 rest)) <= 1)%nat).
  { etrans; [apply filter_length_le|]. rewrite length_take. lia. }
  assert (Hone : forall l, zlen (if f x then x :: l else l) <= zlen l + 1) by (intros l; destruct (f x); rewrite ?zlen_cons; lia).
  destruct (f y) eqn:Hy; [by unfold f in Hy; destruct (type (snd y))|].
  pose proof (Hone (List.filter f (take 1 rest))). unfold zlen in *. lia.
Qed.

(** A hunk that holds a change is not empty. *)
Lemma changed_body s gap body st :
  Held s gap body (common0 st ++ waiting st) st -> 0 < edits (waiting st) -> body <> [].
Proof.
  intros Hheld Hbusy ->. pose proof (hd_text _ _ _ _ _ Hheld) as [_ _ Had Hde].
  assert (Hz : edits (common0 st ++ waiting st) = 0).
  { rewrite (edits_balance false). unfold left_out, second_of, first_of. rewrite Hde.
    rewrite (same_befores _ _ (hd_text _ _ _ _ _ Hheld)), (same_afters _ _ (hd_text _ _ _ _ _ Hheld)). done. }
  rewrite edits_app in Hz. pose proof (edits_nonneg (common0 st)). lia.
Qed.

(** A common element after a change of the hunk. *)
Lemma step_following e i rest (last : bool) s gap body st :
  (last = true <-> rest = []) -> type i = SES_COMMON -> isMiddle st = true -> Open ((e, i) :: rest) s gap body st ->
  exists s' gap' body', s' ++ gap' ++ body' = (s ++ gap ++ body) ++ [(e, i)] /\
    Open rest s' gap' body' (step (e, i) rest last st).
Proof.
  intros Hlast Hi Hm [Hheld Hafter Hlead Hadds Hdels _ Hbusy Hfirst _]. specialize (Hbusy Hm).
  assert (Hs : common0 st = [] -> s = [] \/ body = []) by (intros He; destruct (Hfirst He) as [?|[? _]]; auto).
  set (st' := treat (e, i) last st).
  assert (Hst : Held s gap (body ++ [(e, i)]) (common0 st ++ change st') st' /\ common0 st' = common0 st /\
    0 < edits (change st') /\ adds st' = [] /\ deletes st' = [] /\ isMiddle st' = true /\
    isAfter st' = (DTL_SEPARATE_SIZE <=? middle st + 1) || last).
  { unfold st', treat. cbn [snd]. rewrite Hi. unfold on_common. fold (counted st).
    rewrite lead_after_change by done. unfold follow. cbn [counted isMiddle isAfter]. rewrite Hm, Hafter. cbn [andb negb].
    split_and!; try done.
    - same_held Hheld.
      + rewrite !app_assoc. unfold waiting in Htext. rewrite !app_assoc in Htext. by apply rearranged_snoc.
      + rewrite zlen_befores_snoc, Hi. cbn. lia.
      + rewrite zlen_afters_snoc, Hi. cbn. lia.
      + rewrite zlen_befores_snoc, zlen_afters_snoc, Hi. cbn. lia.
    - cbn [change counted deletes adds]. unfold waiting in Hbusy. rewrite !edits_app in *. pose proof (edits_nonneg [(e, i)]). lia. }
  destruct Hst as (HH & Hc0 & He & Ha' & Hd' & Hm' & Haft).
  pose proof (changed_body _ _ _ _ Hheld Hbusy) as Hbody.
  assert (Hs' : common0 st' = [] -> s = []) by (rewrite Hc0; intros Hn; by destruct (Hs Hn)).
  assert (Hopen : rest <> [] -> forall st'', Held s gap (body ++ [(e, i)]) (common0 st' ++ change st') st'' ->
    common0 st'' = common0 st' -> change st'' = change st' -> adds st'' = [] -> deletes st'' = [] ->
    isMiddle st'' = true -> isAfter st'' = false ->
    exists s' gap' body', s' ++ gap' ++ body' = (s ++ gap ++ body) ++ [(e, i)] /\ Open rest s' gap' body' st'').
  { intros Hrest st'' HH'' Hc'' Hch'' Ha'' Hd'' Hm'' Haf''. exists s, gap, (body ++ [(e, i)]).
    split; [by rewrite <- !app_assoc|].
    assert (Hw : waiting st'' = change st') by (unfold waiting; by rewrite Hch'', Ha'', Hd'', !app_nil_r).
    split; rewrite ?Hw, ?Hc'', ?Ha'', ?Hd'', ?Hm''; try done; try by constructor.
    - by rewrite Hc0.
    - intros Hn. left. by apply Hs'. }
  unfold step. fold st'. unfold emit. rewrite (edits_not_nil _ He), andb_true_r.
  destruct (isAfter st') eqn:Hia.
  - destruct ((commons_ahead _ <? DTL_SEPARATE_SIZE) && negb last) eqn:Hgo.
    + apply andb_true_iff in Hgo as [_ Hl%negb_true_iff]. apply Hopen; try done.
      * intros Hr. apply Hlast in Hr. congruence.
      * rewrite <- Hc0 in HH. destruct HH. by split.
    + exists (s ++ gap ++ body ++ [(e, i)]), [], []. split; [by rewrite !app_nil_r, <- !app_assoc|].
      apply close_spec; [by rewrite Hc0|done|done|].
      apply andb_false_iff in Hgo as [Hgo%Z.ltb_ge|Hl%negb_false_iff]; [by apply three_ahead in Hgo|].
      by rewrite (proj1 Hlast Hl).
  - apply Hopen; try done.
    + intros Hr. apply Hlast in Hr. rewrite Hr, orb_true_r in Haft. congruence.
    + by rewrite Hc0.
Qed.

Lemma hunk_loop_open l pre s gap body st total :
  well_indexed (pre ++ l) -> total = zlen (pre ++ l) -> pre = s ++ gap ++ body -> Open l s gap body st ->
  exists s' gap' body', pre ++ l = s' ++ gap' ++ body' /\
    Open [] s' gap' body' (hunk_loop sw (zlen pre + 1) total l st).
Proof.
  revert pre s gap body st. induction l as [|[e i] l IH]; intros pre s gap body st Hidx Htot Hpre Hopen.
  - exists s, gap, body. by rewrite app_nil_r.
  - cbn [hunk_loop]. fold (treat (e, i) (total <=? zlen pre + 1) st). fold (step (e, i) l (total <=? zlen pre + 1) st).
    assert (Hlast : (total <=? zlen pre + 1) = true <-> l = []).
    { rewrite Z.leb_le, Htot, zlen_app, zlen_cons. split; [|intros ->; unfold zlen; cbn; lia].
      intros Hl. apply zlen_nil. pose proof (zlen_nonneg l). lia. }
    assert (Hstep : exists s' gap' body', s' ++ gap' ++ body' = (s ++ gap ++ body) ++ [(e, i)] /\
      Open l s' gap' body' (step (e, i) l (total <=? zlen pre + 1) st)).
    { destruct (decide (type i = SES_COMMON)) as [Hi|Hi]; [|by apply step_change].
      destruct (isMiddle st) eqn:Hm; [by apply step_following|].
      destruct (Hidx pre e i l eq_refl Hi) as [Hb Ha]. rewrite Hpre in Hb, Ha.
      destruct (step_leading e i l (total <=? zlen pre + 1) s gap body st Hi Hm Hopen Hb Ha) as (g' & b' & Hgb & HO).
      exists s, g', b'. split; [by rewrite Hgb, <- !app_assoc|done]. }
    destruct Hstep as (s' & gap' & body' & Heq & HO).
    assert (Hcons : pre ++ (e, i) :: l = (pre ++ [(e, i)]) ++ l) by by rewrite <- app_assoc.
    rewrite Hcons in *. destruct (IH (pre ++ [(e, i)]) s' gap' body' (step (e, i) l (total <=? zlen pre + 1) st) Hidx Htot) as (s2 & g2 & b2 & Hres & HO2).
    + by rewrite Hpre, Heq.
    + exact HO.
    + exists s2, g2, b2. split; [done|]. by rewrite zlen_snoc in HO2.
Qed.
End Loop.

(** ** The hunks of two sequences *)

Lemma start_open sw l : Open sw l [] [] [] (newHunkState []).
Proof. split; try done; try by constructor. split; try done; by constructor. Qed.

Lemma hunks_cover (d : Diff (E := E)) :
  well_indexed (ses_sequence (ses d)) ->
  exists s rest, ses_sequence (ses d) = s ++ rest /\ all_common rest /\ covered s (composeUnifiedHunks d []).
Proof.
  intros Hidx. destruct (hunk_loop_open (swapped d) (ses_sequence (ses d)) [] [] [] [] (newHunkState [])
    (zlen (ses_sequence (ses d)))) as (s & gap & body & Heq & Hopen); [done..|apply start_open|].
  exists s, (gap ++ body). split; [done|].
  destruct (op_idle _ _ _ _ _ _ Hopen (op_last _ _ _ _ _ _ Hopen eq_refl)) as [_ ->].
  pose proof (op_held _ _ _ _ _ _ Hopen) as Hheld. split; [|apply (hd_covered _ _ _ _ _ _ Hheld)].
  apply Forall_app. split; [apply (hd_gap _ _ _ _ _ _ Hheld)|apply (op_leading _ _ _ _ _ _ Hopen)].
Qed.

Lemma apply_shunk_spec (l : script) front rest :
  apply_shunk l front (befores l ++ rest) = (front ++ afters l, rest).
Proof.
  unfold befores, afters. revert front. induction l as [|[e i] l IH]; intros front; [by cbn; rewrite app_nil_r|].
  cbn [apply_shunk]. rewrite !pick_cons. destruct (type i); cbn [is_added is_deleted negb app]; rewrite IH, <- ?app_assoc; done.
Qed.

Lemma forward_spec (l front back : list E) n :
  n = length l -> forward n front (l ++ back) = Some (front ++ l, back).
Proof.
  intros ->. revert front. induction l as [|e l IH]; intros front; cbn; [by rewrite app_nil_r|].
  by rewrite IH, <- app_assoc.
Qed.

Lemma pick_two (l m : script) : befores (l ++ m) = befores l ++ befores m /\ afters (l ++ m) = afters l ++ afters m.
Proof. unfold befores, afters. by rewrite !pick_app. Qed.

Lemma same_readings (l : script) : all_common l -> befores l = afters l.
Proof. intros Hl. unfold befores, afters. by rewrite !(pick_all _ _ _ Hl). Qed.

(** Patching with the hunks that cover a script brings the iterator to its end. *)
Lemma covered_patch s hs :
  covered s hs -> forall more back, exists hs',
    uniPatch_loop (hs ++ more) 0 1 [] (befores s ++ back)
    = ('(tl, seq) ← uniPatch_loop more (zlen (afters s) - zlen (befores s)) (zlen (afters s) + 1) (afters s) back;
       Some (hs' ++ tl, seq)).
Proof.
  induction 1 as [|s hs gap body h Hc IH Hgap Htext _ Ha _ Hb _ Hinc]; intros more back.
  - exists []. change (uniPatch_loop more 0 1 [] back
      = ('(tl, seq) ← uniPatch_loop more 0 1 [] back; Some ([] ++ tl, seq))).
    by destruct (uniPatch_loop more 0 1 [] back) as [[]|].
  - destruct (pick_two s (gap ++ body)) as [Hbs Has]. destruct (pick_two gap body) as [Hbg Hag].
    destruct (pick_two s gap) as [Hbsg _]. rewrite Hbsg, zlen_app in Ha.
    rewrite Hbs, Has, Hbg, Hag, !zlen_app, <- !app_assoc. cbn [app].
    destruct (IH (h :: more) (befores gap ++ befores body ++ back)) as [hs' Hloop]. rewrite Hloop. clear Hloop IH.
    cbn [uniPatch_loop hunk_a hunk_b hunk_inc_dec hunk_common0 hunk_change hunk_common1].
    rewrite (forward_spec (befores gap)).
    2: { rewrite Ha. unfold zlen. lia. }
    cbn [mbind option_bind]. rewrite <- (same_befores _ _ Htext). fold (hunk_text h). rewrite apply_shunk_spec.
    rewrite (same_afters _ _ Htext), (same_readings _ Hgap), <- !app_assoc.
    assert (Hg1 : zlen (afters s) - zlen (befores s) + hunk_inc_dec h
      = zlen (afters s) + (zlen (afters gap) + zlen (afters body))
        - (zlen (befores s) + (zlen (afters gap) + zlen (befores (hunk_text h))))).
    { rewrite Hinc, (same_befores _ _ Htext). lia. }
    assert (Hg2 : hunk_a h + (zlen (afters s) - zlen (befores s)) + hunk_b h + hunk_inc_dec h
      = zlen (afters s) + (zlen (afters gap) + zlen (afters body)) + 1).
    { rewrite Ha, Hb, Hinc, (same_readings _ Hgap). lia. }
    rewrite Hg1, Hg2. eexists (hs' ++ [_]). destruct (uniPatch_loop more _ _ _ back) as [[tl seq]|]; cbn; [|done].
    by rewrite <- app_assoc.
Qed.

(** [C14] Patching with the unified hunks: whatever the two sequences, the list iterator
    never passes the end and the source becomes the destination. *)
Theorem unified_patch (src dst : list E) :
  exists d hs, compose (onUnserious (init src dst false)) = Some d /\
    uniPatch (composeUnifiedHunks d []) src = Some (hs, dst).
Proof.
  destruct (compose_spec src dst) as (d & Hc & Hb & Ha & Hidx & _).
  destruct (hunks_cover d Hidx) as (s & rest & Hs & Hrest & Hcov).
  destruct (covered_patch s _ Hcov [] (befores rest)) as [hs' Hp]. exists d, hs'. split; [done|].
  rewrite app_nil_r in Hp. unfold uniPatch. destruct (pick_two s rest) as [H1 H2].
  rewrite <- Hb, <- Ha, Hs, H1, H2, Hp. cbn. by rewrite app_nil_r, (same_readings _ Hrest).
Qed.

Lemma covered_edits s hs : covered s hs -> edits s = 0 -> hs = [].
Proof.
  intros Hc. destruct Hc as [|s hs gap body h _ _ Htext Hedit]; [done|].
  rewrite !edits_app. intros Hz. exfalso. pose proof (edits_nonneg s). pose proof (edits_nonneg gap).
  assert (Hb : edits body = edits (hunk_text h)).
  { rewrite !(edits_balance false). unfold left_out, second_of, first_of.
    by rewrite (same_befores _ _ Htext), (same_afters _ _ Htext), (same_deletes _ _ Htext). }
  unfold hunk_text in Hb. rewrite !edits_app in Hb. pose proof (edits_nonneg (hunk_common0 h)).
  pose proof (edits_nonneg (hunk_common1 h)). pose proof (edits_nonneg body). lia.
Qed.

(** There is no hunk exactly when the sequences are equal. *)
Lemma no_hunk (src dst : list E) d :
  compose (onUnserious (init src dst false)) = Some d -> (composeUnifiedHunks d [] = [] <-> src = dst).
Proof.
  intros Hd. destruct (compose_spec src dst) as (d' & Hd' & Hb & Ha & Hidx & _ & _ & Hone & Hs).
  assert (d' = d) as -> by congruence.
  destruct (hunks_cover d Hidx) as (s & rest & Hsplit & Hrest & Hcov). split.
  - intros Hn. rewrite Hn in Hcov. apply covered_none in Hcov. rewrite Hcov in Hsplit. cbn in Hsplit.
    rewrite <- Hb, <- Ha, Hsplit. by apply same_readings.
  - intros Heq. apply (covered_edits _ _ Hcov).
    destruct Hs as (_ & _ & _ & Hmin); [rewrite (Hone Heq); done|].
    set (same := (fun e => (e, mkInfo 0 0 SES_COMMON)) <$> src).
    assert (Hall : all_common same) by (unfold same; apply Forall_fmap, Forall_true; done).
    destruct (readings_common same Hall) as [Hsb Hsa].
    assert (Hfst : fst <$> same = src) by (unfold same; rewrite <- list_fmap_compose; apply list_fmap_id).
    pose proof (Hmin same ltac:(congruence) ltac:(congruence)) as Hle.
    assert (H0 : edits same = 0) by (unfold edits; by rewrite (pick_all _ _ _ Hall)).
    rewrite Hsplit, edits_app in Hle. pose proof (edits_nonneg s). pose proof (edits_nonneg rest). lia.
Qed.

(** [C29] What the hunks say: they cover the script, with common elements only between
    them and after the last; each changes something, is its part of the script with
    the deletions of a block before its additions, and announces the lines where it
    begins and its numbers of lines. There is none exactly when the sequences are equal. *)
Theorem hunks_describe (src dst : list E) :
  exists d s rest, compose (onUnserious (init src dst false)) = Some d /\
    ses_sequence (ses d) = s ++ rest /\ all_common rest /\ covered s (composeUnifiedHunks d []) /\
    (composeUnifiedHunks d [] = [] <-> src = dst).
Proof.
  destruct (compose_spec src dst) as (d & Hc & _ & _ & Hidx & _).
  destruct (hunks_cover d Hidx) as (s & rest & Hs & Hrest & Hcov). exists d, s, rest.
  split_and!; [done..|]. by apply no_hunk.
Qed.
End HunksTheory.

Module HunkExamples.
Definition lines (l : list string) (m : list string) : option string :=
  d ← compose (onUnserious (init l m false));
  Some (printUnifiedFormat (fun s => s) (composeUnifiedHunks d [])).

Example one_line :
  lines ["a"; "b"; "c"; "d"; "e"]%string ["a"; "b"; "c"; "x"; "d"; "e"]%string
  = Some ("@@ -1,5 +1,6 @@" +:+ endl +:+ " a" +:+ endl +:+ " b" +:+ endl +:+ " c" +:+ endl +:+ "+x" +:+ endl
          +:+ " d" +:+ endl +:+ " e" +:+ endl)%string.
Proof. vm_compute. reflexivity. Qed.
End HunkExamples.
