(* ===== verification/DtlModes.v ===== *)
(** * DtlModes

    The rest of class Diff of extern/dtl-cpp: the mode that computes the distance only, and
    edit scripts printed by [printSES] and read back by [composeSesFromStream], whose
    elements are lines. *)
From S2P Require Import Prelude CxxString Dtl DtlSearch DtlScript UnifiedFormat.
Local Open Scope Z_scope.

(** ** A script read from a stream *)

(** The marks of variables.hpp, and the type of edit each stands for. *)
Definition type_of_mark (mark : ascii) : option edit_t :=
  if Ascii.eqb mark "-" then Some SES_DELETE
  else if Ascii.eqb mark "+" then Some SES_ADD
  else if Ascii.eqb mark " " then Some SES_COMMON
  else None.

(** One turn of the loop of [composeSesFromStream] on a line of the stream; there is no
    result for an empty line, of which the mark is past the end. *)
Definition read_edit (line : string) (st : Ses (E := string) * Z * Z) : option (Ses (E := string) * Z * Z) :=
  let '(ret, x_idx, y_idx) := st in
  match line with
  | EmptyString => None
  | String mark e =>
      Some match type_of_mark mark with
           | Some SES_DELETE => (addSequence e x_idx 0 SES_DELETE ret, x_idx + 1, y_idx)
           | Some SES_ADD => (addSequence e y_idx 0 SES_ADD ret, x_idx, y_idx + 1)
           | Some SES_COMMON => (addSequence e x_idx y_idx SES_COMMON ret, x_idx + 1, y_idx + 1)
           | None => st
           end
  end.

Fixpoint read_edits (ls : list string) (st : Ses (E := string) * Z * Z) : option (Ses (E := string) * Z * Z) :=
  match ls with
  | [] => Some st
  | line :: ls => st ← read_edit line st; read_edits ls st
  end.

Definition composeSesFromStream (st : string) : option (Ses (E := string)) :=
  '(ret, _, _) ← read_edits (getlines st) (newSes false, 1, 1);
  Some ret.

(** [printSES] of a script, which the member function prints too. *)
Definition print_ses (s : Ses (E := string)) : string :=
  str_concat (ChangePrinter (fun e => e) <$> ses_sequence s).

(** ** Printed, then read *)

(** The script with the indices that the reader counts. *)
Fixpoint counted_from (x y : Z) (l : list (string * elemInfo)) : list (string * elemInfo) :=
  match l with
  | [] => []
  | (e, i) :: l =>
      match type i with
      | SES_DELETE => (e, mkInfo x 0 SES_DELETE) :: counted_from (x + 1) y l
      | SES_ADD => (e, mkInfo y 0 SES_ADD) :: counted_from x (y + 1) l
      | SES_COMMON => (e, mkInfo x y SES_COMMON) :: counted_from (x + 1) (y + 1) l
      end
  end.

(** A line of text: it has no end of line in it. *)
Definition is_line (e : string) : Prop := has_char newline e = false.

Lemma read_printed l : forall ret x y,
  deletesFirst ret = false ->
  exists ret' x' y',
    read_edits ((fun se => SES_MARK (type (snd se)) +:+ fst se) <$> l) (ret, x, y) = Some (ret', x', y') /\
    ses_sequence ret' = ses_sequence ret ++ counted_from x y l.
Proof.
  induction l as [|[e i] l IH]; intros ret x y Hd.
  { exists ret, x, y. split; [done|]. cbn. by rewrite app_nil_r. }
  cbn [fmap list_fmap read_edits fst snd counted_from].
  assert (Hgo : forall t b a x' y', read_edit (SES_MARK t +:+ e) (ret, x, y) = Some (addSequence e b a t ret, x', y') ->
    exists r x1 y1, (st ← read_edit (SES_MARK t +:+ e) (ret, x, y);
      read_edits ((fun se => SES_MARK (type (snd se)) +:+ fst se) <$> l) st) = Some (r, x1, y1) /\
      ses_sequence r = ses_sequence ret ++ (e, mkInfo b a t) :: counted_from x' y' l).
  { intros t b a x' y' ->. cbn [mbind option_bind]. destruct (add_spec e b a t ret Hd) as [Hs Hd'].
    destruct (IH _ x' y' Hd') as (r & x1 & y1 & Hr & Hseq). exists r, x1, y1. split; [exact Hr|].
    by rewrite Hseq, Hs, <- app_assoc. }
  destruct (type i); by apply Hgo.
Qed.

Lemma counted_picks f x y l : pick f (counted_from x y l) = pick f l.
Proof.
  revert x y. induction l as [|[e i] l IH]; intros x y; [done|]. cbn [counted_from]. rewrite (pick_cons f e i l).
  destruct (type i) eqn:Ti; by rewrite pick_cons, IH.
Qed.

(** Of a script whose indices of common elements are their places, the reader finds these
    indices again. *)
Lemma counted_common l : forall p x y,
  well_indexed (p ++ l) -> x = zlen (befores p) + 1 -> y = zlen (afters p) + 1 ->
  Forall2 (fun se se' => fst se = fst se' /\ type (snd se) = type (snd se') /\
                         (type (snd se) = SES_COMMON -> snd se = snd se')) l (counted_from x y l).
Proof.
  induction l as [|[e i] l IH]; intros p x y Hw -> ->; [constructor|]. cbn [counted_from].
  pose proof (Hw p e i l eq_refl) as Hi. replace (p ++ (e, i) :: l) with ((p ++ [(e, i)]) ++ l) in Hw
    by (by rewrite <- app_assoc).
  assert (Hb : zlen (befores (p ++ [(e, i)])) = zlen (befores p) + if is_added (type i) then 0 else 1).
  { unfold befores. rewrite pick_snoc, zlen_app. by destruct (type i). }
  assert (Ha : zlen (afters (p ++ [(e, i)])) = zlen (afters p) + if is_deleted (type i) then 0 else 1).
  { unfold afters. rewrite pick_snoc, zlen_app. by destruct (type i). }
  destruct (type i) eqn:Ti; cbn [is_added is_deleted] in *; (constructor; [|eapply IH; [exact Hw|lia|lia]]);
    cbn [fst snd type]; rewrite Ti; split_and!; try done. intros _. destruct (Hi eq_refl) as [Hx Hy]. rewrite <- Hx, <- Hy.
  destruct i as [b a t]. cbn in Ti. by subst t.
Qed.

(** The lines of a printed script are those it is made of. *)
Lemma printed_lines s :
  Forall (fun se => is_line (fst se)) (ses_sequence s) ->
  getlines (print_ses s) = (fun se => SES_MARK (type (snd se)) +:+ fst se) <$> ses_sequence s.
Proof.
  intros Hl. unfold print_ses.
  replace (ChangePrinter (fun e => e) <$> ses_sequence s)
    with ((fun l => l +:+ endl) <$> ((fun se => SES_MARK (type (snd se)) +:+ fst se) <$> ses_sequence s)).
  - apply getlines_concat, Forall_fmap. eapply Forall_impl; [exact Hl|]. intros [e i] He. cbn in *.
    by destruct (type i).
  - rewrite <- list_fmap_compose. apply list_fmap_ext. intros _ [e i] _. unfold ChangePrinter. cbn. apply sapp_assoc.
Qed.

(** The elements of a script are those of the two sequences. *)
Lemma script_elements (P : string -> Prop) l :
  Forall P (befores l) -> Forall P (afters l) -> Forall (fun se : string * elemInfo => P (fst se)) l.
Proof.
  unfold befores, afters. induction l as [|[e i] l IH]; [constructor|]. rewrite !pick_cons.
  intros [Hb1 Hb2]%Forall_app [Ha1 Ha2]%Forall_app. constructor; [|by apply IH]. cbn.
  destruct (type i); cbn in *; by apply Forall_cons in Hb1 as [? _] || apply Forall_cons in Ha1 as [? _].
Qed.

Lemma counted_patch l front back x y : patch_loop (counted_from x y l) front back = patch_loop l front back.
Proof.
  revert front back x y. induction l as [|[e i] l IH]; intros front back x y; [done|]. cbn [counted_from patch_loop].
  destruct (type i); cbn [patch_loop type]; try destruct back; by rewrite ?IH.
Qed.

(** A difference of texts, printed and read back: the script read has the same elements with
    the same types, and the same indices of its common elements; it is again a script from
    the one text to the other, and patches the one into the other. *)
Theorem printed_script_read (src dst : list string) :
  Forall is_line src -> Forall is_line dst ->
  exists d ret, compose (onUnserious (init src dst false)) = Some d /\
    composeSesFromStream (printSES (fun e => e) d) = Some ret /\
    Forall2 (fun se se' => fst se = fst se' /\ type (snd se) = type (snd se') /\
                           (type (snd se) = SES_COMMON -> snd se = snd se'))
      (ses_sequence (ses d)) (ses_sequence ret) /\
    befores (ses_sequence ret) = src /\ afters (ses_sequence ret) = dst /\
    patch (set_ses ret d) src = Some dst.
Proof.
  intros Hsrc Hdst. destruct (compose_spec src dst) as (d & Hc & Hb & Ha & Hidx & _).
  destruct (read_printed (ses_sequence (ses d)) (newSes false) 1 1 eq_refl) as (ret & x & y & Hr & Hs).
  cbn [ses_sequence newSes app] in Hs. exists d, ret. split; [done|]. rewrite Hs. split_and!.
  - unfold composeSesFromStream. change (printSES _ d) with (print_ses (ses d)).
    rewrite printed_lines by (apply script_elements; by rewrite ?Hb, ?Ha). by rewrite Hr.
  - by apply (counted_common _ []).
  - unfold befores in *. by rewrite counted_picks.
  - unfold afters in *. by rewrite counted_picks.
  - unfold patch. cbn [ses set_ses]. rewrite Hs, counted_patch, <- Hb at 1.
    rewrite <- (app_nil_r (befores _)), patch_loop_spec. by rewrite app_nil_r, Ha.
Qed.

(** ** The distance only *)

Section Distance.
Context {E : Type} `{EqDecision E}.

(** A search and the same one that keeps no points: only the paths hold other numbers. *)
Record same_search (d d' : Diff (E := E)) : Prop := {
  ss_A : dA d' = dA d;
  ss_B : dB d' = dB d;
  ss_N : dN d' = dN d;
  ss_delta : delta d' = delta d;
  ss_offset : offset d' = offset d;
  ss_fp : fp d' = fp d;
  ss_distance : editDistance d' = editDistance d;
  ss_swapped : swapped d' = swapped d;
  ss_path : zlen (path d') = zlen (path d);
  ss_only : editDistanceOnly d' = true;
  ss_points : pathCordinates d' = [];
  ss_ses : ses d' = newSes false;
  ss_lcs : lcs d' = []
}.

Lemma slide_same d d' fuel x y : same_search d d' -> slide d' fuel x y = slide d fuel x y.
Proof.
  intros [HA HB _ _ _ _ _ Hsw _ _ _ _ _]. revert x y. induction fuel as [|fuel IH]; intros x y; [done|].
  cbn [slide]. rewrite HA, HB, Hsw. destruct (vget (dA d) x), (vget (dB d) y); try done. by rewrite IH.
Qed.

Lemma vget_same (l m : list Z) i x : zlen m = zlen l -> vget l i = Some x -> is_Some (vget m i).
Proof. intros Hl Hx. apply vget_Some in Hx. apply vget_is_Some. lia. Qed.

Lemma vset_same (l m : list Z) i x y l' :
  zlen m = zlen l -> vset l i x = Some l' -> exists m', vset m i y = Some m' /\ zlen m' = zlen l'.
Proof.
  unfold vset. intros Hl. rewrite Hl. case_match; [|done]. intros [= <-]. eexists. split; [done|].
  unfold zlen in *. by rewrite !length_insert.
Qed.

Lemma snake_same d d' k above below d1 y :
  same_search d d' -> editDistanceOnly d = false -> snake k above below d = Some (d1, y) ->
  exists d1', snake k above below d' = Some (d1', y) /\ same_search d1 d1' /\ editDistanceOnly d1 = false.
Proof.
  intros HS Honly. pose proof HS as [HA HB HN Hde Ho Hfp Hed Hsw Hp Ho' Hpt Hse Hlc]. unfold snake. rewrite Ho, Hpt, HA.
  rewrite (slide_same d d') by done. intros Hsn.
  destruct (if below <? above then _ else _) as [r|] eqn:Hr; [|done]. cbn [mbind option_bind] in Hsn.
  assert (Hr' : is_Some (if below <? above then vget (path d') (k - 1 + offset d) else vget (path d') (k + 1 + offset d)))
    by (destruct (below <? above); by eapply vget_same).
  destruct Hr' as [r' ->]. cbn [mbind option_bind].
  destruct (slide d _ _ _) as [x1 y1]. destruct (vset (path d) _ _) as [l'|] eqn:Hv; [|done].
  destruct (vset_same _ _ _ _ (zlen (@nil Point)) _ Hp Hv) as (m' & Hm & Hl). rewrite Hm. cbn [mbind option_bind] in *.
  cbn [editDistanceOnly set_path] in *. rewrite Honly in Hsn. rewrite Ho'. injection Hsn as <- <-.
  eexists. split; [done|]. by split.
Qed.

Lemma advance_same d d' k d1 :
  same_search d d' -> editDistanceOnly d = false -> advance d k = Some d1 ->
  exists d1', advance d' k = Some d1' /\ same_search d1 d1' /\ editDistanceOnly d1 = false.
Proof.
  intros HS Honly. unfold advance. rewrite (ss_offset _ _ HS), (ss_fp _ _ HS).
  destruct (vget (fp d) (k - 1 + offset d)) as [above|]; [|done].
  destruct (vget (fp d) (k + 1 + offset d)) as [below|]; [|done]. cbn [mbind option_bind].
  destruct (snake k (above + 1) below d) as [[d2 y]|] eqn:Hs; [|done]. cbn [mbind option_bind].
  destruct (snake_same _ _ _ _ _ _ _ HS Honly Hs) as (d2' & -> & HS2 & Ho2). cbn [mbind option_bind].
  rewrite (ss_offset _ _ HS2), (ss_fp _ _ HS2). destruct (vset (fp d2) _ _) as [f|]; [|done].
  intros [= <-]. eexists. split; [done|]. split; [|done]. destruct HS2. by split.
Qed.

Lemma advances_same ks d d' d1 :
  same_search d d' -> editDistanceOnly d = false -> advances ks d = Some d1 ->
  exists d1', advances ks d' = Some d1' /\ same_search d1 d1' /\ editDistanceOnly d1 = false.
Proof.
  revert d d'. induction ks as [|k ks IH]; intros d d' HS Honly; cbn [advances].
  { intros [= <-]. by exists d'. }
  destruct (advance d k) as [d2|] eqn:Ha; [|done]. cbn [mbind option_bind].
  destruct (advance_same _ _ _ _ HS Honly Ha) as (d2' & -> & HS2 & Ho2). by apply IH.
Qed.

(** A search that is not stopped by the limit ends at the same turn. *)
Lemma onp_same fuel p d d' q d1 :
  same_search d d' -> editDistanceOnly d = false -> onp fuel p d = Some (q, d1) ->
  zlen (pathCordinates d1) < MAX_CORDINATES_SIZE ->
  exists d1', onp fuel p d' = Some (q, d1') /\ same_search d1 d1'.
Proof.
  revert p d d'. induction fuel as [|fuel IH]; intros p d d' HS Honly; [done|]. cbn [onp].
  destruct (turn (p + 1) d) as [d2|] eqn:Ht; [|done]. cbn [mbind option_bind]. unfold turn in *.
  destruct (advances_same _ _ _ _ HS Honly Ht) as (d2' & Ht' & HS2 & Ho2).
  unfold below_delta, above_delta in *. rewrite (ss_delta _ _ HS), Ht'. cbn [mbind option_bind].
  rewrite (ss_delta _ _ HS2), (ss_offset _ _ HS2), (ss_fp _ _ HS2), (ss_N _ _ HS2), (ss_points _ _ HS2).
  destruct (vget (fp d2) (delta d2 + offset d2)) as [y|]; [|done]. cbn [mbind option_bind].
  change (zlen [] <? MAX_CORDINATES_SIZE) with true. rewrite andb_true_r.
  destruct (y =? dN d2); cbn [negb andb].
  - intros [= <- <-] _. by exists d2'.
  - destruct (Z.ltb_spec (zlen (pathCordinates d2)) MAX_CORDINATES_SIZE); [by apply IH|].
    intros [= <- <-] ?. lia.
Qed.

(** The mode that computes the distance only announces the distance of the full search, the
    number of edits of a shortest script, and records nothing; while the points the
    full search can visit are fewer than the limit. *)
Theorem distance_only (src dst : list E) :
  (zlen src + 1) * (zlen dst + 1) < MAX_CORDINATES_SIZE ->
  exists d d', compose (init src dst false) = Some d /\
    compose (onOnlyEditDistance (init src dst false)) = Some d' /\
    getEditDistance d' = getEditDistance d /\ ses_sequence (getSes d') = [] /\ getLcsVec d' = [] /\
    getEditDistance d' = edits (ses_sequence (getSes d)) /\
    forall other, befores other = src -> afters other = dst -> getEditDistance d' <= edits other.
Proof.
  intros Hlim. destruct (compose_found false src dst (or_intror Hlim)) as
    (d & Hc & _ & _ & _ & _ & Hpc & _ & (p & d1 & Honp & Hpts & Hr & Hdist) & Hs).
  specialize (Hdist ltac:(lia)). destruct Hs as (_ & _ & Hed & Hmin); [lia|].
  set (s' := set_editDistanceOnly true (started false src dst)).
  assert (HS : same_search (started false src dst) s') by (by split).
  destruct (onp_same _ _ _ _ _ _ HS eq_refl Honp ltac:(rewrite Hpts; lia)) as (d1' & Honp' & HS').
  assert (Hc' : compose (onOnlyEditDistance (init src dst false))
                = Some (set_fp [] (set_editDistance (editDistance d1' + delta d1' + 2 * p) d1'))).
  { unfold compose. change (set_path _ _) with s'. generalize (length (dA (onOnlyEditDistance (init src dst false))) + length (dB (onOnlyEditDistance (init src dst false))))%nat as again.
    intros again. destruct Hr as [x Hr]. destruct (vget_same _ (path d1') _ _ (ss_path _ _ HS') Hr) as [r Hr'].
    rewrite <- (ss_delta _ _ HS'), <- (ss_offset _ _ HS') in Hr'.
    destruct again; cbn [search]; change (length (dA s')) with (length (dA (started false src dst)));
      rewrite Honp'; cbn [mbind option_bind]; cbn [path delta offset set_editDistance]; rewrite Hr'; cbn [mbind option_bind];
      cbn [editDistanceOnly set_editDistance]; by rewrite (ss_only _ _ HS'). }
  assert (Hsame : getEditDistance (set_fp [] (set_editDistance (editDistance d1' + delta d1' + 2 * p) d1'))
                  = getEditDistance d).
  { unfold getEditDistance. cbn [editDistance set_fp set_editDistance].
    by rewrite (ss_distance _ _ HS'), (ss_delta _ _ HS'), Hdist. }
  exists d. eexists. split; [exact Hc|]. split; [exact Hc'|]. split; [exact Hsame|].
  split; [cbn; by rewrite (ss_ses _ _ HS')|]. split; [apply (ss_lcs _ _ HS')|]. rewrite Hsame. split; [exact Hed|]. intros other Hb Ha. unfold getEditDistance. rewrite Hed. by apply Hmin.
Qed.
End Distance.

(** *** Concrete texts *)

Module ModesExamples.
Definition script_of (a b : list string) : option (list string) :=
  d ← compose (onUnserious (init a b false));
  ret ← composeSesFromStream (printSES (fun e => e) d);
  Some (getlines (print_ses ret)).

Example read_back : script_of ["a"; "b"; "c"]%string ["a"; "x"; "c"]%string = Some [" a"; "-b"; "+x"; " c"]%string.
Proof. vm_compute. reflexivity. Qed.

(** An added line is recorded with its index in the second text, and read back with it as
    an index in the first. *)
Example added_index :
  (d ← compose (onUnserious (init ([] : list string) ["x"]%string false)); Some (ses_sequence (ses d)))
  = Some [("x"%string, mkInfo 0 1 SES_ADD)] /\
  (ret ← composeSesFromStream ("+x" +:+ endl); Some (ses_sequence ret)) = Some [("x"%string, mkInfo 1 0 SES_ADD)].
Proof. split; vm_compute; reflexivity. Qed.

Example empty_line : composeSesFromStream endl = None.
Proof. reflexivity. Qed.

Lemma printed_script_read_witness :
  (Forall is_line ["a"; "b"]%string /\ Forall is_line ["b"; "c"]%string) /\
  exists d ret, compose (onUnserious (init ["a"; "b"]%string ["b"; "c"]%string false)) = Some d /\
    composeSesFromStream (printSES (fun e => e) d) = Some ret.
Proof.
  assert (Ha : Forall is_line ["a"; "b"]%string) by (repeat constructor; reflexivity).
  assert (Hb : Forall is_line ["b"; "c"]%string) by (repeat constructor; reflexivity).
  split; [exact (conj Ha Hb)|].
  destruct (printed_script_read ["a"; "b"]%string ["b"; "c"]%string Ha Hb) as (d & ret & Hc & Hr & _).
  exists d, ret. exact (conj Hc Hr).
Defined.

Lemma distance_only_witness :
  (zlen [1; 2; 3] + 1) * (zlen [2; 4] + 1) < MAX_CORDINATES_SIZE /\
  exists d', compose (onOnlyEditDistance (init [1; 2; 3] [2; 4] false)) = Some d' /\ ses_sequence (getSes d') = [].
Proof.
  split; [reflexivity|].
  destruct (distance_only [1; 2; 3] [2; 4] eq_refl) as (_ & d' & _ & Hc & _ & Hs & _). exists d'. exact (conj Hc Hs).
Defined.
End ModesExamples.
