(* ===== verification/MapCompare.v ===== *)
(** * MapCompare

    libws_diff/mapCompare.hh and .cc: the comparison of the headers of two answers,
    with the regular expressions, by header, that stop the comparison or are removed
    from the values. The two overloads of [retrieveDiff] are the same code, one
    writing to a stream and one to a printer: what differs is given to [sort_out]. *)
From S2P Require Import Prelude CxxString StdMap Boost RequestInfo DiffPrinter.
Local Open Scope N_scope.

Section MapCompare.
Context `{BoostRegex}.

Definition mapStrings : Type := list (string * string).
Definition mapKeyRegex : Type := list (string * regex).

Record MapCompare : Type := mkMapCompare { mStopRegex : mapKeyRegex; mIgnoreRegex : mapKeyRegex }.

Definition newMapCompare : MapCompare := mkMapCompare [] [].

(** [m.insert(first, last)] *)
Definition std_insert_all {K V} `{CxxLess K} (m l : list (K * V)) : list (K * V) :=
  foldl (fun m e => std_insert (fst e) (snd e) m) m l.

Definition merge (mc self : MapCompare) : MapCompare :=
  mkMapCompare (std_insert_all (mStopRegex self) (mStopRegex mc))
               (std_insert_all (mIgnoreRegex self) (mIgnoreRegex mc)).

Definition addIgnoreRegex (key myregex : string) (mc : MapCompare) : outcome MapCompare :=
  let! r := of_option BadExpression (regex_make myregex false) in
  Ret (mkMapCompare (mStopRegex mc) (std_insert key r (mIgnoreRegex mc))).

Definition addStopRegex (key myregex : string) (mc : MapCompare) : outcome MapCompare :=
  let! r := of_option BadExpression (regex_make myregex false) in
  Ret (mkMapCompare (std_insert key r (mStopRegex mc)) (mIgnoreRegex mc)).

Definition checkStop (map : mapStrings) (mc : MapCompare) : bool :=
  existsb (fun e => match std_find (fst e) (mStopRegex mc) with
                    | Some r => regex_matches (snd e) r
                    | None => false
                    end) map.

(** The value of an entry after the first loop of [applyIgnoreRegex]. *)
Definition edited (mc : MapCompare) (e : string * string) : string * string :=
  match std_find (fst e) (mIgnoreRegex mc) with
  | Some r => (fst e, regex_erase (snd e) r)
  | None => e
  end.

Definition to_delete (mc : MapCompare) (e : string * string) : bool :=
  bool_decide (is_Some (std_find (fst e) (mIgnoreRegex mc))) && str_empty (snd e).

Definition applyIgnoreRegex (mc : MapCompare) (map : mapStrings) : mapStrings :=
  let map := edited mc <$> map in
  foldl (fun m e => std_erase (fst e) m) map (List.filter (to_delete mc) map).

(** [operator<] of the pairs, and [std::set_difference]. *)
Definition pair_less (a b : string * string) : bool :=
  str_ltb (fst a) (fst b) || (negb (str_ltb (fst b) (fst a)) && str_ltb (snd a) (snd b)).

Fixpoint set_difference (l1 : list (string * string)) : list (string * string) -> list (string * string) :=
  fix aux (l2 : list (string * string)) :=
    match l1, l2 with
    | [], _ => []
    | _, [] => l1
    | x :: t1, y :: t2 =>
        if pair_less x y then x :: set_difference t1 l2
        else if pair_less y x then aux t2
        else set_difference t1 t2
    end.

(** The loop over [diffSrc]; [missing] is what is done with a key that is only in it. *)
Fixpoint sort_out {S : Type} (missing : S -> string -> string -> S) (s : S) (diffSrc diffDst : mapStrings)
    (valueDiff : list (string * (string * string))) : S * mapStrings * list (string * (string * string)) :=
  match diffSrc with
  | [] => (s, diffDst, valueDiff)
  | (k, v) :: diffSrc =>
      match std_find k diffDst with
      | None => sort_out missing (missing s k v) diffSrc diffDst valueDiff
      | Some w => sort_out missing s diffSrc (std_erase k diffDst) (std_insert k (v, w) valueDiff)
      end
  end.

Definition differences (src dst : mapStrings) : mapStrings * mapStrings :=
  (std_insert_all [] (set_difference src dst), std_insert_all [] (set_difference dst src)).

Definition quote_char : ascii := "'"%char.
Definition quote (s : string) : string := String quote_char (s +:+ String quote_char EmptyString).

Definition missing_line (stream key value : string) : string :=
  stream +:+ quote key +:+ " ==> " +:+ quote value +:+ endl.

(** [output] is left as it is when a stop expression matches. *)
Definition retrieveDiff_text (src dst : mapStrings) (output : string) (mc : MapCompare) : string * bool :=
  if checkStop src mc || checkStop dst mc then (output, false)
  else
    let '(diffSrc, diffDst) := differences (applyIgnoreRegex mc src) (applyIgnoreRegex mc dst) in
    let stream := if bool_decide (diffSrc = []) then EmptyString
                  else "Key missing in the destination map :" +:+ endl in
    let '(stream, diffDst, valueDiff) := sort_out missing_line stream diffSrc diffDst [] in
    let stream :=
      if bool_decide (diffDst = []) then stream
      else foldl (fun st e => missing_line st (fst e) (snd e)) (stream +:+ "Key missing in src map :" +:+ endl) diffDst in
    let stream :=
      if bool_decide (valueDiff = []) then stream
      else foldl (fun st e => st +:+ quote (fst e) +:+ " ==> " +:+ quote (fst (snd e)) +:+ "/" +:+ quote (snd (snd e)) +:+ endl)
             (stream +:+ "Key with value differences :" +:+ endl) valueDiff in
    (stream, true).

Definition retrieveDiff {P} `{DiffPrinter P} (src dst : mapStrings) (printer : P) (mc : MapCompare) : P * bool :=
  if checkStop src mc || checkStop dst mc then (printer, false)
  else
    let '(diffSrc, diffDst) := differences (applyIgnoreRegex mc src) (applyIgnoreRegex mc dst) in
    let '(printer, diffDst, valueDiff) :=
      sort_out (fun p k v => addHeaderDiff k (Some v) None p) printer diffSrc diffDst [] in
    let printer := foldl (fun p e => addHeaderDiff (fst e) None (Some (snd e)) p) printer diffDst in
    let printer :=
      foldl (fun p e => addHeaderDiff (fst e) (Some (fst (snd e))) (Some (snd (snd e))) p) printer valueDiff in
    (printer, true).

(** ** The specification: by key *)

(** A map without what is ignored. *)
Definition relevant (mc : MapCompare) (m : mapStrings) : mapStrings :=
  List.filter (fun e => negb (to_delete mc e)) (edited mc <$> m).

Definition absent {V} (m : list (string * V)) (k : string) : bool := bool_decide (std_find k m = None).

Definition only_in (a b : mapStrings) : mapStrings := List.filter (fun e => absent b (fst e)) a.

Definition changed (a b : mapStrings) : list (string * (string * string)) :=
  omap (fun e => match std_find (fst e) b with
                 | Some w => if bool_decide (snd e = w) then None else Some (fst e, (snd e, w))
                 | None => None
                 end) a.

(** The calls of the printer for two maps. *)
Definition header_calls (a b : mapStrings) : list printer_call :=
  ((fun e => HeaderDiff (fst e) (Some (snd e)) None) <$> only_in a b) ++
  ((fun e => HeaderDiff (fst e) None (Some (snd e))) <$> only_in b a) ++
  ((fun e => HeaderDiff (fst e) (Some (fst (snd e))) (Some (snd (snd e)))) <$> changed a b).
End MapCompare.

Arguments MapCompare : clear implicits.
Arguments MapCompare {_}.

(** ** Set difference *)

Lemma pair_less_irrefl a : pair_less a a = false.
Proof. unfold pair_less. by rewrite !str_ltb_irrefl. Qed.

Lemma pair_less_trans a b c : pair_less a b = true -> pair_less b c = true -> pair_less a c = true.
Proof.
  unfold pair_less. intros [H1|[H1 H1']%andb_prop]%orb_prop [H2|[H2 H2']%andb_prop]%orb_prop.
  - by rewrite (str_ltb_trans _ _ _ H1 H2).
  - apply negb_true_iff in H2. destruct (str_ltb (fst b) (fst c)) eqn:E.
    + by rewrite (str_ltb_trans _ _ _ H1 E).
    + by rewrite <- (str_ltb_total _ _ E H2), H1.
  - apply negb_true_iff in H1. destruct (str_ltb (fst a) (fst b)) eqn:E.
    + by rewrite (str_ltb_trans _ _ _ E H2).
    + by rewrite (str_ltb_total _ _ E H1), H2.
  - apply negb_true_iff in H1, H2. destruct (str_ltb (fst a) (fst b)) eqn:E1.
    + destruct (str_ltb (fst b) (fst c)) eqn:E2; [by rewrite (str_ltb_trans _ _ _ E1 E2)|].
      by rewrite <- (str_ltb_total _ _ E2 H2), E1.
    + rewrite (str_ltb_total _ _ E1 H1). rewrite H2, (str_ltb_trans _ _ _ H1' H2'). apply orb_true_r.
Qed.

Lemma pair_less_total a b : pair_less a b = false -> pair_less b a = false -> a = b.
Proof.
  unfold pair_less. destruct a as [k v], b as [k' v']. cbn.
  destruct (str_ltb k k') eqn:E1, (str_ltb k' k) eqn:E2; cbn; try done. intros Hv Hv'.
  by rewrite (str_ltb_total _ _ E1 E2), (str_ltb_total _ _ Hv Hv').
Qed.

Definition pairs_sorted : list (string * string) -> Prop := StronglySorted (fun a b => pair_less a b = true).

Lemma map_pairs_sorted (m : list (string * string)) : map_sorted m -> pairs_sorted m.
Proof.
  induction 1 as [|e m _ IH Hlt]; constructor; [done|]. eapply Forall_impl; [exact Hlt|].
  intros a Ha. unfold pair_less. cbn in Ha. unfold less, string_less in Ha. by rewrite Ha.
Qed.

Lemma less_all_not_in x l : Forall (fun a => pair_less x a = true) l -> x ∉ l.
Proof.
  intros Hl Hin. rewrite Forall_forall in Hl. apply Hl in Hin. by rewrite pair_less_irrefl in Hin.
Qed.

(** On sorted ranges the algorithm keeps the elements that are not in the other. *)
Lemma set_difference_spec l1 l2 :
  pairs_sorted l1 -> pairs_sorted l2 ->
  set_difference l1 l2 = List.filter (fun e => bool_decide (e ∉ l2)) l1.
Proof.
  intros H1. revert l2. induction H1 as [|x t1 H1 IH1 Hx]; intros l2 H2; [by destruct l2|].
  induction H2 as [|y t2 H2 IH2 Hy].
  - cbn. rewrite bool_decide_eq_true_2 by set_solver. f_equal. symmetry. apply forallb_filter_id.
    apply forallb_forall. intros a _. apply bool_decide_eq_true_2. set_solver.
  - cbn [set_difference]. destruct (pair_less x y) eqn:Exy; [|destruct (pair_less y x) eqn:Eyx].
    + assert (Hnx : x ∉ y :: t2).
      { apply less_all_not_in. constructor; [done|]. eapply Forall_impl; [exact Hy|].
        intros a. by apply pair_less_trans. }
      cbn [List.filter]. rewrite bool_decide_eq_true_2 by done. f_equal. apply IH1. by constructor.
    + etrans; [exact IH2|]. apply filter_ext_in. intros a Ha. apply bool_decide_ext.
      assert (a <> y); [|set_solver]. intros ->.
      destruct Ha as [->|Ha]; [by rewrite pair_less_irrefl in Eyx|].
      rewrite Forall_forall in Hx. apply list_elem_of_In, Hx in Ha. by rewrite Ha in Exy.
    + pose proof (pair_less_total _ _ Exy Eyx) as ->. cbn [List.filter].
      rewrite bool_decide_eq_false_2 by set_solver. rewrite IH1 by done. apply filter_ext_in.
      intros a Ha. apply bool_decide_ext. assert (a <> y); [|set_solver]. intros ->.
      rewrite Forall_forall in Hx. apply list_elem_of_In, Hx in Ha. by rewrite pair_less_irrefl in Ha.
Qed.

(** ** Maps *)

Lemma std_insert_last {V} (m : list (string * V)) k v :
  Forall (fun e => less (fst e) k = true) m -> std_insert k v m = m ++ [(k, v)].
Proof.
  unfold std_insert. induction 1 as [|[k' w] m Hk _ IH]; [done|]. cbn in Hk. cbn. by rewrite Hk, IH.
Qed.

Lemma sorted_before {V} (a b : list (string * V)) e :
  map_sorted (a ++ e :: b) -> Forall (fun x => less (fst x) (fst e) = true) a.
Proof.
  induction a as [|x a IH]; [constructor|]. intros [Hs Hx]%StronglySorted_inv. constructor; [|by apply IH].
  rewrite Forall_forall in Hx. apply Hx. set_solver.
Qed.

Lemma insert_all_sorted {V} (m l : list (string * V)) : map_sorted (m ++ l) -> std_insert_all m l = m ++ l.
Proof.
  revert m. induction l as [|[k v] l IH]; intros m Hs; [by rewrite app_nil_r|].
  change (std_insert_all (std_insert k v m) l = m ++ (k, v) :: l).
  rewrite std_insert_last by (by apply (sorted_before m l (k, v))). rewrite IH; by rewrite <- app_assoc.
Qed.

Lemma filter_sorted {V} (f : string * V -> bool) (m : list (string * V)) :
  map_sorted m -> map_sorted (List.filter f m).
Proof. apply StronglySorted_filter_bool. Qed.

Lemma find_filter {V} (f : string * V -> bool) (m : list (string * V)) k :
  map_sorted m ->
  std_find k (List.filter f m)
  = match std_find k m with Some v => if f (k, v) then Some v else None | None => None end.
Proof.
  intros Hm. pose proof (filter_sorted f m Hm) as Hf. destruct (std_find k (List.filter f m)) as [v|] eqn:E.
  - apply std_find_elem_iff in E; [|done]. apply list_elem_of_In, filter_In in E as [Hin Hv].
    apply list_elem_of_In, std_find_elem_iff in Hin; [|done]. by rewrite Hin, Hv.
  - destruct (std_find k m) as [v|] eqn:Em; [|done]. destruct (f (k, v)) eqn:Ev; [|done].
    apply std_find_elem_iff in Em; [|done].
    assert (Hin : (k, v) ∈ List.filter f m) by (apply list_elem_of_In, filter_In; split; [by apply list_elem_of_In|done]).
    apply std_find_elem_iff in Hin; [|done]. congruence.
Qed.

Lemma key_eq (a b : string) : equiv_key a b = bool_decide (a = b).
Proof.
  case_bool_decide as E; [by apply equiv_key_eq|]. destruct (equiv_key a b) eqn:H; [|done]. by apply equiv_key_eq in H.
Qed.

Lemma find_erase {V} (m : list (string * V)) k k' :
  map_sorted m -> std_find k' (std_erase k m) = if bool_decide (k' = k) then None else std_find k' m.
Proof.
  intros Hm. unfold std_erase. rewrite find_filter by done. cbn [fst]. rewrite key_eq.
  destruct (std_find k' m), (bool_decide (k' = k)); done.
Qed.

Lemma erase_sorted {V} (m : list (string * V)) k : map_sorted m -> map_sorted (std_erase k m).
Proof. apply filter_sorted. Qed.

Lemma find_cons {V} (m : list (string * V)) k v k' :
  map_sorted ((k, v) :: m) -> std_find k' ((k, v) :: m) = if bool_decide (k' = k) then Some v else std_find k' m.
Proof.
  intros [Hm Hk]%StronglySorted_inv. rewrite Forall_forall in Hk. cbn. case_bool_decide as E.
  - subst. by rewrite less_irrefl.
  - destruct (less k k') eqn:E1; [done|]. destruct (less k' k) eqn:E2.
    + destruct (std_find k' m) as [w|] eqn:Em; [|done]. apply std_find_elem_iff in Em; [|done].
      apply Hk in Em. cbn in Em. by rewrite Em in E1.
    + exfalso. apply E. by apply less_total.
Qed.

Lemma filter_both {A} (f g : A -> bool) l : List.filter f (List.filter g l) = List.filter (fun x => f x && g x) l.
Proof. rewrite filter_filter. apply filter_ext. intros x. apply andb_comm. Qed.

(** ** The loop over the source *)

Lemma omap_ext_elem {A B} (f g : A -> option B) (l : list A) : (forall x, x ∈ l -> f x = g x) -> omap f l = omap g l.
Proof.
  induction l as [|x l IH]; intros Hfg; [done|]. cbn. rewrite (Hfg x) by left.
  destruct (g x); rewrite IH; (done || intros; apply Hfg; by right).
Qed.

Lemma sort_out_spec {S} (missing : S -> string -> string -> S) src dst vd s :
  map_sorted src -> map_sorted dst -> (forall x e, x ∈ vd -> e ∈ src -> less (fst x) (fst e) = true) ->
  sort_out missing s src dst vd
  = (foldl (fun s e => missing s (fst e) (snd e)) s (only_in src dst), only_in dst src,
     vd ++ omap (fun e => (fun w => (fst e, (snd e, w))) <$> std_find (fst e) dst) src).
Proof.
  revert dst vd s. induction src as [|[k v] src IH]; intros dst vd s Hs Hd Hv.
  - cbn. rewrite app_nil_r. f_equal. f_equal. symmetry. by apply forallb_filter_id, forallb_forall.
  - pose proof Hs as [Hs' Hk]%StronglySorted_inv. rewrite Forall_forall in Hk.
    assert (Hne : forall e, e ∈ src -> fst e <> k).
    { intros e He Heq. apply Hk in He. cbn in He. by rewrite Heq, less_irrefl in He. }
    cbn [sort_out]. unfold only_in at 1. cbn [List.filter fst]. fold (only_in src dst).
    unfold absent at 1. cbn [omap list_omap fst snd].
    destruct (std_find k dst) as [w|] eqn:Ek.
    + rewrite bool_decide_eq_false_2 by done. cbn [fmap option_fmap option_map].
      rewrite std_insert_last by (apply Forall_forall; intros x Hx; apply (Hv x (k, v)); [done|left]).
      rewrite IH; [|done|by apply erase_sorted|].
      2: { intros x e [Hx| ->%list_elem_of_singleton]%elem_of_app He; [apply Hv; [done|by right]|by apply Hk]. }
      rewrite <- app_assoc. cbn [app].
      assert (Hfind : forall e, e ∈ src -> std_find (fst e) (std_erase k dst) = std_find (fst e) dst).
      { intros e He. rewrite find_erase by done. by rewrite bool_decide_eq_false_2 by by apply Hne. }
      f_equal; [f_equal|do 2 f_equal; apply omap_ext_elem; intros e He; by rewrite Hfind].
      * f_equal. apply filter_ext_in. intros e He%list_elem_of_In. unfold absent. by rewrite Hfind.
      * unfold only_in, std_erase. rewrite filter_both. apply filter_ext. intros [k' w']. unfold absent. cbn [fst].
        rewrite find_cons, key_eq by done.
        destruct (bool_decide (k' = k)); cbn [negb]; [by rewrite andb_false_r|by rewrite andb_true_r].
    + rewrite bool_decide_eq_true_2 by done. cbn [fmap option_fmap option_map foldl fst snd].
      rewrite IH; [|done|done|intros x e Hx He; apply Hv; [done|by right]].
      f_equal. f_equal. apply filter_ext_in. intros [k' w'] Hin%list_elem_of_In. unfold absent. cbn [fst].
      rewrite find_cons by done. rewrite (bool_decide_eq_false_2 (k' = k)); [done|]. intros ->.
      apply std_find_elem_iff in Hin; [|done]. congruence.
Qed.

(** ** The differences *)

Definition not_in (a b : mapStrings) : mapStrings := List.filter (fun e => bool_decide (e ∉ b)) a.

Lemma differences_spec a b : map_sorted a -> map_sorted b -> differences a b = (not_in a b, not_in b a).
Proof.
  intros Ha Hb. unfold differences. rewrite !set_difference_spec by by apply map_pairs_sorted.
  rewrite !insert_all_sorted by by apply filter_sorted. done.
Qed.

Lemma find_not_in (a b : mapStrings) k :
  map_sorted a -> map_sorted b ->
  std_find k (not_in a b)
  = match std_find k a with
    | Some v => if bool_decide (std_find k b = Some v) then None else Some v
    | None => None
    end.
Proof.
  intros Ha Hb. unfold not_in. rewrite find_filter by done. destruct (std_find k a) as [v|]; [|done].
  pose proof (std_find_elem_iff k v b Hb) as Hiff.
  destruct (decide (std_find k b = Some v)) as [Hf|Hf].
  - rewrite (bool_decide_eq_true_2 _ Hf), bool_decide_eq_false_2; [done|]. intros Hn. by apply Hn, Hiff.
  - rewrite (bool_decide_eq_false_2 _ Hf), bool_decide_eq_true_2; [done|]. intros Hn. by apply Hf, Hiff.
Qed.

Lemma only_in_not_in a b : map_sorted a -> map_sorted b -> only_in (not_in a b) (not_in b a) = only_in a b.
Proof.
  intros Ha Hb.
  change (List.filter (fun e => absent (not_in b a) (fst e)) (List.filter (fun e => bool_decide (e ∉ b)) a) = only_in a b).
  rewrite filter_both. apply filter_ext_in.
  intros [k v] Hin%list_elem_of_In. apply std_find_elem_iff in Hin; [|done]. unfold absent. cbn [fst].
  rewrite find_not_in by done. rewrite Hin. pose proof (std_find_elem_iff k v b Hb) as Hiff.
  destruct (std_find k b) as [w|].
  - destruct (decide (v = w)) as [->|Hne].
    + rewrite andb_comm, bool_decide_eq_false_2; [done|]. intros Hn. by apply Hn, Hiff.
    + rewrite (bool_decide_eq_false_2 (Some v = Some w)) by congruence. done.
  - rewrite bool_decide_eq_true_2 by done. cbn [andb]. apply bool_decide_eq_true_2. intros Hn.
    apply Hiff in Hn. done.
Qed.

Lemma changed_not_in a b :
  map_sorted a -> map_sorted b ->
  omap (fun e => (fun w => (fst e, (snd e, w))) <$> std_find (fst e) (not_in b a)) (not_in a b) = changed a b.
Proof.
  intros Ha Hb.
  assert (Hnot : forall e, e ∉ b <-> std_find (fst e) b <> Some (snd e)).
  { intros [k v]. pose proof (std_find_elem_iff k v b Hb). cbn. naive_solver. }
  assert (Hl : forall l, (forall e, e ∈ l -> std_find (fst e) a = Some (snd e)) ->
    omap (fun e => (fun w => (fst e, (snd e, w))) <$> std_find (fst e) (not_in b a)) (not_in l b) = changed l b).
  { induction l as [|[k v] l IH]; intros Hall; [done|].
    assert (Hk : std_find k a = Some v) by (apply (Hall (k, v)); left).
    assert (IH' := IH (fun e He => Hall e (list_elem_of_further _ _ _ He))).
    pose proof (Hnot (k, v)) as Hn. cbn in Hn. unfold not_in at 2, changed. cbn [List.filter omap list_omap fst snd].
    case_bool_decide as Hin.
    - apply Hn in Hin. cbn [omap list_omap fst snd]. rewrite find_not_in, Hk by done.
      destruct (std_find k b) as [w|]; [|exact IH'].
      rewrite (bool_decide_eq_false_2 (Some v = Some w)), (bool_decide_eq_false_2 (v = w)) by congruence.
      cbn. f_equal. exact IH'.
    - assert (Hb' : std_find k b = Some v) by (apply dec_stable; intros Hx; by apply Hn in Hx).
      rewrite Hb', bool_decide_eq_true_2 by done. exact IH'. }
  apply Hl. intros [k v] He. cbn. by apply std_find_elem.
Qed.

Section Report.
Context `{BoostRegex}.

Lemma edited_keys mc (m : mapStrings) : fst <$> (edited mc <$> m) = fst <$> m.
Proof.
  rewrite <- list_fmap_compose. apply list_fmap_ext. intros i [k v] _. unfold edited. cbn.
  by destruct (std_find k (mIgnoreRegex mc)).
Qed.

Lemma erase_all {V} (m l : list (string * V)) :
  foldl (fun m e => std_erase (fst e) m) m l
  = List.filter (fun e => forallb (fun d => negb (equiv_key (fst e) (fst d))) l) m.
Proof.
  revert m. induction l as [|d l IH]; intros m; cbn [foldl forallb].
  - symmetry. by apply forallb_filter_id, forallb_forall.
  - rewrite IH. unfold std_erase. rewrite filter_both. apply filter_ext. intros e. by rewrite andb_comm.
Qed.

(** The entries to ignore are removed, and no other. *)
Lemma applyIgnoreRegex_spec mc m : map_sorted m -> applyIgnoreRegex mc m = relevant mc m.
Proof.
  intros Hm. unfold applyIgnoreRegex, relevant.
  assert (Hs : map_sorted (edited mc <$> m)) by (apply map_sorted_keys; rewrite edited_keys; by apply map_sorted_keys).
  rewrite erase_all. apply filter_ext_in. intros [k v] Hin%list_elem_of_In. cbn [fst].
  apply eq_true_iff_eq. rewrite forallb_forall, negb_true_iff. split.
  - intros Hall. destruct (to_delete mc (k, v)) eqn:Hd; [|done].
    assert (Hx : In (k, v) (List.filter (to_delete mc) (edited mc <$> m))) by (apply filter_In; split; [by apply list_elem_of_In|done]).
    apply Hall in Hx. cbn in Hx. by rewrite key_eq, bool_decide_eq_true_2 in Hx.
  - intros Hd [k' v'] [Hin' Hd']%filter_In. cbn. rewrite key_eq. case_bool_decide as E; [|done]. subst k'.
    apply list_elem_of_In in Hin'. apply std_find_elem_iff in Hin, Hin'; [|done..]. congruence.
Qed.

Lemma relevant_sorted mc m : map_sorted m -> map_sorted (relevant mc m).
Proof. intros Hm. apply filter_sorted, map_sorted_keys. rewrite edited_keys. by apply map_sorted_keys. Qed.

(** What a comparison of two maps comes to. *)
Lemma compared mc src dst {S} (missing : S -> string -> string -> S) s :
  map_sorted src -> map_sorted dst ->
  let a := relevant mc src in
  let b := relevant mc dst in
  let '(diffSrc, diffDst) := differences (applyIgnoreRegex mc src) (applyIgnoreRegex mc dst) in
  (diffSrc = [] <-> only_in a b = [] /\ changed a b = []) /\
  sort_out missing s diffSrc diffDst []
  = (foldl (fun s e => missing s (fst e) (snd e)) s (only_in a b), only_in b a, changed a b).
Proof.
  intros Hs Hd a b. rewrite !applyIgnoreRegex_spec by done. fold a b.
  assert (Ha : map_sorted a) by by apply relevant_sorted. assert (Hb : map_sorted b) by by apply relevant_sorted.
  rewrite differences_spec by done. split.
  - rewrite <- (only_in_not_in a b), <- (changed_not_in a b) by done. split; [by intros ->|].
    intros [Ho Hc]. destruct (not_in a b) as [|[k v] l] eqn:E; [done|]. exfalso. revert Ho Hc.
    unfold only_in, absent. cbn [List.filter fst omap list_omap snd].
    destruct (std_find k (not_in b a)); [by rewrite bool_decide_eq_false_2|by rewrite bool_decide_eq_true_2].
  - rewrite sort_out_spec; [|by apply filter_sorted..|by intros x e ?%not_elem_of_nil].
    by rewrite only_in_not_in, only_in_not_in, changed_not_in by done.
Qed.

Lemma retrieveDiff_calls {P} `{DiffPrinter P} (mc : MapCompare) (src dst : mapStrings) (printer : P) :
  map_sorted src -> map_sorted dst ->
  retrieveDiff src dst printer mc
  = if checkStop src mc || checkStop dst mc then (printer, false)
    else (call_all printer (header_calls (relevant mc src) (relevant mc dst)), true).
Proof.
  intros Hs Hd. unfold retrieveDiff. destruct (checkStop src mc || checkStop dst mc); [done|].
  pose proof (compared mc src dst (fun p k v => addHeaderDiff k (Some v) None p) printer Hs Hd) as Hc. cbn zeta in Hc.
  destruct (differences _ _) as [diffSrc diffDst]. destruct Hc as [_ ->]. f_equal.
  unfold header_calls. rewrite !call_all_app, <- !fold_calls. done.
Qed.

(** [C16] The comparison of the headers: unless a stop expression matches a value, the
    printer is called for the keys only the source has, then for those only the
    destination has, then for those whose values differ, each group in the order of
    the keys, after the ignored parts and the entries they empty are removed; nothing
    else is called, and the answer says whether the comparison was made. *)
Theorem headers_compared {P} `{DiffPrinter P} (mc : MapCompare) (src dst : mapStrings) (printer : P) :
  map_sorted src -> map_sorted dst ->
  retrieveDiff src dst printer mc
  = if checkStop src mc || checkStop dst mc then (printer, false)
    else (call_all printer (header_calls (relevant mc src) (relevant mc dst)), true).
Proof. apply retrieveDiff_calls. Qed.
End Report.

Module MapExamples.
Import Reference Trace.

Definition ignore_server : MapCompare := mkMapCompare [] [("Server", {| pattern := "v2"; icase := false |})]%string.
Definition old : mapStrings := [("Date", "today"); ("Server", "v2"); ("X", "1"); ("Y", "2")]%string.
Definition new : mapStrings := [("Date", "today"); ("X", "one"); ("Z", "3")]%string.

Lemma headers_compared_witness :
  map_sorted old /\ map_sorted new /\
  retrieveDiff old new ([] : list printer_call) ignore_server
  = if checkStop old ignore_server || checkStop new ignore_server then ([], false)
    else (call_all [] (header_calls (relevant ignore_server old) (relevant ignore_server new)), true).
Proof.
  assert (Ho : map_sorted old) by (repeat constructor).
  assert (Hn : map_sorted new) by (repeat constructor).
  split_and!; [exact Ho|exact Hn|]. by apply headers_compared.
Defined.

Example three_differences :
  retrieveDiff old new ([] : list printer_call) ignore_server
  = ([HeaderDiff "Y" (Some "2") None; HeaderDiff "Z" None (Some "3"); HeaderDiff "X" (Some "1") (Some "one")]%string, true).
Proof. vm_compute. reflexivity. Qed.

Example as_text :
  retrieveDiff_text old new "" ignore_server
  = ("Key missing in the destination map :" +:+ endl +:+ "'Y' ==> '2'" +:+ endl +:+ "Key missing in src map :" +:+ endl
     +:+ "'Z' ==> '3'" +:+ endl +:+ "Key with value differences :" +:+ endl +:+ "'X' ==> '1'/'one'" +:+ endl, true)%string.
Proof. vm_compute. reflexivity. Qed.
End MapExamples.
