(* ===== verification/StringCompare.v ===== *)
(** * StringCompare

    libws_diff/stringCompare.hh and .cc: the comparison of two texts line by line (or,
    for the base class, character by character) with the difference library of Dtl and
    UnifiedFormat. [outcome] carries the absence of a result of [compose], which would
    be an access outside an array: [vectDiff_lines] shows there is none. *)
From S2P Require Import Prelude CxxString Boost DiffPrinter Dtl DtlSearch DtlScript UnifiedFormat.
Local Open Scope N_scope.

Section StringCompare.
Context `{BoostRegex, BoostString}.

(** The base class, whose members its two subclasses share. *)
Record StringCompare : Type := mkStringCompare { mStopRegex : list regex; mIgnoreRegex : list regex }.

Definition newStringCompare : StringCompare := mkStringCompare [] [].

Definition addIgnoreRegex (re : string) (sc : StringCompare) : outcome StringCompare :=
  let! r := of_option BadExpression (regex_make re false) in
  Ret (mkStringCompare (mStopRegex sc) (mIgnoreRegex sc ++ [r])).

Definition addStopRegex (re : string) (sc : StringCompare) : outcome StringCompare :=
  let! r := of_option BadExpression (regex_make re false) in
  Ret (mkStringCompare (mStopRegex sc ++ [r]) (mIgnoreRegex sc)).

Fixpoint addAll (add : string -> StringCompare -> outcome StringCompare) (l : list string) (sc : StringCompare) :
    outcome StringCompare :=
  match l with
  | [] => Ret sc
  | re :: l => let! sc := add re sc in addAll add l sc
  end.

(** The constructor from the two lists of expressions. *)
Definition StringCompare_of (stopRegex ignoreRegex : list string) : outcome StringCompare :=
  let! sc := addAll addStopRegex stopRegex newStringCompare in addAll addIgnoreRegex ignoreRegex sc.

Definition merge (sc self : StringCompare) : StringCompare :=
  mkStringCompare (mStopRegex self ++ mStopRegex sc) (mIgnoreRegex self ++ mIgnoreRegex sc).

Definition ignoreCases (str : string) (sc : StringCompare) : string := foldl regex_erase str (mIgnoreRegex sc).

Definition checkStopRegex (str : string) (sc : StringCompare) : bool := existsb (regex_matches str) (mStopRegex sc).

(** [dtl::Diff d(src, dst); d.onUnserious(); d.compose(); d.composeUnifiedHunks();
    d.getUniHunks()] *)
Definition unified {E} `{EqDecision E} (src dst : list E) : outcome (list (uniHunk (E := E))) :=
  let! d := of_option StdException (compose (onUnserious (init src dst false))) in
  Ret (composeUnifiedHunks d []).

Definition vectDiff (src dst : list string) : outcome (string * bool) :=
  let! diff := unified src dst in
  let output := str_concat (UniHunkPrinter (fun s => s) <$> diff) in
  Ret (output, negb (str_empty output)).

(** [StringCompare::retrieveDiff], by character. *)
Definition retrieveDiff_chars (src dst output : string) (sc : StringCompare) : outcome (string * bool) :=
  if checkStopRegex src sc || checkStopRegex dst sc then Ret (output, false)
  else
    let! diff := unified (String.list_ascii_of_string (ignoreCases src sc))
                         (String.list_ascii_of_string (ignoreCases dst sc)) in
    Ret (str_concat (customHunkPrinter (fun c => String c EmptyString) <$> diff), true).

Definition header_lines (s : string) (sc : StringCompare) : list string :=
  split_compress newline (ignoreCases s sc).

Definition body_lines (s : string) (sc : StringCompare) : list string :=
  split_compress newline (replace_all (ignoreCases s sc) "><" (">" +:+ endl +:+ "<")).

(** [StringCompareHeader::retrieveDiff] *)
Definition retrieveDiff_header (src dst output : string) (sc : StringCompare) : outcome (string * bool) :=
  if checkStopRegex src sc || checkStopRegex dst sc then Ret (output, false)
  else vectDiff (header_lines src sc) (header_lines dst sc).

(** [StringCompareBody::retrieveDiff], of two texts. *)
Definition retrieveDiff_body (src dst output : string) (sc : StringCompare) : outcome (string * bool) :=
  if checkStopRegex src sc || checkStopRegex dst sc then Ret (output, false)
  else vectDiff (body_lines src sc) (body_lines dst sc).

(** The loop over the lines of a vector: [None] when it returns because of a stop
    expression. *)
Fixpoint prepare (l : list string) (sc : StringCompare) : option (list string) :=
  match l with
  | [] => Some []
  | s :: l =>
      if checkStopRegex s sc then None
      else match prepare l sc with Some l => Some (ignoreCases s sc :: l) | None => None end
  end.

(** [StringCompareBody::retrieveDiff], of two vectors of lines. *)
Definition retrieveDiff_vector (src dst : list string) (output : string) (sc : StringCompare) :
    outcome (string * bool) :=
  match prepare src sc with
  | None => Ret (output, false)
  | Some srcCopy =>
      match prepare dst sc with
      | None => Ret (output, false)
      | Some dstCopy => vectDiff srcCopy dstCopy
      end
  end.

(** The overloads that take a printer are the same code around the others. *)
Definition to_printer {P} `{DiffPrinter P} (retrieve : outcome (string * bool)) (printer : P) : outcome (P * bool) :=
  let! '(out, res) := retrieve in
  Ret (if str_empty out then printer else addFullDiff out printer, res).

Definition printDiff_header {P} `{DiffPrinter P} (src dst : string) (printer : P) (sc : StringCompare) :=
  to_printer (retrieveDiff_header src dst EmptyString sc) printer.
Definition printDiff_body {P} `{DiffPrinter P} (src dst : string) (printer : P) (sc : StringCompare) :=
  to_printer (retrieveDiff_body src dst EmptyString sc) printer.
Definition printDiff_vector {P} `{DiffPrinter P} (src dst : list string) (printer : P) (sc : StringCompare) :=
  to_printer (retrieveDiff_vector src dst EmptyString sc) printer.

(** ** The line comparison *)

(** The text of the unified hunks of two sequences of lines. *)
Definition unified_text (src dst : list string) : string :=
  match unified src dst with
  | Ret diff => str_concat (UniHunkPrinter (fun s => s) <$> diff)
  | Throw _ => EmptyString
  end.

Lemma unified_spec {E} `{EqDecision E} (src dst : list E) :
  exists diff, unified src dst = Ret diff /\ (diff = [] <-> src = dst).
Proof.
  destruct (compose_spec src dst) as (d & Hd & _). exists (composeUnifiedHunks d []).
  unfold unified. rewrite Hd. split; [done|]. by apply no_hunk.
Qed.

Lemma vectDiff_lines (src dst : list string) :
  vectDiff src dst = Ret (unified_text src dst, bool_decide (src <> dst)) /\
  (unified_text src dst = EmptyString <-> src = dst).
Proof.
  destruct (unified_spec src dst) as (diff & Hd & Hnil). unfold vectDiff, unified_text. rewrite Hd. cbn [obind].
  assert (Hempty : str_concat (UniHunkPrinter (fun s => s) <$> diff) = EmptyString <-> diff = []).
  { destruct diff as [|h diff]; [done|]. split; done. }
  rewrite Hempty. split; [|done]. do 2 f_equal. destruct (decide (src = dst)) as [Heq|Hne].
  - rewrite (proj2 Hnil Heq). rewrite bool_decide_eq_false_2; [done|naive_solver].
  - rewrite bool_decide_eq_true_2 by done. destruct diff as [|h diff]; [by destruct Hne; apply Hnil|done].
Qed.

Lemma to_printer_lines {P} `{DiffPrinter P} (src dst : list string) (printer : P) :
  to_printer (vectDiff src dst) printer
  = Ret (if bool_decide (src = dst) then (printer, false) else (addFullDiff (unified_text src dst) printer, true)).
Proof.
  destruct (vectDiff_lines src dst) as [-> Hempty]. cbn [to_printer obind]. f_equal.
  destruct (decide (src = dst)) as [Heq|Hne].
  - rewrite (proj2 Hempty Heq). rewrite bool_decide_eq_false_2, bool_decide_eq_true_2; [done..|naive_solver].
  - rewrite bool_decide_eq_true_2, bool_decide_eq_false_2 by done.
    destruct (unified_text src dst) eqn:Ht; [by destruct Hne; apply Hempty|done].
Qed.

Lemma printDiff_body_spec {P} `{DiffPrinter P} (src dst : string) (printer : P) (sc : StringCompare) :
  printDiff_body src dst printer sc
  = Ret (if checkStopRegex src sc || checkStopRegex dst sc then (printer, false)
         else if bool_decide (body_lines src sc = body_lines dst sc) then (printer, false)
         else (addFullDiff (unified_text (body_lines src sc) (body_lines dst sc)) printer, true)).
Proof.
  unfold printDiff_body, retrieveDiff_body. destruct (checkStopRegex src sc || checkStopRegex dst sc); [done|].
  by rewrite to_printer_lines.
Qed.

(** [C17] The comparison of the bodies: it always ends with an answer; unless a stop
    expression matches one of the two texts, the answer is yes exactly when their
    lines differ once the ignored parts are removed and the tags put on lines of
    their own, and the printer then receives the unified difference of these lines,
    and nothing otherwise. What is ignored is the part of the text that an expression
    matches; docs/USAGE.md has it ignore the whole line, which is not what is done
    ([rest_of_ignored_line]). *)
Theorem bodies_compared {P} `{DiffPrinter P} (src dst : string) (printer : P) (sc : StringCompare) :
  printDiff_body src dst printer sc
  = Ret (if checkStopRegex src sc || checkStopRegex dst sc then (printer, false)
         else if bool_decide (body_lines src sc = body_lines dst sc) then (printer, false)
         else (addFullDiff (unified_text (body_lines src sc) (body_lines dst sc)) printer, true)).
Proof. apply printDiff_body_spec. Qed.

(** The vector overload stops at the first line that matches. *)
Lemma prepare_spec l sc :
  prepare l sc = if existsb (fun s => checkStopRegex s sc) l then None else Some ((fun s => ignoreCases s sc) <$> l).
Proof.
  induction l as [|s l IH]; [done|]. cbn. destruct (checkStopRegex s sc); [done|]. cbn. rewrite IH. by case_match.
Qed.

Lemma vectors_compared {P} `{DiffPrinter P} (src dst : list string) (printer : P) (sc : StringCompare) :
  printDiff_vector src dst printer sc
  = Ret (if existsb (fun s => checkStopRegex s sc) (src ++ dst) then (printer, false)
         else let clean l := (fun s => ignoreCases s sc) <$> l in
              if bool_decide (clean src = clean dst) then (printer, false)
              else (addFullDiff (unified_text (clean src) (clean dst)) printer, true)).
Proof.
  unfold printDiff_vector, retrieveDiff_vector. rewrite !prepare_spec, existsb_app.
  destruct (existsb _ src); [done|]. destruct (existsb _ dst); [done|]. cbn [orb]. by rewrite to_printer_lines.
Qed.

(** The character comparison always answers when no stop expression matches. *)
Lemma chars_compared src dst output sc :
  checkStopRegex src sc || checkStopRegex dst sc = false ->
  exists text, retrieveDiff_chars src dst output sc = Ret (text, true) /\
    (text = EmptyString <-> ignoreCases src sc = ignoreCases dst sc).
Proof.
  intros Hs. unfold retrieveDiff_chars. rewrite Hs.
  destruct (unified_spec (String.list_ascii_of_string (ignoreCases src sc)) (String.list_ascii_of_string (ignoreCases dst sc)))
    as (diff & -> & Hnil). cbn [obind]. eexists. split; [done|].
  assert (Hchars : forall a b, String.list_ascii_of_string a = String.list_ascii_of_string b <-> a = b).
  { intros a b. split; [|by intros ->]. intros Heq.
    by rewrite <- (String.string_of_list_ascii_of_string a), Heq, String.string_of_list_ascii_of_string. }
  rewrite <- (Hchars (ignoreCases src sc)), <- Hnil. by destruct diff.
Qed.
End StringCompare.

Arguments StringCompare : clear implicits.
Arguments StringCompare {_}.

Module StringExamples.
Import Reference Trace.

Definition ignore_date : StringCompare :=
  mkStringCompare [{| pattern := "busy"; icase := false |}] [{| pattern := "12:00"; icase := false |}]%string.

Example same_bodies :
  printDiff_body "<a>12:00</a>" "<a></a>" ([] : list printer_call) ignore_date = Ret ([], false).
Proof. vm_compute. reflexivity. Qed.

Example other_bodies :
  printDiff_body "<a><b>1</b></a>" "<a><b>2</b></a>" ([] : list printer_call) ignore_date
  = Ret ([FullDiff ("@@ -1,3 +1,3 @@" +:+ endl +:+ " <a>" +:+ endl +:+ "-<b>1</b>" +:+ endl +:+ "+<b>2</b>" +:+ endl
                    +:+ " </a>" +:+ endl)]%string, true).
Proof. vm_compute. reflexivity. Qed.

(** A line that an ignored expression matches still differs by the rest of it. *)
Example rest_of_ignored_line :
  printDiff_body "at 12:00 sharp" "at 12:00 about" ([] : list printer_call) ignore_date
  = Ret ([FullDiff ("@@ -1,1 +1,1 @@" +:+ endl +:+ "-at  sharp" +:+ endl +:+ "+at  about" +:+ endl)]%string, true).
Proof. vm_compute. reflexivity. Qed.

(** The values of testing/libws_diff/testWsStringDiff.cc. *)
Definition test_regexes : outcome StringCompare := StringCompare_of ["duplicate=False"; "stopregex"]%string ["test"]%string.
Definition tested {A} (f : StringCompare -> outcome A) : outcome A := let! sc := test_regexes in f sc.

Example testBasicCompare :
  retrieveDiff_chars "essai no diff" "essai ni diff" "" newStringCompare
  = Ret ("@@ -5,7 +5,7 @@" +:+ endl +:+ "i n" +:+ endl +:+ "-o" +:+ endl +:+ "+i" +:+ endl +:+ "  di", true)%string /\
  retrieveDiff_chars "essai no diff" "essai no diff" "" newStringCompare = Ret (EmptyString, true).
Proof. split; vm_compute; reflexivity. Qed.

Example testHeaderStringDiff :
  tested (retrieveDiff_header ("line1" +:+ endl +:+ "line2" +:+ endl +:+ "line3") ("line1" +:+ endl +:+ "line4" +:+ endl +:+ "line3") "")
  = Ret ("@@ -1,3 +1,3 @@" +:+ endl +:+ " line1" +:+ endl +:+ "-line2" +:+ endl +:+ "+line4" +:+ endl +:+ " line3" +:+ endl, true)%string.
Proof. vm_compute. reflexivity. Qed.

Example testBodyStringDiff :
  tested (retrieveDiff_body "<line1test><line2>content<line3><line4>" "<line1><line4>content<line3><line4>" "")
  = Ret ("@@ -1,3 +1,3 @@" +:+ endl +:+ " <line1>" +:+ endl +:+ "-<line2>content<line3>" +:+ endl
         +:+ "+<line4>content<line3>" +:+ endl +:+ " <line4>" +:+ endl, true)%string /\
  tested (retrieveDiff_body "<line1test><line2 duplicate=Fals>content<line3stopregex><line4>" "" "kept")
  = Ret ("kept"%string, false).
Proof. split; vm_compute; reflexivity. Qed.
End StringExamples.
