(* ===== verification/Log.v ===== *)
(** * Log

    Log.hh and Log.cc: the sole instance of the class is the syslog facility it was
    made with, [None] while the pointer is null. What the system does of an entry
    (vsyslog, vprintf) is not modelled; the entry is. *)
From S2P Require Import Prelude CxxString StdMap Boost.
Local Open Scope Z_scope.

(** ** syslog.h *)
Definition LOG_CRIT : Z := 2.
Definition LOG_ERR : Z := 3.
Definition LOG_WARNING : Z := 4.
Definition LOG_NOTICE : Z := 5.
Definition LOG_INFO : Z := 6.
Definition LOG_DEBUG : Z := 7.
Definition LOG_LOCAL (n : Z) : Z := Z.shiftl (16 + n) 3.

(** ** Facilities *)

(** [setStrToFacility()] *)
Definition gStrToFacility : list (string * Z) :=
  foldl (fun m n => std_set ("LOCAL" +:+ string_of_Z n) (LOG_LOCAL n) m) [] (seqZ 0 8).

Definition strToFacility `{BoostString} (facility : string) : Z :=
  match std_find (to_upper facility) gStrToFacility with
  | None => LOG_LOCAL 2
  | Some f => f
  end.

(** ** The instance *)

Definition init_facility (pFacility : Z) (gInstance : option Z) : option Z :=
  match gInstance with None => Some pFacility | Some f => Some f end.

Definition init_string `{BoostString} (pFacility : string) (gInstance : option Z) : option Z :=
  init_facility (strToFacility pFacility) gInstance.

Definition init_default (gInstance : option Z) : option Z := init_facility (LOG_LOCAL 2) gInstance.

(** [Log::close()]: the instance is deleted when there is one. *)
Definition close (gInstance : option Z) : option Z := None.

Definition stringLevel (pLevel : Z) : string :=
  if pLevel =? LOG_DEBUG then "debug"
  else if pLevel =? LOG_INFO then "info"
  else if pLevel =? LOG_NOTICE then "notice"
  else if pLevel =? LOG_WARNING then "warn"
  else if pLevel =? LOG_ERR then "error"
  else if pLevel =? LOG_CRIT then "crit"
  else "debug".

(** ** Entries *)

Record entry : Type := mkEntry { priority : Z; message : string }.

#[export] Instance entry_eq_dec : EqDecision entry.
Proof. solve_decision. Defined.

Definition gLogLevel : Z := LOG_DEBUG.

(** [VLOG(level, code, msg)]: [text] is the format with its arguments. The result is
    the entry given to syslog and the line written on the standard output; there is
    none when the instance is missing, which the macro dereferences. *)
Definition VLOG (level code : Z) (text : string) (gInstance : option Z) : option (entry * option string) :=
  match gInstance with
  | None => None
  | Some mFacility =>
      Some (mkEntry (Z.lor level mFacility) text,
            if level <=? gLogLevel
            then Some ("[" +:+ stringLevel level +:+ "] code:" +:+ string_of_Z code +:+ " - " +:+ text +:+ endl)
            else None)
  end.

Definition info (pCode : Z) (pMsg : string) := VLOG LOG_INFO pCode pMsg.
Definition notice (pCode : Z) (pMsg : string) := VLOG LOG_NOTICE pCode pMsg.
Definition warn (pCode : Z) (pMsg : string) := VLOG LOG_WARNING pCode pMsg.
Definition error (pCode : Z) (pMsg : string) := VLOG LOG_ERR pCode pMsg.
Definition crit (pCode : Z) (pMsg : string) := VLOG LOG_CRIT pCode pMsg.

(** ** Lemmas *)

(** Closing first is what makes a second facility the one that is used. *)
Lemma init_closed `{BoostString} f (gInstance : option Z) :
  init_string f (close gInstance) = Some (strToFacility f).
Proof. done. Qed.

Lemma init_keeps `{BoostString} f g : init_string f (Some g) = Some g.
Proof. done. Qed.

Lemma init_default_some gInstance : is_Some (init_default gInstance).
Proof. destruct gInstance; by eexists. Qed.

Definition facilities : list (string * Z) := (fun n => ("LOCAL" +:+ string_of_Z n, LOG_LOCAL n)) <$> seqZ 0 8.

Lemma gStrToFacility_eq : gStrToFacility = facilities.
Proof. vm_compute. done. Qed.

Lemma facilities_sorted : map_sorted facilities.
Proof.
  rewrite <- gStrToFacility_eq. unfold gStrToFacility.
  assert (Hs : map_sorted ([] : list (string * Z))) by constructor. revert Hs.
  generalize ([] : list (string * Z)), (seqZ 0 8). intros m l. revert m.
  induction l as [|n l IH]; intros m Hm; [done|]. cbn [foldl]. by apply IH, std_modify_sorted.
Qed.

(** The facilities are the eight local ones, and the third of them by default. *)
Lemma strToFacility_local {B : BoostString} {HB : BoostStringLaws B} (f : string) :
  (exists n, 0 <= n < 8 /\ string_map toupper f = "LOCAL" +:+ string_of_Z n /\ strToFacility f = LOG_LOCAL n) \/
  (~ (exists n, 0 <= n < 8 /\ string_map toupper f = "LOCAL" +:+ string_of_Z n) /\ strToFacility f = LOG_LOCAL 2).
Proof.
  unfold strToFacility. rewrite to_upper_spec. generalize (string_map toupper f). intros u.
  rewrite gStrToFacility_eq. pose proof (fun v => std_find_elem_iff u v _ facilities_sorted) as Hfind.
  assert (Hin : forall v, (u, v) ∈ facilities <->
    exists n, 0 <= n < 8 /\ u = "LOCAL" +:+ string_of_Z n /\ v = LOG_LOCAL n).
  { intros v. unfold facilities. rewrite list_elem_of_fmap. split.
    - intros (n & [= -> ->] & Hn%elem_of_seqZ). exists n. split; [lia|done].
    - intros (n & Hn & -> & ->). exists n. split; [done|]. apply elem_of_seqZ. lia. }
  destruct (std_find u facilities) as [v|].
  - left. destruct (Hfind v) as [Hv _]. destruct (proj1 (Hin v) (Hv eq_refl)) as (n & Hn & -> & ->). by exists n.
  - right. split; [|done]. intros (n & Hn & Hu).
    destruct (Hfind (LOG_LOCAL n)) as [_ Hv]. discriminate Hv. apply Hin. by exists n.
Qed.

(** Every level keeps its name, and every entry the facility of the instance. *)
Lemma error_entry code text f :
  exists line, error code text (Some f) = Some (mkEntry (Z.lor LOG_ERR f) text, Some line).
Proof. by eexists. Qed.
