(* ===== verification/ResponseDiff.v ===== *)
(** * ResponseDiff

    response_diff.cc, CassandraDiff.h and CassandraDiff.cc: how mod_compare writes the
    differences it found: to its file, or to syslog line by line, under the mutex its
    processes share; or to syslog in one entry, without it. [World] is the state of the module: its globals, the differences found by
    the database layer, and the trace of what it did to the outside, oldest first. *)
From S2P Require Import Prelude CxxString StdMap Boost RequestInfo DiffPrinter Log.
From S2P Require JsonDiffPrinter.
Local Open Scope Z_scope.

(** ** CassandraDiff *)

Record FieldInfo : Type := mkField {
  mName : string;
  mMultivalueKey : string;
  mDBValue : string;
  mReqValue : string
}.

#[export] Instance FieldInfo_eq_dec : EqDecision FieldInfo.
Proof. solve_decision. Defined.

Definition quoted_field (s : string) : string := "'" +:+ s +:+ "'" +:+ endl.

(** [operator<<] *)
Definition show_field (f : FieldInfo) : string :=
  "Field name in the db : " +:+ quoted_field (mName f) +:+
  "Multivalue/Collection index/key : " +:+ quoted_field (mMultivalueKey f) +:+
  "Value retrieved in Database : " +:+ quoted_field (mDBValue f) +:+
  "Value about to be set from Request : " +:+ quoted_field (mReqValue f).

(** [std::multimap<std::string, FieldInfo>] *)
Definition Differences : Type := list (string * FieldInfo).

(** ** The state of the module *)

Inductive event : Type :=
  | Syslog (e : entry)          (** given to syslog *)
  | NoInstance                  (** the null instance of [Log] was dereferenced *)
  | Lock | Consistent | Unlock  (** the global mutex *)
  | Insert (text : string)      (** [gFile << text]: to the buffer of the stream *)
  | Flush                       (** [gFile.flush()]: what is in the buffer is in the file *)
  | Close                       (** [gFile.close()] *)
  | Open (path : string) (truncated : bool).

#[export] Instance event_eq_dec : EqDecision event.
Proof. solve_decision. Defined.

Record World : Type := mkWorld {
  gWriteInFile : bool;
  gFilePath : string;
  gLogFacility : string;
  gFile_is_open : bool;
  gInstance : option Z;
  lDiff : Differences;
  trace : list event
}.

Definition emit (e : event) (w : World) : World :=
  mkWorld (gWriteInFile w) (gFilePath w) (gLogFacility w) (gFile_is_open w) (gInstance w) (lDiff w)
    (trace w ++ [e]).

Definition set_lDiff (d : Differences) (w : World) : World :=
  mkWorld (gWriteInFile w) (gFilePath w) (gLogFacility w) (gFile_is_open w) (gInstance w) d (trace w).

Definition set_gFile_is_open (b : bool) (w : World) : World :=
  mkWorld (gWriteInFile w) (gFilePath w) (gLogFacility w) b (gInstance w) (lDiff w) (trace w).

(** What the system answers: whether [getGlobalMutex] finds the mutex, whether its
    owner died, and whether a file can be opened. It may depend on the past. *)
Class Host : Type := {
  getGlobalMutex : World -> bool;
  owner_dead : World -> bool;
  file_opens : string -> World -> bool
}.

(** The archive of boost, given the values in the order they are put in. *)
Inductive archived : Type := AString (s : string) | AMap (m : mapStr).
Class BoostArchive : Type := text_oarchive : list archived -> string.

(** The value of an [int] nobody wrote. *)
Class Indeterminate : Type := indeterminate : Z.

Definition LOGMAXSIZE : Z := 65536.

Definition ELAPSED_TIME_BY_DUP : string := "ELAPSED_TIME_BY_DUP".

(** [RequestInfo::serialize] *)
Definition serialize (r : RequestInfo) : list archived :=
  [AString (mRequest r); AMap (mReqHeader r); AString (mReqBody r); AMap (mResponseHeader r);
   AString (mResponseBody r); AMap (mDupResponseHeader r); AString (mDupResponseBody r)].

Definition map2string (pMap : mapStr) (pString : string) : string :=
  foldl (fun s kv => s +:+ fst kv +:+ ": " +:+ snd kv +:+ endl) pString pMap.

(** [Log::error(12, ...)] *)
Definition log_error (text : string) (w : World) : World :=
  match error 12 text (gInstance w) with
  | Some (e, _) => emit (Syslog e) w
  | None => emit NoInstance w
  end.

(** [Log::warn(code, ...)] *)
Definition log_warn (pCode : Z) (text : string) (w : World) : World :=
  match warn pCode text (gInstance w) with
  | Some (e, _) => emit (Syslog e) w
  | None => emit NoInstance w
  end.

(** ** Writing *)

(** The sums are exact for a text shorter than 2^31 - 65536 characters. *)
Fixpoint facility_loop (fuel : nat) (i lSplitSize stringLength : Z) (pDiffLog : string) (w : World) : World :=
  match fuel with
  | O => w
  | S fuel =>
      if i <? stringLength then
        let lSplitSize := if stringLength <? i + lSplitSize then stringLength - i else lSplitSize in
        let piece := str_take (Z.to_N lSplitSize) (str_drop (Z.to_N i) pDiffLog) in
        facility_loop fuel (i + lSplitSize) lSplitSize stringLength pDiffLog (log_error (cstr piece) w)
      else w
  end.

Definition writeInFacility (pDiffLog : string) (w : World) : World :=
  let stringLength := to_int32 (Z.of_N (str_len pDiffLog)) in
  facility_loop (Z.to_nat stringLength) 0 LOGMAXSIZE stringLength pDiffLog w.

Section ResponseDiff.
Context `{BoostString, Host, Indeterminate}.

(** The mutex is taken, made consistent when its owner died, and given back after
    [body]; without it nothing is written. *)
Definition under_mutex (body : World -> World) (w : World) : World :=
  if negb (getGlobalMutex w)
  then log_error "[COMPARE] Cannot write differences ! Mutex not initialized" w
  else
    let dead := owner_dead w in
    let w := emit Lock w in
    let w := if dead then emit Consistent w else w in
    emit Unlock (body w).

(** The archive goes to the buffer of the stream, and to the file when the buffer does:
    there is no flush before the mutex is given back. *)
Definition writeSerializedRequest `{BoostArchive} (req : RequestInfo) (w : World) : World :=
  if negb (gWriteInFile w) then writeInFacility (text_oarchive (serialize req)) w
  else if gFile_is_open w then under_mutex (emit (Insert (text_oarchive (serialize req)))) w
  else log_error "[COMPARE] File not correctly opened" w.

(** The entries of the request, oldest first, are told to the printer and removed. *)
Definition writeCassandraDiff {P} `{DiffPrinter P} (pUniqueID : string) (printer : P) (w : World) :
    bool * P * World :=
  match mm_equal_range pUniqueID (lDiff w) with
  | [] => (false, printer, w)
  | lPairIter =>
      (true,
       foldl (fun p e => addCassandraDiff (mName (snd e)) (mMultivalueKey (snd e)) (mDBValue (snd e))
                           (mReqValue (snd e)) p) printer lPairIter,
       set_lDiff (std_erase pUniqueID (lDiff w)) w)
  end.

Definition checkCassandraDiff (pUniqueID : string) (w : World) : bool :=
  match mm_equal_range pUniqueID (lDiff w) with [] => false | _ => true end.

Fixpoint ends_with_mark (s : string) : bool :=
  match s with
  | EmptyString => false
  | String c EmptyString => Ascii.eqb c "?"%char
  | String _ t => ends_with_mark t
  end.

Definition output_report {P} `{DiffPrinter P} (res : string) (printer : P) (w : World) : World :=
  if negb (gWriteInFile w) then
    if bool_decide (getPrinterType printer = MULTILINE)
    then under_mutex (fun w => foldl (fun w l => writeInFacility l w) w (split newline res)) w
    else log_error (cstr res) w
  else if gFile_is_open w then under_mutex (fun w => emit Flush (emit (Insert res) w)) w
  else log_error "[COMPARE] File not correctly opened" w.

(** The request in the report: its URI, its body, its headers and the statuses. *)
Definition print_request {P} `{DiffPrinter P} (pReqInfo : RequestInfo) (printer : P) : P :=
  let printer :=
    if ends_with_mark (mRequest pReqInfo)
    then addRequestUri (mRequest pReqInfo) (mReqBody pReqInfo) printer
    else
      let printer := addRequestUri (mRequest pReqInfo) "" printer in
      if str_empty (mReqBody pReqInfo) then printer else addRequestBody (mReqBody pReqInfo) printer in
  let printer := foldl (fun p kv => addRequestHeader (fst kv) (snd kv) p) printer (mReqHeader pReqInfo) in
  let printer := addStatus "DUP" (default indeterminate (mReqHttpStatus pReqInfo)) printer in
  addStatus "COMP" (default indeterminate (mDupResponseHttpStatus pReqInfo)) printer.

(** [time] is [time.total_milliseconds()], [today] the date in the extended ISO
    format. The conversion of the header is made twice, the second time outside
    the [try]. The differences of [int]s wrap. *)
Definition writeDifferences {P} `{DiffPrinter P} (pReqInfo : RequestInfo) (printer : P) (time : Z) (today : string)
    (w : World) : World * outcome P :=
  let printer := if 0 <? time then addInfoNumber "ElapsedTime" time printer else printer in
  let it := std_find ELAPSED_TIME_BY_DUP (mReqHeader pReqInfo) in
  let '(printer, w) :=
    match it with
    | None => (printer, w)
    | Some v =>
        match cast_int v with
        | Some t => (addRuntime "DIFF" (to_int32 (t - getElapsedTimeMS pReqInfo)) printer, w)
        | None => (printer, log_error ("[COMPARE] Failed to cast ELAPSED_TIME_BY_DUP: " +:+ cstr v +:+ " to an int") w)
        end
    end in
  let printer := addInfo "Date" today printer in
  match match it with
        | None => Ret printer
        | Some v => let! t := of_option BadLexicalCast (cast_int v) in Ret (addRuntime "DUP" t printer)
        end with
  | Throw e => (w, Throw e)
  | Ret printer =>
      let printer := addRuntime "COMP" (getElapsedTimeMS pReqInfo) printer in
      let printer := print_request pReqInfo printer in
      let '(cassDiff, printer, w) := writeCassandraDiff (mId pReqInfo) printer w in
      let '(printer, res, diff) := retrieveDiff EmptyString printer in
      if negb cassDiff && negb diff then (w, Ret printer)
      else (output_report res printer w, Ret printer)
  end.
End ResponseDiff.

(** ** Lemmas on the state *)

(** *** What was written *)

(** The text put in the stream since the module started, and what syslog was given. *)
Definition inserted (e : event) : option string := match e with Insert s => Some s | _ => None end.
Definition logged (e : event) : option entry := match e with Syslog e => Some e | _ => None end.
Definition file_text (l : list event) : string := str_concat (omap inserted l).

Lemma file_text_app a b : file_text (a ++ b) = file_text a +:+ file_text b.
Proof. unfold file_text. by rewrite omap_app, str_concat_app. Qed.

(** The world after some more events. *)
Definition emits (l : list event) (w : World) : World := foldl (fun w e => emit e w) w l.

Lemma emits_app a b w : emits (a ++ b) w = emits b (emits a w).
Proof. apply foldl_app. Qed.

Lemma emits_eq l w :
  emits l w = mkWorld (gWriteInFile w) (gFilePath w) (gLogFacility w) (gFile_is_open w) (gInstance w) (lDiff w)
                (trace w ++ l).
Proof.
  revert w. induction l as [|e l IH]; intros w; [destruct w; cbn; by rewrite app_nil_r|].
  change (emits (e :: l) w) with (emits l (emit e w)). rewrite IH. unfold emit. cbn. by rewrite <- app_assoc.
Qed.

(** The entry [Log::error] makes of a text, and its event. *)
Definition error_event (text : string) (g : option Z) : event :=
  match g with Some f => Syslog (mkEntry (Z.lor LOG_ERR f) text) | None => NoInstance end.

Lemma log_error_emits text w : log_error text w = emits [error_event text (gInstance w)] w.
Proof. unfold log_error, error, VLOG, error_event. by destruct (gInstance w). Qed.

(** *** The mutex *)

(** The stream is used only by the holder of the mutex, which is not taken twice. *)
Fixpoint well_locked (held : bool) (l : list event) : bool :=
  match l with
  | [] => negb held
  | Lock :: l => negb held && well_locked true l
  | Unlock :: l => held && well_locked false l
  | Consistent :: l | Insert _ :: l | Flush :: l => held && well_locked held l
  | _ :: l => well_locked held l
  end.

(** The text inserted is in the file each time the mutex is given back. *)
Fixpoint flushed_by_unlock (pending : bool) (l : list event) : bool :=
  match l with
  | [] => true
  | Insert _ :: l => flushed_by_unlock true l
  | Flush :: l => flushed_by_unlock false l
  | Unlock :: l => negb pending && flushed_by_unlock pending l
  | _ :: l => flushed_by_unlock pending l
  end.

Definition flushed (l : list event) : Prop := flushed_by_unlock false l = true.
Definition never_flushed (l : list event) : Prop := Flush ∉ l.

Definition is_lock (e : event) : bool := match e with Lock => true | _ => false end.
Definition locks (l : list event) : nat := length (List.filter is_lock l).

Definition is_log (e : event) : Prop := match e with Syslog _ | NoInstance => True | _ => False end.

Lemma well_locked_logs held l rest : Forall is_log l -> well_locked held (l ++ rest) = well_locked held rest.
Proof. induction 1 as [|e l He _ IH]; [done|]. destruct e; done. Qed.

Lemma locks_app a b : locks (a ++ b) = (locks a + locks b)%nat.
Proof. unfold locks. by rewrite List.filter_app, length_app. Qed.

Lemma locks_logs l : Forall is_log l -> locks l = O.
Proof. induction 1 as [|e l He _ IH]; [done|]. destruct e; done. Qed.

Lemma logs_flushed l : Forall is_log l -> flushed l.
Proof. unfold flushed. induction 1 as [|e l He _ IH]; [done|]. by destruct e. Qed.

Lemma logs_not_flushed l : Forall is_log l -> never_flushed l.
Proof. intros Hl Hin. rewrite Forall_forall in Hl. by apply Hl in Hin. Qed.

Lemma logs_emits l w (f : string -> string) :
  foldl (fun w p => log_error (f p) w) w l = emits ((fun p => error_event (f p) (gInstance w)) <$> l) w.
Proof.
  revert w. induction l as [|p l IH]; intros w; [done|]. cbn [foldl fmap list_fmap]. rewrite IH, log_error_emits.
  change (gInstance (emits [error_event (f p) (gInstance w)] w)) with (gInstance w). by rewrite <- emits_app.
Qed.

Lemma error_event_log text g : is_log (error_event text g).
Proof. by destruct g. Qed.

Lemma error_events_logs {X} (f : X -> string) g (l : list X) : Forall is_log ((fun p => error_event (f p) g) <$> l).
Proof. apply Forall_fmap, Forall_true. intros p. apply error_event_log. Qed.

(** *** Splitting a text for syslog *)

Lemma facility_loop_spec fuel i s w :
  0 <= i <= Z.of_N (str_len s) -> Z.of_N (str_len s) - i <= Z.of_nat fuel ->
  exists ps, facility_loop fuel i LOGMAXSIZE (Z.of_N (str_len s)) s w
             = foldl (fun w p => log_error (cstr p) w) w ps /\
  str_concat ps = str_drop (Z.to_N i) s /\
  Forall (fun p => (1 <= str_len p <= 65536)%N) ps /\
  Z.of_nat (length ps) = (Z.of_N (str_len s) - i + 65535) / 65536.
Proof.
  unfold LOGMAXSIZE. revert i w. induction fuel as [|fuel IH]; intros i w Hi Hf.
  { exists []. split; [done|]. rewrite str_drop_all by lia. split_and!; [done|done|].
    by replace (Z.of_N (str_len s) - i) with 0 by lia. }
  cbn [facility_loop]. destruct (Z.ltb_spec i (Z.of_N (str_len s))) as [Hlt|Hge].
  2:{ exists []. split; [done|]. rewrite str_drop_all by lia. split_and!; [done|done|].
      by replace (Z.of_N (str_len s) - i) with 0 by lia. }
  cbv zeta. destruct (Z.ltb_spec (Z.of_N (str_len s)) (i + 65536)) as [Hlast|Hmore].
  - set (n := Z.of_N (str_len s) - i). exists [str_take (Z.to_N n) (str_drop (Z.to_N i) s)].
    replace (i + n) with (Z.of_N (str_len s)) by lia. split_and!.
    + destruct fuel; cbn [facility_loop]; [done|]. by rewrite Z.ltb_irrefl.
    + cbn [str_concat]. rewrite sapp_nil_r. apply str_take_all. rewrite str_len_drop. lia.
    + constructor; [|done]. rewrite str_len_take, str_len_drop. lia.
    + cbn [length]. replace (n + 65535) with (1 * 65536 + (n - 1)) by lia.
      rewrite Z.div_add_l, Z.div_small; lia.
  - destruct (IH (i + 65536) (log_error (cstr (str_take (Z.to_N 65536) (str_drop (Z.to_N i) s))) w))
      as (ps & -> & Hps & Hsz & Hlen); [lia..|].
    exists (str_take (Z.to_N 65536) (str_drop (Z.to_N i) s) :: ps). split_and!; [done|..].
    + cbn [str_concat]. rewrite Hps.
      replace (Z.to_N (i + 65536)) with (Z.to_N 65536 + Z.to_N i)%N by lia.
      by rewrite <- str_drop_drop, str_take_drop.
    + constructor; [|done]. rewrite str_len_take, str_len_drop. lia.
    + cbn [length]. rewrite Nat2Z.inj_succ, Hlen.
      replace (Z.of_N (str_len s) - i + 65535) with (1 * 65536 + (Z.of_N (str_len s) - (i + 65536) + 65535)) by lia.
      rewrite Z.div_add_l by lia. lia.
Qed.

Lemma facility_loop_logs fuel i n len s w :
  exists ps, facility_loop fuel i n len s w = foldl (fun w p => log_error (cstr p) w) w ps.
Proof.
  revert i n w. induction fuel as [|fuel IH]; intros i n w; [by exists []|]. cbn [facility_loop].
  destruct (i <? len); [|by exists []]. cbv zeta.
  destruct (IH (i + (if len <? i + n then len - i else n)) (if len <? i + n then len - i else n)
    (log_error (cstr (str_take (Z.to_N (if len <? i + n then len - i else n)) (str_drop (Z.to_N i) s))) w)) as [ps ->].
  by eexists (_ :: ps).
Qed.

(** A report of any length that fits in memory reaches syslog whole, in the fewest
    entries of [LOGMAXSIZE] characters. *)
Definition facility_pieces (s : string) (ps : list string) : Prop :=
  str_concat ps = s /\ Forall (fun p => (1 <= str_len p <= 65536)%N) ps /\
  Z.of_nat (length ps) = (Z.of_N (str_len s) + 65535) / 65536.

Lemma writeInFacility_spec s w :
  Z.of_N (str_len s) < 2147418112 ->
  exists ps, facility_pieces s ps /\
    writeInFacility s w = emits ((fun p => error_event (cstr p) (gInstance w)) <$> ps) w.
Proof.
  intros Hs. unfold writeInFacility. rewrite to_int32_small by lia. cbv zeta.
  destruct (facility_loop_spec (Z.to_nat (Z.of_N (str_len s))) 0 s w) as (ps & -> & Hc & Hsz & Hl); [lia..|].
  exists ps. rewrite logs_emits. split; [|done]. split_and!; [by rewrite Hc; destruct s|done|]. by rewrite Hl, Z.sub_0_r.
Qed.

Lemma writeInFacility_logs s w : exists l, Forall is_log l /\ writeInFacility s w = emits l w.
Proof.
  unfold writeInFacility. destruct (facility_loop_logs (Z.to_nat (to_int32 (Z.of_N (str_len s)))) 0 LOGMAXSIZE
    (to_int32 (Z.of_N (str_len s))) s w) as [ps ->].
  rewrite logs_emits. eexists. split; [|done]. apply error_events_logs.
Qed.

Lemma lines_logs ls w : exists l, Forall is_log l /\ foldl (fun w s => writeInFacility s w) w ls = emits l w.
Proof.
  revert w. induction ls as [|s ls IH]; intros w; [by exists []|]. cbn [foldl].
  destruct (writeInFacility_logs s w) as (a & Ha & ->). destruct (IH (emits a w)) as (b & Hb & ->).
  exists (a ++ b). split; [by apply Forall_app|by rewrite emits_app].
Qed.

Section Theory.
Context {B : BoostString} {O : Host} {U : Indeterminate}.
Local Existing Instance B.

(** A writer that appends some events, of which [ok] holds, in at most one critical
    section. *)
Definition appends_section (ok : list event -> Prop) (w w' : World) : Prop :=
  exists evs, w' = emits evs w /\ well_locked false evs = true /\ (locks evs <= 1)%nat /\ ok evs.

Section Appends.
Variable ok : list event -> Prop.
Hypothesis ok_logs : forall l, Forall is_log l -> ok l.

Lemma logs_section l w : Forall is_log l -> appends_section ok w (emits l w).
Proof.
  intros Hl. exists l. split_and!; [done| |by rewrite locks_logs; [lia|]|by apply ok_logs].
  rewrite <- (app_nil_r l). by rewrite well_locked_logs.
Qed.

Lemma error_section text w : appends_section ok w (log_error text w).
Proof. rewrite log_error_emits. apply logs_section. constructor; [apply error_event_log|done]. Qed.

Lemma under_mutex_section (body : World -> World) w :
  (forall w, exists l, body w = emits l w /\ well_locked true (l ++ [Unlock]) = true /\ locks l = 0%nat /\
     forall dead : bool, ok (([Lock] ++ if dead then [Consistent] else []) ++ l ++ [Unlock])) ->
  appends_section ok w (under_mutex body w).
Proof.
  intros Hb. unfold under_mutex. destruct (getGlobalMutex w); cbn [negb]; [|apply error_section].
  destruct (Hb (emits ([Lock] ++ if owner_dead w then [Consistent] else []) w)) as (l & Hl & Hw & H0 & Hok).
  exists (([Lock] ++ (if owner_dead w then [Consistent] else [])) ++ l ++ [Unlock]). split_and!.
  - rewrite emits_app, emits_app, <- Hl. by destruct (owner_dead w).
  - by destruct (owner_dead w).
  - rewrite !locks_app, H0. by destruct (owner_dead w).
  - apply Hok.
Qed.
End Appends.

(** A section of logs only. *)
Lemma logs_section_flushed l (dead : bool) :
  Forall is_log l -> flushed (([Lock] ++ if dead then [Consistent] else []) ++ l ++ [Unlock]).
Proof.
  intros Hl. assert (Hu : flushed (l ++ [Unlock])).
  { unfold flushed. induction Hl as [|e l He _ IH]; [done|]. by destruct e. }
  by destruct dead.
Qed.

Lemma output_report_section {P} `{DiffPrinter P} res (printer : P) w :
  appends_section flushed w (output_report res printer w).
Proof.
  unfold output_report. destruct (gWriteInFile w); cbn [negb].
  - destruct (gFile_is_open w); [|apply error_section, logs_flushed].
    apply under_mutex_section; [apply logs_flushed|]. intros w'. exists [Insert res; Flush].
    split_and!; [done..|]. by intros [].
  - case_bool_decide; [|apply error_section, logs_flushed]. apply under_mutex_section; [apply logs_flushed|]. intros w'.
    destruct (lines_logs (split newline res) w') as (l & Hl & ->). exists l.
    rewrite well_locked_logs, locks_logs by done. split_and!; [done..|]. intros dead. by apply logs_section_flushed.
Qed.

Lemma writeSerializedRequest_section `{BoostArchive} req w :
  appends_section never_flushed w (writeSerializedRequest req w).
Proof.
  unfold writeSerializedRequest. destruct (gWriteInFile w); cbn [negb].
  - destruct (gFile_is_open w); [|apply error_section, logs_not_flushed].
    apply under_mutex_section; [apply logs_not_flushed|]. intros w'. eexists [Insert _].
    split_and!; [done..|]. intros dead Hin. destruct dead; cbn in Hin; repeat (apply elem_of_cons in Hin as [[=]|Hin]); by apply elem_of_nil in Hin.
  - destruct (writeInFacility_logs (text_oarchive (serialize req)) w) as (l & Hl & ->).
    by apply logs_section; [apply logs_not_flushed|].
Qed.

(** *** The differences of the database *)

Definition of_request (id : string) (e : string * FieldInfo) : bool := bool_decide (fst e = id).

Definition cass_call (e : string * FieldInfo) : printer_call :=
  CassDiff (mName (snd e)) (mMultivalueKey (snd e)) (mDBValue (snd e)) (mReqValue (snd e)).

Lemma equal_range_of id (d : Differences) : mm_sorted d -> mm_equal_range id d = List.filter (of_request id) d.
Proof.
  intros Hd. rewrite mm_equal_range_filter by done. apply filter_ext. intros [k f]. unfold of_request. cbn [fst].
  apply eq_true_iff_eq. rewrite bool_decide_eq_true, equiv_key_eq. split; congruence.
Qed.

Lemma erase_of id (d : Differences) : std_erase id d = List.filter (fun e => negb (of_request id e)) d.
Proof.
  unfold std_erase. apply filter_ext. intros [k f]. unfold of_request. cbn [fst]. f_equal.
  apply eq_true_iff_eq. by rewrite bool_decide_eq_true, equiv_key_eq.
Qed.

Lemma writeCassandraDiff_spec {P} `{DiffPrinter P} id (printer : P) w :
  mm_sorted (lDiff w) ->
  writeCassandraDiff id printer w
  = (existsb (of_request id) (lDiff w),
     call_all printer (cass_call <$> List.filter (of_request id) (lDiff w)),
     set_lDiff (List.filter (fun e => negb (of_request id e)) (lDiff w)) w).
Proof.
  intros Hd. unfold writeCassandraDiff. rewrite equal_range_of by done.
  rewrite <- (fold_calls cass_call), erase_of. clear Hd.
  assert (Hex : forall l, existsb (of_request id) l = match List.filter (of_request id) l with [] => false | _ => true end).
  { induction l as [|e l IH]; [done|]. cbn. destruct (of_request id e); [done|apply IH]. }
  rewrite Hex. destruct (List.filter (of_request id) (lDiff w)) as [|e l] eqn:E; [|done].
  cbn. f_equal. destruct w. cbn in *. unfold set_lDiff. cbn. f_equal.
  clear Hex. induction lDiff0 as [|e l IH]; [done|]. cbn in *. destruct (of_request id e); [done|]. cbn.
  by rewrite <- IH.
Qed.

Lemma checkCassandraDiff_spec id w :
  mm_sorted (lDiff w) -> checkCassandraDiff id w = existsb (of_request id) (lDiff w).
Proof.
  intros Hd. unfold checkCassandraDiff. rewrite equal_range_of by done. clear Hd.
  induction (lDiff w) as [|e l IH]; [done|]. cbn. by destruct (of_request id e).
Qed.

(** *** The report *)

(** What the report says before the differences of the database, in order. *)
Definition elapsed_calls (r : RequestInfo) (time : Z) (today : string) (dup : option Z) : list printer_call :=
  (if 0 <? time then [InfoNumber "ElapsedTime" time] else []) ++
  match dup with Some t => [Runtime "DIFF" (to_int32 (t - getElapsedTimeMS r))] | None => [] end ++
  [Info "Date" today] ++
  match dup with Some t => [Runtime "DUP" t] | None => [] end ++
  [Runtime "COMP" (getElapsedTimeMS r)].

Definition request_calls (r : RequestInfo) : list printer_call :=
  (if ends_with_mark (mRequest r) then [RequestUri (mRequest r) (mReqBody r)]
   else RequestUri (mRequest r) "" :: if str_empty (mReqBody r) then [] else [RequestBody (mReqBody r)]) ++
  ((fun kv => RequestHeader (fst kv) (snd kv)) <$> mReqHeader r) ++
  [Status "DUP" (default indeterminate (mReqHttpStatus r));
   Status "COMP" (default indeterminate (mDupResponseHttpStatus r))].

(** The time the first request took, as mod_dup wrote it: [Some None] when the header
    is not a number. *)
Definition time_by_dup (r : RequestInfo) : option (option Z) :=
  cast_int <$> std_find ELAPSED_TIME_BY_DUP (mReqHeader r).

Definition report_calls (r : RequestInfo) (time : Z) (today : string) (dup : option Z) (d : Differences) :
    list printer_call :=
  elapsed_calls r time today dup ++ request_calls r ++ (cass_call <$> List.filter (of_request (mId r)) d).

Lemma print_request_calls {P} `{DiffPrinter P} r (printer : P) :
  print_request r printer = call_all printer (request_calls r).
Proof.
  unfold print_request, request_calls. rewrite !call_all_app. cbv zeta.
  change (fun (p : P) (kv : string * string) => addRequestHeader (fst kv) (snd kv) p)
    with (fun p kv => call_printer p ((fun kv : string * string => RequestHeader (fst kv) (snd kv)) kv)).
  rewrite fold_calls. by destruct (ends_with_mark (mRequest r)), (str_empty (mReqBody r)).
Qed.

Lemma writeDifferences_spec {P} `{DiffPrinter P} r (printer : P) time today w :
  mm_sorted (lDiff w) ->
  match time_by_dup r with
  | Some None =>
      exists text, writeDifferences r printer time today w = (log_error text w, Throw BadLexicalCast)
  | dup =>
      let p := call_all printer (report_calls r time today (mjoin dup) (lDiff w)) in
      let w' := set_lDiff (List.filter (fun e => negb (of_request (mId r) e)) (lDiff w)) w in
      let '(p', res, diff) := retrieveDiff EmptyString p in
      writeDifferences r printer time today w
      = (if existsb (of_request (mId r)) (lDiff w) || diff then output_report res p' w' else w', Ret p')
  end.
Proof.
  intros Hd. unfold time_by_dup, writeDifferences, report_calls, elapsed_calls. cbv zeta.
  destruct (std_find ELAPSED_TIME_BY_DUP (mReqHeader r)) as [v|]; [destruct (cast_int v) as [t|] eqn:Et|];
    cbn [fmap option_fmap option_map mjoin option_join of_option obind]; [|rewrite Et; by eexists|].
  - rewrite Et. cbn [of_option obind]. rewrite print_request_calls, writeCassandraDiff_spec by done.
    rewrite !call_all_app. destruct (0 <? time); cbn [call_all foldl call_printer];
      destruct (retrieveDiff _ _) as [[p' res] diff]; by destruct (existsb _ _), diff.
  - rewrite print_request_calls, writeCassandraDiff_spec by done.
    rewrite !call_all_app. destruct (0 <? time); cbn [call_all foldl call_printer];
      destruct (retrieveDiff _ _) as [[p' res] diff]; by destruct (existsb _ _), diff.
Qed.

(** *** The report in syslog *)

(** The lines of a report as syslog gets them: every line in its pieces. *)
Definition facility_lines (res : string) (pieces : list (list string)) : Prop :=
  Forall2 facility_pieces (split_on newline res) pieces.

Lemma pieces_no_char c s ps :
  str_concat ps = s -> has_char c s = false -> Forall (fun p => has_char c p = false) ps.
Proof.
  intros <-. induction ps as [|p ps IH]; [done|]. cbn [str_concat]. rewrite has_char_app.
  intros [Hp Hps]%orb_false_iff. by constructor; [|apply IH].
Qed.

Lemma split_on_length c s p : p ∈ split_on c s -> (str_len p <= str_len s)%N.
Proof.
  revert p. induction s as [|a s IH]; intros p; cbn [split_on str_len].
  - intros ->%list_elem_of_singleton. cbn. lia.
  - pose proof (split_on_not_nil c s). destruct (Ascii.eqb a c).
    + intros [->|Hp]%elem_of_cons; [cbn; lia|]. apply IH in Hp. lia.
    + destruct (split_on c s) as [|q qs]; [done|]. intros [->|Hp]%elem_of_cons.
      * cbn [str_len]. pose proof (IH q ltac:(by left)). lia.
      * pose proof (IH p ltac:(by right)). lia.
Qed.

Lemma split_on_no_char c d s p : has_char d s = false -> p ∈ split_on c s -> has_char d p = false.
Proof.
  intros Hs Hp. rewrite <- (sjoin_split_on c s) in Hs. revert Hs Hp.
  generalize (split_on c s). intros l. induction l as [|q l IH]; intros Hs Hp; [by apply elem_of_nil in Hp|].
  assert (Hq : has_char d q = false).
  { destruct l as [|q' l]; [done|]. rewrite sjoin_cons, has_char_app in Hs by done. by apply orb_false_iff in Hs as [? _]. }
  apply elem_of_cons in Hp as [->|Hp]; [done|]. destruct l as [|q' l]; [by apply elem_of_nil in Hp|].
  rewrite sjoin_cons, !has_char_app in Hs by done. apply orb_false_iff in Hs as [_ Hs].
  apply orb_false_iff in Hs as [_ Hs]. by apply IH.
Qed.

Lemma lines_in_facility ls w :
  Forall (fun s => has_char "000" s = false /\ Z.of_N (str_len s) < 2147418112) ls ->
  exists pieces, Forall2 facility_pieces ls pieces /\
    foldl (fun w l => writeInFacility l w) w ls = emits ((fun p => error_event p (gInstance w)) <$> mjoin pieces) w.
Proof.
  revert w. induction ls as [|s ls IH]; intros w Hls; [by exists []|].
  apply Forall_cons in Hls as [[Hs Hlen] Hls]. cbn [foldl].
  destruct (writeInFacility_spec s w Hlen) as (ps & Hps & ->).
  destruct (IH (emits ((fun p => error_event (cstr p) (gInstance w)) <$> ps) w) Hls) as (pieces & Hp & ->).
  exists (ps :: pieces). split; [by constructor|]. cbn [mjoin list_join]. rewrite fmap_app, emits_app.
  rewrite (emits_eq ((fun p => error_event (cstr p) (gInstance w)) <$> ps) w). cbn [gInstance].
  f_equal. rewrite <- emits_eq. f_equal. apply list_fmap_ext. intros i p Hi. f_equal. apply cstr_id.
  pose proof (pieces_no_char "000" s ps ltac:(apply Hps) Hs) as Hno. by eapply Forall_lookup_1 in Hno.
Qed.

Lemma trace_emits l w : trace (emits l w) = trace w ++ l.
Proof. by rewrite emits_eq. Qed.

(** The events of a call: one critical section at most, always left, the stream used only in
    it; and [ok]. *)
Definition sectioned (ok : list event -> Prop) (w w' : World) : Prop :=
  exists evs, trace w' = trace w ++ evs /\ well_locked false evs = true /\ (locks evs <= 1)%nat /\ ok evs.

Lemma appends_sectioned ok d w w' : appends_section ok (set_lDiff d w) w' -> sectioned ok w w'.
Proof. intros (evs & -> & Hl & Hn & Hok). exists evs. by rewrite trace_emits. Qed.

Lemma set_lDiff_id w : set_lDiff (lDiff w) w = w.
Proof. by destruct w. Qed.

Lemma writeCassandraDiff_world {P} `{DiffPrinter P} id (printer : P) w :
  exists b p d, writeCassandraDiff id printer w = (b, p, set_lDiff d w).
Proof.
  unfold writeCassandraDiff. destruct (mm_equal_range id (lDiff w)); repeat eexists.
  by rewrite set_lDiff_id.
Qed.


(** [C25] The differences of the database: those of a request are told to the printer in
    the order they were found, with all their values, and forgotten, so that they are
    reported once; those of the other requests are kept, and nothing is written. *)
Theorem cassandra_reported_once {P} `{DiffPrinter P} id (printer : P) w :
  mm_sorted (lDiff w) ->
  let '(found, p, w') := writeCassandraDiff id printer w in
  found = checkCassandraDiff id w /\
  p = call_all printer (cass_call <$> List.filter (of_request id) (lDiff w)) /\
  checkCassandraDiff id w' = false /\
  (forall id', id' <> id -> checkCassandraDiff id' w' = checkCassandraDiff id' w /\
     mm_equal_range id' (lDiff w') = mm_equal_range id' (lDiff w)) /\
  mm_sorted (lDiff w') /\ trace w' = trace w.
Proof.
  intros Hd. rewrite writeCassandraDiff_spec by done. cbn [lDiff set_lDiff trace].
  assert (Hd' : mm_sorted (List.filter (fun e => negb (of_request id e)) (lDiff w))) by by apply StronglySorted_filter_bool.
  split_and!; [by rewrite checkCassandraDiff_spec|done| | |done|done].
  - rewrite checkCassandraDiff_spec by done. cbn. apply not_true_iff_false. rewrite existsb_exists.
    intros (e & [_ He]%filter_In & Hi). by rewrite Hi in He.
  - intros id' Hne.
    assert (Hsame : mm_equal_range id' (List.filter (fun e => negb (of_request id e)) (lDiff w))
                    = mm_equal_range id' (lDiff w)).
    { rewrite !equal_range_of, filter_filter by done. apply filter_ext. intros [k f]. unfold of_request. cbn [fst].
      do 2 case_bool_decide; cbn; congruence. }
    split; [|done]. unfold checkCassandraDiff, set_lDiff. cbn [lDiff]. by rewrite Hsame.
Qed.

(** A report on several lines, with the mutex: its lines, in pieces, in the section. *)
Lemma lines_in_syslog {HB : BoostStringLaws B} {P} `{DiffPrinter P} (res : string) (printer : P) w f :
  gWriteInFile w = false -> getPrinterType printer = MULTILINE -> getGlobalMutex w = true ->
  gInstance w = Some f -> has_char "000" res = false -> Z.of_N (str_len res) < 2147418112 ->
  exists pieces body,
    facility_lines res pieces /\
    trace (output_report res printer w) = trace w ++ Lock :: body ++ [Unlock] /\
    omap logged body = mkEntry (Z.lor LOG_ERR f) <$> mjoin pieces /\
    sjoin (str_concat <$> pieces) endl = res.
Proof.
  intros Hf Hp Hm Hg Hnul Hlen. unfold output_report. rewrite Hf, Hp, bool_decide_eq_true_2 by done. cbn [negb].
  unfold under_mutex. rewrite Hm. cbn [negb]. cbv zeta. rewrite split_spec.
  set (w1 := if owner_dead w then emit Consistent (emit Lock w) else emit Lock w).
  destruct (lines_in_facility (split_on newline res) w1) as (pieces & Hpieces & ->).
  { apply Forall_forall. intros s Hs. split; [by eapply split_on_no_char|].
    pose proof (split_on_length _ _ _ Hs). lia. }
  assert (Hg1 : gInstance w1 = Some f) by (unfold w1; by destruct (owner_dead w)). rewrite Hg1.
  exists pieces, ((if owner_dead w then [Consistent] else []) ++ ((fun p => error_event p (Some f)) <$> mjoin pieces)).
  split_and!; [done|..].
  - unfold emit. cbn [trace]. rewrite trace_emits. unfold w1. destruct (owner_dead w); cbn; by rewrite <- !app_assoc.
  - rewrite omap_app. replace (omap logged (if owner_dead w then [Consistent] else [])) with (@nil entry) by by destruct (owner_dead w).
    cbn [app]. induction (mjoin pieces) as [|p ps IH]; [done|]. by rewrite !fmap_cons, <- IH.
  - replace (str_concat <$> pieces) with (split_on newline res); [apply sjoin_split_on|].
    clear -Hpieces. induction Hpieces as [|s ps ls pieces (Hc & _) _ IH]; [done|]. cbn. by rewrite Hc, IH.
Qed.

(** [C22] A report in syslog, of any printer, without a NUL and shorter than 2^31 - 65536
    characters (its length is an [int] that the split adds to). On several lines (the
    [MULTILINE] printer): the entries are its lines in order, none lost and none cut but at
    [LOGMAXSIZE] characters, all at the level of an error and with the facility of the
    module, within one critical section; and when the mutex cannot be had, the report is
    lost and that is logged. Of any other printer, [JSON] and [UTF8JSON]: one entry, the
    whole text whatever its length and its lines, and the mutex is not taken. *)
Theorem report_in_syslog {HB : BoostStringLaws B} {P} `{DiffPrinter P} (res : string) (printer : P) w f :
  gWriteInFile w = false -> gInstance w = Some f -> has_char "000" res = false ->
  Z.of_N (str_len res) < 2147418112 ->
  let entry_of := mkEntry (Z.lor LOG_ERR f) in
  let w' := output_report res printer w in
  match getPrinterType printer with
  | MULTILINE =>
      if getGlobalMutex w then
        exists pieces body,
          facility_lines res pieces /\ trace w' = trace w ++ Lock :: body ++ [Unlock] /\
          omap logged body = entry_of <$> mjoin pieces /\ sjoin (str_concat <$> pieces) endl = res
      else trace w' = trace w ++ [Syslog (entry_of "[COMPARE] Cannot write differences ! Mutex not initialized")]
  | _ => trace w' = trace w ++ [Syslog (entry_of res)]
  end.
Proof.
  intros Hf Hg Hnul Hlen. cbv zeta.
  assert (Hother : getPrinterType printer <> MULTILINE ->
    trace (output_report res printer w) = trace w ++ [Syslog (mkEntry (Z.lor LOG_ERR f) res)]).
  { intros Hp. unfold output_report. rewrite Hf, bool_decide_eq_false_2 by done. cbn [negb].
    by rewrite cstr_id, log_error_emits, trace_emits, Hg by done. }
  destruct (getPrinterType printer) eqn:Hp; try (by apply Hother).
  destruct (getGlobalMutex w) eqn:Hm; [by apply lines_in_syslog|].
  unfold output_report, under_mutex. rewrite Hf, Hp, bool_decide_eq_true_2, Hm by done. cbn [negb].
  by rewrite log_error_emits, trace_emits, Hg.
Qed.
End Theory.

(** ** Examples *)
Module ResponseExamples.
Import Trace Reference JsonDiffPrinter.Tree.

#[local] Existing Instance JsonDiffPrinter.any_printer.
#[local] Instance host : Host := {| getGlobalMutex _ := true; owner_dead _ := true; file_opens _ _ := true |}.
#[local] Instance zero : Indeterminate := 0.
#[local] Instance plain_archive : BoostArchive := fun l =>
  str_concat ((fun a => match a with AString s => s | AMap m => map2string m "" end) <$> l).

Definition field (name : string) : FieldInfo := mkField name "" "old" "new".

(** Two differences of the request 7 around one of the request 8. *)
Definition found : Differences := foldl (fun m e => mm_insert (fst e) (snd e) m) []
  [("7", field "name"); ("8", field "age"); ("7", field "town")]%string.

Definition to_syslog : World := mkWorld false "/tmp/f" "LOCAL0" false (Some (LOG_LOCAL 0)) found [].
Definition to_file : World := mkWorld true "/tmp/f" "" true (Some (LOG_LOCAL 2)) found [].

Lemma cassandra_reported_once_witness :
  let '(found, p, w') := writeCassandraDiff "7" ([] : list printer_call) to_syslog in
  found = true /\ p = [CassDiff "name" "" "old" "new"; CassDiff "town" "" "old" "new"] /\
  lDiff w' = [("8"%string, field "age")].
Proof.
  assert (Hs : mm_sorted (lDiff to_syslog)) by (do 3 apply mm_insert_sorted; constructor).
  pose proof (cassandra_reported_once "7" ([] : list printer_call) to_syslog Hs) as H.
  destruct (writeCassandraDiff _ _ _) as [[b p] w'] eqn:E. vm_compute in E. injection E as <- <- <-.
  destruct H as (_ & Hp & _). split_and!; [done|exact Hp|done].
Defined.

Definition report : string := "one" +:+ endl +:+ endl +:+ "two".

Definition no_mutex : Host := {| getGlobalMutex _ := false; owner_dead _ := false; file_opens _ _ := true |}.

(** With the mutex, and without it; and a JSON report. *)
Lemma report_in_syslog_witness :
  (exists pieces body, facility_lines report pieces /\
     trace (output_report report ([] : list printer_call) to_syslog) = Lock :: body ++ [Unlock] /\
     omap logged body = mkEntry 131 <$> mjoin pieces /\ sjoin (str_concat <$> pieces) endl = report) /\
  trace (output_report (H0 := no_mutex) report ([] : list printer_call) to_syslog)
  = [Syslog (mkEntry 131 "[COMPARE] Cannot write differences ! Mutex not initialized")] /\
  trace (output_report report (JsonDiffPrinter.AJson (JsonDiffPrinter.newJson "7")) to_syslog)
  = [Syslog (mkEntry 131 report)].
Proof.
  assert (Hlen : Z.of_N (str_len report) < 2147418112) by (vm_compute; done).
  exact (conj (report_in_syslog report ([] : list printer_call) to_syslog (LOG_LOCAL 0) eq_refl eq_refl eq_refl Hlen)
    (conj (report_in_syslog (O := no_mutex) report ([] : list printer_call) to_syslog (LOG_LOCAL 0) eq_refl eq_refl eq_refl Hlen)
      (report_in_syslog report (JsonDiffPrinter.AJson (JsonDiffPrinter.newJson "7")) to_syslog (LOG_LOCAL 0)
         eq_refl eq_refl eq_refl Hlen))).
Defined.

Definition answered : RequestInfo :=
  set_mReqHttpStatus (Some 200) (set_mDupResponseHttpStatus (Some 500) (set_mRequest "/p?q"
    (set_mReqHeader [("ELAPSED_TIME_BY_DUP", "12")]%string (RequestInfo_at "9" 0)))).

(** The calls of a report, and the text of its file. *)
Example report_of_times :
  let '(w, p) := writeDifferences answered ([HeaderDiff "X" None None] : list printer_call) 3 "today" to_file in
  p = Ret [HeaderDiff "X" None None; InfoNumber "ElapsedTime" 3; Runtime "DIFF" 12; Info "Date" "today";
           Runtime "DUP" 12; Runtime "COMP" 0; RequestUri "/p?q" ""; RequestHeader "ELAPSED_TIME_BY_DUP" "12";
           Status "DUP" 200; Status "COMP" 500] /\
  trace w = [Lock; Consistent; Insert ""; Flush; Unlock].
Proof. vm_compute. done. Qed.

(** A header that is not a number: the error is logged, then the exception leaves the
    function and nothing is reported. *)
Example malformed_time_throws :
  let r := set_mReqHeader [("ELAPSED_TIME_BY_DUP", "12ms")]%string answered in
  writeDifferences r ([HeaderDiff "X" None None] : list printer_call) 3 "today" to_file
  = (emits [Syslog (mkEntry 147 "[COMPARE] Failed to cast ELAPSED_TIME_BY_DUP: 12ms to an int")] to_file,
     Throw BadLexicalCast).
Proof. vm_compute. done. Qed.
End ResponseExamples.
