(* ===== verification/ModCompare.v ===== *)
(** * The directives of mod_compare

    mod_compare.hh and mod_compare.cc: [CompareConf], the configuration of a location,
    the functions Apache calls for the directives, and [postConfig], [childInit] and
    the functions on the log file. The state is the [World] of ResponseDiff and the
    configuration object the directive applies to; a directive returns [None] (the null
    pointer) or an error message. A rejected regular expression is an exception no one
    catches. *)
From stdpp Require Import gmap.
From S2P Require Import Prelude CxxString StdMap Boost DiffPrinter MapCompare StringCompare Log ResponseDiff.
Local Open Scope Z_scope.

Section ModCompare.
Context `{BoostRegex} {B : BoostString} {O : Host}.
Local Existing Instance B.

(** ** The configuration of a location *)

Record CompareConf : Type := mkConf {
  mCompBody : StringCompare;
  mCompHeader : MapCompare;
  mLogType : diffTypeAvailable;
  mCompareDisabled : bool;
  mIsActive : bool;
  mDirName : string
}.

Definition newCompareConf (dirName : string) : CompareConf :=
  mkConf newStringCompare newMapCompare UTF8JSON false false dirName.

Definition merge (cc self : CompareConf) : CompareConf :=
  if mIsActive self || mIsActive cc
  then mkConf (StringCompare.merge (mCompBody cc) (mCompBody self)) (MapCompare.merge (mCompHeader cc) (mCompHeader self))
         (mLogType cc) (mCompareDisabled cc) (mIsActive cc) (mDirName cc)
  else self.

Definition createDirConfig (pDirName : option string) : CompareConf :=
  match pDirName with Some d => newCompareConf d | None => newCompareConf "GLOBAL_ROOT" end.

(** A new object; the two others are left alone. *)
Definition mergeDirConfig (pBase pAdd : option CompareConf) : option CompareConf :=
  match pBase, pAdd with
  | Some lBase, Some lAdd => Some (merge lAdd lBase)
  | _, _ => None
  end.

Definition on_body (c : CompareConf) (sc : StringCompare) : CompareConf :=
  mkConf sc (mCompHeader c) (mLogType c) (mCompareDisabled c) (mIsActive c) (mDirName c).
Definition on_header (c : CompareConf) (mc : MapCompare) : CompareConf :=
  mkConf (mCompBody c) mc (mLogType c) (mCompareDisabled c) (mIsActive c) (mDirName c).
Definition set_mLogType (t : diffTypeAvailable) (c : CompareConf) : CompareConf :=
  mkConf (mCompBody c) (mCompHeader c) t (mCompareDisabled c) (mIsActive c) (mDirName c).
Definition set_mCompareDisabled (b : bool) (c : CompareConf) : CompareConf :=
  mkConf (mCompBody c) (mCompHeader c) (mLogType c) b (mIsActive c) (mDirName c).
Definition set_mIsActive (b : bool) (c : CompareConf) : CompareConf :=
  mkConf (mCompBody c) (mCompHeader c) (mLogType c) (mCompareDisabled c) b (mDirName c).

(** ** The log file *)

Definition set_log (inFile : bool) (path facility : string) (g : option Z) (w : World) : World :=
  mkWorld inFile path facility (gFile_is_open w) g (lDiff w) (trace w).

(** [gFile.open]: a file that is open already stays as it is. *)
Definition file_open (path : string) (truncated : bool) (w : World) : World :=
  if gFile_is_open w then w
  else if file_opens path w then set_gFile_is_open true (emit (Open path truncated) w) else w.

Definition file_close (w : World) : World :=
  if gFile_is_open w then set_gFile_is_open false (emit Close w) else w.

Definition closeLogFile (w : World) : World := file_close w.

(** [chowned]: whether the owner of the file could be changed. *)
Definition openLogFile (chowned : bool) (filepath : string) (truncated : bool) (w : World) : World * Z :=
  let w := file_open filepath truncated w in
  if negb (gFile_is_open w) then (log_error "[COMPARE] Couldn't open correctly the file" w, 400)
  else
    let w := if chowned then w
             else log_error ("[COMPARE] Failed to change ownership of shared mem file " +:+ filepath) w in
    (file_close w, 0).

(** [Log::init()] *)
Definition log_init (w : World) : World :=
  set_log (gWriteInFile w) (gFilePath w) (gLogFacility w) (Log.init_default (gInstance w)) w.

Definition postConfig (chowned : bool) (w : World) : World * Z :=
  let w := log_init w in
  if negb (gWriteInFile w) then (w, 0) else openLogFile chowned (gFilePath w) false w.

Definition childInit (w : World) : World :=
  if gWriteInFile w then
    let w := file_open (gFilePath w) false w in
    if negb (gFile_is_open w) then log_error "[COMPARE] Couldn't open correctly the file" w else w
  else w.

(** ** Directives *)

Definition result : Type := World * CompareConf * option string.

Definition setBodyList (pListType pValue : string) (w : World) (lConf : CompareConf) : outcome result :=
  if str_empty pValue then Ret (w, lConf, Some "Missing reg_ex value for the body"%string)
  else if str_empty pListType then Ret (w, lConf, Some "Missing the type of list"%string)
  else if strcaseeq "STOP" pListType then
    let! sc := StringCompare.addStopRegex pValue (mCompBody lConf) in Ret (w, on_body lConf sc, None)
  else if strcaseeq "IGNORE" pListType then
    let! sc := StringCompare.addIgnoreRegex pValue (mCompBody lConf) in Ret (w, on_body lConf sc, None)
  else Ret (w, lConf, Some "Invalid value for the list type"%string).

Definition setHeaderList (pListType pAffectedKey pValue : string) (w : World) (lConf : CompareConf) : outcome result :=
  if str_empty pValue then Ret (w, lConf, Some "Missing reg_ex value for the header"%string)
  else if str_empty pAffectedKey then Ret (w, lConf, Some "Missing header value"%string)
  else if str_empty pListType then Ret (w, lConf, Some "Missing the type list"%string)
  else if strcaseeq "STOP" pListType then
    let! mc := MapCompare.addStopRegex pAffectedKey pValue (mCompHeader lConf) in Ret (w, on_header lConf mc, None)
  else if strcaseeq "IGNORE" pListType then
    let! mc := MapCompare.addIgnoreRegex pAffectedKey pValue (mCompHeader lConf) in Ret (w, on_header lConf mc, None)
  else Ret (w, lConf, Some "Invalid value for the list type"%string).

Definition setDisableLibwsdiff (pValue : string) (w : World) (lConf : CompareConf) : outcome result :=
  let w := log_init w in
  let lConf := set_mCompareDisabled (String.eqb pValue "1" || String.eqb pValue "true") lConf in
  let w := if mCompareDisabled lConf
           then log_warn 42 ("[COMPARE] The use of the diffing library " +:+ endl +:+ "libws-diff has been disabled!") w
           else w in
  Ret (w, lConf, None).

Definition setDiffLogType (pValue : string) (w : World) (lConf : CompareConf) : outcome result :=
  let w := log_init w in
  let lConf := set_mCompareDisabled false lConf in
  Ret (if strcaseeq pValue "archive" then (w, set_mCompareDisabled true lConf, None)
       else if strcaseeq pValue "multiline" then (w, set_mLogType MULTILINE lConf, None)
       else if strcaseeq pValue "simplejson" then (w, set_mLogType JSON lConf, None)
       else if strcaseeq pValue "utf8json" then (w, set_mLogType UTF8JSON lConf, None)
       else (w, lConf, Some "Wrong DiffLogType, must be simplejson|utf8json|multiline"%string)).

Definition setCompareLog (pType pValue : string) (w : World) (lConf : CompareConf) : outcome result :=
  Ret (if str_empty pValue then (w, lConf, Some "Missing log type"%string)
       else if strcaseeq "FILE" pType
       then (set_log true pValue (gLogFacility w) (gInstance w) w, lConf, None)
       else if strcaseeq "SYSLOG" pType
       then (set_log false (gFilePath w) pValue (Log.init_string pValue (Log.close (gInstance w))) w, lConf, None)
       else (w, lConf, Some "Invalid value for the log type"%string)).

(** [mod_rewrite] is whether the module is loaded. Apache calls a directive without
    arguments with two parameters: the third, [pValue], is whatever was there. *)
Definition setCompare (mod_rewrite : bool) (pValue : option string) (w : World) (lConf : CompareConf) : outcome result :=
  let off := match pValue with Some v => strcaseeq v "off" | None => false end in
  let lConf := set_mIsActive (negb off) lConf in
  Ret (w, lConf, if mod_rewrite then None
                 else Some "'mod_rewrite' is not loaded, Enable mod_rewrite to use mod_compare"%string).

(** The table of the directives, by name and arguments. *)
Definition gCmds (mod_rewrite : bool) (pValue : option string) (name : string) (args : list string) :
    option (World -> CompareConf -> outcome result) :=
  match args with
  | [] => if String.eqb name "Compare" then Some (setCompare mod_rewrite pValue) else None
  | [a] =>
      if String.eqb name "CompareLogType" then Some (setDiffLogType a)
      else if String.eqb name "DisableLibwsdiff" then Some (setDisableLibwsdiff a)
      else None
  | [a; b] =>
      if String.eqb name "CompareBody" || String.eqb name "BodyList" then Some (setBodyList a b)
      else if String.eqb name "CompareLog" then Some (setCompareLog a b)
      else None
  | [a; b; c] =>
      if String.eqb name "CompareHeader" || String.eqb name "HeaderList" then Some (setHeaderList a b c)
      else None
  | _ => None
  end.

(** ** A configuration *)

(** A line: the address and name of its location, the directive and its arguments. *)
Record line : Type := mkLine { l_addr : N; l_dir : option string; l_name : string; l_args : list string }.

Record server : Type := mkServer { sv_world : World; sv_confs : gmap N CompareConf }.

Definition load_line (mod_rewrite : bool) (pValue : option string) (sv : server) (l : line) : outcome (server + string) :=
  match gCmds mod_rewrite pValue (l_name l) (l_args l) with
  | None => Ret (inr "Invalid command"%string)
  | Some f =>
      let conf := default (createDirConfig (l_dir l)) (sv_confs sv !! l_addr l) in
      let! '(w, c, err) := f (sv_world sv) conf in
      Ret match err with
          | Some msg => inr msg
          | None => inl (mkServer w (<[l_addr l := c]> (sv_confs sv)))
          end
  end.

Fixpoint load_config (mod_rewrite : bool) (pValue : option string) (sv : server) (lines : list line) :
    outcome (server + string) :=
  match lines with
  | [] => Ret (inl sv)
  | l :: rest =>
      let! r := load_line mod_rewrite pValue sv l in
      match r with inr msg => Ret (inr msg) | inl sv => load_config mod_rewrite pValue sv rest end
  end.
End ModCompare.

(** ** What a configuration guarantees *)

Section Theory.
Context `{BoostRegex} {B : BoostString} {O : Host}.
Local Existing Instance B.

(** An expression Boost accepted. *)
Definition accepted (r : regex) : Prop := exists p, regex_make p false = Some r.

Record conf_ok (c : CompareConf) : Prop := {
  stop_sorted : map_sorted (MapCompare.mStopRegex (mCompHeader c));
  ignore_sorted : map_sorted (MapCompare.mIgnoreRegex (mCompHeader c));
  stop_header : Forall (fun e => accepted (snd e)) (MapCompare.mStopRegex (mCompHeader c));
  ignore_header : Forall (fun e => accepted (snd e)) (MapCompare.mIgnoreRegex (mCompHeader c));
  stop_body : Forall accepted (StringCompare.mStopRegex (mCompBody c));
  ignore_body : Forall accepted (StringCompare.mIgnoreRegex (mCompBody c))
}.

(** Writing to syslog needs an instance of [Log] with the facility asked for. *)
Definition log_ok (w : World) : Prop :=
  gWriteInFile w = false -> gInstance w = Some (strToFacility (gLogFacility w)).

(** What the directives leave of the world: only the choice of the log changes, but
    for messages. *)
Record same_world (w w' : World) : Prop := {
  sw_open : gFile_is_open w' = gFile_is_open w;
  sw_diff : lDiff w' = lDiff w
}.

Lemma std_insert_Forall {V} (P : string * V -> Prop) k v (m : list (string * V)) :
  P (k, v) -> Forall P m -> Forall P (std_insert k v m).
Proof.
  intros Hk Hm. unfold std_insert. induction Hm as [|[k' v'] m Hx Hm IH]; cbn; [by repeat constructor|].
  destruct (less k' k); [by constructor|]. destruct (less k k'); by repeat constructor.
Qed.

Lemma std_insert_sorted {V} k v (m : list (string * V)) : map_sorted m -> map_sorted (std_insert k v m).
Proof. apply std_modify_sorted. Qed.

Lemma newCompareConf_ok d : conf_ok (newCompareConf d).
Proof. split; constructor. Qed.

Lemma log_error_world text w :
  gWriteInFile (log_error text w) = gWriteInFile w /\ gFilePath (log_error text w) = gFilePath w /\
  gLogFacility (log_error text w) = gLogFacility w /\ gInstance (log_error text w) = gInstance w /\
  gFile_is_open (log_error text w) = gFile_is_open w /\ lDiff (log_error text w) = lDiff w.
Proof. rewrite log_error_emits, emits_eq. done. Qed.

Lemma log_warn_world code text w :
  gWriteInFile (log_warn code text w) = gWriteInFile w /\ gLogFacility (log_warn code text w) = gLogFacility w /\
  gInstance (log_warn code text w) = gInstance w /\ gFile_is_open (log_warn code text w) = gFile_is_open w.
Proof. unfold log_warn. destruct (Log.warn _ _ _) as [[e l]|]; done. Qed.

Lemma log_init_ok w : log_ok w -> log_ok (log_init w).
Proof. unfold log_ok, log_init. cbn. intros Hw Hf. rewrite (Hw Hf). done. Qed.

(** *** The directives *)

Ltac regex_added :=
  match goal with
  | |- context [regex_make ?p false] =>
      let E := fresh "E" in destruct (regex_make p false) eqn:E; cbn [of_option obind]; [|done]
  end; intros [= <- <- <-].

Lemma setBodyList_ok t v w c w' c' e :
  setBodyList t v w c = Ret (w', c', e) -> w' = w /\ (conf_ok c -> conf_ok c').
Proof.
  unfold setBodyList, StringCompare.addStopRegex, StringCompare.addIgnoreRegex. intros Hr.
  repeat case_match; [by simplify_eq..| | |by simplify_eq]; revert Hr; regex_added;
    (split; [done|]); intros []; split; cbn; try done;
    apply Forall_app; split; try done; (constructor; [by eexists|done]).
Qed.

Lemma setHeaderList_ok t k v w c w' c' e :
  setHeaderList t k v w c = Ret (w', c', e) -> w' = w /\ (conf_ok c -> conf_ok c').
Proof.
  unfold setHeaderList, MapCompare.addStopRegex, MapCompare.addIgnoreRegex. intros Hr.
  repeat case_match; [by simplify_eq..| | |by simplify_eq]; revert Hr; regex_added;
    (split; [done|]); intros []; split; cbn; try done;
    (by apply std_insert_sorted) || (apply std_insert_Forall; [by eexists|done]).
Qed.

Lemma other_field_ok c c' :
  mCompHeader c' = mCompHeader c -> mCompBody c' = mCompBody c -> conf_ok c -> conf_ok c'.
Proof. intros Hh Hb []. split; by rewrite ?Hh, ?Hb. Qed.

Definition step_ok (w : World) (c : CompareConf) (r : outcome result) : Prop :=
  match r with
  | Ret (w', c', _) => (conf_ok c -> conf_ok c') /\ (log_ok w -> log_ok w') /\ same_world w w'
  | Throw e => e = BadExpression
  end.

Lemma log_init_same w : same_world w (log_init w).
Proof. done. Qed.

Lemma raised_is_bad_expression t k v w c e :
  setBodyList t v w c = Throw e \/ setHeaderList t k v w c = Throw e -> e = BadExpression.
Proof.
  unfold setBodyList, setHeaderList, StringCompare.addStopRegex, StringCompare.addIgnoreRegex,
    MapCompare.addStopRegex, MapCompare.addIgnoreRegex.
  intros [Hr|Hr]; revert Hr; repeat case_match; try done; destruct (regex_make v false); cbn; congruence.
Qed.

Lemma compare_directive_ok rewrite v name args f w c :
  gCmds rewrite v name args = Some f -> step_ok w c (f w c).
Proof.
  unfold gCmds. intros Hf. destruct args as [|a [|b [|d [|? ?]]]]; [| | | |done]; revert Hf;
    repeat case_match; intros [= <-].
  - split_and!; [by apply other_field_ok|done|done].
  - unfold setDiffLogType. cbv zeta. repeat case_match;
      (split_and!; [by apply other_field_ok|by apply log_init_ok|done]).
  - unfold setDisableLibwsdiff. cbv zeta. case_match; [|split_and!; [by apply other_field_ok|by apply log_init_ok|done]].
    match goal with |- context [log_warn ?c ?t ?w0] => destruct (log_warn_world c t w0) as (Hf & Hl & Hg & Ho) end.
    split_and!; [by apply other_field_ok| |].
    + intros Hw%log_init_ok. unfold log_ok. by rewrite Hf, Hl, Hg.
    + split; [done|]. unfold log_warn. by destruct (Log.warn _ _ _) as [[e l]|].
  - destruct (setBodyList a b w c) as [[[w' c'] e]|e] eqn:E; cbn.
    + apply setBodyList_ok in E as [-> Hok]. done.
    + eapply (raised_is_bad_expression a ""). by left.
  - unfold setCompareLog. repeat case_match; (split_and!; [done|by try done|done]).
  - destruct (setHeaderList a b d w c) as [[[w' c'] e]|e] eqn:E; cbn.
    + apply setHeaderList_ok in E as [-> Hok]. done.
    + eapply raised_is_bad_expression. by right.
Qed.

Definition confs_ok (sv : server) : Prop := forall a c, sv_confs sv !! a = Some c -> conf_ok c.

Lemma createDirConfig_ok d : conf_ok (createDirConfig d).
Proof. destruct d; apply newCompareConf_ok. Qed.

Lemma load_config_ok rewrite v lines sv sv' :
  load_config rewrite v sv lines = Ret (inl sv') ->
  confs_ok sv -> log_ok (sv_world sv) ->
  confs_ok sv' /\ log_ok (sv_world sv') /\ same_world (sv_world sv) (sv_world sv').
Proof.
  revert sv. induction lines as [|l lines IH]; intros sv; cbn [load_config]; [by intros [= ->]|].
  unfold load_line. destruct (gCmds _ _ _ _) as [f|] eqn:Ef; [|done].
  set (c := default _ _). pose proof (compare_directive_ok _ _ _ _ f (sv_world sv) c Ef) as Hf.
  destruct (f (sv_world sv) c) as [[[w c'] [msg|]]|]; cbn [obind]; [done| |done]. intros Hl Hc Hw.
  destruct Hf as (Hcok & Hlok & [Ho Hd]). destruct (IH _ Hl) as (H1 & H2 & [Ho' Hd']); cbn; [|by apply Hlok|].
  - intros a x. cbn. intros [[_ <-]|[_ Hx]]%lookup_insert_Some; [|by eapply Hc]. apply Hcok.
    unfold c. destruct (sv_confs sv !! l_addr l) as [x|] eqn:E; [by eapply Hc|apply createDirConfig_ok].
  - split_and!; [done|done|]. split; [by rewrite Ho'|by rewrite Hd'].
Qed.

Lemma file_open_fields path tr w :
  gWriteInFile (file_open path tr w) = gWriteInFile w /\ gFilePath (file_open path tr w) = gFilePath w /\
  gLogFacility (file_open path tr w) = gLogFacility w /\ gInstance (file_open path tr w) = gInstance w /\
  lDiff (file_open path tr w) = lDiff w.
Proof. unfold file_open. repeat case_match; done. Qed.

Lemma file_close_fields w :
  gWriteInFile (file_close w) = gWriteInFile w /\ gFilePath (file_close w) = gFilePath w /\
  gLogFacility (file_close w) = gLogFacility w /\ gInstance (file_close w) = gInstance w /\
  gFile_is_open (file_close w) = false /\ lDiff (file_close w) = lDiff w.
Proof. unfold file_close. destruct (gFile_is_open w) eqn:E; done. Qed.

Lemma postConfig_fields chowned w :
  let w' := fst (postConfig chowned w) in
  gWriteInFile w' = gWriteInFile w /\ gFilePath w' = gFilePath w /\ gLogFacility w' = gLogFacility w /\
  gInstance w' = Log.init_default (gInstance w) /\ (gFile_is_open w = false -> gFile_is_open w' = false) /\
  lDiff w' = lDiff w.
Proof.
  unfold postConfig. cbn [gWriteInFile log_init set_log]. destruct (gWriteInFile w) eqn:Ew; cbn [negb]; [|done].
  unfold openLogFile. change (gFilePath (log_init w)) with (gFilePath w).
  destruct (file_open_fields (gFilePath w) false (log_init w)) as (Hw & Hp & Hf & Hg & Hd).
  set (w1 := file_open _ _ _) in *.
  assert (H1 : forall t, gWriteInFile (log_error t w1) = true /\ gFilePath (log_error t w1) = gFilePath w /\
    gLogFacility (log_error t w1) = gLogFacility w /\ gInstance (log_error t w1) = Log.init_default (gInstance w) /\
    gFile_is_open (log_error t w1) = gFile_is_open w1 /\ lDiff (log_error t w1) = lDiff w).
  { intros t. destruct (log_error_world t w1) as (-> & -> & -> & -> & -> & ->). by rewrite Hw, Hp, Hf, Hg, Hd. }
  destruct (gFile_is_open w1) eqn:Eo; cbn [negb fst].
  - set (w2 := if chowned then w1 else _).
    destruct (file_close_fields w2) as (-> & -> & -> & -> & -> & ->). unfold w2.
    destruct chowned; [by rewrite Hw, Hp, Hf, Hg, Hd|]. edestruct H1 as (-> & -> & -> & -> & _ & ->). done.
  - edestruct H1 as (-> & -> & -> & -> & -> & ->). done.
Qed.

(** The world when Apache starts to read its configuration. *)
Definition unconfigured (d : Differences) : World :=
  mkWorld true "/var/log/apache2/compare_diff.log" "" false None d [].

(** [C21] A configuration Apache accepts: the expressions of every location are ones Boost
    accepted, in maps that are ordered, and once the process is started the module can
    write, to a syslog instance with the facility of the configuration, or to the file
    when the system opens it; no directive touches the differences of the database. *)
Theorem started_process_writes rewrite v lines d sv chowned :
  load_config rewrite v (mkServer (unconfigured d) ∅) lines = Ret (inl sv) ->
  let parent := fst (postConfig chowned (sv_world sv)) in
  let w := childInit parent in
  (forall a c, sv_confs sv !! a = Some c -> conf_ok c) /\
  is_Some (gInstance w) /\ gWriteInFile w = gWriteInFile (sv_world sv) /\
  (gWriteInFile w = false -> gInstance w = Some (strToFacility (gLogFacility w))) /\
  (gWriteInFile w = true -> file_opens (gFilePath w) parent = true -> gFile_is_open w = true) /\
  lDiff w = d.
Proof.
  intros Hl. cbv zeta.
  destruct (load_config_ok _ _ _ _ _ Hl) as (Hc & Hlog & [Ho Hd]); [by intros a c|done|].
  cbn in Ho, Hd.
  destruct (postConfig_fields chowned (sv_world sv)) as (Hw & Hp & Hf & Hg & Hopen & Hdiff).
  set (parent := fst _) in *. rewrite Ho in Hopen. specialize (Hopen eq_refl).
  assert (Hlog' : log_ok parent).
  { unfold log_ok. rewrite Hw, Hf, Hg. intros Hx. by rewrite (Hlog Hx). }
  assert (Hsome : is_Some (gInstance parent)) by (rewrite Hg; apply Log.init_default_some).
  unfold childInit. destruct (gWriteInFile parent) eqn:Ew.
  2:{ split_and!; [done|done|congruence|exact Hlog'|intros; congruence|congruence]. }
  destruct (file_open_fields (gFilePath parent) false parent) as (Hw1 & Hp1 & Hf1 & Hg1 & Hd1).
  set (w1 := file_open _ _ _) in *. cbv zeta. destruct (gFile_is_open w1) eqn:Eo; cbn [negb].
  - split_and!; [done|by rewrite Hg1|congruence|intros; congruence..].
  - match goal with |- context [log_error ?t w1] =>
      destruct (log_error_world t w1) as (Hw2 & Hp2 & Hf2 & Hg2 & Ho2 & Hd2) end.
    split_and!; [done|by rewrite Hg2, Hg1|congruence|intros; congruence| |congruence].
    intros _ Hx. rewrite Hp2, Hp1 in Hx. unfold w1, file_open in Eo. rewrite Hopen, Hx in Eo. done.
Qed.

(** A location that inherits stops a comparison where either configuration does, and
    keeps the expressions of the outer one for the headers both have. *)
Lemma merged_stops s (base add : CompareConf) :
  mIsActive base || mIsActive add = true ->
  checkStopRegex s (mCompBody (merge add base))
  = checkStopRegex s (mCompBody base) || checkStopRegex s (mCompBody add).
Proof. intros Ha. unfold merge. rewrite Ha. apply existsb_app. Qed.

Lemma merge_inactive (base add : CompareConf) :
  mIsActive base || mIsActive add = false -> merge add base = base.
Proof. intros Ha. unfold merge. by rewrite Ha. Qed.
End Theory.

(** ** Examples *)
Module CompareExamples.
Import Reference.

#[local] Existing Instance literal_regex.
#[local] Instance host : Host := {| getGlobalMutex _ := true; owner_dead _ := false; file_opens _ _ := true |}.

Definition lines : list line :=
  [mkLine 0 None "CompareLog" ["syslog"; "local3"];
   mkLine 1 (Some "/p") "Compare" [];
   mkLine 1 (Some "/p") "CompareBody" ["ignore"; "date"];
   mkLine 1 (Some "/p") "CompareHeader" ["STOP"; "Server"; "v2"];
   mkLine 1 (Some "/p") "CompareLogType" ["multiline"]]%string.

Definition loaded : server := get_inl (mkServer (unconfigured []) ∅)
  (get_ret (inr ""%string) (load_config true None (mkServer (unconfigured []) ∅) lines)).

Lemma lines_accepted : load_config true None (mkServer (unconfigured []) ∅) lines = Ret (inl loaded).
Proof.
  unfold loaded. rewrite <- inl_get by (vm_compute; reflexivity).
  apply ret_get. vm_compute. reflexivity.
Qed.

Lemma started_process_writes_witness :
  let w := childInit (fst (postConfig true (sv_world loaded))) in
  gInstance w = Some (Log.LOG_LOCAL 3) /\ gWriteInFile w = false.
Proof.
  destruct (started_process_writes true None lines [] loaded true lines_accepted)
    as (_ & _ & Hw & Hg & _). cbv zeta.
  assert (Hf : gWriteInFile (sv_world loaded) = false) by (vm_compute; done).
  rewrite Hf in Hw. split; [|exact Hw]. rewrite (Hg Hw). vm_compute. done.
Defined.

(** An expression Boost rejects: the exception leaves the directive. *)
Example bad_expression_thrown :
  match load_config true None (mkServer (unconfigured []) ∅)
          [mkLine 1 None "CompareBody" ["STOP"; "(date"]%string] with
  | Throw e => e
  | Ret _ => StdException
  end = BadExpression.
Proof. vm_compute. reflexivity. Qed.

(** A second expression for the same header is not kept. *)
Example second_expression_ignored :
  match load_config true None (mkServer (unconfigured []) ∅)
          [mkLine 1 None "CompareHeader" ["IGNORE"; "Date"; "a"];
           mkLine 1 None "CompareHeader" ["IGNORE"; "Date"; "b"]]%string with
  | Ret (inl sv) => (fun e => (fst e, pattern (snd e))) <$>
                      MapCompare.mIgnoreRegex (mCompHeader (default (newCompareConf "") (sv_confs sv !! 1%N)))
  | _ => []
  end = [("Date", "a")]%string.
Proof. vm_compute. reflexivity. Qed.
End CompareExamples.
