(* ===== verification/FiltersCompare.v ===== *)
(** * FiltersCompare

    filters_compare.cc: the hook and the three Apache filters of mod_compare. The hook
    (or the input filter, whichever comes first) attaches a [RequestInfo] to the
    request and undoes what mod_dup did to it; the input filter reads the serialised
    request and gives its body back to the handler; the first output filter keeps the
    answer, and the second one compares it and reports the differences. A filter always
    has its request. *)
From stdpp Require Import gmap.
From S2P Require Import Prelude CxxString StdMap Boost RequestInfo CurlCall Deserialize Apache.
From S2P Require JsonDiffPrinter.
From S2P Require Import DiffPrinter MapCompare StringCompare Log ResponseDiff ModCompare.
Local Open Scope Z_scope.

Definition DECLINED : Z := -1.

(** httpd.h *)
Definition M_GET : Z := 0.
Definition M_PUT : Z := 1.
Definition M_POST : Z := 2.
Definition M_DELETE : Z := 3.
Definition M_PATCH : Z := 7.

Section FiltersCompare.
Context `{BoostRegex} {B : BoostString} {O : Host} `{Indeterminate, BoostArchive, AprTable, ReqRandom, NextFilter}.
Local Existing Instance B.

(** What the filters of a request see and change: the request, the state of the
    module, and the brigades given to the next output filter. *)
Record Chain : Type := mkChain {
  attached : Attached RequestInfo;
  world : World;
  passed : list (list bucket)
}.

Definition set_attached (x : Attached RequestInfo) (s : Chain) : Chain := mkChain x (world s) (passed s).
Definition set_world (x : World) (s : Chain) : Chain := mkChain (attached s) x (passed s).
Definition set_rec (f : request_rec -> request_rec) (s : Chain) : Chain := set_attached (on_rec f (attached s)) s.

Definition deref (p : N) (s : Chain) : outcome RequestInfo := of_option StdException (objects (attached s) !! p).
Definition write (p : N) (r : RequestInfo) (s : Chain) : Chain := set_attached (on_object p (fun _ => r) (attached s)) s.

Definition header_in (s : Chain) (k : string) : option string := apr_table_get (headers_in (rec (attached s))) k.

Definition set_in (k v : string) (q : request_rec) : request_rec :=
  set_headers_in (apr_table_set k v (headers_in q)) q.
Definition unset_in (k : string) (q : request_rec) : request_rec :=
  set_headers_in (apr_table_unset k (headers_in q)) q.

(** ** initRequest *)

Definition changeMethod (pMethod : string) (q : request_rec) : request_rec :=
  if String.eqb pMethod (method q) then q
  else if String.eqb pMethod "GET" then set_method "GET" (set_method_number M_GET q)
  else if String.eqb pMethod "PUT" then set_method "PUT" (set_method_number M_PUT q)
  else if String.eqb pMethod "PATCH" then set_method "PATCH" (set_method_number M_PATCH q)
  else if String.eqb pMethod "POST" then set_method "POST" (set_method_number M_POST q)
  else if String.eqb pMethod "DELETE" then set_method "DELETE" (set_method_number M_DELETE q)
  else q.

Definition iterateOverHeadersCallBack (lHeader : mapStr) (key value : string) : mapStr := std_set key value lHeader.

(** The method and the content type of the original request, before the headers are copied. *)
Definition restore_request (q : request_rec) : request_rec :=
  let q := match apr_table_get (headers_in q) "X_DUP_METHOD" with
           | Some lMethod => unset_in "X_DUP_METHOD" (changeMethod lMethod q)
           | None => q
           end in
  let q := match apr_table_get (headers_in q) "Content-Type" with
           | Some lDupType =>
               if starts_with "application/x-dup-serialized" lDupType then set_in "X-COMPARE-TRANSLATED" "1" q else q
           | None => q
           end in
  match apr_table_get (headers_in q) "X_DUP_CONTENT_TYPE" with
  | Some lContentType =>
      unset_in "X_DUP_CONTENT_TYPE" (set_content_type (Some lContentType) (set_in "Content-Type" lContentType q))
  | None => q
  end.

(** [mReqHttpStatus]: the status of the original answer, -1 without one; a header that
    is not a number is logged. *)
Definition http_status (m : mapStr) (w : World) : Z * World :=
  match std_find "X_DUP_HTTP_STATUS"%string m with
  | None => (-1, w)
  | Some v =>
      match cast_int v with
      | Some st => (st, w)
      | None => (-1, log_warn 1 "Invalid X_DUP_HTTP_STATUS header value (not a number?)" w)
      end
  end.

Definition initRequest (s : Chain) : N * Chain :=
  let '(p, a) := makeRequestInfo RequestInfo_at (attached s) in
  let a := on_rec restore_request a in
  let lHeader := apr_table_do iterateOverHeadersCallBack
                   (match objects a !! p with Some i => mReqHeader i | None => [] end) (headers_in (rec a)) in
  let '(st, w) := http_status lHeader (world s) in
  let a := on_object p (fun i => set_mReqHttpStatus (Some st) (set_mReqHeader lHeader i)) a in
  let a := on_rec (fun q => unset_in "X_DUP_HTTP_STATUS" (unset_in "ELAPSED_TIME_BY_DUP" q)) a in
  (p, mkChain a w (passed s)).

(** [pool]: whether the connection has one. [per_dir_config] is [None] when the
    pointer is null, [Some None] when the module has no configuration there. *)
Definition translateHook (per_dir_config : option (option CompareConf)) (pool : bool) (s : Chain) : Chain * Z :=
  match per_dir_config with
  | Some (Some conf) =>
      if negb (mIsActive conf) then (s, DECLINED)
      else if negb pool then (set_world (log_error "No connection pool associated to the request" (world s)) s, DECLINED)
      else (snd (initRequest s), DECLINED)
  | _ => (s, DECLINED)
  end.

(** ** The input filter

    [ctx] is whether the context of the filter is [(void * ) 1]. The filters below
    answer the calls of [ap_get_brigade] with [answers], in order; there is no result
    when they are used up: the thread waits. [written] is what [apr_brigade_write]
    returns, [now] the time after the body is read. *)

Definition next_brigade (s : Chain) (ctx : bool) (answers : list (Z * list bucket)) :
    option (outcome (Chain * bool * (Z * list bucket)) * list (Z * list bucket)) :=
  match answers with
  | [] => None
  | got :: rest => Some (Ret (s, ctx, got), rest)
  end.

(** The body of the request, given back by pieces. *)
Definition give_back (p : N) (pReadbytes written : Z) (s : Chain) (answers : list (Z * list bucket)) :
    option (outcome (Chain * bool * (Z * list bucket)) * list (Z * list bucket)) :=
  match deref p s with
  | Throw e => Some (Throw e, answers)
  | Ret lRI =>
      let at_ := default 0%N (offset lRI) in
      let room := N.min (u64_sub (str_len (mReqBody lRI)) at_) (Z.to_N (pReadbytes mod 18446744073709551616)) in
      let toSend := to_int32 (Z.of_N room) in
      if 0 <? toSend then
        if negb (Z.eqb written APR_SUCCESS)
        then Some (Ret (set_world (log_warn 1 "Failed to write request body in a brigade" (world s)) s, true,
                        (written, [])), answers)
        else
          let piece := str_take (Z.to_N toSend) (str_drop at_ (mReqBody lRI)) in
          Some (Ret (write p (set_offset (Some (at_ + Z.to_N toSend)%N) lRI) s, true,
                     (APR_SUCCESS, [DATA APR_SUCCESS (Some piece)])), answers)
      else next_brigade s true answers
  end.

(** The first call: the whole body is read and deserialised. *)
Definition read_request (now : Z) (s : Chain) (answers : list (Z * list bucket)) :
    option (outcome (N * Chain * Z) * list (Z * list bucket)) :=
  let '(p, s) := match request_config (attached s) with
                 | Some p => (p, s)
                 | None => initRequest s
                 end in
  match deref p s with
  | Throw e => Some (Throw e, answers)
  | Ret lRI =>
      match readBody answers (mBody lRI) with
      | None => None
      | Some (body, rest) =>
          let '(lRI, res) := deserializeBody (set_offset (Some 0%N) (set_mBody body lRI)) in
          Some (match res with
                | Throw e => Throw e
                | Ret lStatus => Ret (p, write p (resetStartTime now lRI) s, lStatus)
                end, rest)
      end
  end.

Definition inputFilterHandler (per_dir_config : option (option CompareConf)) (now pReadbytes written : Z)
    (ctx : bool) (s : Chain) (answers : list (Z * list bucket)) :
    option (outcome (Chain * bool * (Z * list bucket)) * list (Z * list bucket)) :=
  if negb (bool_decide (header_in s "Duplication-Type" = Some "Response"%string)) then next_brigade s ctx answers
  else
    match per_dir_config with
    | Some (Some _) =>
        if negb ctx then
          match read_request now s answers with
          | None => None
          | Some (Throw e, rest) => Some (Throw e, rest)
          | Some (Ret (p, s, lStatus), rest) =>
              if negb (Z.eqb lStatus APR_SUCCESS) then Some (Ret (s, true, (lStatus, [])), rest)
              else
                match deref p s with
                | Throw e => Some (Throw e, rest)
                | Ret lRI =>
                    give_back p pReadbytes written
                      (set_rec (set_in "Content-Length" (cast_string (Z.of_N (str_len (mReqBody lRI))))) s) rest
                end
          end
        else
          match request_config (attached s) with
          | Some p => give_back p pReadbytes written s answers
          | None => Some (Throw StdException, answers)
          end
    | _ => next_brigade s ctx answers
    end.

(** The calls of a reader, of the sizes [ks]. *)
Fixpoint read_back (conf : CompareConf) (now : Z) (ks : list Z) (ctx : bool) (s : Chain) (answers : list (Z * list bucket)) :
    option (outcome (Chain * bool * list (Z * list bucket)) * list (Z * list bucket)) :=
  match ks with
  | [] => Some (Ret (s, ctx, []), answers)
  | k :: ks =>
      match inputFilterHandler (Some (Some conf)) now k APR_SUCCESS ctx s answers with
      | None => None
      | Some (Throw e, answers) => Some (Throw e, answers)
      | Some (Ret (s, ctx, out), answers) =>
          match read_back conf now ks ctx s answers with
          | Some (Ret (s, ctx, outs), answers) => Some (Ret (s, ctx, out :: outs), answers)
          | r => r
          end
      end
  end.

(** ** The output filters

    [ctx] is whether the context of the filter is [(void * ) -1]. *)

Definition pass (ctx : bool) (pBrigade : list bucket) (s : Chain) : Chain * bool * Z :=
  (mkChain (attached s) (world s) (passed s ++ [pBrigade]), ctx, ap_pass_brigade pBrigade).

(** The loop over the buckets, which does not stop at the end of stream. *)
Fixpoint keepAnswer (now : Z) (pBrigade : list bucket) (req : RequestInfo) : RequestInfo :=
  match pBrigade with
  | [] => req
  | EOS :: t => keepAnswer now t (set_eos_seen now true req)
  | METADATA :: t => keepAnswer now t req
  | DATA rv data :: t =>
      keepAnswer now t
        (if Z.eqb rv APR_SUCCESS
         then match data with Some d => set_mDupResponseBody (mDupResponseBody req +:+ d) req | None => req end
         else req)
  end.

Definition comp_status (tConf : CompareConf) (w : World) : string :=
  "COMPARED - with conf from " +:+ mDirName tConf +:+ " logged in " +:+
  (if gWriteInFile w then gFilePath w else "SYSLOG") +:+ " in format " +:+ diffTypeStr (mLogType tConf).

Definition outputFilterHandler (per_dir_config : option (option CompareConf)) (now : Z) (pBrigade : list bucket)
    (ctx : bool) (s : Chain) : outcome (Chain * bool * Z) :=
  if ctx then Ret (pass ctx pBrigade s)
  else if bool_decide (is_Some (find_sub "comp_truncate" (uri (rec (attached s)))))
  then
    let w := file_close (world s) in
    Ret (pass true pBrigade (set_world (file_open (gFilePath w) true w) s))
  else if negb (bool_decide (header_in s "Duplication-Type" = Some "Response"%string)) then Ret (pass true pBrigade s)
  else
    match per_dir_config, request_config (attached s) with
    | Some (Some tConf), Some p =>
        let! req := deref p s in
        let s := write p (keepAnswer now pBrigade req) s in
        let s := if bool_decide (is_Some (header_in s "X_COMP_LOG"))
                 then set_rec (fun q => set_headers_out
                        (apr_table_set "X-COMP-STATUS" (cstr (comp_status tConf (world s))) (headers_out q)) q) s
                 else s in
        Ret (pass false pBrigade s)
    | _, _ => Ret (pass true pBrigade s)
    end.

(** The comparison proper, of a request whose answer is complete. *)
Definition compare {P} `{DiffPrinter P, PrinterFactory P} (tConf : CompareConf) (time : Z) (today : string)
    (req : RequestInfo) (w : World) : World * outcome unit :=
  let printer := createDiffPrinter (mId req) (mLogType tConf) in
  let '(printer, headerDiff) :=
    MapCompare.retrieveDiff (mResponseHeader req) (mDupResponseHeader req) printer (mCompHeader tConf) in
  match printDiff_body (mResponseBody req) (mDupResponseBody req) printer (mCompBody tConf) with
  | Throw e => (w, Throw e)
  | Ret (printer, bodyDiff) =>
      let status := default indeterminate (mReqHttpStatus req) in
      if (headerDiff || bodyDiff) &&
         (isDiff printer || checkCassandraDiff (mId req) w ||
          (negb (Z.eqb status (-1)) && negb (Z.eqb status (default indeterminate (mDupResponseHttpStatus req)))))
      then
        let '(w, r) := writeDifferences req printer time today w in
        (w, let! _ := r in Ret tt)
      else (w, Ret tt)
  end.

(** The null [per_dir_config] the first filter tests is not tested here; Apache has
    set it by then. *)
Definition outputFilterHandler2 {P} `{DiffPrinter P, PrinterFactory P} (per_dir_config : option CompareConf)
    (time : Z) (today : string) (pBrigade : list bucket) (ctx : bool) (s : Chain) : outcome (Chain * bool * Z) :=
  if ctx then Ret (pass ctx pBrigade s)
  else
    match per_dir_config, request_config (attached s) with
    | Some tConf, Some p =>
        let! req := deref p s in
        if negb (eos_seen req) then Ret (pass ctx pBrigade s)
        else
          let req := set_mRequest (unparsed_uri (rec (attached s))) req in
          let req := set_mDupResponseHeader
                       (apr_table_do iterateOverHeadersCallBack (mDupResponseHeader req) (headers_out (rec (attached s))))
                       req in
          if mCompareDisabled tConf
          then Ret (pass true pBrigade (set_world (writeSerializedRequest req (world s)) (write p req s)))
          else
            let req := set_mDupResponseHttpStatus (Some (status (rec (attached s)))) req in
            let '(w, r) := compare tConf time today req (world s) in
            let! _ := r in
            Ret (pass true pBrigade (set_world w (write p req s)))
    | _, _ => Ret (pass ctx pBrigade s)
    end.

(** ** The life of an answer

    Apache gives each brigade of the answer to the first filter, which gives it to the
    second; the contexts are those of the two filters. *)
Record Brigade : Type := mkBrigade { b_now : Z; b_time : Z; b_today : string; b_buckets : list bucket }.

Definition serve {P} `{DiffPrinter P, PrinterFactory P} (tConf : CompareConf) (st : Chain * bool * bool) (b : Brigade) :
    outcome (Chain * bool * bool) :=
  let '(s, c1, c2) := st in
  let! '(s1, c1, _) := outputFilterHandler (Some (Some tConf)) (b_now b) (b_buckets b) c1
                         (mkChain (attached s) (world s) []) in
  match passed s1 with
  | [] => Ret (mkChain (attached s1) (world s1) (passed s), c1, c2)
  | out :: _ =>
      let! '(s2, c2, _) := outputFilterHandler2 (Some tConf) (b_time b) (b_today b) out c2
                             (mkChain (attached s1) (world s1) (passed s)) in
      Ret (s2, c1, c2)
  end.

Fixpoint serve_all {P} `{DiffPrinter P, PrinterFactory P} (tConf : CompareConf) (st : Chain * bool * bool) (bs : list Brigade) :
    outcome (Chain * bool * bool) :=
  match bs with
  | [] => Ret st
  | b :: bs => let! st := serve tConf st b in serve_all tConf st bs
  end.
End FiltersCompare.

Section Comparison.
Context `{BoostRegex} {B : BoostString} {HB : BoostStringLaws B} {O : Host} `{Indeterminate, BoostArchive}.
Context {T : AprTable} {TL : AprTableLaws T} `{ReqRandom, NextFilter}.
Context {P : Type} {D : DiffPrinter P} {L : PrinterLaws P} {F : PrinterFactory P} {FL : FactoryLaws P}.
Local Existing Instance B.

(** *** What there is to report *)

(** The headers and the bodies are each compared unless an expression of the location
    stops it. *)
Definition headers_stopped (c : CompareConf) (r : RequestInfo) : bool :=
  checkStop (mResponseHeader r) (mCompHeader c) || checkStop (mDupResponseHeader r) (mCompHeader c).

Definition header_differences (c : CompareConf) (r : RequestInfo) : list printer_call :=
  if headers_stopped c r then []
  else header_calls (relevant (mCompHeader c) (mResponseHeader r)) (relevant (mCompHeader c) (mDupResponseHeader r)).

Definition body_differs (c : CompareConf) (r : RequestInfo) : bool :=
  negb (checkStopRegex (mResponseBody r) (mCompBody c) || checkStopRegex (mDupResponseBody r) (mCompBody c)) &&
  bool_decide (body_lines (mResponseBody r) (mCompBody c) <> body_lines (mDupResponseBody r) (mCompBody c)).

Definition body_difference (c : CompareConf) (r : RequestInfo) : list printer_call :=
  if body_differs c r
  then [FullDiff (unified_text (body_lines (mResponseBody r) (mCompBody c)) (body_lines (mDupResponseBody r) (mCompBody c)))]
  else [].

Definition differences (c : CompareConf) (r : RequestInfo) : list printer_call :=
  header_differences c r ++ body_difference c r.

Definition cass_differs (r : RequestInfo) (w : World) : bool := existsb (of_request (mId r)) (lDiff w).

Definition status_differs (r : RequestInfo) : bool :=
  let st := default indeterminate (mReqHttpStatus r) in
  negb (Z.eqb st (-1)) && negb (Z.eqb st (default indeterminate (mDupResponseHttpStatus r))).

(** The comparison was not stopped altogether, and found something. *)
Definition compared (c : CompareConf) (r : RequestInfo) : bool := negb (headers_stopped c r) || body_differs c r.

Definition reported (c : CompareConf) (r : RequestInfo) (w : World) : bool :=
  compared c r && (negb (bool_decide (differences c r = [])) || cass_differs r w).

Definition printed (c : CompareConf) (r : RequestInfo) (time : Z) (today : string) (w : World) : P :=
  call_all (createDiffPrinter (mId r) (mLogType c))
    (differences c r ++ report_calls r time today (mjoin (time_by_dup r)) (lDiff w)).

Definition report (c : CompareConf) (r : RequestInfo) (time : Z) (today : string) (w : World) : string :=
  snd (fst (DiffPrinter.retrieveDiff EmptyString (printed c r time today w))).

Definition reported_once (r : RequestInfo) (w : World) : World :=
  set_lDiff (List.filter (fun e => negb (of_request (mId r) e)) (lDiff w)) w.

Lemma header_calls_differ a b : Forall (fun c => differs c = true) (header_calls a b).
Proof. unfold header_calls. rewrite !Forall_app, !Forall_fmap. split_and!; by apply Forall_true. Qed.

Lemma differences_differ c r : Forall (fun x => differs x = true) (differences c r).
Proof.
  unfold differences. apply Forall_app. split.
  - unfold header_differences. case_match; [constructor|apply header_calls_differ].
  - unfold body_difference, body_differs. case_match eqn:E; [|constructor].
    apply andb_prop in E as [_ Hne%bool_decide_eq_true]. constructor; [|constructor]. cbn.
    apply negb_true_iff, not_true_iff_false. intros He. apply Hne.
    apply (proj2 (vectDiff_lines _ _)). by destruct (unified_text _ _).
Qed.

Lemma headers_diff c r (printer : P) :
  map_sorted (mResponseHeader r) -> map_sorted (mDupResponseHeader r) ->
  MapCompare.retrieveDiff (mResponseHeader r) (mDupResponseHeader r) printer (mCompHeader c)
  = (call_all printer (header_differences c r), negb (headers_stopped c r)).
Proof.
  intros Hs Hd. rewrite retrieveDiff_calls by done. unfold header_differences, headers_stopped.
  by destruct (checkStop _ _ || checkStop _ _).
Qed.

Lemma body_diff c r (printer : P) :
  printDiff_body (mResponseBody r) (mDupResponseBody r) printer (mCompBody c)
  = Ret (call_all printer (body_difference c r), body_differs c r).
Proof.
  rewrite printDiff_body_spec. unfold body_difference, body_differs.
  destruct (checkStopRegex _ _ || checkStopRegex _ _); [done|]. cbn [negb andb].
  destruct (decide (body_lines (mResponseBody r) (mCompBody c) = body_lines (mDupResponseBody r) (mCompBody c))) as [He|He].
  - by rewrite bool_decide_eq_true_2, bool_decide_eq_false_2 by naive_solver.
  - by rewrite bool_decide_eq_false_2, bool_decide_eq_true_2 by done.
Qed.

Lemma differences_shown c r id t :
  isDiff (call_all (createDiffPrinter id t) (differences c r)) = negb (bool_decide (differences c r = [])).
Proof.
  pose proof (differences_differ c r) as Hall. rewrite call_all_diff.
  - rewrite new_shows_nothing. destruct Hall as [|x l Hx _]; [done|]. cbn [existsb orb]. rewrite Hx.
    by rewrite bool_decide_eq_false_2.
  - eapply Forall_impl; [exact Hall|]. by left.
Qed.

(** When the differences are written. *)
Definition triggered (c : CompareConf) (r : RequestInfo) (w : World) : bool :=
  compared c r && (negb (bool_decide (differences c r = [])) || cass_differs r w || status_differs r).

Lemma compare_triggered c r time today w :
  mm_sorted (lDiff w) -> map_sorted (mResponseHeader r) -> map_sorted (mDupResponseHeader r) ->
  compare c time today r w
  = if triggered c r w
    then let '(w, res) := writeDifferences r (call_all (createDiffPrinter (mId r) (mLogType c)) (differences c r)) time today w in
         (w, let! _ := res in Ret tt)
    else (w, Ret tt).
Proof.
  intros Hd Hr Hdup. unfold compare, triggered, compared. rewrite headers_diff, body_diff by done.
  rewrite <- call_all_app. change (header_differences c r ++ body_difference c r) with (differences c r).
  by rewrite differences_shown, checkCassandraDiff_spec.
Qed.

Lemma header_calls_plain (m : mapStr) :
  existsb differs ((fun kv : string * string => RequestHeader (fst kv) (snd kv)) <$> m) = false.
Proof. by induction m. Qed.

Lemma cass_calls_differ id d : existsb differs (cass_call <$> List.filter (of_request id) d) = existsb (of_request id) d.
Proof. induction d as [|e d IH]; [done|]. cbn. by destruct (of_request id e). Qed.

(** The calls of a report show no difference but those of the database. *)
Lemma report_calls_differ r time today dup d :
  existsb differs (report_calls r time today dup d) = existsb (of_request (mId r)) d.
Proof.
  unfold report_calls, elapsed_calls, request_calls.
  rewrite !existsb_app, header_calls_plain, cass_calls_differ.
  by destruct (0 <? time), (ends_with_mark (mRequest r)), (str_empty (mReqBody r)), dup.
Qed.

Lemma report_calls_plain r time today dup d :
  Forall (fun c => differs c = true \/ match c with FullDiff _ => False | _ => True end) (report_calls r time today dup d).
Proof.
  unfold report_calls, elapsed_calls, request_calls. rewrite !Forall_app. split_and!;
    repeat case_match; repeat (constructor; [by right|]); try constructor;
    try (apply Forall_fmap, Forall_true; by right); try by right.
Qed.

Lemma not_cass_same r w : cass_differs r w = false -> reported_once r w = w.
Proof.
  unfold cass_differs, reported_once. intros Hc. rewrite <- (set_lDiff_id w) at 3. f_equal.
  induction (lDiff w) as [|e l IH]; [done|]. cbn in Hc |- *. apply orb_false_iff in Hc as [-> Hl]. cbn. by rewrite IH.
Qed.

(** What a comparison comes to: nothing, the exception of a malformed time, or, when
    there is something to report, the report of all the calls. *)
Lemma compare_spec c r time today w :
  mm_sorted (lDiff w) -> map_sorted (mResponseHeader r) -> map_sorted (mDupResponseHeader r) ->
  if triggered c r w && bool_decide (time_by_dup r = Some None)
  then exists text, compare c time today r w = (log_error text w, Throw BadLexicalCast)
  else compare c time today r w
       = (if reported c r w
          then output_report (report c r time today w)
                 (fst (fst (DiffPrinter.retrieveDiff EmptyString (printed c r time today w)))) (reported_once r w)
          else w, Ret tt).
Proof.
  intros Hd Hr Hdup. rewrite compare_triggered by done. destruct (triggered c r w) eqn:Et; cbn [andb].
  2:{ replace (reported c r w) with false; [done|]. symmetry. revert Et. unfold triggered, reported.
      destruct (compared c r), (negb _), (cass_differs r w); done. }
  pose proof (writeDifferences_spec r (call_all (createDiffPrinter (mId r) (mLogType c)) (differences c r)) time today w Hd) as Hw.
  case_bool_decide as Ht; [rewrite Ht in Hw; destruct Hw as [text ->]; by exists text|].
  assert (Hw' : forall dup, mjoin (time_by_dup r) = dup ->
    writeDifferences r (call_all (createDiffPrinter (mId r) (mLogType c)) (differences c r)) time today w
    = (let p := printed c r time today w in
       let '(p', res, diff) := DiffPrinter.retrieveDiff EmptyString p in
       (if cass_differs r w || diff then output_report res p' (reported_once r w) else reported_once r w, Ret p'))).
  { intros dup _. unfold printed. rewrite call_all_app. destruct (time_by_dup r) as [[t|]|]; [|done|]; cbv zeta in Hw |- *;
      cbn [mjoin option_join] in Hw |- *; destruct (DiffPrinter.retrieveDiff _ _) as [[p' res] diff]; exact Hw. }
  rewrite (Hw' _ eq_refl). cbv zeta. unfold report.
  pose proof (retrieved (printed c r time today w) EmptyString) as Hdiff.
  destruct (DiffPrinter.retrieveDiff _ _) as [[p' res] diff]. cbn [fst snd] in *. subst diff.
  assert (Hshow : isDiff (printed c r time today w) = negb (bool_decide (differences c r = [])) || cass_differs r w).
  { unfold printed. rewrite call_all_app, call_all_diff by apply report_calls_plain.
    by rewrite differences_shown, report_calls_differ. }
  rewrite Hshow. cbn [obind]. f_equal. revert Et. unfold triggered, reported.
  destruct (compared c r); [|done]. destruct (negb (bool_decide _)), (cass_differs r w) eqn:Ec; try done.
  intros _. cbn. by rewrite not_cass_same.
Qed.

(** *** Keeping the answer *)

Definition bucket_data (b : bucket) : string :=
  match b with DATA rv (Some d) => if Z.eqb rv APR_SUCCESS then d else EmptyString | _ => EmptyString end.
Definition answer_data (l : list bucket) : string := str_concat (bucket_data <$> l).
Definition has_eos (l : list bucket) : bool := existsb (fun b => match b with EOS => true | _ => false end) l.

Definition kept (now : Z) (l : list bucket) (r : RequestInfo) : RequestInfo :=
  set_mDupResponseBody (mDupResponseBody r +:+ answer_data l) (if has_eos l then set_eos_seen now true r else r).

Lemma keepAnswer_spec now l r : keepAnswer now l r = kept now l r.
Proof.
  unfold kept, answer_data. revert r. induction l as [|[| |rv data] l IH]; intros r; cbn [keepAnswer has_eos existsb fmap list_fmap str_concat bucket_data orb].
  - rewrite sapp_nil_r. by destruct r.
  - rewrite IH, sapp_nil_l. unfold set_eos_seen. destruct r as []. destruct mEOS; by destruct (has_eos l).
  - by rewrite IH, sapp_nil_l.
  - rewrite IH. change (existsb _ l) with (has_eos l).
    destruct (Z.eqb rv APR_SUCCESS), data as [d|]; rewrite ?sapp_nil_l; try done.
    destruct r. unfold set_eos_seen. cbn. destruct mEOS; destruct (has_eos l); cbn; by rewrite sapp_assoc.
Qed.

(** The header the first filter adds to the answer, on demand. *)
Definition noted (c : CompareConf) (w : World) (q : request_rec) : request_rec :=
  if bool_decide (is_Some (apr_table_get (headers_in q) "X_COMP_LOG"))
  then set_headers_out (apr_table_set "X-COMP-STATUS" (cstr (comp_status c w)) (headers_out q)) q
  else q.

Lemma noted_fields c w q :
  headers_in (noted c w q) = headers_in q /\ uri (noted c w q) = uri q /\
  unparsed_uri (noted c w q) = unparsed_uri q /\ status (noted c w q) = status q.
Proof. unfold noted. by case_bool_decide. Qed.

(** A request mod_dup sent, in the middle of its answer. *)
Record answering (p : N) (r : RequestInfo) (s : Chain) : Prop := {
  ans_type : header_in s "Duplication-Type" = Some "Response"%string;
  ans_uri : find_sub "comp_truncate" (uri (rec (attached s))) = None;
  ans_config : request_config (attached s) = Some p;
  ans_info : objects (attached s) !! p = Some r;
  ans_eos : mEOS r = false
}.

Definition with_answer (c : CompareConf) (p : N) (r : RequestInfo) (q : request_rec) (s : Chain) : Chain :=
  mkChain (mkAttached q (request_config (attached s)) (<[p := r]> (objects (attached s))) (draws_made (attached s)))
    (world s) (passed s).

Lemma alter_const {A} (m : gmap N A) p x y : m !! p = Some x -> alter (fun _ => y) p m = <[p := y]> m.
Proof. intros Hp. apply map_eq. intros i. destruct (decide (i = p)) as [->|Hne]; simplify_map_eq; done. Qed.

Lemma filter1_spec c p r now l s :
  answering p r s ->
  outputFilterHandler (Some (Some c)) now l false s
  = Ret (pass false l (with_answer c p (kept now l r) (noted c (world s) (rec (attached s))) s)).
Proof.
  intros [Ht Hu Hc Hi He]. unfold outputFilterHandler. cbv iota.
  rewrite Hu, bool_decide_eq_false_2 by by intros []. rewrite Ht, bool_decide_eq_true_2 by done.
  rewrite Hc. unfold deref. rewrite Hi. cbn [negb of_option obind].
  rewrite keepAnswer_spec. unfold noted, with_answer, write, set_attached, on_object, set_rec, on_rec, header_in.
  cbn [attached world passed rec objects request_config draws_made headers_in].
  rewrite (alter_const _ _ _ _ Hi). by case_bool_decide.
Qed.

(** The request as the second filter compares it. *)
Definition complete (q : request_rec) (r : RequestInfo) : RequestInfo :=
  set_mDupResponseHttpStatus (Some (status q))
    (set_mDupResponseHeader (apr_table_do iterateOverHeadersCallBack (mDupResponseHeader r) (headers_out q))
       (set_mRequest (unparsed_uri q) r)).

Definition passing (l : list bucket) (s : Chain) : Chain := mkChain (attached s) (world s) (passed s ++ [l]).

Lemma kept_eos now l r : mEOS (kept now l r) = has_eos l || mEOS r.
Proof. unfold kept. by destruct (has_eos l). Qed.

Lemma kept_fields now l r :
  mId (kept now l r) = mId r /\ mResponseHeader (kept now l r) = mResponseHeader r /\
  mDupResponseHeader (kept now l r) = mDupResponseHeader r.
Proof. unfold kept, set_eos_seen. by destruct (has_eos l), (mEOS r). Qed.

Lemma serve_open c p r s b :
  answering p r s -> has_eos (b_buckets b) = false ->
  let s' := passing (b_buckets b) (with_answer c p (kept (b_now b) (b_buckets b) r) (noted c (world s) (rec (attached s))) s) in
  serve c (s, false, false) b = Ret (s', false, false) /\ answering p (kept (b_now b) (b_buckets b) r) s'.
Proof.
  intros Hs Hb. cbv zeta. split.
  - unfold serve. rewrite (filter1_spec c p r (b_now b) (b_buckets b) (mkChain (attached s) (world s) [])) by by destruct Hs; split.
    unfold pass. cbn [obind passed with_answer app]. unfold outputFilterHandler2. cbv iota.
    cbn [attached with_answer request_config]. rewrite (ans_config _ _ _ Hs). unfold deref.
    cbn [attached objects]. rewrite lookup_insert_eq. cbn [of_option obind]. unfold eos_seen.
    rewrite kept_eos, Hb, (ans_eos _ _ _ Hs). cbn [orb negb]. unfold pass, passing, with_answer.
    cbn [obind attached world passed]. by rewrite (ans_config _ _ _ Hs).
  - destruct (noted_fields c (world s) (rec (attached s))) as (Hi & Hu & _). destruct Hs as [H1' H2' H3' H4' H5'].
    split; unfold header_in in *; cbn [attached passing with_answer rec request_config objects].
    + by rewrite Hi.
    + by rewrite Hu.
    + done.
    + by rewrite lookup_insert_eq.
    + by rewrite kept_eos, Hb.
Qed.

Lemma serve_last c p r s b :
  answering p r s -> has_eos (b_buckets b) = true -> mCompareDisabled c = false ->
  let q := noted c (world s) (rec (attached s)) in
  let r' := complete q (kept (b_now b) (b_buckets b) r) in
  serve c (s, false, false) b
  = let '(w, res) := compare c (b_time b) (b_today b) r' (world s) in
    let! _ := res in
    Ret (passing (b_buckets b) (set_world w (with_answer c p r' q s)), false, true).
Proof.
  intros Hs Hb Hc. cbv zeta. unfold serve.
  rewrite (filter1_spec c p r (b_now b) (b_buckets b) (mkChain (attached s) (world s) [])) by by destruct Hs; split.
  unfold pass. cbn [obind passed with_answer app]. unfold outputFilterHandler2. cbv iota.
  cbn [attached with_answer request_config]. rewrite (ans_config _ _ _ Hs). unfold deref.
  cbn [attached objects rec]. rewrite lookup_insert_eq. cbn [of_option obind]. unfold eos_seen.
  rewrite kept_eos, Hb, Hc. cbn [orb negb]. unfold complete. cbn [world].
  destruct (compare _ _ _ _ _) as [w [[]|e]]; [|done]. cbn [obind]. unfold pass. cbn [obind].
  do 3 f_equal. unfold passing, set_world, write, set_attached, on_object, with_answer.
  cbn [attached world passed rec objects request_config draws_made]. rewrite (ans_config _ _ _ Hs). do 2 f_equal.
  rewrite (alter_const _ _ (kept (b_now b) (b_buckets b) r)) by apply lookup_insert_eq. by rewrite insert_insert_eq.
Qed.

(** *** From the first brigade to the report *)

Definition body_so_far (bs : list Brigade) (r : RequestInfo) : RequestInfo :=
  set_mDupResponseBody (mDupResponseBody r +:+ str_concat ((fun b => answer_data (b_buckets b)) <$> bs)) r.

Lemma serve_opens c p r s bs rest :
  answering p r s -> Forall (fun b => has_eos (b_buckets b) = false) bs ->
  exists s', serve_all c (s, false, false) (bs ++ rest) = serve_all c (s', false, false) rest /\
  answering p (body_so_far bs r) s' /\ world s' = world s /\ passed s' = passed s ++ (b_buckets <$> bs) /\
  rec (attached s') = Nat.iter (length bs) (noted c (world s)) (rec (attached s)).
Proof.
  intros Hs Hbs. revert r s Hs. induction Hbs as [|b bs Hb _ IH]; intros r s Hs.
  { exists s. cbn. rewrite app_nil_r. split_and!; try done. unfold body_so_far. cbn. rewrite sapp_nil_r. by destruct r. }
  destruct (serve_open c p r s b Hs Hb) as [Hserve Hs']. cbn [app serve_all]. rewrite Hserve. cbn [obind].
  destruct (IH _ _ Hs') as (s' & -> & Ha & Hw & Hp & Hr). exists s'. split_and!; [done| |exact Hw| |].
  - unfold body_so_far, kept in Ha |- *. rewrite Hb in Ha. cbn in Ha |- *. by rewrite sapp_assoc in Ha.
  - rewrite Hp. cbn. by rewrite <- app_assoc.
  - rewrite Hr. cbn [length]. by rewrite Nat.iter_succ_r.
Qed.

(** The request as it is compared in the end. *)
Definition answered (c : CompareConf) (w : World) (q : request_rec) (bs : list Brigade) (last : Brigade)
    (r : RequestInfo) : RequestInfo :=
  complete (Nat.iter (S (length bs)) (noted c w) q) (kept (b_now last) (b_buckets last) (body_so_far bs r)).

Lemma headers_set_sorted (m : mapStr) (t : table) : map_sorted m -> map_sorted (apr_table_do iterateOverHeadersCallBack m t).
Proof.
  unfold apr_table_do. generalize (apr_table_elts t). intros l. revert m.
  induction l as [|kv l IH]; intros m Hm; [done|]. cbn [foldl]. by apply IH, std_modify_sorted.
Qed.

Lemma output_to_file (res : string) (printer : P) w :
  gWriteInFile w = true -> gFile_is_open w = true -> getGlobalMutex w = true ->
  exists evs, output_report res printer w = emits evs w /\ file_text evs = res.
Proof.
  intros Hf Ho Hm. unfold output_report, under_mutex. rewrite Hf, Ho, Hm. cbn [negb].
  exists (([Lock] ++ if owner_dead w then [Consistent] else []) ++ [ResponseDiff.Insert res; Flush; Unlock]).
  split; [by destruct (owner_dead w)|]. unfold file_text. destruct (owner_dead w); cbn; apply sapp_nil_r.
Qed.

Lemma answer_compared_spec (c : CompareConf) p r s bs last :
  answering p r s -> mCompareDisabled c = false ->
  Forall (fun b => has_eos (b_buckets b) = false) bs -> has_eos (b_buckets last) = true ->
  let w := world s in
  let f := answered c w (rec (attached s)) bs last r in
  mm_sorted (lDiff w) -> map_sorted (mResponseHeader r) -> map_sorted (mDupResponseHeader r) ->
  gWriteInFile w = true -> gFile_is_open w = true -> getGlobalMutex (reported_once f w) = true ->
  if triggered c f w && bool_decide (time_by_dup f = Some None)
  then serve_all c (s, false, false) (bs ++ [last]) = Throw BadLexicalCast
  else exists s', serve_all c (s, false, false) (bs ++ [last]) = Ret (s', false, true) /\
    passed s' = passed s ++ (b_buckets <$> bs ++ [last]) /\
    objects (attached s') !! p = Some f /\
    lDiff (world s') = (if reported c f w then List.filter (fun e => negb (of_request (mId r) e)) (lDiff w) else lDiff w) /\
    file_text (trace (world s'))
    = file_text (trace w) +:+ (if reported c f w then report c f (b_time last) (b_today last) w else EmptyString).
Proof.
  intros Hs Hc Hbs Hl w f Hd Hr Hdup Hf Ho Hm.
  destruct (serve_opens c p r s bs [last] Hs Hbs) as (s1 & -> & Hs1 & Hw1 & Hp1 & Hr1).
  cbn [serve_all]. rewrite (serve_last c p _ s1 last Hs1 Hl Hc), Hr1, Hw1.
  change (complete _ _) with f. fold w.
  destruct (kept_fields (b_now last) (b_buckets last) (body_so_far bs r)) as (Hid & Hresp & Hdupr).
  assert (Hf1 : map_sorted (mResponseHeader f)) by (change (map_sorted (mResponseHeader (kept (b_now last) (b_buckets last) (body_so_far bs r)))); by rewrite Hresp).
  assert (Hf2 : map_sorted (mDupResponseHeader f)).
  { unfold f, answered, complete. cbn [mDupResponseHeader set_mDupResponseHttpStatus set_mDupResponseHeader set_mRequest].
    apply headers_set_sorted. by rewrite Hdupr. }
  assert (Hidf : mId f = mId r) by exact Hid.
  pose proof (compare_spec c f (b_time last) (b_today last) w Hd Hf1 Hf2) as Hcmp.
  destruct (triggered c f w && _); [by destruct Hcmp as [text ->]|]. rewrite Hcmp. cbn [obind].
  eexists. split; [reflexivity|]. split_and!.
  - cbn [passed passing set_world with_answer]. by rewrite Hp1, fmap_app, app_assoc.
  - cbn. by rewrite lookup_insert_eq.
  - cbn [world passing set_world]. destruct (reported c f w); [|done].
    destruct (output_to_file (report c f (b_time last) (b_today last) w)
      (fst (fst (DiffPrinter.retrieveDiff EmptyString (printed c f (b_time last) (b_today last) w)))) (reported_once f w) Hf Ho Hm)
      as (evs & -> & _). rewrite emits_eq. unfold reported_once, set_lDiff. cbn [lDiff]. by rewrite Hidf.
  - cbn [world passing set_world]. destruct (reported c f w); [|by rewrite sapp_nil_r].
    destruct (output_to_file (report c f (b_time last) (b_today last) w)
      (fst (fst (DiffPrinter.retrieveDiff EmptyString (printed c f (b_time last) (b_today last) w)))) (reported_once f w) Hf Ho Hm)
      as (evs & -> & Hev). by rewrite trace_emits, file_text_app, Hev.
Qed.

(** [C10] An answer, from its first brigade to the report. The brigades go to the next filter
    as they came. When the last one has come, the answer of this server, its headers,
    its body in the order of the brigades and its status, is compared with the answer
    mod_dup sent along; the report of the differences is written whole at the end of
    the file, once, or nothing is, and the differences of the database it tells are
    forgotten. A difference of status alone is not one. A time that is not a number
    makes the filter throw. *)
Theorem answer_compared (c : CompareConf) p r s bs last :
  answering p r s -> mCompareDisabled c = false ->
  Forall (fun b => has_eos (b_buckets b) = false) bs -> has_eos (b_buckets last) = true ->
  let w := world s in
  let f := answered c w (rec (attached s)) bs last r in
  mm_sorted (lDiff w) -> map_sorted (mResponseHeader r) -> map_sorted (mDupResponseHeader r) ->
  gWriteInFile w = true -> gFile_is_open w = true -> getGlobalMutex (reported_once f w) = true ->
  if triggered c f w && bool_decide (time_by_dup f = Some None)
  then serve_all c (s, false, false) (bs ++ [last]) = Throw BadLexicalCast
  else exists s', serve_all c (s, false, false) (bs ++ [last]) = Ret (s', false, true) /\
    passed s' = passed s ++ (b_buckets <$> bs ++ [last]) /\
    objects (attached s') !! p = Some f /\
    lDiff (world s') = (if reported c f w then List.filter (fun e => negb (of_request (mId r) e)) (lDiff w) else lDiff w) /\
    file_text (trace (world s'))
    = file_text (trace w) +:+ (if reported c f w then report c f (b_time last) (b_today last) w else EmptyString).
Proof. apply answer_compared_spec. Qed.
End Comparison.

(** ** The request given back to the handler *)

Section Restored.
Context `{BoostRegex} {B : BoostString} {HB : BoostStringLaws B} {O : Host}.
Context {T : AprTable} {TL : AprTableLaws T} `{ReqRandom}.
Local Existing Instance B.
Implicit Types (s : Chain) (p : N) (i : RequestInfo).

(** A request whose body was read, [o] characters of which were given back. *)
Record giving (p : N) (body : string) (o : N) (i : RequestInfo) (s : Chain) : Prop := {
  giv_type : header_in s "Duplication-Type" = Some "Response"%string;
  giv_config : request_config (attached s) = Some p;
  giv_info : objects (attached s) !! p = Some i;
  giv_body : mReqBody i = body;
  giv_offset : offset i = Some o;
  giv_bound : (o <= str_len body)%N
}.

Definition given (p : N) (o : N) (i : RequestInfo) (s : Chain) : Chain := write p (set_offset (Some o) i) s.

Lemma give_back_spec p body o i s k answers :
  giving p body o i s -> 0 < k < 9223372036854775808 -> Z.of_N (str_len body) < 2147483648 ->
  let n := N.min (str_len body - o) (Z.to_N k) in
  give_back p k APR_SUCCESS s answers
  = if (o <? str_len body)%N
    then Some (Ret (given p (o + n) i s, true, (APR_SUCCESS, [DATA APR_SUCCESS (Some (str_take n (str_drop o body)))])), answers)
    else next_brigade s true answers.
Proof.
  intros [_ _ Hi Hb Ho Hle] Hk Hlen n. unfold give_back, deref. rewrite Hi. cbn [of_option]. rewrite Hb, Ho. change (default 0%N (Some o)) with o.
  rewrite u64_sub_le; [|done|unfold u64_modulus; lia]. rewrite Z.mod_small by lia.
  cbv zeta. fold n. rewrite to_int32_small by lia.
  destruct (N.ltb_spec o (str_len body)) as [Hlt|Hge].
  - destruct (Z.ltb_spec 0 (Z.of_N n)) as [_|]; [|lia]. cbn [negb]. rewrite !N2Z.id. reflexivity.
  - destruct (Z.ltb_spec 0 (Z.of_N n)) as [|_]; [lia|]. done.
Qed.

Lemma given_giving p body o o' i s :
  giving p body o i s -> (o' <= str_len body)%N -> giving p body o' (set_offset (Some o') i) (given p o' i s).
Proof.
  intros [Ht Hc Hi Hb Ho Hle] Hle'. split; try done; cbn.
  by rewrite (alter_const _ _ _ _ Hi), lookup_insert_eq.
Qed.

(** Only the objects differ. *)
Definition same_chain (s' s : Chain) : Prop :=
  rec (attached s') = rec (attached s) /\ world s' = world s /\ passed s' = passed s.

Lemma read_back_given conf now ks body p i o s answers :
  giving p body o i s -> Forall (fun k => 0 < k < 9223372036854775808) ks -> Z.of_N (str_len body) < 2147483648 ->
  (length ks <= length answers)%nat -> Forall (fun got => body_of (snd got) = EmptyString) answers ->
  exists s' outs rest o', read_back conf now ks true s answers = Some (Ret (s', true, outs), rest) /\
    str_concat ((fun out => body_of (snd out)) <$> outs) = str_take (Z.to_N (zsum ks)) (str_drop o body) /\
    giving p body o' (set_offset (Some o') i) s' /\ same_chain s' s.
Proof.
  intros Hg Hks Hlen Hans Hempty. revert i o s answers Hg Hans Hempty.
  induction Hks as [|k ks Hk Hks IH]; intros i o s answers Hg Hans Hempty.
  { exists s, [], answers, o. cbn [zsum foldr]. split_and!; [done|..|done].
    - cbn. by destruct (str_drop o body).
    - replace (set_offset (Some o) i) with i; [done|]. destruct Hg as [_ _ _ _ Ho _]. destruct i. cbn in *. by subst. }
  assert (Hpos : 0 <= zsum ks) by (apply zsum_nonneg; eapply Forall_impl; [exact Hks|intros x Hx; cbn in Hx; lia]).
  cbn [read_back]. unfold inputFilterHandler. rewrite (giv_type _ _ _ _ _ Hg), bool_decide_eq_true_2 by done.
  cbn [negb]. rewrite (giv_config _ _ _ _ _ Hg), (give_back_spec p body o i) by done.
  change (zsum (k :: ks)) with (k + zsum ks).
  replace (Z.to_N (k + zsum ks)) with (Z.to_N k + Z.to_N (zsum ks))%N by lia.
  destruct (N.ltb_spec o (str_len body)) as [Hlt|Hge].
  - set (n := N.min (str_len body - o) (Z.to_N k)).
    destruct (IH (set_offset (Some (o + n)%N) i) (o + n)%N (given p (o + n) i s) answers)
      as (s' & outs & rest & o' & -> & Hcat & Hg' & Hr); [apply (given_giving _ _ o); [done|lia]|cbn in Hans; lia|done|].
    do 4 eexists. split; [reflexivity|]. split_and!; [|exact Hg'|exact Hr].
    cbn [fmap list_fmap str_concat snd body_of]. rewrite Hcat, Z.eqb_refl, sapp_nil_r. cbn [default]. unfold id.
    rewrite (N.add_comm o n), <- str_drop_drop. rewrite str_take_add.
    destruct (N.le_gt_cases (Z.to_N k) (str_len body - o)) as [Hle|Hgt].
    + f_equal. lia.
    + rewrite !str_take_all; [done|rewrite str_len_drop; lia..].
  - destruct answers as [|got answers]; [cbn in Hans; lia|]. cbn [next_brigade].
    apply Forall_cons in Hempty as [He Hempty].
    destruct (IH i o s answers) as (s' & outs & rest & o' & -> & Hcat & Hg' & Hr); [done|cbn in Hans; lia|done|].
    do 4 eexists. split; [reflexivity|]. split_and!; [|exact Hg'|exact Hr].
    cbn [fmap list_fmap str_concat]. rewrite He, sapp_nil_l, Hcat, str_drop_all by done. done.
Qed.

(** What mod_dup sent, as the input filters of the request give it. *)
Record carries (orig : RequestInfo) (sent : list (Z * list bucket)) (last : Z * list bucket) : Prop := {
  car_open : Forall (fun got => ends got = false) sent;
  car_end : ends last = true;
  car_body : str_concat (content_of <$> sent ++ [last]) = dupContent orig;
  car_headers : Forall header_ok (mHeadersOut orig);
  car_request_size : (str_len (mBody orig) <= MAX_SECTION_SIZE)%N;
  car_header_size : (str_len (answerHeaders orig) <= MAX_SECTION_SIZE)%N;
  car_answer_size : (str_len (mAnswer orig) <= MAX_SECTION_SIZE)%N
}.

(** The request once its body is read: the parts of what was sent. *)
Definition received (orig i : RequestInfo) : RequestInfo :=
  set_mResponseHeader (store (mResponseHeader i) (mHeadersOut orig))
    (set_mResponseBody (mAnswer orig) (set_mReqBody (mBody orig) (set_mBody (dupContent orig) i))).

Lemma first_read conf now k orig sent last rest p i s :
  carries orig sent last -> header_in s "Duplication-Type" = Some "Response"%string ->
  request_config (attached s) = Some p -> objects (attached s) !! p = Some i -> mBody i = EmptyString ->
  exists s1, 
    inputFilterHandler (Some (Some conf)) now k APR_SUCCESS false s (sent ++ last :: rest)
    = inputFilterHandler (Some (Some conf)) now k APR_SUCCESS true s1 rest /\
    giving p (mBody orig) 0 (resetStartTime now (set_offset (Some 0%N) (received orig i))) s1 /\
    rec (attached s1) = set_in "Content-Length" (cast_string (Z.of_N (str_len (mBody orig)))) (rec (attached s)) /\
    world s1 = world s /\ passed s1 = passed s.
Proof.
  intros [Ho He Hb Hh H1' H2' H3'] Ht Hc Hi Hbody.
  set (i1 := resetStartTime now (set_offset (Some 0%N) (received orig i))).
  exists (set_rec (set_in "Content-Length" (cast_string (Z.of_N (str_len (mBody orig))))) (write p i1 s)).
  assert (Hin : forall s', header_in s' "Duplication-Type" = header_in s "Duplication-Type" ->
    bool_decide (header_in s' "Duplication-Type" = Some "Response"%string) = true).
  { intros s' Hs'. rewrite Hs', Ht. by apply bool_decide_eq_true_2. }
  assert (Hcl : forall q, apr_table_get (headers_in (set_in "Content-Length" (cast_string (Z.of_N (str_len (mBody orig)))) q))
      "Duplication-Type" = apr_table_get (headers_in q) "Duplication-Type").
  { intros q. cbn. by rewrite apr_get_set. }
  split_and!.
  - unfold inputFilterHandler. rewrite (Hin s eq_refl), Hin by apply Hcl. cbn [negb].
    unfold read_request. rewrite Hc. unfold deref. rewrite Hi. cbn [of_option].
    rewrite readBody_spec, Hb, Hbody, sapp_nil_l by done.
    rewrite (deserialize_dup_spec orig (set_offset (Some 0%N) (set_mBody (dupContent orig) i))) by done.
    change (resetStartTime now (set_mResponseHeader _ _)) with i1. cbn [Z.eqb OK APR_SUCCESS negb].
    change (objects (attached (write p i1 s)) !! p) with (alter (fun _ => i1) p (objects (attached s)) !! p).
    rewrite (alter_const _ _ _ _ Hi), lookup_insert_eq. cbn [of_option].
    change (request_config (attached (set_rec _ (write p i1 s)))) with (request_config (attached s)). rewrite Hc. done.
  - split; cbn.
    + unfold header_in. cbn. rewrite apr_get_set. exact Ht.
    + done.
    + by rewrite (alter_const _ _ _ _ Hi), lookup_insert_eq.
    + done.
    + done.
    + lia.
  - done.
  - done.
  - done.
Qed.

Lemma store_sorted m (l : tKeyValList) : map_sorted m -> map_sorted (store m l).
Proof.
  unfold store. revert m. induction l as [|kv l IH]; intros m Hm; [done|]. cbn [foldl]. by apply IH, std_modify_sorted.
Qed.

(** The request once the reads [ks] of the handler are over. *)
Lemma duplicate_read conf now ks orig sent last rest p i s :
  carries orig sent last -> header_in s "Duplication-Type" = Some "Response"%string ->
  request_config (attached s) = Some p -> objects (attached s) !! p = Some i -> mBody i = EmptyString ->
  ks <> [] -> Forall (fun k => 0 < k < 9223372036854775808) ks ->
  (length ks <= length rest)%nat -> Forall (fun got => body_of (snd got) = EmptyString) rest ->
  exists s' outs rest' o,
    read_back conf now ks false s (sent ++ last :: rest) = Some (Ret (s', true, outs), rest') /\
    str_concat ((fun out => body_of (snd out)) <$> outs) = str_take (Z.to_N (zsum ks)) (mBody orig) /\
    request_config (attached s') = Some p /\
    objects (attached s') !! p = Some (set_offset (Some o) (resetStartTime now (set_offset (Some 0%N) (received orig i)))) /\
    rec (attached s') = set_in "Content-Length" (cast_string (Z.of_N (str_len (mBody orig)))) (rec (attached s)) /\
    world s' = world s /\ passed s' = passed s.
Proof.
  intros Hcar Ht Hc Hi Hbody Hne Hks Hlen Hempty. destruct ks as [|k ks]; [done|].
  destruct (first_read conf now k orig sent last rest p i s Hcar Ht Hc Hi Hbody) as (s1 & Hfirst & Hg & Hr & Hw & Hp).
  assert (Hread : read_back conf now (k :: ks) false s (sent ++ last :: rest) = read_back conf now (k :: ks) true s1 rest)
    by (cbn [read_back]; by rewrite Hfirst).
  assert (Hsize : Z.of_N (str_len (mBody orig)) < 2147483648).
  { pose proof (car_request_size _ _ _ Hcar) as Hs. unfold MAX_SECTION_SIZE, SECTION_SIZE_CHARS in Hs. lia. }
  destruct (read_back_given conf now (k :: ks) _ p _ 0%N s1 rest Hg Hks Hsize Hlen Hempty)
    as (s' & outs & rest' & o' & Hb & Hcat & Hg' & Hr' & Hw' & Hp').
  rewrite Hread, Hb. do 4 eexists. split; [reflexivity|]. split_and!.
  - rewrite Hcat. by destruct (mBody orig).
  - apply Hg'.
  - apply Hg'.
  - congruence.
  - congruence.
  - congruence.
Qed.

(** [C11] The body of the original request, whatever the sizes of the reads of the handler:
    the first read takes the whole serialised request off the filters below, the
    handler is given the prefix of the original body its reads ask for, and nothing
    else, [Content-Length] is the length of that body, and the answer mod_dup sent along
    is kept for the comparison, its headers in order in a map. *)
Theorem duplicate_restored conf now ks orig sent last rest p i s :
  carries orig sent last -> header_in s "Duplication-Type" = Some "Response"%string ->
  request_config (attached s) = Some p -> objects (attached s) !! p = Some i ->
  mBody i = EmptyString -> map_sorted (mResponseHeader i) ->
  ks <> [] -> Forall (fun k => 0 < k < 9223372036854775808) ks ->
  (length ks <= length rest)%nat -> Forall (fun got => body_of (snd got) = EmptyString) rest ->
  exists s' outs rest' i',
    read_back conf now ks false s (sent ++ last :: rest) = Some (Ret (s', true, outs), rest') /\
    str_concat ((fun out => body_of (snd out)) <$> outs) = str_take (Z.to_N (zsum ks)) (mBody orig) /\
    header_in s' "Content-Length" = Some (string_of_Z (Z.of_N (str_len (mBody orig)))) /\
    objects (attached s') !! p = Some i' /\ mReqBody i' = mBody orig /\ mResponseBody i' = mAnswer orig /\
    mResponseHeader i' = store (mResponseHeader i) (mHeadersOut orig) /\ map_sorted (mResponseHeader i').
Proof.
  intros Hcar Ht Hc Hi Hbody Hsorted Hne Hks Hlen Hempty.
  destruct (duplicate_read conf now ks orig sent last rest p i s Hcar Ht Hc Hi Hbody Hne Hks Hlen Hempty)
    as (s' & outs & rest' & o & Hb & Hcat & _ & Ho & Hr & _). rewrite Hb. do 4 eexists. split; [reflexivity|].
  split_and!; [exact Hcat| |exact Ho|done..|by apply store_sorted].
  unfold header_in. rewrite Hr. cbn. by rewrite apr_get_set, cast_string_spec.
Qed.

(** ** The request mod_dup changed, as it was *)

Definition known_methods : list (string * Z) :=
  [("GET", M_GET); ("PUT", M_PUT); ("PATCH", M_PATCH); ("POST", M_POST); ("DELETE", M_DELETE)]%string.

Lemma changeMethod_spec m q :
  method (changeMethod m q) = (if bool_decide (m ∈ known_methods.*1) then m else method q) /\
  (method (changeMethod m q) <> method q -> (method (changeMethod m q), method_number (changeMethod m q)) ∈ known_methods) /\
  headers_in (changeMethod m q) = headers_in q.
Proof.
  unfold changeMethod. destruct (String.eqb_spec m (method q)) as [->|Hne].
  { split_and!; [by case_bool_decide|done|done]. }
  destruct (String.eqb_spec m "GET") as [->|?]; [|destruct (String.eqb_spec m "PUT") as [->|?];
    [|destruct (String.eqb_spec m "PATCH") as [->|?]; [|destruct (String.eqb_spec m "POST") as [->|?];
    [|destruct (String.eqb_spec m "DELETE") as [->|?]]]]];
    try (split_and!; [by vm_compute| |done]; intros _; cbn; repeat (apply elem_of_cons; (left; reflexivity) || right)).
  split_and!; [|done|done]. rewrite bool_decide_eq_false_2; [done|]. intros Hm.
  repeat (apply elem_of_cons in Hm as [->|Hm]; [done|]). by apply elem_of_nil in Hm.
Qed.

(** The headers mod_dup adds to a duplicate that are taken out, and those that are left. *)
Definition removed_headers : list string :=
  ["X_DUP_METHOD"; "X_DUP_CONTENT_TYPE"; "X_DUP_HTTP_STATUS"; "ELAPSED_TIME_BY_DUP"]%string.
Definition headers_left : list string :=
  ["X-DUPLICATED-REQUEST"; "User-RealAgent"; "Duplication-Type"; "X-DUP-COUNT"; "X-MATCHED-PATTERN"; "X_COMP_LOG"]%string.

(** The headers of the request of mod_dup, as the handler gets them: the removed ones are
    not there, the content type is the original one, [X-COMPARE-TRANSLATED] is set when the
    body is serialised, [UNIQUE_ID] is the identifier, and all others are as they came. *)
Definition handed_header (q : request_rec) (id : string) (k : string) : option string :=
  if strcaseeq "X_DUP_HTTP_STATUS" k || strcaseeq "ELAPSED_TIME_BY_DUP" k || strcaseeq "X_DUP_CONTENT_TYPE" k then None
  else if strcaseeq "Content-Type" k then
    match apr_table_get (headers_in q) "X_DUP_CONTENT_TYPE" with
    | Some t => Some t | None => apr_table_get (headers_in q) k end
  else if strcaseeq "X-COMPARE-TRANSLATED" k &&
          match apr_table_get (headers_in q) "Content-Type" with
          | Some t => starts_with "application/x-dup-serialized" t | None => false end then Some "1"%string
  else if strcaseeq "X_DUP_METHOD" k then None
  else if strcaseeq c_UNIQUE_ID k then Some id
  else apr_table_get (headers_in q) k.

Lemma get_same_key (t : table) k k' : strcaseeq k k' = true -> apr_table_get t k = apr_table_get t k'.
Proof.
  intros Hk%String.eqb_eq. rewrite !apr_get_elts. f_equal. unfold strcaseeq. rewrite Hk. done.
Qed.

Lemma strcaseeq_apart a b k : strcaseeq a b = false -> strcaseeq a k = true -> strcaseeq b k = false.
Proof.
  intros Hab Hak%String.eqb_eq. apply String.eqb_neq. apply String.eqb_neq in Hab. congruence.
Qed.

Lemma get_absent (t : table) k k' : apr_table_get t k = None -> (if strcaseeq k k' then None else apr_table_get t k') = apr_table_get t k'.
Proof. intros Hk. destruct (strcaseeq k k') eqn:E; [|done]. by rewrite <- (get_same_key t k k'). Qed.

Lemma restore_headers q k :
  apr_table_get (headers_in (restore_request q)) k
  = if strcaseeq "X_DUP_CONTENT_TYPE" k then None
    else if strcaseeq "Content-Type" k then
      match apr_table_get (headers_in q) "X_DUP_CONTENT_TYPE" with
      | Some t => Some t | None => apr_table_get (headers_in q) k end
    else if strcaseeq "X-COMPARE-TRANSLATED" k &&
            match apr_table_get (headers_in q) "Content-Type" with
            | Some t => starts_with "application/x-dup-serialized" t | None => false end then Some "1"%string
    else if strcaseeq "X_DUP_METHOD" k then None
    else apr_table_get (headers_in q) k.
Proof.
  unfold restore_request.
  set (q1 := match apr_table_get (headers_in q) "X_DUP_METHOD" with Some _ => _ | None => q end).
  assert (H1' : forall k, apr_table_get (headers_in q1) k
    = if strcaseeq "X_DUP_METHOD" k then None else apr_table_get (headers_in q) k).
  { intros k'. unfold q1. destruct (apr_table_get (headers_in q) "X_DUP_METHOD") as [m|] eqn:Em; [|by rewrite get_absent].
    cbn. rewrite apr_get_unset. by destruct (changeMethod_spec m q) as (_ & _ & ->). }
  rewrite (H1' "Content-Type"). change (strcaseeq "X_DUP_METHOD" "Content-Type") with false. cbv iota.
  set (ser := match apr_table_get (headers_in q) "Content-Type" with Some t => starts_with _ t | None => false end).
  set (q2 := match apr_table_get (headers_in q) "Content-Type" with Some _ => _ | None => q1 end).
  assert (H2' : forall k, apr_table_get (headers_in q2) k
    = if strcaseeq "X-COMPARE-TRANSLATED" k && ser then Some "1"%string else apr_table_get (headers_in q1) k).
  { intros k'. unfold q2, ser. destruct (apr_table_get (headers_in q) "Content-Type") as [t|]; [|by rewrite andb_false_r].
    destruct (starts_with _ t); [|by rewrite andb_false_r]. cbn. rewrite apr_get_set. by rewrite andb_true_r. }
  rewrite (H2' "X_DUP_CONTENT_TYPE"), (H1' "X_DUP_CONTENT_TYPE").
  change (strcaseeq "X-COMPARE-TRANSLATED" "X_DUP_CONTENT_TYPE") with false.
  change (strcaseeq "X_DUP_METHOD" "X_DUP_CONTENT_TYPE") with false. cbn [andb].
  destruct (apr_table_get (headers_in q) "X_DUP_CONTENT_TYPE") as [t|] eqn:Ex.
  - cbn. rewrite apr_get_unset, apr_get_set, H2', H1'. done.
  - rewrite H2', H1'. destruct (strcaseeq "X_DUP_CONTENT_TYPE" k) eqn:E1.
    + rewrite (strcaseeq_apart "X_DUP_CONTENT_TYPE" "X-COMPARE-TRANSLATED" k eq_refl E1),
        (strcaseeq_apart "X_DUP_CONTENT_TYPE" "X_DUP_METHOD" k eq_refl E1).
      cbn [andb]. by rewrite <- (get_same_key _ _ _ E1).
    + destruct (strcaseeq "Content-Type" k) eqn:E2; [|done].
      by rewrite (strcaseeq_apart "Content-Type" "X-COMPARE-TRANSLATED" k eq_refl E2),
        (strcaseeq_apart "Content-Type" "X_DUP_METHOD" k eq_refl E2).
Qed.

Lemma restore_method q :
  let m := method (restore_request q) in
  m = (match apr_table_get (headers_in q) "X_DUP_METHOD" with
       | Some m => if bool_decide (m ∈ known_methods.*1) then m else method q
       | None => method q
       end) /\
  (m <> method q -> (m, method_number (restore_request q)) ∈ known_methods) /\
  uri (restore_request q) = uri q /\ headers_out (restore_request q) = headers_out q /\
  unparsed_uri (restore_request q) = unparsed_uri q.
Proof.
  assert (Hrest : forall q1 : request_rec,
    let q2 := match apr_table_get (headers_in q1) "Content-Type" with
              | Some t => if starts_with "application/x-dup-serialized" t then set_in "X-COMPARE-TRANSLATED" "1" q1 else q1
              | None => q1 end in
    let q3 := match apr_table_get (headers_in q2) "X_DUP_CONTENT_TYPE" with
              | Some t => unset_in "X_DUP_CONTENT_TYPE" (set_content_type (Some t) (set_in "Content-Type" t q2))
              | None => q2 end in
    method q3 = method q1 /\ method_number q3 = method_number q1 /\ uri q3 = uri q1 /\ headers_out q3 = headers_out q1 /\
    unparsed_uri q3 = unparsed_uri q1).
  { intros q1. cbv zeta. repeat case_match; done. }
  unfold restore_request.
  set (q1 := match apr_table_get (headers_in q) "X_DUP_METHOD" with
             | Some m => unset_in "X_DUP_METHOD" (changeMethod m q) | None => q end).
  cbv zeta.
  destruct (Hrest q1) as (-> & -> & -> & -> & ->). unfold q1.
  destruct (apr_table_get (headers_in q) "X_DUP_METHOD") as [m|]; [|done].
  destruct (changeMethod_spec m q) as (Hm & Hn & _). split_and!; [exact Hm|exact Hn|..].
  all: cbn; unfold changeMethod; repeat case_match; done.
Qed.

(** The headers that are copied: those of the request identified and restored, before
    the last two that mod_dup added are taken out. *)
Definition copied (s : Chain) : mapStr :=
  let '(_, q, _) := getOrSetUniqueID (rec (attached s)) (draws_made (attached s)) in
  apr_table_do iterateOverHeadersCallBack [] (headers_in (restore_request q)).

(** What the hook leaves: the request [q] as the original one, and the object [i]
    attached to it. *)
Record restored (s s' : Chain) (p : N) (i : RequestInfo) : Prop := {
  rs_config : request_config (attached s') = Some p;
  rs_object : objects (attached s') !! p = Some i;
  rs_headers k : header_in s' k = handed_header (rec (attached s)) (mId i) k;
  rs_id c : header_in s c_UNIQUE_ID = Some c -> mId i = c;
  rs_method : method (rec (attached s'))
    = (match header_in s "X_DUP_METHOD" with
       | Some m => if bool_decide (m ∈ known_methods.*1) then m else method (rec (attached s))
       | None => method (rec (attached s)) end);
  rs_number : method (rec (attached s')) <> method (rec (attached s)) ->
    (method (rec (attached s')), method_number (rec (attached s'))) ∈ known_methods;
  rs_uri : uri (rec (attached s')) = uri (rec (attached s)) /\
    unparsed_uri (rec (attached s')) = unparsed_uri (rec (attached s));
  rs_bodies : mBody i = EmptyString /\ mDupResponseBody i = EmptyString;
  rs_maps : mResponseHeader i = [] /\ mDupResponseHeader i = [];
  rs_eos : mEOS i = false;
  rs_copied : mReqHeader i = copied s /\ map_sorted (mReqHeader i);
  rs_status : mReqHttpStatus i = Some (default (-1) (std_find "X_DUP_HTTP_STATUS"%string (mReqHeader i) ≫= cast_int));
  rs_world : world s' = snd (http_status (mReqHeader i) (world s)) /\ lDiff (world s') = lDiff (world s);
  rs_passed : passed s' = passed s
}.

Lemma http_status_spec m w :
  fst (http_status m w) = default (-1) (std_find "X_DUP_HTTP_STATUS"%string m ≫= cast_int) /\
  lDiff (snd (http_status m w)) = lDiff w.
Proof.
  unfold http_status. destruct (std_find _ m) as [v|]; [|done]. cbn. destruct (cast_int v); [done|].
  split; [done|]. unfold log_warn. by destruct (Log.warn _ _ _) as [[e l]|].
Qed.

Lemma initRequest_spec s : let '(p, s') := initRequest s in exists i, restored s s' p i.
Proof.
  unfold initRequest, makeRequestInfo.
  pose proof (getOrSetUniqueID_spec (rec (attached s)) (draws_made (attached s))) as Hu.
  assert (Hcop : copied s = let '(_, q, _) := getOrSetUniqueID (rec (attached s)) (draws_made (attached s)) in
    apr_table_do iterateOverHeadersCallBack [] (headers_in (restore_request q))) by done.
  assert (Hq0 : let '(_, q0, _) := getOrSetUniqueID (rec (attached s)) (draws_made (attached s)) in
    method q0 = method (rec (attached s)) /\ method_number q0 = method_number (rec (attached s)) /\
    uri q0 = uri (rec (attached s)) /\ unparsed_uri q0 = unparsed_uri (rec (attached s))).
  { unfold getOrSetUniqueID, getNextReqId. by destruct (apr_table_get _ _). }
  destruct (getOrSetUniqueID _ _) as [[id q0] n]. destruct Hu as (Hid & _ & Hkeep & Hother), Hq0 as (Hm0 & Hn0 & Hu0 & Hup0).
  assert (Hh0 : forall k, apr_table_get (headers_in q0) k
    = if strcaseeq c_UNIQUE_ID k then Some id else apr_table_get (headers_in (rec (attached s))) k).
  { intros k. destruct (strcaseeq c_UNIQUE_ID k) eqn:E; [by rewrite <- (get_same_key _ _ _ E)|by apply Hother]. }
  cbn [objects on_rec rec]. rewrite lookup_insert_eq.
  change (mReqHeader (RequestInfo_at id (request_time q0))) with ([] : mapStr). rewrite <- Hcop.
  pose proof (http_status_spec (copied s) (world s)) as [Hst Hw].
  destruct (http_status (copied s) (world s)) as [st w] eqn:Ew. cbn [fst snd] in Hst, Hw.
  cbn [attached request_config on_object on_rec objects world rec].
  exists (set_mReqHttpStatus (Some st) (set_mReqHeader (copied s) (RequestInfo_at id (request_time q0)))).
  destruct (restore_method q0) as (Hm & Hn & Hu & _ & Hup). rewrite Hh0 in Hm. change (strcaseeq c_UNIQUE_ID "X_DUP_METHOD") with false in Hm.
  rewrite Hm0 in Hm, Hn.
  split; cbn [mReqHeader set_mReqHttpStatus set_mReqHeader]; try done.
  - by simplify_map_eq.
  - intros k. unfold header_in. cbn. rewrite !apr_get_unset, restore_headers, !Hh0.
    change (strcaseeq c_UNIQUE_ID "X_DUP_CONTENT_TYPE") with false. change (strcaseeq c_UNIQUE_ID "Content-Type") with false.
    cbn iota. unfold handed_header. cbn [mId set_mReqHttpStatus set_mReqHeader RequestInfo_at set_mId].
    destruct (strcaseeq "X_DUP_HTTP_STATUS" k), (strcaseeq "ELAPSED_TIME_BY_DUP" k), (strcaseeq "X_DUP_CONTENT_TYPE" k); try done.
    cbn [orb]. destruct (strcaseeq "Content-Type" k) eqn:E; [|done].
    by rewrite (strcaseeq_apart "Content-Type" c_UNIQUE_ID k eq_refl E).
  - intros c Hc. by destruct (Hkeep c Hc).
  - cbn. by rewrite Hu, Hup.
  - split; [done|]. rewrite Hcop. apply headers_set_sorted. constructor.
  - cbn. by rewrite Hst.
  - cbn [world]. by rewrite Ew.
Qed.

(** [C20] The hook, at a location mod_compare treats: the request goes on with the method and
    the content type of the original one. Four of the headers mod_dup added are taken out
    ([removed_headers]); the others it adds are not ([headers_left]), and
    [X-COMPARE-TRANSLATED] is set when the body is a serialised request; every header but
    these, [Content-Type] and [UNIQUE_ID] is unchanged. A [RequestInfo] with the identifier
    of the original request is attached, which keeps the headers [copied], in order in a
    map, the status of the original answer or -1, and nothing of an answer. *)
Theorem request_restored conf s :
  mIsActive conf = true ->
  let q := rec (attached s) in
  let '(s', st) := translateHook (Some (Some conf)) true s in
  st = DECLINED /\ exists p i,
    request_config (attached s') = Some p /\ objects (attached s') !! p = Some i /\
    (forall k, header_in s' k = handed_header q (mId i) k) /\
    Forall (fun k => header_in s' k = None) removed_headers /\
    Forall (fun k => header_in s' k = header_in s k) headers_left /\
    (forall t, header_in s "Content-Type" = Some t -> starts_with "application/x-dup-serialized" t = true ->
       header_in s' "X-COMPARE-TRANSLATED" = Some "1"%string) /\
    (forall c, header_in s c_UNIQUE_ID = Some c -> mId i = c) /\
    method (rec (attached s'))
    = (match header_in s "X_DUP_METHOD" with
       | Some m => if bool_decide (m ∈ known_methods.*1) then m else method q | None => method q end) /\
    (method (rec (attached s')) <> method q -> (method (rec (attached s')), method_number (rec (attached s'))) ∈ known_methods) /\
    uri (rec (attached s')) = uri q /\
    mBody i = EmptyString /\ mResponseHeader i = [] /\ mDupResponseHeader i = [] /\ mEOS i = false /\
    mReqHeader i = copied s /\ map_sorted (mReqHeader i) /\
    mReqHttpStatus i = Some (default (-1) (std_find "X_DUP_HTTP_STATUS"%string (mReqHeader i) ≫= cast_int)) /\
    lDiff (world s') = lDiff (world s).
Proof.
  intros Ha. cbv zeta. unfold translateHook. rewrite Ha. cbn [negb].
  pose proof (initRequest_spec s) as Hi. destruct (initRequest s) as [p s'].
  cbn [snd]. split; [done|]. destruct Hi as [i Hi]. exists p, i. pose proof (rs_headers _ _ _ _ Hi) as Hh.
  assert (Hout : Forall (fun k => header_in s' k = None) removed_headers)
    by (repeat constructor; by rewrite Hh).
  assert (Hleft : Forall (fun k => header_in s' k = header_in s k) headers_left)
    by (repeat constructor; by rewrite Hh).
  assert (Hset : forall t, header_in s "Content-Type" = Some t -> starts_with "application/x-dup-serialized" t = true ->
    header_in s' "X-COMPARE-TRANSLATED" = Some "1"%string).
  { intros t Ht Hs. rewrite Hh. unfold handed_header. unfold header_in in Ht. rewrite Ht, Hs. done. }
  destruct Hi. naive_solver.
Qed.
End Restored.

(** ** Checks on concrete inputs *)
Module FiltersCompareExamples.
Import TableList Reference JsonDiffPrinter JsonDiffPrinter.Tree.

#[local] Existing Instance boost_string.
#[local] Existing Instance boost_string_laws.
#[local] Existing Instance literal_regex.
#[local] Instance ids : ReqRandom := fun n => Some (100 + N.of_nat n)%N.
#[local] Instance next_ok : NextFilter := fun _ => 0%Z.
#[local] Instance host : Host := {| getGlobalMutex _ := true; owner_dead _ := false; file_opens _ _ := true |}.
#[local] Instance zero : Indeterminate := 0.
#[local] Instance plain_archive : BoostArchive := fun l =>
  str_concat ((fun a => match a with AString s => s | AMap m => map2string m "" end) <$> l).

Definition to_file : World := mkWorld true "/tmp/f" "" true (Some (LOG_LOCAL 2)) [] [].

Definition request (headers : list (string * string)) (answer : list (string * string)) : request_rec :=
  mkRequest "POST" 2 "/p" "/p?a=1" (Some "a=1"%string) 200 5000 headers answer [] None 0 0.

Definition conf : CompareConf := set_mLogType MULTILINE (set_mIsActive true (newCompareConf "/p")).

(** The answer of the other server was [one], with the status 200. *)
Definition info : RequestInfo :=
  set_mReqHttpStatus (Some 200) (set_mResponseHeader [("Server", "x")]%string (set_mResponseBody "one" (RequestInfo_at "7" 0))).

Definition answering_7 : Chain :=
  mkChain (mkAttached (request [("Duplication-Type", "Response")] [("Server", "y")])%string (Some 0%N) {[0%N := info]} 0)
    to_file [].

Definition brigade (bb : list bucket) : Brigade := mkBrigade 1000 1 "today" bb.

Lemma answer_compared_witness :
  exists s', serve_all (P := anyPrinter) conf (answering_7, false, false)
      ([brigade [DATA 0 (Some "on"%string)]] ++ [brigade [METADATA; DATA 0 (Some "e"%string); EOS]]) = Ret (s', false, true) /\
    passed s' = [[DATA 0 (Some "on"%string)]; [METADATA; DATA 0 (Some "e"%string); EOS]] /\
    file_text (trace (world s'))
    = str_concat ((fun l => l +:+ endl) <$>
        ["BEGIN NEW REQUEST DIFFERENCE n: 7"; "ElapsedTime : 1"; "Date : today"; "Elapsed time for requests (ms): COMP 1";
         "Http Status Codes: DUP 200 COMP 200"; "URI : /p?a=1"; "---HDR_DIFF---"; "Server ==> x/y"; "END DIFFERENCE : 7"])%string.
Proof.
  assert (Ha : answering 0 info answering_7) by (split; reflexivity).
  pose proof (answer_compared (P := anyPrinter) conf 0 info answering_7 [brigade [DATA 0 (Some "on"%string)]]
    (brigade [METADATA; DATA 0 (Some "e"%string); EOS]) Ha eq_refl ltac:(by repeat constructor) eq_refl
    ltac:(constructor) ltac:(repeat constructor) ltac:(constructor) eq_refl eq_refl eq_refl) as H. cbv zeta in H.
  match type of H with context [if ?b then serve_all _ _ _ = _ else _] =>
    assert (Hb : b = false) by (vm_compute; reflexivity); rewrite Hb in H end.
  destruct H as (s' & Hs & Hp & _ & _ & Hf). exists s'. split; [exact Hs|]. split; [exact Hp|].
  rewrite Hf. vm_compute. reflexivity.
Defined.

(** The original request and its answer. *)
Definition orig : RequestInfo :=
  set_mAnswer "the answer" (set_mHeadersOut [("K", "1"); ("L", "a: b"); ("K", "2")]%string
    (set_mBody "x=1&y=2" (RequestInfo_of_request 0 "id" "" "POST" "/p" "" None))).

Definition sent : string := dupContent orig.

(** The serialised request comes in two brigades. *)
Definition first_half : Z * list bucket := (0, [DATA 0 (Some (str_take 20 sent))]).
Definition second_half : Z * list bucket := (0, [DATA 0 (Some (str_drop 20 sent)); EOS]).

Definition receiving : Chain :=
  mkChain (mkAttached (request [("Duplication-Type", "Response"); ("Content-Length", "99")]%string []) (Some 0%N)
             {[0%N := RequestInfo_at "7" 0]} 0) to_file [].

Lemma duplicate_restored_witness :
  exists s' outs rest',
    read_back conf 5000 [3; 2; 100] false receiving ([first_half] ++ second_half :: repeat (0, []) 3)
    = Some (Ret (s', true, outs), rest') /\
    str_concat ((fun out => body_of (snd out)) <$> outs) = "x=1&y=2"%string /\
    header_in s' "Content-Length" = Some "7"%string /\
    (mResponseHeader <$> objects (attached s') !! 0%N) = Some [("K", "2"); ("L", "a: b")]%string.
Proof.
  assert (Hcar : carries orig [first_half] second_half).
  { split; [by repeat constructor|reflexivity|vm_compute; reflexivity|by repeat constructor|vm_compute; discriminate..]. }
  destruct (duplicate_restored conf 5000 [3; 2; 100] orig [first_half] second_half (repeat (0, []) 3) 0%N (RequestInfo_at "7" 0) receiving
    Hcar eq_refl eq_refl eq_refl eq_refl ltac:(constructor) ltac:(done) ltac:(repeat constructor; lia) ltac:(cbn; lia)
    ltac:(by repeat constructor)) as (s' & outs & rest' & i' & Hread & Hout & Hlen & Hi & _ & _ & Hh & _).
  exists s', outs, rest'. split; [exact Hread|]. split; [rewrite Hout; vm_compute; reflexivity|].
  split; [rewrite Hlen; vm_compute; reflexivity|]. rewrite Hi. cbn [fmap option_fmap option_map]. rewrite Hh. vm_compute. reflexivity.
Defined.

(** A [PUT] that mod_dup sent as a [POST]. *)
Definition changed : Chain :=
  mkChain (mkAttached (request [("UNIQUE_ID", "u1"); ("X_DUP_METHOD", "PUT"); ("X_DUP_HTTP_STATUS", "404");
                                ("Content-Type", "application/x-dup-serialized"); ("X_DUP_CONTENT_TYPE", "text/plain");
                                ("Accept", "*"); ("X-DUP-COUNT", "1")]%string []) None ∅ 0) to_file [].

Lemma request_restored_witness :
  let '(s', st) := translateHook (Some (Some conf)) true changed in
  method (rec (attached s')) = "PUT"%string /\
  ((fun k => header_in s' k) <$> ["content-type"; "X_DUP_METHOD"; "X_DUP_HTTP_STATUS"; "accept"; "X-DUP-COUNT";
                                     "X-COMPARE-TRANSLATED"])%string
  = [Some "text/plain"%string; None; None; Some "*"%string; Some "1"%string; Some "1"%string] /\
  exists p i, objects (attached s') !! p = Some i /\ mId i = "u1"%string /\ mReqHttpStatus i = Some 404.
Proof.
  pose proof (request_restored conf changed eq_refl) as Hr. cbv zeta in Hr.
  assert (Hc : copied changed = [("Accept", "*"); ("Content-Type", "text/plain"); ("UNIQUE_ID", "u1");
    ("X-COMPARE-TRANSLATED", "1"); ("X-DUP-COUNT", "1"); ("X_DUP_HTTP_STATUS", "404")]%string) by (vm_compute; reflexivity).
  destruct (translateHook _ _ _) as [s' st].
  destruct Hr as (_ & p & i & _ & Hi & Hh & _ & _ & _ & Hid & Hm & _ & _ & _ & _ & _ & _ & Hr & _ & Hst & _).
  split; [rewrite Hm; vm_compute; reflexivity|]. split.
  - cbn [fmap list_fmap]. rewrite !Hh. vm_compute. reflexivity.
  - exists p, i. split; [exact Hi|]. split; [apply Hid; vm_compute; reflexivity|].
    rewrite Hst, Hr, Hc. vm_compute. reflexivity.
Defined.
End FiltersCompareExamples.
