(* ===== verification/Wire.v ===== *)
(** * Wire

    A duplicate on its way from mod_dup to mod_compare: the header lines
    [performCurlCall] gives libcurl for a request sent with its answer, and what the
    other server receives of them. libcurl, HTTP and Apache are not part of the
    repository: [delivered] is the part of their documented behaviour that the modules
    rely on. *)
From S2P Require Import Prelude CxxString StdMap Boost RequestCommon RequestInfo Filters CurlCall RequestProcessor Apache.
Local Open Scope N_scope.

(** ** Values of headers *)

Fixpoint all_chars (p : ascii -> bool) (s : string) : bool :=
  match s with EmptyString => true | String c t => p c && all_chars p t end.

Fixpoint last_blank (s : string) : bool :=
  match s with
  | EmptyString => false
  | String c EmptyString => Reference.is_blank c
  | String _ t => last_blank t
  end.

(** A value that travels unchanged: not empty, no NUL and no end of line in it, no
    blank at its ends. *)
Definition clean (v : string) : bool :=
  negb (str_empty v) && negb (has_char "000" v) && negb (has_char "010" v) && negb (has_char "013" v)
  && String.eqb (skip_blanks v) v && negb (last_blank v).

Lemma clean_no_nul v : clean v = true -> has_char "000" v = false.
Proof. unfold clean. rewrite !andb_true_iff, !negb_true_iff. tauto. Qed.

Lemma clean_value v : clean v = true -> skip_blanks (cstr v) = v.
Proof.
  intros Hv. rewrite cstr_id by by apply clean_no_nul. unfold clean in Hv.
  rewrite !andb_true_iff, String.eqb_eq in Hv. tauto.
Qed.

Lemma all_chars_no c p s : p c = false -> all_chars p s = true -> has_char c s = false.
Proof.
  intros Hp. induction s as [|a s IH]; [done|]. cbn. intros [Ha Hs]%andb_prop. rewrite IH by done.
  destruct (Ascii.eqb_spec a c) as [->|]; [congruence|done].
Qed.

Lemma visible_clean s : s <> EmptyString -> all_chars (fun c => negb (Reference.is_blank c) && negb (Ascii.eqb c "000")) s = true -> clean s = true.
Proof.
  intros Hne Hs. unfold clean.
  rewrite (all_chars_no "000" _ _ eq_refl Hs), (all_chars_no "010" _ _ eq_refl Hs), (all_chars_no "013" _ _ eq_refl Hs).
  assert (Hl : last_blank s = false).
  { clear Hne. induction s as [|a s IH]; [done|]. cbn in Hs |- *. apply andb_prop in Hs as [[Ha _]%andb_prop Hs].
    destruct s; [by apply negb_true_iff|by apply IH]. }
  destruct s as [|a s]; [done|]. cbn [str_empty negb andb all_chars] in *.
  apply andb_prop in Hs as [[Ha%negb_true_iff _]%andb_prop _]. cbn [skip_blanks].
  unfold Reference.is_blank in Ha. cbv zeta. rewrite Ha, String.eqb_refl. cbn [andb]. by rewrite Hl.
Qed.

Lemma digits_visible acc s :
  is_Some (digits_value acc s) -> all_chars (fun c => negb (Reference.is_blank c) && negb (Ascii.eqb c "000")) s = true.
Proof.
  revert acc. induction s as [|c s IH]; intros acc; [done|]. cbn.
  destruct (digit_value c) as [d|] eqn:Ed; [|by intros []]. intros Hs. rewrite (IH _ Hs), andb_true_r.
  destruct c as [[] [] [] [] [] [] [] []]; try done; by vm_compute in Ed.
Qed.

Lemma clean_string_of_Z z : clean (string_of_Z z) = true.
Proof.
  assert (Hn : forall n, all_chars (fun c => negb (Reference.is_blank c) && negb (Ascii.eqb c "000")) (string_of_N n) = true /\ string_of_N n <> EmptyString).
  { intros n. pose proof (digits_value_string_of_N n) as Hd. split; [by apply (digits_visible 0); rewrite Hd|].
    intros He. rewrite He in Hd. injection Hd as <-. by vm_compute in He. }
  destruct z as [|p|p]; [by apply (visible_clean "0")|by apply visible_clean; apply Hn|].
  apply visible_clean; [done|]. apply (proj1 (Hn (Npos p))).
Qed.

(** ** Lines *)

(** The name and the value of a header line. *)
Definition line_entry (l : string) : option (string * string) :=
  (fun p => (str_take p l, skip_blanks (str_drop (p + 1) l))) <$> find_char ":" l.

Definition named_entries (k : string) (es : list (string * string)) : list (string * string) :=
  List.filter (fun e => strcaseeq (fst e) k) es.

Definition entry_of (v : tKeyVal) : string * string := (fst v, skip_blanks (cstr (snd v))).

Lemma line_entry_line k v :
  header_key_ok k = true -> line_entry (cstr (header_line (k, v))) = Some (entry_of (k, v)).
Proof.
  unfold header_key_ok, header_line. intros [Hc%negb_true_iff Hn%negb_true_iff]%andb_prop.
  cbn [fst snd]. rewrite cstr_app by done.
  change (cstr (": " +:+ v)) with (String ":" (String " " (cstr v))).
  unfold line_entry. rewrite find_char_app by done. cbn. rewrite str_take_app. do 2 f_equal.
  by rewrite N.add_comm, <- str_drop_drop, str_drop_app.
Qed.

Lemma line_entries (l : tKeyValList) :
  Forall (fun v => header_key_ok (fst v) = true) l ->
  omap line_entry ((fun v => cstr (header_line v)) <$> l) = entry_of <$> l.
Proof.
  induction 1 as [|[k v] l Hk _ IH]; [done|]. cbn [fmap list_fmap omap list_omap].
  rewrite line_entry_line by done. by rewrite IH.
Qed.

Lemma line_names (l : tKeyValList) :
  Forall (fun v => header_key_ok (fst v) = true) l ->
  omap header_name ((fun v => cstr (header_line v)) <$> l) = fst <$> l.
Proof.
  induction 1 as [|[k v] l Hk _ IH]; [done|]. cbn [fmap list_fmap omap list_omap].
  rewrite header_name_line by done. by rewrite IH.
Qed.

(** No other case of the name is used. *)
Definition one_case (k : string) (hs : tKeyValList) : Prop :=
  Forall (fun v => strcaseeq (fst v) k = true -> fst v = k) hs.

(** Of the headers of the request, the first of a name is copied, unless the module
    has sent that name already. *)
Lemma copied_named k headers hs :
  one_case k hs ->
  List.filter (fun v => strcaseeq (fst v) k) (copied headers hs)
  = if bool_decide (k ∈ headers) || not_copied k then [] else take 1 (List.filter (fun v => strcaseeq (fst v) k) hs).
Proof.
  intros Hap. revert headers. induction Hap as [|v hs Hv _ IH]; intros headers; cbn [copied List.filter].
  { by destruct (_ || _). }
  destruct (strcaseeq (fst v) k) eqn:Ek.
  - specialize (Hv eq_refl). rewrite Hv. destruct (not_copied k) eqn:Hnc; cbn [negb].
    { by rewrite andb_false_r, IH, !orb_true_r. }
    rewrite andb_true_r, orb_false_r.
    case_bool_decide as Hin; cbn [negb]; [rewrite IH; by rewrite bool_decide_eq_true_2|].
    cbn [List.filter]. rewrite Ek, IH, bool_decide_eq_true_2 by by left. done.
  - destruct (negb (bool_decide (fst v ∈ headers)) && negb (not_copied (fst v))); [|apply IH].
    cbn [List.filter]. rewrite Ek, IH.
    rewrite (bool_decide_ext (k ∈ fst v :: headers) (k ∈ headers)); [done|]. rewrite elem_of_cons.
    split; [intros [->|]; [|done]|by right]. unfold strcaseeq in Ek. by rewrite String.eqb_refl in Ek.
Qed.

(** ** The header lines of a duplicate with its answer *)

Section Lines.
Context `{BoostRegex} {B : BoostString} {HB : BoostStringLaws B} `{Curl}.
Local Existing Instance B.

Definition patterns (r : RequestInfo) : tKeyValList :=
  List.filter (fun v => String.eqb (fst v) "X-MATCHED-PATTERN") (mHeadersOut r).

(** The lines of the module itself, but for those of the patterns and the length. *)
Definition first_lines (r : RequestInfo) : list string :=
  [cstr ("ELAPSED_TIME_BY_DUP: " +:+ cast_string (getElapsedTimeMS r)); "Expect:"; "X-DUPLICATED-REQUEST: 1";
   "User-RealAgent: mod-dup"]%string
  ++ (if mValidationHeaderDup r then ["X_COMP_LOG: ON"%string] else [])
  ++ ["Content-Type: application/x-dup-serialized"; "Duplication-Type: Response"]%string.

Definition own_lines (r : RequestInfo) : list string :=
  first_lines r ++ ((fun v => cstr (header_line v)) <$> patterns r)
  ++ [cstr ("Content-Length: " +:+ cast_string (Z.of_N (str_len (dupContent r))))].

Lemma pattern_lines (out : tKeyValList) slist :
  foldl (fun slist (hdrOut : tKeyVal) =>
    if String.eqb (fst hdrOut) "X-MATCHED-PATTERN" then curl_slist_append slist (header_line hdrOut) else slist) slist out
  = slist ++ ((fun v => cstr (header_line v)) <$> List.filter (fun v => String.eqb (fst v) "X-MATCHED-PATTERN") out).
Proof.
  revert slist. induction out as [|kv out IH]; intros slist; cbn [foldl List.filter]; [by rewrite app_nil_r|].
  rewrite IH. destruct (String.eqb (fst kv) "X-MATCHED-PATTERN"); [|done].
  unfold curl_slist_append. by rewrite <- app_assoc.
Qed.

(** The header lines in force when such a duplicate is sent. *)
Lemma duplicate_lines s f r :
  mDuplicationType f = DuplicationType.REQUEST_WITH_ANSWER ->
  eff_headers (effective (handle (fst (performCurlCall s f r))))
  = own_lines r ++ ((fun v => cstr (header_line v)) <$> copied (omap header_name (own_lines r)) (mHeadersIn r)).
Proof.
  intros Hf. unfold performCurlCall, addValidationHeadersCompare. cbv zeta. rewrite Hf.
  rewrite !(bool_decide_eq_true_2 (DuplicationType.REQUEST_WITH_ANSWER = _)) by done. cbn [andb].
  assert (Hsend : forall curl r' slist, mHeadersIn r' = mHeadersIn r -> mHeadersOut r' = mHeadersOut r ->
    dupContent r' = dupContent r ->
    addCommonHeaders r [] ++ (if mValidationHeaderDup r then ["X_COMP_LOG: ON"%string] else []) = slist ->
    eff_headers (effective (fst (sendDupFormat curl r' slist)))
    = own_lines r ++ ((fun v => cstr (header_line v)) <$> copied (omap header_name (own_lines r)) (mHeadersIn r))).
  { intros curl r' slist Hi Ho Hc <-. unfold sendDupFormat, sendInBody. cbn [fst].
    unfold effective. rewrite foldl_app. cbn [foldl eff_step eff_headers].
    rewrite addOrigHeaders_eq, pattern_lines, Hi, Ho, Hc. unfold own_lines, first_lines, curl_slist_append, addCommonHeaders.
    destruct (mValidationHeaderDup r); reflexivity. }
  destruct (mValidationHeaderDup r) eqn:Hv.
  - match goal with |- context [sendDupFormat ?c ?r' ?l] =>
      specialize (Hsend c r' l eq_refl eq_refl eq_refl eq_refl); destruct (sendDupFormat c r' l) end. exact Hsend.
  - match goal with |- context [sendDupFormat ?c ?r' ?l] =>
      specialize (Hsend c r' l eq_refl eq_refl eq_refl (app_nil_r _)); destruct (sendDupFormat c r' l) end. exact Hsend.
Qed.

(** The same as names and values. *)
Definition own_entries (r : RequestInfo) : list (string * string) :=
  [("ELAPSED_TIME_BY_DUP", string_of_Z (getElapsedTimeMS r)); ("Expect", ""); ("X-DUPLICATED-REQUEST", "1");
   ("User-RealAgent", "mod-dup")]%string
  ++ (if mValidationHeaderDup r then [("X_COMP_LOG", "ON")]%string else [])
  ++ [("Content-Type", "application/x-dup-serialized"); ("Duplication-Type", "Response")]%string
  ++ (entry_of <$> patterns r)
  ++ [("Content-Length"%string, string_of_Z (Z.of_N (str_len (dupContent r))))].

Lemma header_name_entry l : header_name l = fst <$> line_entry l.
Proof. unfold header_name, line_entry. by destruct (find_char ":" l). Qed.

Lemma omap_names (ls : list string) : omap header_name ls = fst <$> omap line_entry ls.
Proof.
  induction ls as [|l ls IH]; [done|]. cbn [omap list_omap]. rewrite header_name_entry, IH.
  by destruct (line_entry l).
Qed.

Lemma number_entry k z :
  header_key_ok k = true -> line_entry (cstr (k +:+ ": " +:+ cast_string z)) = Some (k, string_of_Z z).
Proof.
  intros Hk. pose proof (line_entry_line k (cast_string z) Hk) as He. unfold header_line in He. cbn [fst snd] in He.
  rewrite He, cast_string_spec. unfold entry_of. cbn [fst snd]. by rewrite clean_value by apply clean_string_of_Z.
Qed.

Lemma patterns_ok r : Forall (fun v => header_key_ok (fst v) = true) (patterns r).
Proof.
  apply Forall_forall. intros v Hv%list_elem_of_In%filter_In. destruct Hv as [_ ->%String.eqb_eq]. done.
Qed.

Lemma own_lines_entries r : omap line_entry (own_lines r) = own_entries r.
Proof.
  unfold own_lines, first_lines, own_entries. rewrite !omap_app.
  rewrite line_entries by apply patterns_ok. rewrite <- !app_assoc. f_equal; [|f_equal; [|f_equal; f_equal]].
  - assert (He : line_entry (cstr ("ELAPSED_TIME_BY_DUP: " +:+ cast_string (getElapsedTimeMS r))) = _)
      by exact (number_entry "ELAPSED_TIME_BY_DUP" _ eq_refl).
    cbn [omap list_omap]. by rewrite He.
  - by destruct (mValidationHeaderDup r).
  - assert (He : line_entry (cstr ("Content-Length: " +:+ cast_string (Z.of_N (str_len (dupContent r))))) = _)
      by exact (number_entry "Content-Length" _ eq_refl).
    cbn [omap list_omap]. by rewrite He.
Qed.

Lemma named_app k a b : named_entries k (a ++ b) = named_entries k a ++ named_entries k b.
Proof. apply List.filter_app. Qed.

Lemma named_patterns k r : strcaseeq "X-MATCHED-PATTERN" k = false -> named_entries k (entry_of <$> patterns r) = [].
Proof.
  intros Hk. unfold patterns. induction (mHeadersOut r) as [|[n v] l IH]; [done|]. cbn.
  destruct (String.eqb_spec n "X-MATCHED-PATTERN") as [->|]; [|done]. cbn. by rewrite Hk.
Qed.

Lemma named_entry_of k hs :
  named_entries k (entry_of <$> hs) = entry_of <$> List.filter (fun v : tKeyVal => strcaseeq (fst v) k) hs.
Proof.
  unfold named_entries. induction hs as [|v hs IH]; [done|]. cbn [fmap list_fmap List.filter entry_of fst].
  destruct (strcaseeq (fst v) k); cbn [fmap list_fmap]; by rewrite IH.
Qed.

(** What a name stands for in a duplicate. *)
Lemma sent_named s f r k :
  mDuplicationType f = DuplicationType.REQUEST_WITH_ANSWER -> header_keys_ok r -> one_case k (mHeadersIn r) ->
  named_entries k (omap line_entry (eff_headers (effective (handle (fst (performCurlCall s f r))))))
  = named_entries k (own_entries r) ++
    (if bool_decide (k ∈ (own_entries r).*1) || not_copied k then []
     else take 1 (named_entries k (entry_of <$> mHeadersIn r))).
Proof.
  intros Hf Hk Hc. rewrite duplicate_lines by done. rewrite omap_app, named_app, own_lines_entries. f_equal.
  rewrite line_entries.
  2:{ destruct (copied_spec (omap header_name (own_lines r)) (mHeadersIn r)) as (_ & _ & Hs & _).
      apply Forall_forall. intros v Hv. unfold header_keys_ok in Hk. rewrite Forall_forall in Hk. apply Hk.
      by eapply elem_of_submseteq; [exact Hv|apply sublist_submseteq]. }
  rewrite !named_entry_of, copied_named by done. rewrite omap_names, own_lines_entries.
  destruct (_ || _); [done|]. by destruct (List.filter _ _).
Qed.
End Lines.

(** ** What the other server receives

    Over HTTP/1, libcurl sends the lines as they are, but for a header without a value, which is
    not sent, and adds the headers of the transport; Apache reads a header into the
    table of the request, its value without the blanks at its ends, and puts the
    values of a repeated header together. *)
Definition transport_headers : list string :=
  ["host"; "connection"; "transfer-encoding"; "te"; "upgrade"; "expect"; "accept"; "user-agent"; "content-length"]%string.

(** The request [q] another server makes of a transfer with the handle [c], of which
    the input filters give the body in the brigades [sent] and [last]. *)
Record delivered `{AprTable} (c : CURL) (q : request_rec) (sent : list (Z * list bucket)) (last : Z * list bucket) :
    Prop := {
  dl_sent k n v :
    named_entries k (omap line_entry (eff_headers (effective c))) = [(n, v)] -> clean v = true ->
    bool_decide (lower k ∈ transport_headers) = false -> named k (headers_in q) = [(n, v)];
  dl_absent k :
    named_entries k (omap line_entry (eff_headers (effective c))) = [] ->
    bool_decide (lower k ∈ "content-type"%string :: transport_headers) = false -> named k (headers_in q) = [];
  dl_open : Forall (fun got => ends got = false) sent;
  dl_end : ends last = true;
  dl_body : Some (str_concat (content_of <$> sent ++ [last])) = sent_body c
}.
