(* ===== verification/EndToEnd.v ===== *)
(** * EndToEnd

    The two modules put together: a request mod_dup treats, its duplicate sent with the
    answer of the first server, and what mod_compare does of it on the second one, from
    the hook to the report. The other files describe each step; here the conclusion of
    one is the hypothesis of the next. *)
From stdpp Require Import gmap.
From S2P Require Import Prelude CxxString StdMap Boost RequestCommon RequestInfo Filters CurlCall RequestProcessor Deserialize Apache Wire.
From S2P Require FiltersDup JsonDiffPrinter.
From S2P Require Import DiffPrinter MapCompare StringCompare Log ResponseDiff ModCompare FiltersCompare.
Local Open Scope Z_scope.

Ltac in_names := apply (bool_decide_eq_true_1 _); vm_compute; reflexivity.

(** ** The headers that carry the original request *)

Section Received.
Context `{BoostRegex} {B : BoostString} {HB : BoostStringLaws B} `{Curl}.
Context {T : AprTable} {TL : AprTableLaws T}.
Local Existing Instance B.

Lemma get_named (t : table) k : apr_table_get t k = snd <$> head (named k t).
Proof.
  rewrite apr_get_elts. unfold named. induction (apr_table_elts t) as [|e l IH]; [done|]. cbn.
  by destruct (strcaseeq (fst e) k).
Qed.

(** The method the client asked for. *)
Definition asked_method (q0 : request_rec) : string :=
  default (method q0) (apr_table_get (headers_in q0) "X-HTTP-METHOD-OVERRIDE").

Definition carried_names : list string :=
  [c_UNIQUE_ID; "X_DUP_METHOD"; "X_DUP_HTTP_STATUS"; "X_DUP_CONTENT_TYPE"; "ELAPSED_TIME_BY_DUP"; "Content-Type";
   "Duplication-Type"]%string.

(** A request of a client whose headers travel as they are: valid names, the names
    above in one case only, and the values that are carried clean. *)
Record plain_request (q0 : request_rec) (id : string) : Prop := {
  pl_keys : Forall (fun e => header_key_ok (fst e) = true) (apr_table_elts (headers_in q0));
  pl_case : Forall (fun k => one_case k (apr_table_elts (headers_in q0))) carried_names;
  pl_id : apr_table_get (headers_in q0) c_UNIQUE_ID = Some id;
  pl_id_clean : clean id = true;
  pl_method : clean (asked_method q0) = true;
  pl_content t : apr_table_get (headers_in q0) "Content-Type" = Some t -> clean t = true;
  pl_no_content : apr_table_get (headers_in q0) "Content-Type" = None ->
    named "X_DUP_CONTENT_TYPE" (headers_in q0) = [];
  pl_status : -2147483648 <= status q0 < 2147483648
}.

(** The headers of [q] that mod_compare reads. *)
Record recognised (q0 : request_rec) (r : RequestInfo) (q : request_rec) : Prop := {
  rc_type : apr_table_get (headers_in q) "Duplication-Type" = Some "Response"%string;
  rc_id : apr_table_get (headers_in q) c_UNIQUE_ID = Some (mId r);
  rc_method : apr_table_get (headers_in q) "X_DUP_METHOD" = Some (asked_method q0);
  rc_content : apr_table_get (headers_in q) "X_DUP_CONTENT_TYPE" = apr_table_get (headers_in q0) "Content-Type";
  rc_serialized : apr_table_get (headers_in q) "Content-Type" = Some "application/x-dup-serialized"%string;
  rc_status : named "X_DUP_HTTP_STATUS" (headers_in q) = [("X_DUP_HTTP_STATUS", string_of_Z (status q0))]%string;
  rc_time : named "ELAPSED_TIME_BY_DUP" (headers_in q) = [("ELAPSED_TIME_BY_DUP", string_of_Z (getElapsedTimeMS r))]%string
}.

(** The names the module sends itself. *)
Lemma own_named k r :
  strcaseeq "X-MATCHED-PATTERN" k = false -> strcaseeq "Content-Length" k = false -> strcaseeq "X_COMP_LOG" k = false ->
  named_entries k (own_entries r)
  = named_entries k [("ELAPSED_TIME_BY_DUP", string_of_Z (getElapsedTimeMS r)); ("Expect", ""); ("X-DUPLICATED-REQUEST", "1");
      ("User-RealAgent", "mod-dup"); ("Content-Type", "application/x-dup-serialized"); ("Duplication-Type", "Response")]%string.
Proof.
  intros Hp Hl Hx. unfold own_entries. rewrite !named_app, named_patterns by done.
  assert (H1 : named_entries k (if mValidationHeaderDup r then [("X_COMP_LOG", "ON")]%string else []) = []).
  { destruct (mValidationHeaderDup r); [|done]. cbn. by rewrite Hx. }
  assert (H2 : named_entries k [("Content-Length"%string, string_of_Z (Z.of_N (str_len (dupContent r))))] = []).
  { cbn. by rewrite Hl. }
  rewrite H1, H2, !app_nil_r. cbn [app]. by rewrite <- named_app.
Qed.

(** The headers of the request, copied in the duplicate. *)
Definition entries (r : RequestInfo) (k : string) : tKeyValList :=
  List.filter (fun v => strcaseeq (fst v) k) (mHeadersIn r).

Lemma carried s f r q sent last k :
  mDuplicationType f = DuplicationType.REQUEST_WITH_ANSWER -> header_keys_ok r -> one_case k (mHeadersIn r) ->
  delivered (handle (fst (performCurlCall s f r))) q sent last ->
  named_entries k (own_entries r) = [] -> not_copied k = false ->
  bool_decide (lower k ∈ "content-type"%string :: transport_headers) = false ->
  (forall n v, head (entries r k) = Some (n, v) -> clean v = true) ->
  named k (headers_in q) = match head (entries r k) with Some e => [e] | None => [] end.
Proof.
  intros Hf Hk Hc Hq Hown Hn Ht Hclean.
  assert (Hnot : k ∉ (own_entries r).*1).
  { intros ([n v] & He & Hin)%list_elem_of_fmap. cbn in He. subst n.
    assert (Hin' : (k, v) ∈ named_entries k (own_entries r)).
    { apply list_elem_of_In, filter_In. split; [by apply list_elem_of_In|]. apply String.eqb_refl. }
    rewrite Hown in Hin'. by apply not_elem_of_nil in Hin'. }
  pose proof (sent_named s f r k Hf Hk Hc) as Hs. rewrite Hown, bool_decide_eq_false_2, Hn, named_entry_of in Hs by done.
  cbn [app orb] in Hs. change (List.filter _ (mHeadersIn r)) with (entries r k) in Hs.
  destruct (entries r k) as [|[n v] l] eqn:E; cbn [head fmap list_fmap take] in *.
  - by apply (dl_absent _ _ _ _ Hq).
  - unfold entry_of in Hs. cbn [fst snd] in Hs. rewrite (clean_value v) in Hs by by eapply Hclean.
    apply (dl_sent _ _ _ _ Hq); [exact Hs|by eapply Hclean|].
    apply bool_decide_eq_false. apply bool_decide_eq_false in Ht. intros Hin. apply Ht. by right.
Qed.

(** The headers of the module itself. *)
Lemma own_header s f r q sent last k v :
  mDuplicationType f = DuplicationType.REQUEST_WITH_ANSWER -> header_keys_ok r -> one_case k (mHeadersIn r) ->
  delivered (handle (fst (performCurlCall s f r))) q sent last ->
  named_entries k (own_entries r) = [(k, v)] -> clean v = true -> bool_decide (lower k ∈ transport_headers) = false ->
  named k (headers_in q) = [(k, v)].
Proof.
  intros Hf Hk Hc Hq Hown Hv Ht. apply (dl_sent _ _ _ _ Hq); [|done..].
  rewrite sent_named by done. rewrite Hown, bool_decide_eq_true_2; [done|].
  apply list_elem_of_fmap. exists (k, v). split; [done|].
  assert (Hin : (k, v) ∈ named_entries k (own_entries r)) by (rewrite Hown; by left).
  by apply list_elem_of_In, filter_In in Hin as [Hin%list_elem_of_In _].
Qed.
End Received.

Section Prepared.
Context `{BoostRegex} {B : BoostString} {HB : BoostStringLaws B} {C : Curl}.
Context {T : AprTable} {TL : AprTableLaws T}.
Local Existing Instance B.
Variables (c : N) (q0 : request_rec) (ri r : RequestInfo).
Hypothesis Hprep : FiltersDup.prepareRequestInfo c q0 ri = (true, r).
Hypothesis Hnone : mHeadersIn ri = [].
Hypothesis Hplain : plain_request q0 (mId ri).

Lemma prepared_headers :
  mHeadersIn r = FiltersDup.own_headers q0 ++ apr_table_elts (headers_in q0) /\ mId r = mId ri /\
  mBody r = mBody ri /\ mAnswer r = mAnswer ri /\ mHeadersOut r = mHeadersOut ri /\ mElapsedTime r = mElapsedTime ri.
Proof using Hprep Hnone.
  destruct (FiltersDup.count_reached q0) eqn:Ec.
  { pose proof (FiltersDup.prepareRequestInfo_refused c q0 ri Ec) as Hr. by rewrite Hprep in Hr. }
  destruct (FiltersDup.prepareRequestInfo_spec c q0 ri Ec) as (r' & Hr' & Hh & _ & _ & _ & _ & _ & Hb & Ha & Ho & Hi & Hel).
  rewrite Hprep in Hr'. injection Hr' as <-. rewrite Hnone in Hh. done.
Qed.

Lemma prepared_case k : k ∈ carried_names -> one_case k (mHeadersIn r).
Proof using Hprep Hnone Hplain.
  intros Hk. destruct prepared_headers as [-> _]. apply Forall_app. split.
  - unfold FiltersDup.own_headers. unfold carried_names in Hk.
    repeat (apply elem_of_cons in Hk as [->|Hk]; [destruct (apr_table_get (headers_in q0) "Content-Type"); by repeat constructor|]).
    by apply not_elem_of_nil in Hk.
  - pose proof (pl_case _ _ Hplain) as Hc. rewrite Forall_forall in Hc. by apply Hc.
Qed.

Lemma prepared_keys : header_keys_ok r.
Proof using Hprep Hnone Hplain.
  unfold header_keys_ok. destruct prepared_headers as [-> _]. apply Forall_app. split; [|apply Hplain].
  unfold FiltersDup.own_headers. destruct (apr_table_get (headers_in q0) "Content-Type"); by repeat constructor.
Qed.

Lemma prepared_entries k :
  entries r k = List.filter (fun v => strcaseeq (fst v) k) (FiltersDup.own_headers q0) ++ named k (headers_in q0).
Proof using Hprep Hnone. unfold entries. destruct prepared_headers as [-> _]. apply List.filter_app. Qed.

Lemma prepared_id : head (entries r c_UNIQUE_ID) = Some (c_UNIQUE_ID, mId r).
Proof using TL Hprep Hnone Hplain.
  rewrite prepared_entries. destruct prepared_headers as (Hh & -> & _).
  replace (List.filter _ (FiltersDup.own_headers q0)) with ([] : tKeyValList)
    by (unfold FiltersDup.own_headers; by destruct (apr_table_get (headers_in q0) "Content-Type")).
  pose proof (pl_id _ _ Hplain) as Hi. rewrite get_named in Hi. cbn [app].
  destruct (named c_UNIQUE_ID (headers_in q0)) as [|[n v] l] eqn:En; [done|]. cbn in Hi |- *. injection Hi as ->.
  do 2 f_equal. pose proof (prepared_case c_UNIQUE_ID ltac:(in_names)) as Hc. unfold one_case in Hc.
  rewrite Forall_forall in Hc.
  assert (Hin : (n, mId ri) ∈ named c_UNIQUE_ID (headers_in q0)) by (rewrite En; by left).
  apply list_elem_of_In, filter_In in Hin as [Hin%list_elem_of_In Hn]. apply (Hc (n, mId ri)); [|done].
  rewrite Hh. apply elem_of_app. by right.
Qed.

(** The headers of the module come first. *)
Lemma prepared_own k e :
  head (List.filter (fun v => strcaseeq (fst v) k) (FiltersDup.own_headers q0)) = Some e -> head (entries r k) = Some e.
Proof using Hprep Hnone. rewrite prepared_entries. by destruct (List.filter _ (FiltersDup.own_headers q0)). Qed.

Variables (s : Sender) (f : tFilter) (q : request_rec) (sent : list (Z * list bucket)) (last : Z * list bucket).
Hypothesis Hf : mDuplicationType f = DuplicationType.REQUEST_WITH_ANSWER.
Hypothesis Hq : delivered (handle (fst (performCurlCall s f r))) q sent last.

Lemma duplicate_recognised : recognised q0 r q.
Proof using All.
  assert (Hcar : forall k, k ∈ carried_names ->
    named_entries k (own_entries r) = [] -> not_copied k = false ->
    bool_decide (lower k ∈ "content-type"%string :: transport_headers) = false ->
    (forall n v, head (entries r k) = Some (n, v) -> clean v = true) ->
    named k (headers_in q) = match head (entries r k) with Some e => [e] | None => [] end).
  { intros k Hk ? ? ? ?. eapply carried; eauto using prepared_keys, prepared_case. }
  assert (Hown : forall k v, k ∈ carried_names -> named_entries k (own_entries r) = [(k, v)] -> clean v = true ->
    bool_decide (lower k ∈ transport_headers) = false -> named k (headers_in q) = [(k, v)]).
  { intros k v Hk ? ? ?. eapply own_header; eauto using prepared_keys, prepared_case. }
  assert (Hm : head (entries r "X_DUP_METHOD") = Some ("X_DUP_METHOD"%string, asked_method q0)).
  { apply prepared_own. unfold FiltersDup.own_headers. by destruct (apr_table_get (headers_in q0) "Content-Type"). }
  assert (Hs : head (entries r "X_DUP_HTTP_STATUS") = Some ("X_DUP_HTTP_STATUS"%string, string_of_Z (status q0))).
  { apply prepared_own. rewrite <- cast_string_spec. unfold FiltersDup.own_headers.
    by destruct (apr_table_get (headers_in q0) "Content-Type"). }
  assert (Ht : head (entries r "X_DUP_CONTENT_TYPE")
    = (fun t => ("X_DUP_CONTENT_TYPE"%string, t)) <$> apr_table_get (headers_in q0) "Content-Type").
  { destruct (apr_table_get (headers_in q0) "Content-Type") as [t|] eqn:Et.
    - apply prepared_own. unfold FiltersDup.own_headers. by rewrite Et.
    - rewrite prepared_entries, (pl_no_content _ _ Hplain Et). unfold FiltersDup.own_headers. by rewrite Et. }
  pose proof prepared_id as Hid. destruct prepared_headers as (_ & Hsame & _).
  split; rewrite ?get_named.
  - rewrite (Hown "Duplication-Type" "Response")%string; [done|in_names|by rewrite own_named|done..].
  - rewrite (Hcar c_UNIQUE_ID); rewrite ?Hid; [done|in_names|by rewrite own_named|done..|].
    intros n v [= <- <-]. rewrite Hsame. apply Hplain.
  - rewrite (Hcar "X_DUP_METHOD"%string); rewrite ?Hm; [done|in_names|by rewrite own_named|done..|].
    intros n v [= <- <-]. apply Hplain.
  - rewrite (Hcar "X_DUP_CONTENT_TYPE"%string); rewrite ?Ht; [|in_names|by rewrite own_named|done..|].
    + rewrite <- get_named. by destruct (apr_table_get (headers_in q0) "Content-Type").
    + intros n v. destruct (apr_table_get (headers_in q0) "Content-Type") as [t|] eqn:Et; [|done]. intros [= <- <-].
      by apply (pl_content _ _ Hplain).
  - rewrite (Hown "Content-Type" "application/x-dup-serialized")%string; [done|in_names|by rewrite own_named|done..].
  - rewrite (Hcar "X_DUP_HTTP_STATUS"%string); rewrite ?Hs; [done|in_names|by rewrite own_named|done..|].
    intros n v [= <- <-]. apply clean_string_of_Z.
  - apply Hown; [in_names|by rewrite own_named|apply clean_string_of_Z|done].
Qed.
End Prepared.

(** ** What mod_compare keeps of the request *)

Section Kept.
Context `{BoostRegex} {B : BoostString} {HB : BoostStringLaws B} {O : Host}.
Context {T : AprTable} {TL : AprTableLaws T} `{ReqRandom}.
Local Existing Instance B.

Lemma std_find_set (m : mapStr) k v k' :
  map_sorted m -> std_find k' (std_set k v m) = if bool_decide (k = k') then Some v else std_find k' m.
Proof.
  intros Hm. unfold std_set. case_bool_decide as Hk; [subst; by rewrite std_find_modify_eq|by apply std_find_modify_ne].
Qed.

(** Of the headers copied in a map, the last of a name is found. *)
Lemma find_absent l (m : mapStr) k :
  map_sorted m -> named_entries k l = [] ->
  std_find k (foldl (fun m kv => FiltersCompare.iterateOverHeadersCallBack m (fst kv) (snd kv)) m l) = std_find k m.
Proof.
  revert m. induction l as [|[n v] l IH]; intros m Hm Hl; [done|]. cbn [foldl fst snd].
  cbn in Hl. destruct (strcaseeq n k) eqn:E; [done|].
  rewrite IH by (done || by apply std_modify_sorted). unfold FiltersCompare.iterateOverHeadersCallBack.
  rewrite std_find_set by done. rewrite bool_decide_eq_false_2; [done|]. intros ->.
  unfold strcaseeq in E. by rewrite String.eqb_refl in E.
Qed.

Lemma find_only l (m : mapStr) k v :
  map_sorted m -> named_entries k l = [(k, v)] ->
  std_find k (foldl (fun m kv => FiltersCompare.iterateOverHeadersCallBack m (fst kv) (snd kv)) m l) = Some v.
Proof.
  revert m. induction l as [|[n w] l IH]; intros m Hm Hl; [done|]. cbn [foldl fst snd].
  assert (Hm' : map_sorted (FiltersCompare.iterateOverHeadersCallBack m n w)) by by apply std_modify_sorted.
  cbn in Hl. destruct (strcaseeq n k) eqn:E; [|by apply IH]. injection Hl as -> -> Hl.
  rewrite find_absent by done. unfold FiltersCompare.iterateOverHeadersCallBack.
  rewrite std_find_set by done. by rewrite bool_decide_eq_true_2.
Qed.

(** The headers the hook changes are others. *)
Lemma restore_named q k :
  strcaseeq "X_DUP_METHOD" k = false -> strcaseeq "X-COMPARE-TRANSLATED" k = false ->
  strcaseeq "Content-Type" k = false -> strcaseeq "X_DUP_CONTENT_TYPE" k = false ->
  named k (headers_in (restore_request q)) = named k (headers_in q).
Proof.
  intros Hm Hx Hc Ht. unfold restore_request.
  set (q1 := match apr_table_get (headers_in q) "X_DUP_METHOD" with Some _ => _ | None => q end).
  assert (H1 : named k (headers_in q1) = named k (headers_in q)).
  { subst q1. destruct (apr_table_get _ _) as [m|]; [|done]. unfold unset_in. cbn [headers_in set_headers_in].
    rewrite apr_named_unset by done. by destruct (changeMethod_spec m q) as (_ & _ & ->). }
  rewrite <- H1. clearbody q1.
  set (q2 := match apr_table_get (headers_in q1) "Content-Type" with Some _ => _ | None => q1 end).
  assert (H2 : named k (headers_in q2) = named k (headers_in q1)).
  { subst q2. destruct (apr_table_get _ _) as [t|]; [|done]. destruct (starts_with _ _); [|done].
    unfold set_in. cbn [headers_in set_headers_in]. by apply apr_named_set. }
  rewrite <- H2. clearbody q2. cbv zeta. destruct (apr_table_get (headers_in q2) _) as [t|]; [|done].
  unfold set_in, unset_in. cbn [headers_in set_headers_in set_content_type].
  rewrite apr_named_unset by done. by apply apr_named_set.
Qed.

Lemma copied_find (s : Chain) k v :
  strcaseeq c_UNIQUE_ID k = false ->
  strcaseeq "X_DUP_METHOD" k = false -> strcaseeq "X-COMPARE-TRANSLATED" k = false ->
  strcaseeq "Content-Type" k = false -> strcaseeq "X_DUP_CONTENT_TYPE" k = false ->
  named k (headers_in (rec (attached s))) = [(k, v)] -> std_find k (FiltersCompare.copied s) = Some v.
Proof.
  intros Hu Hm Hx Hc Ht Hk. unfold FiltersCompare.copied, getOrSetUniqueID, getNextReqId, apr_table_do.
  assert (Hr : forall q', named k (headers_in q') = named k (headers_in (rec (attached s))) ->
    named k (headers_in (restore_request q')) = [(k, v)]) by (intros q' Hq; by rewrite restore_named, Hq).
  destruct (apr_table_get _ c_UNIQUE_ID); apply find_only; try (by constructor); apply Hr; [done|].
  cbn [headers_in set_headers_in set_headers_out]. by apply apr_named_set.
Qed.

Lemma to_int32_bounds z : -2147483648 <= to_int32 z < 2147483648.
Proof. unfold to_int32. pose proof (Z.mod_pos_bound (z + 2147483648) 4294967296 ltac:(lia)). lia. Qed.

(** The request after the hook: the one the client made, and what is kept of it for the
    comparison. *)
Record handed (q0 : request_rec) (r : RequestInfo) (s s' : Chain) (p : N) (i : RequestInfo) : Prop := {
  hd_restored : restored s s' p i;
  hd_id : mId i = mId r;
  hd_status : mReqHttpStatus i = Some (status q0);
  hd_time : time_by_dup i = Some (Some (getElapsedTimeMS r));
  hd_method : method (rec (attached s'))
    = if bool_decide (asked_method q0 ∈ known_methods.*1) then asked_method q0 else method (rec (attached s));
  hd_type : header_in s' "Duplication-Type" = Some "Response"%string;
  hd_content : header_in s' "Content-Type"
    = Some (default "application/x-dup-serialized"%string (apr_table_get (headers_in q0) "Content-Type"));
  hd_world : world s' = world s
}.

Lemma hook_hands q0 r conf s :
  mIsActive conf = true -> -2147483648 <= status q0 < 2147483648 -> recognised q0 r (rec (attached s)) ->
  let '(s', st) := translateHook (Some (Some conf)) true s in
  st = DECLINED /\ exists p i, handed q0 r s s' p i.
Proof.
  intros Ha Hst [Hty Hid Hm Hct Hser Hs Ht]. unfold translateHook. rewrite Ha. cbn [negb].
  pose proof (initRequest_spec s) as Hi. destruct (initRequest s) as [p s']. cbn [snd]. split; [done|].
  destruct Hi as [i Hi]. exists p, i.
  assert (Hstatus : cast_int (string_of_Z (status q0)) = Some (status q0)) by by apply cast_int_written.
  assert (Hfs : std_find "X_DUP_HTTP_STATUS"%string (mReqHeader i) = Some (string_of_Z (status q0))).
  { rewrite (proj1 (rs_copied _ _ _ _ Hi)). by apply copied_find. }
  assert (Hft : std_find ELAPSED_TIME_BY_DUP (mReqHeader i) = Some (string_of_Z (getElapsedTimeMS r))).
  { rewrite (proj1 (rs_copied _ _ _ _ Hi)). by apply copied_find. }
  split.
  - exact Hi.
  - by apply (rs_id _ _ _ _ Hi).
  - rewrite (rs_status _ _ _ _ Hi), Hfs. cbn. by rewrite Hstatus.
  - unfold time_by_dup. rewrite Hft. cbn. rewrite cast_int_written; [done|apply to_int32_bounds].
  - rewrite (rs_method _ _ _ _ Hi). unfold header_in. by rewrite Hm.
  - rewrite (rs_headers _ _ _ _ Hi). unfold handed_header. cbn. exact Hty.
  - rewrite (rs_headers _ _ _ _ Hi). unfold handed_header. cbn. rewrite Hct.
    by destruct (apr_table_get (headers_in q0) "Content-Type").
  - rewrite (proj1 (rs_world _ _ _ _ Hi)). unfold http_status. by rewrite Hfs, Hstatus.
Qed.
End Kept.

(** ** From the client to the report *)

Section EndToEnd.
Context `{BoostRegex} {B : BoostString} {HB : BoostStringLaws B} {C : Curl} {O : Host} `{Indeterminate, BoostArchive}.
Context {T : AprTable} {TL : AprTableLaws T} `{ReqRandom, NextFilter}.
Context {P : Type} {D : DiffPrinter P} {L : PrinterLaws P} {F : PrinterFactory P} {FL : FactoryLaws P}.
Local Existing Instance B.

(** What mod_dup sends: the prepared request [r] of the client's [q0], whose parts fit
    in their sections and whose answer headers can be told apart again. *)
Record dispatched (c : N) (q0 : request_rec) (ri r : RequestInfo) (f : tFilter) : Prop := {
  ds_prepared : FiltersDup.prepareRequestInfo c q0 ri = (true, r);
  ds_first : mHeadersIn ri = [];
  ds_plain : plain_request q0 (mId ri);
  ds_type : mDuplicationType f = DuplicationType.REQUEST_WITH_ANSWER;
  ds_headers : Forall header_ok (mHeadersOut r);
  ds_request_size : (str_len (mBody r) <= MAX_SECTION_SIZE)%N;
  ds_header_size : (str_len (answerHeaders r) <= MAX_SECTION_SIZE)%N;
  ds_answer_size : (str_len (mAnswer r) <= MAX_SECTION_SIZE)%N
}.

(** A location that compares, in a process that writes its reports in a file. *)
Record ready (conf : CompareConf) (s : Chain) : Prop := {
  rd_active : mIsActive conf = true;
  rd_enabled : mCompareDisabled conf = false;
  rd_uri : find_sub "comp_truncate" (uri (rec (attached s))) = None;
  rd_sorted : mm_sorted (lDiff (world s));
  rd_file : gWriteInFile (world s) = true /\ gFile_is_open (world s) = true;
  rd_mutex d : getGlobalMutex (set_lDiff d (world s)) = true
}.

(** The handler of the second server: it makes its answer, and leaves alone the object
    of mod_compare and the two things the filters look at. *)
Record handled (s s' : Chain) : Prop := {
  hl_config : request_config (attached s') = request_config (attached s);
  hl_objects : objects (attached s') = objects (attached s);
  hl_world : world s' = world s;
  hl_passed : passed s' = passed s;
  hl_type : header_in s' "Duplication-Type" = header_in s "Duplication-Type";
  hl_uri : uri (rec (attached s')) = uri (rec (attached s))
}.

(** The two answers that are compared: what the first server answered, as mod_dup kept
    it, and what the second one answers. *)
Record two_answers (q0 q : request_rec) (r f : RequestInfo) (bs : list Brigade) : Prop := {
  ta_id : mId f = mId r;
  ta_request : mReqBody f = mBody r;
  ta_body : mResponseBody f = mAnswer r;
  ta_headers : mResponseHeader f = store [] (mHeadersOut r);
  ta_status : mReqHttpStatus f = Some (status q0);
  ta_dup_body : mDupResponseBody f = str_concat ((fun b => answer_data (b_buckets b)) <$> bs);
  ta_dup_status : mDupResponseHttpStatus f = Some (status q);
  ta_time : time_by_dup f = Some (Some (getElapsedTimeMS r))
}.

Lemma two_answers_of q0 r s1 s2 p i now o conf w q bs b :
  handed q0 r s1 s2 p i ->
  two_answers q0 q r
    (answered conf w q bs b (set_offset (Some o) (resetStartTime now (set_offset (Some 0%N) (received r i))))) (bs ++ [b]).
Proof.
  intros Hh. pose proof (rs_bodies _ _ _ _ (hd_restored _ _ _ _ _ _ Hh)) as [_ Hb].
  pose proof (rs_maps _ _ _ _ (hd_restored _ _ _ _ _ _ Hh)) as [Hm _].
  pose proof (hd_id _ _ _ _ _ _ Hh) as Hid. pose proof (hd_status _ _ _ _ _ _ Hh) as Hst.
  pose proof (hd_time _ _ _ _ _ _ Hh) as Ht. unfold time_by_dup in Ht.
  assert (Hq : status (Nat.iter (S (length bs)) (noted conf w) q) = status q).
  { induction (S (length bs)) as [|n IH]; [done|]. rewrite Nat.iter_succ, <- IH. apply noted_fields. }
  unfold answered, complete, kept, body_so_far, set_eos_seen, received.
  pose proof (rs_eos _ _ _ _ (hd_restored _ _ _ _ _ _ Hh)) as He.
  destruct (has_eos (b_buckets b)); split;
    unfold time_by_dup; cbn -[Nat.iter]; rewrite ?He, ?Hq, ?Hm, ?Hb, ?fmap_app, ?str_concat_app; try done;
    cbn [fmap list_fmap str_concat]; by rewrite sapp_nil_r.
Qed.

(** The state in which the handler of the second server makes its answer. *)
Definition read_info (r i : RequestInfo) (now : Z) (o : N) : RequestInfo :=
  set_offset (Some o) (resetStartTime now (set_offset (Some 0%N) (received r i))).

Lemma handler_answers q0 r conf s s1 s2 s3 p i now o bs b :
  ready conf s -> passed s = [] -> handed q0 r s s1 p i ->
  request_config (attached s2) = Some p -> objects (attached s2) !! p = Some (read_info r i now o) ->
  rec (attached s2) = set_in "Content-Length" (cast_string (Z.of_N (str_len (mBody r)))) (rec (attached s1)) ->
  world s2 = world s1 -> passed s2 = passed s1 -> handled s2 s3 ->
  Forall (fun b => has_eos (b_buckets b) = false) bs -> has_eos (b_buckets b) = true ->
  exists s4 f,
    serve_all conf (s3, false, false) (bs ++ [b]) = Ret (s4, false, true) /\
    passed s4 = b_buckets <$> bs ++ [b] /\
    two_answers q0 (rec (attached s3)) r f (bs ++ [b]) /\
    file_text (trace (world s4))
    = file_text (trace (world s)) +:+
      (if reported conf f (world s) then report conf f (b_time b) (b_today b) (world s) else EmptyString).
Proof.
  intros Hrd Hps Hh Hc Hi Hr Hw Hp Hl Hbs Hb. pose proof (hd_restored _ _ _ _ _ _ Hh) as Hres.
  assert (Hw3 : world s3 = world s) by by rewrite (hl_world _ _ Hl), Hw, (hd_world _ _ _ _ _ _ Hh).
  assert (Ha : answering p (read_info r i now o) s3).
  { split.
    - rewrite (hl_type _ _ Hl). unfold header_in. rewrite Hr. cbn. rewrite apr_get_set. apply (hd_type _ _ _ _ _ _ Hh).
    - rewrite (hl_uri _ _ Hl), Hr. cbn. rewrite (proj1 (rs_uri _ _ _ _ Hres)). apply Hrd.
    - by rewrite (hl_config _ _ Hl).
    - by rewrite (hl_objects _ _ Hl).
    - apply (rs_eos _ _ _ _ Hres). }
  pose proof (two_answers_of q0 r s s1 p i now o conf (world s) (rec (attached s3)) bs b Hh) as Hta.
  change (set_offset (Some o) _) with (read_info r i now o) in Hta.
  set (f := answered conf (world s) (rec (attached s3)) bs b (read_info r i now o)) in *.
  pose proof (rs_maps _ _ _ _ Hres) as [Hm1 Hm2]. destruct (rd_file _ _ Hrd) as [Hf1 Hf2].
  pose proof (answer_compared_spec conf p _ s3 bs b Ha (rd_enabled _ _ Hrd) Hbs Hb) as Hcmp.
  cbv zeta in Hcmp. rewrite Hw3 in Hcmp. fold f in Hcmp.
  rewrite (ta_time _ _ _ _ _ Hta), (bool_decide_eq_false_2 (Some (Some _) = Some None)), andb_false_r in Hcmp by done.
  destruct Hcmp as (s4 & Hs4 & Hp4 & _ & _ & Hfile).
  - apply Hrd.
  - cbn. apply store_sorted. rewrite Hm1. constructor.
  - cbn. rewrite Hm2. constructor.
  - done.
  - done.
  - apply (rd_mutex _ _ Hrd).
  - exists s4, f. split_and!; [done| |done|done].
    by rewrite Hp4, (hl_passed _ _ Hl), Hp, (rs_passed _ _ _ _ Hres), Hps.
Qed.

Lemma dispatched_carries c q0 ri r f sdr q sent last :
  dispatched c q0 ri r f -> delivered (handle (fst (performCurlCall sdr f r))) q sent last -> carries r sent last.
Proof.
  intros [Hp Hn Hpl Hf Hh ? ? ?] [_ _ Ho He Hb]. split; try done.
  pose proof (performCurlCall_transfer sdr f r (prepared_keys c q0 ri r Hp Hn Hpl)) as Ht.
  destruct (performCurlCall sdr f r) as [s' r']. destruct Ht as (_ & _ & Ht & _). rewrite Hf in Ht.
  cbn [fst] in Hb. rewrite Ht in Hb. by injection Hb.
Qed.

Lemma two_answers_same q0 q r r' f bs :
  mId r = mId r' -> mBody r = mBody r' -> mAnswer r = mAnswer r' -> mHeadersOut r = mHeadersOut r' ->
  mElapsedTime r = mElapsedTime r' -> two_answers q0 q r f bs -> two_answers q0 q r' f bs.
Proof.
  intros Hi Hb Ha Ho He []. unfold getElapsedTimeMS in *. rewrite Hi, Hb, Ha, Ho, He in *. by split.
Qed.

(** [C1] A request with its answer, from mod_dup to the report of mod_compare. Whatever the
    transfer was, the hook of the second server finds the method and the content type
    of the client again; its handler reads a prefix of the body the client sent, of
    the length announced; and whatever it answers, the answer goes on as it came, the
    answers that are compared are the one of the first server and this one, no time
    can make the filter throw, and the report is appended to the file, whole, or
    nothing is when there is nothing to report. *)
Theorem duplicate_compared c q0 ri r sdr f sent last conf s now ks rest :
  dispatched c q0 ri r f ->
  delivered (handle (fst (performCurlCall sdr f r))) (rec (attached s)) sent last ->
  ready conf s -> passed s = [] ->
  ks <> [] -> Forall (fun k => 0 < k < 9223372036854775808) ks ->
  (length ks <= length rest)%nat -> Forall (fun got => body_of (snd got) = EmptyString) rest ->
  let '(s1, st) := translateHook (Some (Some conf)) true s in
  st = DECLINED /\
  method (rec (attached s1))
  = (if bool_decide (asked_method q0 ∈ known_methods.*1) then asked_method q0 else method (rec (attached s))) /\
  header_in s1 "Content-Type"
  = Some (default "application/x-dup-serialized"%string (apr_table_get (headers_in q0) "Content-Type")) /\
  exists s2 outs rest',
    read_back conf now ks false s1 (sent ++ last :: rest) = Some (Ret (s2, true, outs), rest') /\
    str_concat ((fun out => body_of (snd out)) <$> outs) = str_take (Z.to_N (zsum ks)) (mBody ri) /\
    header_in s2 "Content-Length" = Some (string_of_Z (Z.of_N (str_len (mBody ri)))) /\
    forall s3 bs b,
      handled s2 s3 -> Forall (fun b => has_eos (b_buckets b) = false) bs -> has_eos (b_buckets b) = true ->
      exists s4 f,
        serve_all conf (s3, false, false) (bs ++ [b]) = Ret (s4, false, true) /\
        passed s4 = b_buckets <$> bs ++ [b] /\
        two_answers q0 (rec (attached s3)) ri f (bs ++ [b]) /\
        file_text (trace (world s4))
        = file_text (trace (world s)) +:+
          (if reported conf f (world s) then report conf f (b_time b) (b_today b) (world s) else EmptyString).
Proof.
  intros Hds Hdel Hrd Hpass Hne Hks Hlen Hempty.
  pose proof (prepared_headers c q0 ri r (ds_prepared _ _ _ _ _ Hds) (ds_first _ _ _ _ _ Hds)) as (_ & Hid & Hb & Ha & Ho & Hel).
  pose proof (duplicate_recognised c q0 ri r (ds_prepared _ _ _ _ _ Hds) (ds_first _ _ _ _ _ Hds) (ds_plain _ _ _ _ _ Hds)
    sdr f _ sent last (ds_type _ _ _ _ _ Hds) Hdel) as Hrec.
  pose proof (hook_hands q0 r conf s (rd_active _ _ Hrd) (pl_status _ _ (ds_plain _ _ _ _ _ Hds)) Hrec) as Hhook.
  destruct (translateHook (Some (Some conf)) true s) as [s1 st]. destruct Hhook as [-> (p & i & Hh)].
  split_and!; [done|apply Hh|apply Hh|]. pose proof (hd_restored _ _ _ _ _ _ Hh) as Hres.
  destruct (duplicate_read conf now ks r sent last rest p i s1) as (s2 & outs & rest' & o & Hread & Hout & Hc & Hi & Hr & Hw & Hp);
    [exact (dispatched_carries _ _ _ _ _ _ _ _ _ Hds Hdel)|apply Hh|apply Hres|apply Hres|apply Hres|done..|].
  exists s2, outs, rest'. rewrite <- Hb. split_and!; [done|done| |].
  - unfold header_in. rewrite Hr. cbn. by rewrite apr_get_set, cast_string_spec.
  - intros s3 bs b Hl Hbs Heos.
    destruct (handler_answers q0 r conf s s1 s2 s3 p i now o bs b) as (s4 & f' & Hs4 & Hp4 & Hta & Hfile); [done..|].
    exists s4, f'. split_and!; [done|done| |done]. by eapply two_answers_same.
Qed.
End EndToEnd.

(** ** Evaluated on a request *)
Module EndToEndExamples.
Import TableList Reference JsonDiffPrinter JsonDiffPrinter.Tree CurlExamples.

#[local] Existing Instance boost_string.
#[local] Existing Instance boost_string_laws.
#[local] Existing Instance literal_regex.
#[local] Existing Instance always_ok.
#[local] Instance ids : ReqRandom := fun n => Some (100 + N.of_nat n)%N.
#[local] Instance next_ok : NextFilter := fun _ => 0%Z.
#[local] Instance host : Host := {| getGlobalMutex _ := true; owner_dead _ := false; file_opens _ _ := true |}.
#[local] Instance zero : Indeterminate := 0.
#[local] Instance plain_archive : BoostArchive := fun l =>
  str_concat ((fun a => match a with AString s => s | AMap m => map2string m "" end) <$> l).

(** A [PUT] of a client, answered with the status 201. *)
Definition client : request_rec :=
  mkRequest "PUT" 1 "/p" "/p?a=1" (Some "a=1"%string) 201 5000
    [("Host", "h"); ("UNIQUE_ID", "u1"); ("Content-Type", "text/plain"); ("Accept", "*")]%string
    [("Server", "x")]%string [] None 0 0.

Definition collected : RequestInfo :=
  set_mAnswer "the answer" (set_mHeadersOut [("Server", "x")]%string (set_mBody "x=1" (RequestInfo_at "u1" 5000))).

Definition prepared : RequestInfo := snd (FiltersDup.prepareRequestInfo 0 client collected).

Definition filter : tFilter := typed DuplicationType.REQUEST_WITH_ANSWER.

Definition transfer : CURL := handle (fst (performCurlCall fresh_sender filter prepared)).

(** The header lines that have a value, as they are. *)
Definition wire_table (ls : list string) : list (string * string) :=
  List.filter (fun e => clean (snd e)) (omap line_entry ls).

Lemma named_wire k ls : named k (wire_table ls) = List.filter (fun e => clean (snd e)) (named_entries k (omap line_entry ls)).
Proof.
  unfold named, named_entries, wire_table. cbn [apr_table_elts table_list]. unfold id.
  induction (omap line_entry ls) as [|e l IH]; [done|]. cbn.
  destruct (clean (snd e)) eqn:Ec; cbn; destruct (strcaseeq (fst e) k); cbn; rewrite ?Ec; by rewrite IH.
Qed.

Definition received_request : request_rec :=
  mkRequest "POST" 2 "/p" "/p?a=1" (Some "a=1"%string) 200 9000 (wire_table (eff_headers (effective transfer))) [] [] None 0 0.

Definition on_the_wire : string := default EmptyString (sent_body transfer).
Definition first_part : Z * list bucket := (0, [DATA 0 (Some (str_take 20 on_the_wire))]).
Definition last_part : Z * list bucket := (0, [DATA 0 (Some (str_drop 20 on_the_wire)); EOS]).

Lemma transfer_delivered : delivered transfer received_request [first_part] last_part.
Proof.
  split.
  - intros k n v Hk Hv _. cbn [headers_in received_request]. rewrite named_wire, Hk. cbn. by rewrite Hv.
  - intros k Hk _. cbn [headers_in received_request]. by rewrite named_wire, Hk.
  - by repeat constructor.
  - reflexivity.
  - vm_compute. reflexivity.
Qed.

Definition compared_here : CompareConf := set_mLogType MULTILINE (set_mIsActive true (newCompareConf "/p")).

Definition second_server : Chain :=
  mkChain (mkAttached received_request None ∅ 0) (mkWorld true "/tmp/f" "" true (Some (LOG_LOCAL 2)) [] []) [].

Lemma client_dispatched : dispatched 0 client collected prepared filter.
Proof.
  split; try reflexivity; try (vm_compute; discriminate); [|by repeat constructor].
  split; try reflexivity; try done.
  - by repeat constructor.
  - unfold carried_names. repeat (constructor; [by repeat constructor|]). constructor.
  - by intros t [= <-].
Qed.

Lemma duplicate_compared_witness :
  let '(s1, _) := translateHook (Some (Some compared_here)) true second_server in
  method (rec (attached s1)) = "PUT"%string /\ header_in s1 "Content-Type" = Some "text/plain"%string /\
  exists s2 outs rest',
    read_back compared_here 9000 [2; 10] false s1 ([first_part] ++ last_part :: repeat (0, []) 3) = Some (Ret (s2, true, outs), rest') /\
    str_concat ((fun out => body_of (snd out)) <$> outs) = "x=1"%string /\
    exists s4 f,
      serve_all (P := anyPrinter) compared_here (set_rec (set_status 500) s2, false, false)
        ([mkBrigade 1 1 "today" [DATA 0 (Some "an"%string)]] ++ [mkBrigade 2 1 "today" [DATA 0 (Some "other"%string); EOS]])
      = Ret (s4, false, true) /\
      passed s4 = [[DATA 0 (Some "an"%string)]; [DATA 0 (Some "other"%string); EOS]] /\
      mResponseBody f = "the answer"%string /\ mDupResponseBody f = "another"%string /\
      mReqHttpStatus f = Some 201 /\ mDupResponseHttpStatus f = Some 500.
Proof.
  assert (Hrd : ready compared_here second_server) by (split; try done; constructor).
  pose proof (duplicate_compared (P := anyPrinter) 0 client collected prepared fresh_sender filter [first_part] last_part
    compared_here second_server 9000 [2; 10] (repeat (0, []) 3) client_dispatched transfer_delivered Hrd eq_refl ltac:(done)
    ltac:(repeat constructor; lia) ltac:(cbn; lia) ltac:(by repeat constructor)) as Hc.
  destruct (translateHook _ _ _) as [s1 st]. destruct Hc as (_ & Hm & Hct & s2 & outs & rest' & Hread & Hout & _ & Hans).
  split; [exact Hm|]. split; [exact Hct|]. exists s2, outs, rest'. split; [exact Hread|]. split; [exact Hout|].
  destruct (Hans (set_rec (set_status 500) s2) [mkBrigade 1 1 "today" [DATA 0 (Some "an"%string)]]
    (mkBrigade 2 1 "today" [DATA 0 (Some "other"%string); EOS])) as (s4 & f & Hs4 & Hp & Hta & _);
    [by split|by repeat constructor|done|].
  exists s4, f. split; [exact Hs4|]. split; [exact Hp|]. destruct Hta as [_ _ Hb _ Hst Hd Hds _].
  split; [exact Hb|]. split; [exact Hd|]. split; [exact Hst|exact Hds].
Defined.
End EndToEndExamples.
