(* ===== verification/SharedMutex.v ===== *)
(** * SharedMutex

    The mutex the processes of Apache share to write the log of mod_compare:
    [createGlobalMutex], [destroyGlobalMutex] and [getGlobalMutex] of mod_compare.cc as
    programs over the system calls they make, and the processes that run them at the
    same time, one call at a time; then the critical sections of response_diff.cc, as
    the processes that share the file run them, with the deaths the robust mutex is for. *)
From stdpp Require Import gmap.
From S2P Require JsonDiffPrinter.
From S2P Require Import Prelude CxxString StdMap Boost DiffPrinter Log ResponseDiff.
Local Open Scope Z_scope.

(** ** Programs over system calls *)

Inductive pointer : Type := NULL | MAP_FAILED | At (a : N).

#[export] Instance pointer_eq_dec : EqDecision pointer.
Proof. solve_decision. Defined.

(** What [shm_open] answers: a descriptor, named here by the object it opens, or an
    error, with its message. *)
Inductive open_answer : Type := Opened (fd : N) | EEXIST | OpenError (what : string).

(** A program that stops with a value or waits for the answer of a call. The attributes
    of [MutexInit] are those set on [mutex_attr]. *)
Inductive prog (A : Type) : Type :=
  | Done (r : A)
  | ShmOpen (creat_excl : bool) (k : open_answer -> prog A)
  | Chmod (path : string) (k : prog A)
  | Ftruncate (fd : N) (k : option string -> prog A)
  | Mmap (fd : N) (k : pointer -> prog A)
  | CloseFd (fd : N) (k : prog A)
  | MutexInit (mutex : pointer) (pshared robust : bool) (k : prog A)
  | MutexDestroy (mutex : pointer) (k : prog A)
  | ShmUnlink (k : prog A)
  | LogError (code : Z) (text : string) (k : prog A)
  | LogDebug (text : string) (k : prog A).
Arguments Done {A} r.
Arguments ShmOpen {A} creat_excl k.
Arguments Chmod {A} path k.
Arguments Ftruncate {A} fd k.
Arguments Mmap {A} fd k.
Arguments CloseFd {A} fd k.
Arguments MutexInit {A} mutex pshared robust k.
Arguments MutexDestroy {A} mutex k.
Arguments ShmUnlink {A} k.
Arguments LogError {A} code text k.
Arguments LogDebug {A} text k.

Fixpoint pbind {A B} (f : A -> prog B) (p : prog A) : prog B :=
  match p with
  | Done r => f r
  | ShmOpen e k => ShmOpen e (fun x => pbind f (k x))
  | Chmod s k => Chmod s (pbind f k)
  | Ftruncate fd k => Ftruncate fd (fun x => pbind f (k x))
  | Mmap fd k => Mmap fd (fun x => pbind f (k x))
  | CloseFd fd k => CloseFd fd (pbind f k)
  | MutexInit m s r k => MutexInit m s r (pbind f k)
  | MutexDestroy m k => MutexDestroy m (pbind f k)
  | ShmUnlink k => ShmUnlink (pbind f k)
  | LogError c t k => LogError c t (pbind f k)
  | LogDebug t k => LogDebug t (pbind f k)
  end.

(** ** The functions of mod_compare.cc *)

Definition c_named_mutex : string := "mod_compare_log_mutex".

(** [strncat(buffer, s, n)] *)
Definition strncat (buffer s : string) (n : N) : string := buffer +:+ str_take n s.

Definition createGlobalMutex : prog Z :=
  ShmOpen true (fun fd =>
    match fd with
    | OpenError what =>
        LogError 42 ("[COMPARE] Cannot initialize global mutex named: " +:+ c_named_mutex +:+ ". What: " +:+ what)
          (Done (-1))
    | EEXIST => LogDebug "[COMPARE] Global mutex already initialized" (Done 0)
    | Opened fd =>
        Chmod (strncat "/dev/shm/" c_named_mutex 30)
          (Ftruncate fd (fun err =>
             let rest :=
               Mmap fd (fun mutex =>
                 CloseFd fd (MutexInit mutex true true (LogDebug "Mutex initialized" (Done 0)))) in
             match err with
             | Some what =>
                 LogError 42 ("[COMPARE] failed to truncate file descriptor of mutex named: " +:+ c_named_mutex
                              +:+ ". What: " +:+ what) rest
             | None => rest
             end))
    end).

Definition destroyGlobalMutex : prog Z :=
  ShmOpen false (fun fd =>
    match fd with
    | Opened fd =>
        Mmap fd (fun mutex =>
          CloseFd fd (MutexDestroy mutex (ShmUnlink (LogDebug "[COMPARE] Mutex destroyed" (Done 0)))))
    | OpenError what =>
        LogError 42 ("Cannot destroy global mutex named: " +:+ c_named_mutex +:+ ". What: " +:+ what) (Done (-1))
    | EEXIST => LogError 42 ("Cannot destroy global mutex named: " +:+ c_named_mutex +:+ ". What: ") (Done (-1))
    end).

(** The argument is the static variable of the function; its new value is returned. *)
Definition getGlobalMutex (mutex : pointer) : prog pointer :=
  match mutex with
  | NULL =>
      pbind (fun created =>
        if negb (Z.eqb created 0) then Done NULL
        else
          ShmOpen false (fun fd =>
            match fd with
            | Opened fd => Mmap fd (fun mutex => CloseFd fd (Done mutex))
            | _ => LogError 42 ("[COMPARE] Cannot open global mutex named: " +:+ c_named_mutex +:+ ".") (Done NULL)
            end)) createGlobalMutex
  | _ => Done mutex
  end.

(** ** The shared memory

    An object has no space until it is truncated to a size, then zeroes, then a mutex:
    its attributes, and how many times it was initialised. *)
Inductive memory : Type :=
  | NoSpace
  | Zeroes
  | Mutex (pshared robust : bool) (inits : nat).

Record Shm : Type := mkShm { name : option N; objects : gmap N memory }.

(** A call of a process: what is left of the program, or the signal the access to the
    memory raises. *)
Inductive progress (A : Type) : Type :=
  | Next (p : prog A) (m : Shm)
  | Signal
  | Finished (r : A).
Arguments Next {A} p m.
Arguments Signal {A}.
Arguments Finished {A} r.

Definition inits_of (o : memory) : nat := match o with Mutex _ _ n => n | _ => 0%nat end.

(** [fails] is the error of the call, if the system makes it fail. *)
Definition sys_step {A} (fails : option string) (p : prog A) (m : Shm) : progress A :=
  match p with
  | Done r => Finished r
  | ShmOpen true k =>
      match fails with
      | Some what => Next (k (OpenError what)) m
      | None =>
          match name m with
          | Some _ => Next (k EEXIST) m
          | None =>
              let a := fresh (dom (objects m)) in
              Next (k (Opened a)) (mkShm (Some a) (<[a := NoSpace]> (objects m)))
          end
      end
  | ShmOpen false k =>
      match fails, name m with
      | Some what, _ => Next (k (OpenError what)) m
      | None, None => Next (k (OpenError "No such file or directory")) m
      | None, Some a => Next (k (Opened a)) m
      end
  | Chmod _ k => Next k m
  | Ftruncate fd k =>
      match fails with
      | Some what => Next (k (Some what)) m
      | None =>
          Next (k None)
            (mkShm (name m) (alter (fun o => match o with NoSpace => Zeroes | _ => o end) fd (objects m)))
      end
  | Mmap fd k => Next (k (match fails with Some _ => MAP_FAILED | None => At fd end)) m
  | CloseFd _ k => Next k m
  | MutexInit mutex s r k =>
      match mutex with
      | At a =>
          match objects m !! a with
          | None | Some NoSpace => Signal
          | Some o => Next k (mkShm (name m) (<[a := Mutex s r (S (inits_of o))]> (objects m)))
          end
      | _ => Signal
      end
  | MutexDestroy mutex k =>
      match mutex with
      | At a =>
          match objects m !! a with
          | None | Some NoSpace => Signal
          | Some _ => Next k (mkShm (name m) (<[a := Zeroes]> (objects m)))
          end
      | _ => Signal
      end
  | ShmUnlink k => Next k (mkShm None (objects m))
  | LogError _ _ k | LogDebug _ k => Next k m
  end.

(** A process alone, with the failures of its calls; fuel bounds the calls. *)
Fixpoint run_alone {A} (fuel : nat) (fails : nat -> option string) (p : prog A) (m : Shm) : progress A * Shm :=
  match fuel with
  | O => (Next p m, m)
  | S n =>
      match sys_step (fails 0%nat) p m with
      | Next p m => run_alone n (fun i => fails (S i)) p m
      | Signal => (Signal, m)
      | Finished r => (Finished r, m)
      end
  end.

(** *** Processes *)

Inductive process : Type :=
  | Running (p : prog pointer)
  | Killed
  | Got (mutex : pointer).

Record Machine : Type := mkMachine { shm : Shm; processes : gmap N process }.

(** A new process starts with the call of the first report; a process makes a call. *)
Inductive machine_step : Machine -> Machine -> Prop :=
  | m_start M i :
      processes M !! i = None -> machine_step M (mkMachine (shm M) (<[i := Running (getGlobalMutex NULL)]> (processes M)))
  | m_call M i p fails p' m' :
      processes M !! i = Some (Running p) -> sys_step fails p (shm M) = Next p' m' ->
      machine_step M (mkMachine m' (<[i := Running p']> (processes M)))
  | m_signal M i p fails :
      processes M !! i = Some (Running p) -> sys_step fails p (shm M) = Signal ->
      machine_step M (mkMachine (shm M) (<[i := Killed]> (processes M)))
  | m_return M i p fails r :
      processes M !! i = Some (Running p) -> sys_step fails p (shm M) = Finished r ->
      machine_step M (mkMachine (shm M) (<[i := Got r]> (processes M))).

(** ** One mutex, initialised once *)

(** What a program may still do, when its process created the object [own] and did not
    initialise its mutex yet, and knows that [known] is the object of the name: it opens
    no second object, initialises only its own, once, destroys nothing, and returns the
    mutex of the name or none. *)
Fixpoint careful (own known : option N) (p : prog pointer) : Prop :=
  match p with
  | Done r => forall a, r = At a -> known = Some a
  | ShmOpen true k =>
      own = None /\ (forall w, careful None known (k (OpenError w))) /\ careful None known (k EEXIST) /\
      forall a, careful (Some a) (Some a) (k (Opened a))
  | ShmOpen false k =>
      (forall w, careful own known (k (OpenError w))) /\ forall a, careful own (Some a) (k (Opened a))
  | Ftruncate fd k => own = Some fd /\ forall e, careful own known (k e)
  | Mmap fd k => known = Some fd /\ careful own known (k (At fd)) /\ careful own known (k MAP_FAILED)
  | MutexInit mutex s r k =>
      s = true /\ r = true /\ (forall a, mutex = At a -> own = Some a) /\ careful None known k
  | MutexDestroy _ _ | ShmUnlink _ => False
  | Chmod _ k | CloseFd _ k | LogError _ _ k | LogDebug _ k => careful own known k
  end.

Lemma getGlobalMutex_careful : careful None None (getGlobalMutex NULL).
Proof.
  cbn. split; [done|]. split; [done|]. split.
  - split; [done|]. intros a. split_and!; naive_solver.
  - intros a. split; [done|]. intros [w|]; cbn; split_and!; naive_solver.
Qed.

Section Once.
(** The shared memory when the first process starts. *)
Variable m0 : Shm.

(** The objects: those there were are left alone, a new one is a mutex at most once,
    shared and robust. *)
Definition objects_kept (m : Shm) : Prop :=
  forall a o, objects m !! a = Some o ->
    match objects m0 !! a with
    | Some o0 => o = o0
    | None => (inits_of o <= 1)%nat /\ forall s r n, o = Mutex s r n -> s = true /\ r = true
    end.

(** The rights of a process: [creator] is the one that may initialise the object. *)
Definition allowed (creator : option N) (m : Shm) (i : N) (own known : option N) : Prop :=
  (forall a, known = Some a -> name m = Some a) /\
  (forall a, own = Some a -> creator = Some i /\ name m = Some a /\ objects m0 !! a = None /\
             exists o, objects m !! a = Some o /\ inits_of o = 0%nat).

Definition process_ok (creator : option N) (m : Shm) (i : N) (q : process) : Prop :=
  match q with
  | Running p => exists own known, careful own known p /\ allowed creator m i own known
  | Killed => True
  | Got r => forall a, r = At a -> name m = Some a
  end.

Record once (M : Machine) : Prop := {
  on_objects : objects_kept (shm M);
  on_dom : dom (objects m0) ⊆ dom (objects (shm M));
  on_processes : exists creator, forall i q, processes M !! i = Some q -> process_ok creator (shm M) i q
}.

(** A call of one process leaves the rights of the others as they were. *)
Definition others_kept (i : N) (m m' : Shm) (creator creator' : option N) : Prop :=
  forall j own known, j <> i -> allowed creator m j own known -> allowed creator' m' j own known.

Lemma same_shm_kept i m creator : others_kept i m m creator creator.
Proof. by intros j own known _ Ha. Qed.

Definition call_result (creator : option N) (m : Shm) (i : N) (p : prog pointer) (m' : Shm) : Prop :=
  objects_kept m' /\ dom (objects m) ⊆ dom (objects m') /\ (forall a, name m = Some a -> name m' = Some a) /\
  exists creator', others_kept i m m' creator creator' /\
    exists own known, careful own known p /\ allowed creator' m' i own known.

Lemma call_result_same creator m i p own known :
  objects_kept m -> careful own known p -> allowed creator m i own known -> call_result creator m i p m.
Proof. intros Ho Hc Ha. split_and!; [done..|]. exists creator. split; [apply same_shm_kept|eauto]. Qed.

(** The object of the creator changes, before it is a mutex. *)
Lemma call_result_update creator m i p own known own' a o :
  objects_kept m -> careful own' known p -> allowed creator m i own known -> own = Some a ->
  own' = None \/ (own' = Some a /\ inits_of o = 0%nat) ->
  (inits_of o <= 1)%nat -> (forall s r n, o = Mutex s r n -> s = true /\ r = true) ->
  call_result creator m i p (mkShm (name m) (<[a := o]> (objects m))).
Proof.
  intros Hk Hc [Hkn Hown] -> Ho' Hi Hm. destruct (Hown a eq_refl) as (Hcr & Hn & H0 & o0 & Ho & _).
  split_and!.
  - intros b ob. cbn. intros [[<- <-]|[Hne Hb]]%lookup_insert_Some; [by rewrite H0|by apply Hk].
  - cbn. rewrite dom_insert_L. set_solver.
  - done.
  - exists creator. split.
    + intros j own known' Hne [Hkn' Hown']. split; [done|]. intros b Hb.
      destruct (Hown' b Hb) as (Hj & _). congruence.
    + exists own', known. split; [done|]. split; [done|]. intros b Hb.
      destruct Ho' as [->|[-> Hz]]; [done|]. injection Hb as <-. split_and!; [done..|]. exists o. cbn.
      by rewrite lookup_insert_eq.
Qed.

(** A new object: its process becomes the creator. *)
Lemma call_result_create creator m i k :
  objects_kept m -> dom (objects m0) ⊆ dom (objects m) -> name m = None ->
  (forall a, careful (Some a) (Some a) (k (Opened a))) ->
  let a := fresh (dom (objects m)) in
  call_result creator m i (k (Opened a)) (mkShm (Some a) (<[a := NoSpace]> (objects m))).
Proof.
  intros Hk Hd En Hop a.
  assert (H0 : objects m0 !! a = None) by (apply not_elem_of_dom; pose proof (is_fresh (dom (objects m))); set_solver).
  split_and!.
  - intros b ob. cbn. intros [[<- <-]|[Hne Hb]]%lookup_insert_Some; [by rewrite H0; split; [cbn; lia|]|by apply Hk].
  - cbn. rewrite dom_insert_L. set_solver.
  - by rewrite En.
  - exists (Some i). split.
    + intros j own known' Hne [Hkn Hown]. split.
      * intros b Hb. apply Hkn in Hb. congruence.
      * intros b Hb. destruct (Hown b Hb) as (_ & Hn & _). congruence.
    + exists (Some a), (Some a). split; [apply Hop|]. split; [done|]. intros b [= <-]. split_and!; [done..|].
      exists NoSpace. cbn. by rewrite lookup_insert_eq.
Qed.

Lemma call_ok creator m i p fails p' m' :
  objects_kept m -> dom (objects m0) ⊆ dom (objects m) ->
  (exists own known, careful own known p /\ allowed creator m i own known) ->
  sys_step fails p m = Next p' m' -> call_result creator m i p' m'.
Proof.
  intros Hk Hd (own & known & Hc & Ha).
  destruct p as [r|[] k|s k|fd k|fd k|fd k|mutex s r k|mutex k|k|c t k|t k]; cbn in Hc |- *; try done.
  - destruct Hc as (-> & He & Hex & Hop). destruct fails as [w|]; [intros [= <- <-]; by eapply call_result_same|].
    destruct (name m) as [a|] eqn:En; intros [= <- <-]; [by eapply call_result_same|].
    by apply (call_result_create creator).
  - destruct Hc as [He Hop]. destruct fails as [w|]; [intros [= <- <-]; by eapply call_result_same|].
    destruct (name m) as [a|] eqn:En; intros [= <- <-]; [|by eapply call_result_same].
    eapply call_result_same; [done|apply Hop|]. destruct Ha as [_ Hown]. split; [by intros b [= <-]|done].
  - intros [= <- <-]. by eapply call_result_same.
  - destruct Hc as [Hown Hc]. destruct fails as [w|]; intros [= <- <-]; [by eapply call_result_same|].
    pose proof Ha as [_ Hrights]. destruct (Hrights fd Hown) as (_ & _ & _ & o & Ho & Hz).
    replace (alter _ fd (objects m)) with (<[fd := match o with NoSpace => Zeroes | _ => o end]> (objects m)).
    + eapply call_result_update; [done|apply Hc|done|done|right; split; [done|by destruct o]|destruct o; cbn in *; lia|].
      intros s r n. destruct o; [done..|]. cbn in Hz. intros [= -> -> ->].
      pose proof (Hk _ _ Ho) as Hko. destruct (Hrights fd Hown) as (_ & _ & H0 & _). rewrite H0 in Hko. by eapply Hko.
    + apply map_eq. intros j. destruct (decide (j = fd)) as [->|]; simplify_map_eq; done.
  - destruct Hc as (Hkn & H1 & H2). intros [= <- <-]. by destruct fails; eapply call_result_same.
  - intros [= <- <-]. by eapply call_result_same.
  - destruct Hc as (-> & -> & Hm & Hc). destruct mutex as [| |a]; [done..|].
    pose proof Ha as [_ Hrights]. destruct (Hrights a (Hm a eq_refl)) as (_ & _ & _ & o & Ho & Hz).
    rewrite Ho. destruct o as [| |s' r' n]; [done| |]; intros [= <- <-].
    + eapply call_result_update; [done|done|done|by apply Hm|by left|cbn; lia|by intros ? ? ? [= <- <- _]].
    + eapply call_result_update; [done|done|done|by apply Hm|by left|cbn in *; lia|by intros ? ? ? [= <- <- _]].
  - intros [= <- <-]. by eapply call_result_same.
  - intros [= <- <-]. by eapply call_result_same.
Qed.

Lemma process_ok_kept i j m m' creator creator' q :
  j <> i -> (forall a, name m = Some a -> name m' = Some a) -> others_kept i m m' creator creator' ->
  process_ok creator m j q -> process_ok creator' m' j q.
Proof.
  intros Hne Hn Ho. destruct q as [p| |r]; [|done|by intros Hq a Ha; apply Hn, Hq].
  intros (own & known & Hc & Ha). exists own, known. split; [done|by apply (Ho j)].
Qed.

Lemma machine_step_once M M' : machine_step M M' -> once M -> once M'.
Proof.
  intros Hs [Hk Hd [creator Hp]]. destruct Hs as [M i Hi|M i p fails p' m' Hi Hstep|M i p fails Hi Hstep|M i p fails r Hi Hstep].
  - split; [done..|]. exists creator. intros j q. cbn. intros [[<- <-]|[Hne Hq]]%lookup_insert_Some; [|by apply Hp].
    exists None, None. split; [apply getGlobalMutex_careful|by split].
  - pose proof (Hp _ _ Hi) as Hrun. destruct (call_ok creator _ i p fails p' m' Hk Hd Hrun Hstep)
      as (Hk' & Hd' & Hn & creator' & Ho & Hown). split; [done|cbn; set_solver|]. exists creator'.
    intros j q. cbn. intros [[<- <-]|[Hne Hq]]%lookup_insert_Some; [exact Hown|].
    eapply process_ok_kept; [|exact Hn|exact Ho|by apply Hp]. done.
  - split; [done..|]. exists creator. intros j q. cbn. intros [[<- <-]|[Hne Hq]]%lookup_insert_Some; [done|by apply Hp].
  - split; [done..|]. exists creator. intros j q. cbn. intros [[<- <-]|[Hne Hq]]%lookup_insert_Some; [|by apply Hp].
    destruct (Hp _ _ Hi) as (own & known & Hc & Ha & _). intros a ->. apply Ha.
    destruct p as [?|[] k|? k|? k|? k|? k|mutex ? ? k|mutex k|k|? ? k|? k]; cbn in Hstep; try done;
      [injection Hstep as ->; by apply Hc|by repeat case_match..].
Qed.
End Once.

(** [C23] However the processes that use the log for the first time are interleaved, and
    whatever calls fail: the processes that get a mutex all get that of the name, so the
    same one; the others, those for which a call failed, are left with [NULL] or
    [MAP_FAILED]. A mutex that was there is never initialised again, so that it stays
    usable when Apache restarts; a new one is initialised at most once, as a robust mutex
    of all processes. A process may get it before its creator has initialised it
    ([mutex_got_too_early]). *)
Theorem mutex_created_once M0 M :
  processes M0 = ∅ -> rtc machine_step M0 M ->
  (forall i a, processes M !! i = Some (Got (At a)) -> name (shm M) = Some a) /\
  (forall a o, objects (shm M0) !! a = Some o -> objects (shm M) !! a = Some o) /\
  (forall a o, objects (shm M) !! a = Some o -> objects (shm M0) !! a = None ->
     (inits_of o <= 1)%nat /\ forall s r n, o = Mutex s r n -> s = true /\ r = true).
Proof.
  intros H0 Hr. assert (Hinit : once (shm M0) M0).
  { split; [|done|].
    - intros a o Ho. by rewrite Ho.
    - exists None. intros i q Hq. by rewrite H0, lookup_empty in Hq. }
  assert (Hinv : once (shm M0) M).
  { clear H0. revert Hinit. generalize (shm M0). intros m0 Hinit.
    induction Hr as [|M0 M1 M2 Hs _ IH]; [done|]. by apply IH, (machine_step_once m0 M0). }
  destruct Hinv as [Hk Hd [creator Hp]]. split_and!.
  - intros i a Hi. by apply (Hp _ _ Hi).
  - intros a o Ho. assert (Hin : a ∈ dom (objects (shm M))) by (apply Hd, elem_of_dom; by eexists).
    apply elem_of_dom in Hin as [o' Ho']. specialize (Hk _ _ Ho'). rewrite Ho in Hk. congruence.
  - intros a o Ho Hn. specialize (Hk _ _ Ho). by rewrite Hn in Hk.
Qed.

(** *** A process alone *)

Definition no_failure (i : nat) : option string := None.

Lemma first_use_alone m :
  name m = None ->
  let a := fresh (dom (objects m)) in
  exists m', run_alone 20 no_failure (getGlobalMutex NULL) m = (Finished (At a), m') /\
    name m' = Some a /\ objects m' !! a = Some (Mutex true true 1).
Proof.
  intros Hn a. cbn. rewrite Hn. fold a. cbn. rewrite !lookup_alter_eq, !lookup_insert_eq. cbn.
  eexists. split_and!; [done|done|]. cbn. by rewrite lookup_insert_eq.
Qed.

(** Once there is a mutex, using it changes nothing in the memory, whatever fails. *)
Lemma later_use m a fails :
  name m = Some a ->
  exists r, run_alone 20 fails (getGlobalMutex NULL) m = (Finished r, m) /\ (r = At a \/ r = NULL \/ r = MAP_FAILED).
Proof.
  intros Hn. cbn. destruct (fails 0%nat); cbn; [by eexists; eauto|]. rewrite Hn. cbn.
  destruct (fails 2%nat); cbn; [by eexists; eauto|]. rewrite Hn. cbn. destruct (fails 3%nat); cbn; eauto.
Qed.

(** *** The first use by two processes

    A process can get the mutex of the name while the one that creates it has only
    opened the object: the memory is not even there yet. *)
Lemma mutex_got_too_early :
  exists M a, rtc machine_step (mkMachine (mkShm None ∅) ∅) M /\
    processes M !! 1%N = Some (Got (At a)) /\ objects (shm M) !! a = Some NoSpace.
Proof.
  set (a := fresh (dom (∅ : gmap N memory))). eexists _, a. split.
  - eapply rtc_l; [by apply (m_start _ 0)|].
    eapply rtc_l; [eapply (m_call _ 0 _ None); [apply lookup_insert_eq|reflexivity]|]. cbn. fold a.
    eapply rtc_l; [by apply (m_start _ 1)|]. cbn.
    eapply rtc_l; [eapply (m_call _ 1 _ None); [apply lookup_insert_eq|reflexivity]|]. cbn.
    eapply rtc_l; [eapply (m_call _ 1 _ None); [apply lookup_insert_eq|reflexivity]|]. cbn.
    eapply rtc_l; [eapply (m_call _ 1 _ None); [apply lookup_insert_eq|reflexivity]|]. cbn.
    eapply rtc_l; [eapply (m_call _ 1 _ None); [apply lookup_insert_eq|reflexivity]|]. cbn.
    eapply rtc_l; [eapply (m_call _ 1 _ None); [apply lookup_insert_eq|reflexivity]|]. cbn.
    eapply rtc_l; [eapply (m_return _ 1 _ None); [apply lookup_insert_eq|reflexivity]|]. cbn.
    apply rtc_refl.
  - cbn. split; [apply lookup_insert_eq|by rewrite lookup_insert_eq].
Qed.

(** ** The critical sections

    The processes append to the same file, each through the buffer of its own [gFile],
    which its threads share. What [output_report] does to the file and the mutex is a
    list of events; a thread does them one at a time. [<<] may give any part of the
    buffer to the file, and [flush] gives all of it; so does the end of a process, but
    not its death, after which the next process to lock is told that the owner is
    dead. *)

Definition report_job (text : string) : list event := [Lock; Insert text; Flush; Unlock].

(** [writeSerializedRequest] does not flush. *)
Definition archive_job (text : string) : list event := [Lock; Insert text; Unlock].

(** The events after the lock is taken, of an owner that died or not. *)
Definition taken (dead : bool) (l : list event) : list event := if dead then Consistent :: l else l.

Inductive lock_state : Type :=
  | Free
  | OwnerDead
  | Held (a : N * N) (inconsistent : bool)
  | NotRecoverable.

#[export] Instance lock_state_eq_dec : EqDecision lock_state.
Proof. solve_decision. Defined.

(** A thread is a process and a number in it. [jobs] are the reports being written, with
    the events left. *)
Record System : Type := mkSystem {
  file : string;
  buffers : gmap N string;
  lock : lock_state;
  jobs : gmap (N * N) (string * list event)
}.

Definition buffer (s : System) (p : N) : string := default EmptyString (buffers s !! p).

Inductive label : Type := Tau | Published (text : string) | Died.

(** The death of the owner leaves the mutex to the next process. *)
Definition abandoned (p : N) (k : lock_state) : lock_state :=
  match k with Held a _ => if bool_decide (fst a = p) then OwnerDead else k | _ => k end.

Inductive fstep (job : string -> list event) (s : System) : label -> System -> Prop :=
  | f_begin a text :
      jobs s !! a = None ->
      fstep job s Tau (mkSystem (file s) (buffers s) (lock s) (<[a := (text, job text)]> (jobs s)))
  | f_lock a text l :
      jobs s !! a = Some (text, Lock :: l) -> lock s = Free ->
      fstep job s Tau (mkSystem (file s) (buffers s) (Held a false) (<[a := (text, taken false l)]> (jobs s)))
  | f_lock_dead a text l :
      jobs s !! a = Some (text, Lock :: l) -> lock s = OwnerDead ->
      fstep job s Tau (mkSystem (file s) (buffers s) (Held a true) (<[a := (text, taken true l)]> (jobs s)))
  | f_consistent a text l d :
      jobs s !! a = Some (text, Consistent :: l) -> lock s = Held a d ->
      fstep job s Tau (mkSystem (file s) (buffers s) (Held a false) (<[a := (text, l)]> (jobs s)))
  | f_write a text l t k :
      jobs s !! a = Some (text, Insert t :: l) ->
      let b := buffer s (fst a) +:+ t in
      fstep job s Tau
        (mkSystem (file s +:+ str_take k b) (<[fst a := str_drop k b]> (buffers s)) (lock s) (<[a := (text, l)]> (jobs s)))
  | f_flush a text l :
      jobs s !! a = Some (text, Flush :: l) ->
      fstep job s Tau
        (mkSystem (file s +:+ buffer s (fst a)) (<[fst a := EmptyString]> (buffers s)) (lock s) (<[a := (text, l)]> (jobs s)))
  | f_unlock a text l d :
      jobs s !! a = Some (text, Unlock :: l) -> lock s = Held a d ->
      fstep job s (Published text)
        (mkSystem (file s) (buffers s) (if d then NotRecoverable else Free) (<[a := (text, l)]> (jobs s)))
  | f_done a text :
      jobs s !! a = Some (text, []) ->
      fstep job s Tau (mkSystem (file s) (buffers s) (lock s) (delete a (jobs s)))
  | f_die p :
      fstep job s Died
        (mkSystem (file s) (delete p (buffers s)) (abandoned p (lock s)) (filter (fun e => fst (fst e) <> p) (jobs s)))
  | f_exit p :
      (forall a, fst a = p -> jobs s !! a = None) ->
      fstep job s Tau (mkSystem (file s +:+ buffer s p) (delete p (buffers s)) (lock s) (jobs s)).

Inductive fsteps (job : string -> list event) : System -> list label -> System -> Prop :=
  | fs_nil s : fsteps job s [] s
  | fs_snoc s tr s1 l s2 : fsteps job s tr s1 -> fstep job s1 l s2 -> fsteps job s (tr ++ [l]) s2.

(** The same as a function of what happens next: a thread begins a report, does its next
    event ([k] is how much of the buffer a write gives to the file), or a process ends. *)
Inductive action : Type := Begin (a : N * N) (text : string) | Go (a : N * N) (k : N) | Die (p : N) | Exit (p : N).

Definition go (s : System) (a : N * N) (text : string) (l : list event) (k : N) : option (label * System) :=
  let jobs' l := <[a := (text, l)]> (jobs s) in
  match l with
  | [] => Some (Tau, mkSystem (file s) (buffers s) (lock s) (delete a (jobs s)))
  | Lock :: l =>
      match lock s with
      | Free => Some (Tau, mkSystem (file s) (buffers s) (Held a false) (jobs' (taken false l)))
      | OwnerDead => Some (Tau, mkSystem (file s) (buffers s) (Held a true) (jobs' (taken true l)))
      | _ => None
      end
  | Consistent :: l =>
      if bool_decide (lock s = Held a true) || bool_decide (lock s = Held a false)
      then Some (Tau, mkSystem (file s) (buffers s) (Held a false) (jobs' l)) else None
  | Insert t :: l =>
      let b := buffer s (fst a) +:+ t in
      Some (Tau, mkSystem (file s +:+ str_take k b) (<[fst a := str_drop k b]> (buffers s)) (lock s) (jobs' l))
  | Flush :: l =>
      Some (Tau, mkSystem (file s +:+ buffer s (fst a)) (<[fst a := EmptyString]> (buffers s)) (lock s) (jobs' l))
  | Unlock :: l =>
      if bool_decide (lock s = Held a true) then Some (Published text, mkSystem (file s) (buffers s) NotRecoverable (jobs' l))
      else if bool_decide (lock s = Held a false) then Some (Published text, mkSystem (file s) (buffers s) Free (jobs' l))
      else None
  | _ => None
  end.

Definition act (job : string -> list event) (x : action) (s : System) : option (label * System) :=
  match x with
  | Begin a text =>
      match jobs s !! a with
      | None => Some (Tau, mkSystem (file s) (buffers s) (lock s) (<[a := (text, job text)]> (jobs s)))
      | Some _ => None
      end
  | Go a k => match jobs s !! a with Some (text, l) => go s a text l k | None => None end
  | Die p =>
      Some (Died, mkSystem (file s) (delete p (buffers s)) (abandoned p (lock s)) (filter (fun e => fst (fst e) <> p) (jobs s)))
  | Exit p =>
      if bool_decide (map_Forall (fun a _ => fst a <> p) (jobs s))
      then Some (Tau, mkSystem (file s +:+ buffer s p) (delete p (buffers s)) (lock s) (jobs s)) else None
  end.

Fixpoint acts (job : string -> list event) (xs : list action) (s : System) : option (list label * System) :=
  match xs with
  | [] => Some ([], s)
  | x :: xs =>
      match act job x s with
      | Some (l, s) => match acts job xs s with Some (tr, s) => Some (l :: tr, s) | None => None end
      | None => None
      end
  end.

Lemma act_fstep job x s l s' : act job x s = Some (l, s') -> fstep job s l s'.
Proof.
  destruct x as [a text|a k|p|p]; cbn.
  - destruct (jobs s !! a) eqn:E; [done|]. intros [= <- <-]. by constructor.
  - destruct (jobs s !! a) as [[text es]|] eqn:E; [|done]. destruct es as [|[] es]; cbn; try done.
    + intros [= <- <-]. by eapply f_done.
    + destruct (lock s) eqn:Ek; [..|done|done]; intros [= <- <-]; [by eapply f_lock|by eapply f_lock_dead].
    + destruct (bool_decide _ || bool_decide _) eqn:Ek; [|done]. intros [= <- <-].
      apply orb_true_iff in Ek as [Ek%bool_decide_eq_true|Ek%bool_decide_eq_true]; by eapply f_consistent.
    + case_bool_decide as Ek; [intros [= <- <-]; by apply (f_unlock _ _ _ _ _ true)|].
      case_bool_decide as Ek'; [intros [= <- <-]; by apply (f_unlock _ _ _ _ _ false)|done].
    + intros [= <- <-]. by eapply f_write.
    + intros [= <- <-]. by eapply f_flush.
  - intros [= <- <-]. apply f_die.
  - case_bool_decide as Hp; [|done]. intros [= <- <-]. apply f_exit. intros a Ha.
    destruct (jobs s !! a) as [j|] eqn:E; [|done]. by destruct (Hp _ _ E).
Qed.

Lemma fsteps_cons job s1 l s2 tr s3 : fstep job s1 l s2 -> fsteps job s2 tr s3 -> fsteps job s1 (l :: tr) s3.
Proof.
  intros Hs Htr. induction Htr as [s2|s2 tr s l' s' _ IH Hl]; [apply (fs_snoc _ _ [] s1); [constructor|exact Hs]|].
  apply (fs_snoc _ _ (l :: tr) s); [by apply IH|exact Hl].
Qed.

Lemma acts_fsteps job xs s tr s' : acts job xs s = Some (tr, s') -> fsteps job s tr s'.
Proof.
  revert s tr. induction xs as [|x xs IH]; intros s tr; cbn [acts]; [intros [= <- <-]; constructor|].
  destruct (act job x s) as [[l s1]|] eqn:Ea; [|done]. destruct (acts job xs s1) as [[tr1 s2]|] eqn:Exs; [|done].
  intros [= <- <-]. eapply fsteps_cons; [by eapply act_fstep|by apply IH].
Qed.

(** *** The file is a sequence of reports *)

(** What a report left in the file: all of it, or what its process wrote before it
    died. *)
Inductive piece : Type := Whole (text : string) | Cut (text : string) (k : N).

Definition piece_text (p : piece) : string := match p with Whole t => t | Cut t k => str_take k t end.
Definition whole (p : piece) : option string := match p with Whole t => Some t | Cut _ _ => None end.
Definition cuts (l : list piece) : nat := length (List.filter (fun p => match p with Cut _ _ => true | _ => false end) l).
Definition published (tr : list label) : list string :=
  omap (fun l => match l with Published t => Some t | _ => None end) tr.
Definition deaths (tr : list label) : nat := length (List.filter (fun l => match l with Died => true | _ => false end) tr).

(** A report under the lock: whether the mutex is still inconsistent, the events left,
    what of the report is in the file and what in the buffer. *)
Inductive writing (text : string) : bool -> list event -> string -> string -> Prop :=
  | w_dead : writing text true [Consistent; Insert text; Flush; Unlock] EmptyString EmptyString
  | w_locked : writing text false [Insert text; Flush; Unlock] EmptyString EmptyString
  | w_written w b : w +:+ b = text -> writing text false [Flush; Unlock] w b
  | w_flushed : writing text false [Unlock] text EmptyString.

Definition before_or_after (j : string * list event) : Prop := snd j = report_job (fst j) \/ snd j = [].

(** The reports of the threads other than [a] do not touch the file. *)
Definition quiet (except : option (N * N)) (s : System) : Prop :=
  (forall b j, Some b <> except -> jobs s !! b = Some j -> before_or_after j) /\
  (forall p, Some p <> fst <$> except -> buffer s p = EmptyString).

Definition sectioned (before : string) (s : System) : Prop :=
  match lock s with
  | Free | OwnerDead => quiet None s /\ file s = before
  | Held a d =>
      quiet (Some a) s /\ exists text l w,
        jobs s !! a = Some (text, l) /\ writing text d l w (buffer s (fst a)) /\ file s = before +:+ w
  | NotRecoverable => False
  end.

(** The link with response_diff.cc. *)
Lemma report_events {P} `{BoostRegex} `{BoostString} `{Host} `{DiffPrinter P} res (printer : P) w :
  gWriteInFile w = true -> gFile_is_open w = true -> ResponseDiff.getGlobalMutex w = true ->
  output_report res printer w = emits (Lock :: taken (owner_dead w) [Insert res; Flush; Unlock]) w.
Proof.
  intros Hf Ho Hm. unfold output_report, under_mutex. rewrite Hf, Ho, Hm. cbn [negb]. by destruct (owner_dead w).
Qed.

Lemma archive_events `{BoostRegex} `{BoostString} `{Host} `{BoostArchive} req w :
  gWriteInFile w = true -> gFile_is_open w = true -> ResponseDiff.getGlobalMutex w = true ->
  writeSerializedRequest req w
  = emits (Lock :: taken (owner_dead w) [Insert (text_oarchive (serialize req)); Unlock]) w.
Proof.
  intros Hf Ho Hm. unfold writeSerializedRequest, under_mutex. rewrite Hf, Ho, Hm. cbn [negb]. by destruct (owner_dead w).
Qed.

Section Sections.
Implicit Types (s : System) (before : string).

(** A thread past its lock holds the mutex. *)
Lemma acting before s a text e l :
  sectioned before s -> jobs s !! a = Some (text, e :: l) -> e <> Lock ->
  exists d w, lock s = Held a d /\ quiet (Some a) s /\
    writing text d (e :: l) w (buffer s (fst a)) /\ file s = before +:+ w.
Proof.
  unfold sectioned. intros Hs Hj He.
  assert (Hw : forall x, quiet x s -> Some a <> x -> False).
  { intros x [Hq _] Hne. destruct (Hq a _ Hne Hj) as [Hl|Hl]; cbn in Hl; [|done]. by injection Hl. }
  destruct (lock s) as [| |b d|].
  - destruct Hs as [Hq _]. by destruct (Hw _ Hq).
  - destruct Hs as [Hq _]. by destruct (Hw _ Hq).
  - destruct Hs as (Hq & t & l' & w & Hj' & Hwr & Hf). destruct (decide (a = b)) as [->|Hne].
    + rewrite Hj in Hj'. injection Hj' as <- <-. by exists d, w.
    + destruct (Hw _ Hq). congruence.
  - done.
Qed.

Lemma quiet_job x s a j f k :
  quiet x s -> before_or_after j \/ x = Some a -> quiet x (mkSystem f (buffers s) k (<[a := j]> (jobs s))).
Proof.
  intros [Hq Hb] Hj. split; [|done]. intros b j' Hb'. cbn.
  intros [[<- <-]|[Hne Hl]]%lookup_insert_Some; [|by eapply Hq].
  destruct Hj as [Hj | ->]; done.
Qed.

(** The holder takes the mutex: it was waiting, and the buffer of its process is empty. *)
Lemma quiet_take s a j f k :
  quiet None s -> quiet (Some a) (mkSystem f (buffers s) k (<[a := j]> (jobs s))).
Proof.
  intros [Hq Hb]. split; [|intros p _; by apply Hb]. intros b j' Hb'. cbn.
  intros [[<- <-]|[Hne Hl]]%lookup_insert_Some; [done|]. by eapply Hq.
Qed.

(** It gives it back, the buffer being empty. *)
Lemma quiet_release s a j f k :
  quiet (Some a) s -> before_or_after j -> buffer s (fst a) = EmptyString ->
  quiet None (mkSystem f (buffers s) k (<[a := j]> (jobs s))).
Proof.
  intros [Hq Hb] Hj He. split.
  - intros b j' _. cbn. intros [[<- <-]|[Hne Hl]]%lookup_insert_Some; [done|]. eapply Hq; [|exact Hl]. congruence.
  - intros p _. destruct (decide (p = fst a)) as [->|Hne]; [done|]. apply Hb. cbn. congruence.
Qed.

Lemma quiet_buffer s a j b f k :
  quiet (Some a) s -> quiet (Some a) (mkSystem f (<[fst a := b]> (buffers s)) k (<[a := j]> (jobs s))).
Proof.
  intros [Hq Hb]. split.
  - intros c j' Hc. cbn. intros [[<- <-]|[Hne Hl]]%lookup_insert_Some; [done|]. by eapply Hq.
  - intros p Hp. unfold buffer. cbn in Hp |- *. rewrite lookup_insert_ne by congruence. by apply Hb.
Qed.

Lemma buffer_insert f bs k js p b : buffer (mkSystem f (<[p := b]> bs) k js) p = b.
Proof. unfold buffer. cbn. by rewrite lookup_insert_eq. Qed.

Lemma quiet_die x s p k f :
  quiet x s -> x = None \/ (exists a, x = Some a /\ fst a <> p) ->
  quiet x (mkSystem f (delete p (buffers s)) k (filter (fun e => fst (fst e) <> p) (jobs s))).
Proof.
  intros [Hq Hb] Hx. split.
  - intros b j Hne. cbn. intros [Hl _]%map_lookup_filter_Some. by eapply Hq.
  - intros q Hne. unfold buffer. cbn. destruct (decide (q = p)) as [->|Hqp]; [by rewrite lookup_delete_eq|].
    rewrite lookup_delete_ne by done. by apply Hb.
Qed.

(** The process of the holder dies: the others are quiet. *)
Lemma quiet_killed s a k f :
  quiet (Some a) s ->
  quiet None (mkSystem f (delete (fst a) (buffers s)) k (filter (fun e => fst (fst e) <> fst a) (jobs s))).
Proof.
  intros [Hq Hb]. split.
  - intros b j _. cbn. intros [Hl Hne]%map_lookup_filter_Some. cbn in Hne. eapply Hq; [|exact Hl]. congruence.
  - intros q _. unfold buffer. cbn. destruct (decide (q = fst a)) as [->|Hqp]; [by rewrite lookup_delete_eq|].
    rewrite lookup_delete_ne by done. apply Hb. cbn. congruence.
Qed.

(** What a step adds to the pieces of the file. *)
Definition adds (before : string) (l : label) (s' : System) : Prop :=
  exists ps, sectioned (before +:+ str_concat (piece_text <$> ps)) s' /\ omap whole ps = published [l] /\
    (cuts ps <= deaths [l])%nat.

Lemma adds_nothing before s' : sectioned before s' -> adds before Tau s'.
Proof. intros Hs. exists []. cbn. rewrite sapp_nil_r. by split_and!. Qed.

Lemma writing_prefix text d l w b : writing text d l w b -> exists k, w = str_take k text.
Proof.
  intros [| |w' b' <-|].
  - exists 0%N. by destruct text.
  - exists 0%N. by destruct text.
  - exists (str_len w'). by rewrite str_take_app.
  - exists (str_len text). by rewrite str_take_all.
Qed.

Lemma one_piece p : str_concat (piece_text <$> [p]) = piece_text p.
Proof. cbn [fmap list_fmap str_concat]. apply sapp_nil_r. Qed.

Lemma die_adds before s p :
  sectioned before s ->
  adds before Died
    (mkSystem (file s) (delete p (buffers s)) (abandoned p (lock s)) (filter (fun e => fst (fst e) <> p) (jobs s))).
Proof.
  intros Hs. unfold sectioned in Hs. unfold adds, sectioned, abandoned. cbn [lock].
  assert (Hnone : forall d, exists ps, before +:+ str_concat (piece_text <$> ps) = before /\ omap whole ps = published [Died] /\
    (cuts ps <= d)%nat) by (intros d; exists []; cbn; rewrite sapp_nil_r; split_and!; [done|done|lia]).
  destruct (lock s) as [| |a d|] eqn:Ek.
  - destruct Hs as [Hq Hf]. destruct (Hnone 1%nat) as (ps & He & Hps). exists ps. rewrite He. split; [|done].
    split; [|done]. apply quiet_die; [done|by left].
  - destruct Hs as [Hq Hf]. destruct (Hnone 1%nat) as (ps & He & Hps). exists ps. rewrite He. split; [|done].
    split; [|done]. apply quiet_die; [done|by left].
  - destruct Hs as (Hq & text & l & w & Hj & Hw & Hf). case_bool_decide as Hp.
    + subst p. destruct (writing_prefix _ _ _ _ _ Hw) as [k Hk]. exists [Cut text k]. split_and!.
      * by apply quiet_killed.
      * rewrite one_piece. cbn. by rewrite Hf, Hk.
      * done.
      * cbn. lia.
    + destruct (Hnone 1%nat) as (ps & He & Hps). exists ps. rewrite He. split; [|done]. split.
      * apply quiet_die; [done|right; by exists a].
      * exists text, l, w. split_and!; [|unfold buffer in *; cbn; by rewrite lookup_delete_ne|done].
        cbn. apply map_lookup_filter_Some. by split.
  - done.
Qed.

(** *** Each step *)

Lemma begin_sectioned before s a j :
  sectioned before s -> jobs s !! a = None -> before_or_after j ->
  sectioned before (mkSystem (file s) (buffers s) (lock s) (<[a := j]> (jobs s))).
Proof.
  unfold sectioned. cbn [lock file]. intros Hs Ha Hj. destruct (lock s) as [| |b d|]; [..|done].
  - split; [apply quiet_job; [apply Hs|by left]|apply Hs].
  - split; [apply quiet_job; [apply Hs|by left]|apply Hs].
  - destruct Hs as (Hq & text & l & w & Hb & Hw & Hf). split; [apply quiet_job; [done|by left]|].
    exists text, l, w. split_and!; [|done|done]. cbn. rewrite lookup_insert_ne; [done|]. intros ->. congruence.
Qed.

Lemma lock_sectioned before s a text l d :
  sectioned before s -> jobs s !! a = Some (text, Lock :: l) -> lock s = (if d : bool then OwnerDead else Free) ->
  sectioned before (mkSystem (file s) (buffers s) (Held a d) (<[a := (text, taken d l)]> (jobs s))).
Proof.
  unfold sectioned. intros Hs Ha Hk. assert (Hqf : quiet None s /\ file s = before) by (rewrite Hk in Hs; by destruct d).
  clear Hs. destruct Hqf as [Hq Hf]. destruct (proj1 Hq a _ ltac:(done) Ha) as [Hl|]; [|done]. cbn in Hl. injection Hl as ->.
  cbn [lock]. split; [by apply quiet_take|]. exists text, (taken d [Insert text; Flush; Unlock]), EmptyString.
  cbn [jobs file]. rewrite lookup_insert_eq, sapp_nil_r. unfold buffer. cbn [buffers].
  change (default _ _) with (buffer s (fst a)). rewrite (proj2 Hq (fst a)) by done.
  split_and!; [done|destruct d; constructor|done].
Qed.

(** A step of the holder, which keeps the mutex. *)
Lemma holder_sectioned before s a text l d w b f :
  quiet (Some a) s -> writing text d l w b -> f = before +:+ w ->
  sectioned before (mkSystem f (<[fst a := b]> (buffers s)) (Held a d) (<[a := (text, l)]> (jobs s))).
Proof.
  intros Hq Hw Hf. split; [by apply quiet_buffer|]. exists text, l, w.
  split_and!; [by cbn; rewrite lookup_insert_eq|by rewrite buffer_insert|done].
Qed.

Lemma job_done before s a text :
  sectioned before s -> jobs s !! a = Some (text, []) ->
  sectioned before (mkSystem (file s) (buffers s) (lock s) (delete a (jobs s))).
Proof.
  unfold sectioned. intros Hs Ha. cbn [lock file].
  assert (Hq : forall x, quiet x s -> quiet x (mkSystem (file s) (buffers s) (lock s) (delete a (jobs s)))).
  { intros x [Hq Hb]. split; [|done]. intros b j Hne. cbn. intros [_ Hl]%lookup_delete_Some. by eapply Hq. }
  destruct (lock s) as [| |b d|]; [split; [apply Hq, Hs|apply Hs]..| |done].
  destruct Hs as (Hqu & t & l & w & Hb & Hw & Hf). split; [by apply Hq|]. exists t, l, w. split_and!; [|done|done].
  cbn. rewrite lookup_delete_ne; [done|]. intros ->. rewrite Ha in Hb. injection Hb as <- <-. inversion Hw.
Qed.

Lemma exit_sectioned before s p :
  sectioned before s -> (forall a, fst a = p -> jobs s !! a = None) ->
  sectioned before (mkSystem (file s +:+ buffer s p) (delete p (buffers s)) (lock s) (jobs s)).
Proof.
  unfold sectioned. intros Hs Hp. cbn [lock file].
  assert (Hq : forall x, quiet x s -> quiet x (mkSystem (file s +:+ buffer s p) (delete p (buffers s)) (lock s) (jobs s))).
  { intros x [Hq Hb]. split; [done|]. intros q Hne. unfold buffer. cbn.
    destruct (decide (q = p)) as [->|Hqp]; [by rewrite lookup_delete_eq|]. rewrite lookup_delete_ne by done. by apply Hb. }
  destruct (lock s) as [| |b d|]; [split; [apply Hq, Hs|destruct Hs as [Hs ->]; by rewrite (proj2 Hs), sapp_nil_r]..| |done].
  destruct Hs as (Hqu & t & l & w & Hb & Hw & Hf). split; [by apply Hq|].
  assert (Hne : fst b <> p) by (intros He; by rewrite (Hp b He) in Hb).
  exists t, l, w. split_and!; [done|unfold buffer in *; cbn; by rewrite lookup_delete_ne|].
  rewrite (proj2 Hqu) by (cbn; congruence). by rewrite sapp_nil_r.
Qed.

Lemma fstep_adds before s l s' : sectioned before s -> fstep report_job s l s' -> adds before l s'.
Proof.
  intros Hs [a text Ha|a text k Ha Hk|a text k Ha Hk|a text k d Ha Hk|a text k t n Ha b|a text k Ha|a text k d Ha Hk|a text Ha|p|p Hp].
  - apply adds_nothing. apply begin_sectioned; [done|done|by left].
  - apply adds_nothing. by apply (lock_sectioned before s a text k false).
  - apply adds_nothing. by apply (lock_sectioned before s a text k true).
  - destruct (acting _ _ _ _ _ _ Hs Ha ltac:(done)) as (d' & w & Hk' & Hq & Hw & Hf).
    apply adds_nothing. split; [apply quiet_job; [done|by right]|].
    inversion Hw; subst. exists text, [Insert text; Flush; Unlock], EmptyString. cbn [jobs file].
    rewrite lookup_insert_eq. split_and!; [done| |done]. unfold buffer in *. cbn [buffers].
    match goal with H : EmptyString = _ |- _ => rewrite <- H end. constructor.
  - destruct (acting _ _ _ _ _ _ Hs Ha ltac:(done)) as (d & w & Hk & Hq & Hw & Hf). apply adds_nothing. rewrite Hk.
    inversion Hw; subst. apply (holder_sectioned before s a _ _ _ (str_take n b)); [done| |by rewrite Hf, sapp_nil_r].
    constructor. unfold b. match goal with H : EmptyString = _ |- _ => rewrite <- H end. by rewrite str_take_drop.
  - destruct (acting _ _ _ _ _ _ Hs Ha ltac:(done)) as (d & w & Hk & Hq & Hw & Hf). apply adds_nothing. rewrite Hk.
    inversion Hw; subst. eapply holder_sectioned; [done|constructor|]. by rewrite Hf, sapp_assoc.
  - destruct (acting _ _ _ _ _ _ Hs Ha ltac:(done)) as (d' & w & Hk' & Hq & Hw & Hf). rewrite Hk in Hk'. injection Hk' as <-.
    inversion Hw; subst. exists [Whole w]. rewrite one_piece. split_and!; [|done|done]. split; [|done].
    apply quiet_release; [done|by right|done].
  - apply adds_nothing. by eapply job_done.
  - by apply die_adds.
  - apply adds_nothing. by apply exit_sectioned.
Qed.
End Sections.

Lemma cuts_app a b : cuts (a ++ b) = (cuts a + cuts b)%nat.
Proof. unfold cuts. by rewrite List.filter_app, length_app. Qed.

Lemma published_app a b : published (a ++ b) = published a ++ published b.
Proof. apply omap_app. Qed.

Lemma deaths_app a b : deaths (a ++ b) = (deaths a + deaths b)%nat.
Proof. unfold deaths. by rewrite List.filter_app, length_app. Qed.

Lemma reports_sectioned s0 tr s :
  sectioned (file s0) s0 -> fsteps report_job s0 tr s ->
  exists log, sectioned (file s0 +:+ str_concat (piece_text <$> log)) s /\ omap whole log = published tr /\
    (cuts log <= deaths tr)%nat.
Proof.
  intros H0 Hs. induction Hs as [s0|s0 tr s1 l s2 _ IH Hstep].
  - exists []. cbn. rewrite sapp_nil_r. by split_and!.
  - destruct (IH H0) as (log & Hlog & Hw & Hc). destruct (fstep_adds _ _ _ _ Hlog Hstep) as (ps & Hps & Hpw & Hpc).
    exists (log ++ ps). rewrite fmap_app, str_concat_app, <- sapp_assoc, omap_app, cuts_app, published_app, deaths_app, Hw, Hpw.
    split_and!; [done|done|lia].
Qed.

(** [C12] Any number of processes and threads, each of which may die anywhere, write their
    reports as [output_report] does, from a mutex that is initialised and free. Whatever
    the order of their events, the mutex never becomes unusable, and the file is what it
    was, followed by the reports, in the order in which the mutex was given back, each
    in one piece: only a death leaves a report cut, one at most, and the thread that
    holds the mutex the beginning of its own. *)
Theorem reports_whole {P} `{BoostRegex} `{BoostString} `{Host} `{DiffPrinter P} s0 tr s :
  lock s0 = Free -> jobs s0 = ∅ -> (forall p, buffer s0 p = EmptyString) -> fsteps report_job s0 tr s ->
  (forall res (printer : P) w, gWriteInFile w = true -> gFile_is_open w = true -> ResponseDiff.getGlobalMutex w = true ->
     trace (output_report res printer w) = trace w ++ match report_job res with
                                                      | e :: l => e :: taken (owner_dead w) l | [] => [] end) /\
  lock s <> NotRecoverable /\
  exists log partial,
    file s = file s0 +:+ str_concat (piece_text <$> log) +:+ partial /\
    omap whole log = published tr /\ (cuts log <= deaths tr)%nat /\
    match lock s with
    | Held a _ => exists text l k, jobs s !! a = Some (text, l) /\ partial = str_take k text
    | _ => partial = EmptyString
    end.
Proof.
  intros Hk Hj Hb Hs. split; [|assert (Hinit : sectioned (file s0) s0)].
  - intros res printer w Hf Ho Hm. rewrite report_events by done. apply trace_emits.
  - unfold sectioned. rewrite Hk. split; [|done]. split; [|intros p _; apply Hb].
    intros b j _ Hl. by rewrite Hj, lookup_empty in Hl.
  - destruct (reports_sectioned _ _ _ Hinit Hs) as (log & Hlog & Hw & Hc). unfold sectioned in Hlog.
    destruct (lock s) as [| |a d|]; [..|done]; (split; [done|]); exists log.
    + exists EmptyString. rewrite sapp_nil_r. by destruct Hlog.
    + exists EmptyString. rewrite sapp_nil_r. by destruct Hlog.
    + destruct Hlog as (_ & text & l & w & Ha & Hwr & Hf). destruct (writing_prefix _ _ _ _ _ Hwr) as [k Hwk].
      exists w. rewrite Hf, sapp_assoc. split_and!; [done..|]. by exists text, l, k.
Qed.

(** *** Checks *)
Module MutexExamples.
Import Reference JsonDiffPrinter JsonDiffPrinter.Tree.
#[local] Existing Instance boost_string.
#[local] Existing Instance literal_regex.
#[local] Instance host : Host := {| ResponseDiff.getGlobalMutex _ := true; owner_dead _ := false; file_opens _ _ := true |}.

(** A schedule: the process whose turn it is, and the error of its call, if it fails. *)
Definition move (M : Machine) (x : N * option string) : Machine :=
  let '(i, fails) := x in
  let put q m := mkMachine m (<[i := q]> (processes M)) in
  match processes M !! i with
  | None => put (Running (getGlobalMutex NULL)) (shm M)
  | Some (Running p) =>
      match sys_step fails p (shm M) with
      | Next p' m' => put (Running p') m'
      | Signal => put Killed (shm M)
      | Finished r => put (Got r) (shm M)
      end
  | Some _ => M
  end.

Lemma moves_ok l M : rtc machine_step M (foldl move M l).
Proof.
  revert M. induction l as [|[i fails] l IH]; intros M; [done|]. cbn [foldl].
  transitivity (move M (i, fails)); [|apply IH]. unfold move.
  destruct (processes M !! i) as [[p| |r]|] eqn:Hi; [|done..|by apply rtc_once, m_start].
  destruct (sys_step fails p (shm M)) as [p' m'| |r] eqn:Hs; apply rtc_once; by econstructor.
Qed.

(** The first process creates the object, and initialises the mutex while the two others
    open it; the mapping of the third fails. *)
Definition schedule : list (N * option string) :=
  let ok i := (i, None) in
  [ok 1; ok 1; ok 2; ok 1; ok 2; ok 3; ok 1; ok 3; ok 2; ok 2; ok 3; ok 1; ok 3; (3, Some "ENOMEM"%string); ok 1; ok 1; ok 3;
   ok 2; ok 3; ok 1; ok 1; ok 1; ok 1; ok 1; ok 2; ok 2]%N.

Definition three_started : Machine := mkMachine (mkShm None ∅) ∅.
Definition three_done : Machine := foldl move three_started schedule.

Example three_results :
  (fun i => match processes three_done !! i with Some (Got r) => Some r | _ => None end) <$> [1; 2; 3]%N
  = [Some (At 0); Some (At 0); Some MAP_FAILED].
Proof. vm_compute. reflexivity. Qed.

Lemma mutex_created_once_witness :
  (processes three_started = ∅ /\ rtc machine_step three_started three_done) /\
  name (shm three_done) = Some 0%N /\
  exists o, objects (shm three_done) !! 0%N = Some o /\ inits_of o = 1%nat /\ forall s r n, o = Mutex s r n -> s = true /\ r = true.
Proof.
  assert (Hr : rtc machine_step three_started three_done) by apply moves_ok.
  split; [exact (conj eq_refl Hr)|]. destruct (mutex_created_once three_started three_done eq_refl Hr) as (Hn & _ & Ho).
  assert (Hgot : processes three_done !! 2%N = Some (Got (At 0))) by (vm_compute; reflexivity).
  assert (Hobj : objects (shm three_done) !! 0%N = Some (Mutex true true 1)) by (vm_compute; reflexivity).
  assert (Hnew : objects (shm three_started) !! 0%N = None) by (vm_compute; reflexivity).
  split; [exact (Hn _ _ Hgot)|]. exists (Mutex true true 1). exact (conj Hobj (conj eq_refl (proj2 (Ho _ _ Hobj Hnew)))).
Defined.

Definition empty_file : System := mkSystem EmptyString ∅ Free ∅.

(** Two processes: the first one dies in the middle of its report. *)
Definition a0 : N * N := (0, 0)%N.
Definition a1 : N * N := (1, 0)%N.

Lemma acts_some job xs s : is_Some (acts job xs s) -> exists tr s', acts job xs s = Some (tr, s') /\ fsteps job s tr s'.
Proof. intros [[tr s'] Ha]. exists tr, s'. split; [done|by eapply acts_fsteps]. Qed.

(** A death in the middle of a report: the next process goes on. *)
Definition with_death : list action :=
  [Begin a0 "first"; Begin a1 "second"; Go a0 0; Go a0 3; Die 0; Go a1 0; Go a1 0; Go a1 2; Go a1 0; Go a1 0]%string.

Lemma reports_whole_witness :
  exists tr s, fsteps report_job empty_file tr s /\ file s = "firsecond"%string /\ published tr = ["second"%string] /\
  lock s <> NotRecoverable /\ exists log partial,
    "firsecond"%string = str_concat (piece_text <$> log) +:+ partial /\ omap whole log = ["second"%string] /\ (cuts log <= 1)%nat.
Proof.
  assert (Hf : (fun x => (fst x, file (snd x))) <$> acts report_job with_death empty_file
    = Some ([Tau; Tau; Tau; Tau; Died; Tau; Tau; Tau; Tau; Published "second"], "firsecond")%string) by (vm_compute; reflexivity).
  destruct (acts report_job with_death empty_file) as [[tr s]|] eqn:Ea; [|done]. cbn in Hf. injection Hf as Htr Hfile.
  exists tr, s. pose proof (acts_fsteps _ _ _ _ _ Ea) as Hs. split; [exact Hs|]. split; [exact Hfile|].
  pose proof (reports_whole (P := anyPrinter) (H1 := host) empty_file tr s eq_refl eq_refl (fun p => eq_refl) Hs)
    as (_ & Hk & log & partial & Hl & Hw & Hc & _).
  rewrite Hfile in Hl. subst tr. split; [reflexivity|]. split; [exact Hk|]. exists log, partial.
  split; [exact Hl|]. split; [exact Hw|exact Hc].
Defined.

(** Archives are not flushed under the mutex: two of them may be mixed up. *)
Definition two_archives : list action :=
  [Begin a0 "first"; Begin a1 "second"; Go a0 0; Go a0 3; Go a0 0; Go a0 0; Go a1 0; Go a1 6; Go a1 0; Go a1 0; Exit 0]%string.

Lemma archives_torn :
  exists tr s, fsteps archive_job empty_file tr s /\ published tr = ["first"; "second"]%string /\
    file s = "firsecondst"%string.
Proof.
  assert (Hf : (fun x => (published (fst x), file (snd x))) <$> acts archive_job two_archives empty_file
    = Some (["first"; "second"], "firsecondst")%string) by (vm_compute; reflexivity).
  destruct (acts archive_job two_archives empty_file) as [[tr s]|] eqn:Ea; [|done]. cbn in Hf. injection Hf as Htr Hfile.
  exists tr, s. split; [by eapply acts_fsteps|]. split; [exact Htr|exact Hfile].
Qed.
End MutexExamples.
