(* ===== verification/Hooks.v ===== *)
(** * Hooks

    What the three modules register in Apache ([registerHooks], [postConfig] and the
    functions of the insert_filter hook of mod_dup.cc, mod_compare.cc and
    mod_migrate.cc), and the chains of filters a request gets from them. Apache keeps
    the filters of a request in the order of their types; how it does is a parameter. *)
From S2P Require Import Prelude CxxString Boost RequestCommon RequestInfo DupConf Log ModCompare.
From S2P Require Migrate.
Local Open Scope Z_scope.

(** ** What Apache keeps *)

(** util_filter.h *)
Definition AP_FTYPE_RESOURCE : Z := 10.
Definition AP_FTYPE_CONTENT_SET : Z := 20.
Definition AP_FTYPE_TRANSCODE : Z := 40.

(** apr_hooks.h *)
Definition APR_HOOK_FIRST : Z := 0.
Definition APR_HOOK_MIDDLE : Z := 10.
Definition APR_HOOK_LAST : Z := 20.

(** A filter: its name and type. *)
Definition filter_rec : Type := string * Z.

(** A filter is added to a chain, which stays in the order of the types. *)
Class FilterChain : Type := ap_add_filter : filter_rec -> list filter_rec -> list filter_rec.

Definition by_type (a b : filter_rec) : Prop := snd a <= snd b.

Class FilterChainLaws (C : FilterChain) : Prop := {
  add_filter_perm f l : ap_add_filter f l ≡ₚ f :: l;
  add_filter_sorted f l : StronglySorted by_type l -> StronglySorted by_type (ap_add_filter f l)
}.

Section Hooks.
Context `{BoostRegex} {B : BoostString} `{FilterChain}.
Local Existing Instance B.

(** What the modules keep for the location of a request. *)
Record Location : Type := mkLocation {
  dup_conf : DupConf;
  compare_conf : CompareConf;
  migrate_conf : Migrate.Migrate.MigrateConf
}.

(** The filters of a request. *)
Record Chains : Type := mkChains { inputs : list filter_rec; outputs : list filter_rec }.

(** The functions of each hook with their order; for translate_name also the modules
    that come after. *)
Record Registry : Type := mkRegistry {
  input_filters : list filter_rec;
  output_filters : list filter_rec;
  post_config : list (string * Z);
  child_init : list (string * Z);
  translate_name : list (string * list string * Z);
  insert_filter : list ((list filter_rec -> list filter_rec -> Location -> Chains -> Chains) * Z)
}.

Definition find_type (name : string) (l : list filter_rec) : option Z :=
  snd <$> List.find (fun f => String.eqb (fst f) name) l.

(** An unknown name is only logged. *)
Definition add_filter (registered : list filter_rec) (name : string) (chain : list filter_rec) : list filter_rec :=
  match find_type name registered with Some t => ap_add_filter (name, t) chain | None => chain end.

End Hooks.

(** ** mod_dup.cc *)
Module Dup.
Section Dup.
Context `{BoostRegex} {B : BoostString} `{FilterChain}.
Local Existing Instance B.
Definition gName : string := "Dup".
Definition gNameOutBody : string := "DupOutBody".
Definition gNameOutHeaders : string := "DupOutHeaders".

Definition postConfig (gInstance : option Z) : option Z * Z := (Log.init_default gInstance, 0).

Definition insertInputFilter (ins outs : list filter_rec) (loc : Location) (c : Chains) : Chains :=
  if bool_decide (is_Some (dirName (dup_conf loc))) then mkChains (add_filter ins gName (inputs c)) (outputs c) else c.

Definition insertOutputBodyFilter (ins outs : list filter_rec) (loc : Location) (c : Chains) : Chains :=
  if bool_decide (is_Some (dirName (dup_conf loc)))
  then mkChains (inputs c) (add_filter outs gNameOutBody (outputs c)) else c.

Definition insertOutputHeadersFilter (ins outs : list filter_rec) (loc : Location) (c : Chains) : Chains :=
  if bool_decide (is_Some (dirName (dup_conf loc)))
  then mkChains (inputs c) (add_filter outs gNameOutHeaders (outputs c)) else c.

Definition registerHooks (r : Registry) : Registry :=
  mkRegistry
    (input_filters r ++ [(gName, AP_FTYPE_CONTENT_SET)])
    (output_filters r ++ [(gNameOutBody, AP_FTYPE_RESOURCE); (gNameOutHeaders, AP_FTYPE_TRANSCODE)])
    (post_config r ++ [("mod_dup"%string, APR_HOOK_MIDDLE)])
    (child_init r ++ [("mod_dup"%string, APR_HOOK_MIDDLE)])
    (translate_name r)
    (insert_filter r ++ [(insertInputFilter, APR_HOOK_MIDDLE); (insertOutputBodyFilter, APR_HOOK_LAST);
                         (insertOutputHeadersFilter, APR_HOOK_LAST)]).
End Dup.
End Dup.

(** ** mod_compare.cc *)
Module Compare.
Section Compare.
Context `{BoostRegex} {B : BoostString} `{FilterChain}.
Local Existing Instance B.
Definition gName : string := "Compare".
Definition gNameOut : string := "CompareOut".
Definition gNameOut2 : string := "CompareOut2".

Definition insertOutputFilter (ins outs : list filter_rec) (loc : Location) (c : Chains) : Chains :=
  if mIsActive (compare_conf loc) then mkChains (inputs c) (add_filter outs gNameOut (outputs c)) else c.

Definition insertOutputFilter2 (ins outs : list filter_rec) (loc : Location) (c : Chains) : Chains :=
  if mIsActive (compare_conf loc) then mkChains (inputs c) (add_filter outs gNameOut2 (outputs c)) else c.

(** The input filter is registered and inserted by no hook. *)
Definition registerHooks (r : Registry) : Registry :=
  mkRegistry
    (input_filters r ++ [(gName, AP_FTYPE_RESOURCE)])
    (output_filters r ++ [(gNameOut, AP_FTYPE_RESOURCE); (gNameOut2, AP_FTYPE_TRANSCODE)])
    (post_config r ++ [("mod_compare"%string, APR_HOOK_MIDDLE)])
    (child_init r ++ [("mod_compare"%string, APR_HOOK_MIDDLE)])
    (translate_name r ++ [("mod_compare"%string, [], APR_HOOK_MIDDLE)])
    (insert_filter r ++ [(insertOutputFilter, APR_HOOK_LAST); (insertOutputFilter2, APR_HOOK_LAST)]).
End Compare.
End Compare.

(** ** mod_migrate.cc *)
Module MigrateHooks.
Section MigrateHooks.
Context `{BoostRegex} {B : BoostString} `{FilterChain}.
Local Existing Instance B.
Definition gNameBody2Brigade : string := "MigrateBody2Brigade".

Definition postConfig (gInstance : option Z) : option Z * Z := (Log.init_default gInstance, 0).

Definition insertInputFilter (ins outs : list filter_rec) (loc : Location) (c : Chains) : Chains :=
  if bool_decide (is_Some (Migrate.Migrate.mDirName (migrate_conf loc)))
  then mkChains (add_filter ins gNameBody2Brigade (inputs c)) (outputs c) else c.

Definition registerHooks (r : Registry) : Registry :=
  mkRegistry
    (input_filters r ++ [(gNameBody2Brigade, AP_FTYPE_CONTENT_SET)])
    (output_filters r)
    (post_config r ++ [("mod_migrate"%string, APR_HOOK_MIDDLE)])
    (child_init r)
    (translate_name r ++ [("mod_migrate"%string, ["mod_rewrite.c"%string], APR_HOOK_MIDDLE)])
    (insert_filter r ++ [(insertInputFilter, APR_HOOK_FIRST)]).
End MigrateHooks.
End MigrateHooks.

(** ** The chains of a request *)

Section Chains.
Context `{BoostRegex} {B : BoostString} {C : FilterChain} {CL : FilterChainLaws C}.
Local Existing Instance B.

(** The insert_filter hook: every function is called, in an order Apache chooses. *)
Definition run_insert_filter (r : Registry) (loc : Location)
    (order : list (list filter_rec -> list filter_rec -> Location -> Chains -> Chains)) (c : Chains) : Chains :=
  foldl (fun c f => f (input_filters r) (output_filters r) loc c) c order.

Definition empty_registry : Registry := mkRegistry [] [] [] [] [] [].

(** The three modules, in the order the configuration loads them. *)
Definition registered (modules : list (Registry -> Registry)) : Registry := foldl (fun r m => m r) empty_registry modules.

Definition all_modules : list (Registry -> Registry) := [Dup.registerHooks; Compare.registerHooks; MigrateHooks.registerHooks].

Definition dup_on (loc : Location) : bool := bool_decide (is_Some (dirName (dup_conf loc))).
Definition compare_on (loc : Location) : bool := mIsActive (compare_conf loc).
Definition migrate_on (loc : Location) : bool := bool_decide (is_Some (Migrate.Migrate.mDirName (migrate_conf loc))).

(** The filters of the modules for a location. *)
Definition our_outputs (loc : Location) : list filter_rec :=
  (if dup_on loc then [(Dup.gNameOutBody, AP_FTYPE_RESOURCE); (Dup.gNameOutHeaders, AP_FTYPE_TRANSCODE)] else [])
  ++ (if compare_on loc then [(Compare.gNameOut, AP_FTYPE_RESOURCE); (Compare.gNameOut2, AP_FTYPE_TRANSCODE)] else []).

Definition our_inputs (loc : Location) : list filter_rec :=
  (if dup_on loc then [(Dup.gName, AP_FTYPE_CONTENT_SET)] else [])
  ++ (if migrate_on loc then [(MigrateHooks.gNameBody2Brigade, AP_FTYPE_CONTENT_SET)] else []).

(** What one function adds, whatever the chains. *)
Definition adds_filters (r : Registry) (loc : Location)
    (f : list filter_rec -> list filter_rec -> Location -> Chains -> Chains) (ins outs : list filter_rec) : Prop :=
  forall c, let c' := f (input_filters r) (output_filters r) loc c in
    inputs c' ≡ₚ ins ++ inputs c /\ outputs c' ≡ₚ outs ++ outputs c /\
    (StronglySorted by_type (inputs c) -> StronglySorted by_type (inputs c')) /\
    (StronglySorted by_type (outputs c) -> StronglySorted by_type (outputs c')).

Lemma add_filter_adds registered name t chain :
  find_type name registered = Some t ->
  add_filter registered name chain ≡ₚ (name, t) :: chain /\
  (StronglySorted by_type chain -> StronglySorted by_type (add_filter registered name chain)).
Proof. unfold add_filter. intros ->. split; [apply add_filter_perm|apply add_filter_sorted]. Qed.

Definition inserter : Type := list filter_rec -> list filter_rec -> Location -> Chains -> Chains.

(** Each function with the input and output filters it adds. *)
Definition table (loc : Location) : list (inserter * (list filter_rec * list filter_rec)) :=
  [(Dup.insertInputFilter, (if dup_on loc then [(Dup.gName, AP_FTYPE_CONTENT_SET)] else [], []));
   (Dup.insertOutputBodyFilter, ([], if dup_on loc then [(Dup.gNameOutBody, AP_FTYPE_RESOURCE)] else []));
   (Dup.insertOutputHeadersFilter, ([], if dup_on loc then [(Dup.gNameOutHeaders, AP_FTYPE_TRANSCODE)] else []));
   (Compare.insertOutputFilter, ([], if compare_on loc then [(Compare.gNameOut, AP_FTYPE_RESOURCE)] else []));
   (Compare.insertOutputFilter2, ([], if compare_on loc then [(Compare.gNameOut2, AP_FTYPE_TRANSCODE)] else []));
   (MigrateHooks.insertInputFilter,
     (if migrate_on loc then [(MigrateHooks.gNameBody2Brigade, AP_FTYPE_CONTENT_SET)] else [], []))].

Ltac inserted name t :=
  match goal with
  | |- context [add_filter ?r name ?chain] =>
      destruct (add_filter_adds r name t chain eq_refl) as [? ?]
  end; split_and!; done.

Lemma table_adds loc :
  Forall (fun e => adds_filters (registered all_modules) loc (fst e) (fst (snd e)) (snd (snd e))) (table loc).
Proof.
  unfold table. rewrite !Forall_cons. split_and!; [..|by constructor]; intros c; cbn [fst snd]; cbv zeta;
    unfold Dup.insertInputFilter, Dup.insertOutputBodyFilter, Dup.insertOutputHeadersFilter,
      Compare.insertOutputFilter, Compare.insertOutputFilter2, MigrateHooks.insertInputFilter, dup_on, compare_on, migrate_on.
  - case_bool_decide; [|done]. cbn [inputs outputs app]. inserted Dup.gName AP_FTYPE_CONTENT_SET.
  - case_bool_decide; [|done]. cbn [inputs outputs app]. inserted Dup.gNameOutBody AP_FTYPE_RESOURCE.
  - case_bool_decide; [|done]. cbn [inputs outputs app]. inserted Dup.gNameOutHeaders AP_FTYPE_TRANSCODE.
  - destruct (mIsActive _); [|done]. cbn [inputs outputs app]. inserted Compare.gNameOut AP_FTYPE_RESOURCE.
  - destruct (mIsActive _); [|done]. cbn [inputs outputs app]. inserted Compare.gNameOut2 AP_FTYPE_TRANSCODE.
  - case_bool_decide; [|done]. cbn [inputs outputs app]. inserted MigrateHooks.gNameBody2Brigade AP_FTYPE_CONTENT_SET.
Qed.

Lemma run_adds r loc (es : list (inserter * (list filter_rec * list filter_rec))) c :
  Forall (fun e => adds_filters r loc (fst e) (fst (snd e)) (snd (snd e))) es ->
  let c' := run_insert_filter r loc (fst <$> es) c in
  inputs c' ≡ₚ concat ((fun e => fst (snd e)) <$> es) ++ inputs c /\
  outputs c' ≡ₚ concat ((fun e => snd (snd e)) <$> es) ++ outputs c /\
  (StronglySorted by_type (inputs c) -> StronglySorted by_type (inputs c')) /\
  (StronglySorted by_type (outputs c) -> StronglySorted by_type (outputs c')).
Proof.
  intros Hes. cbv zeta. revert c. induction Hes as [|e es He _ IH]; intros c; [done|].
  unfold run_insert_filter in *. cbn [fmap list_fmap foldl concat].
  destruct (He c) as (Hi & Ho & Hsi & Hso).
  destruct (IH (fst e (input_filters r) (output_filters r) loc c)) as (IHi & IHo & IHsi & IHso).
  split_and!; [| |auto|auto].
  - rewrite IHi, Hi. by rewrite !app_assoc, (Permutation_app_comm (concat _)).
  - rewrite IHo, Ho. by rewrite !app_assoc, (Permutation_app_comm (concat _)).
Qed.

(** A filter comes before another one. *)
Definition before (f g : filter_rec) (l : list filter_rec) : Prop := exists l1 l2, l = l1 ++ l2 /\ f ∈ l1 /\ g ∈ l2.

Lemma types_before f g l : StronglySorted by_type l -> f ∈ l -> g ∈ l -> snd f < snd g -> before f g l.
Proof.
  intros Hs Hf Hg Hlt. induction Hs as [|h l _ IH Hh]; [by apply not_elem_of_nil in Hf|].
  rewrite Forall_forall in Hh. apply elem_of_cons in Hf as [->|Hf], Hg as [->|Hg]; [lia|..].
  - exists [h], l. split_and!; [done|by left|done].
  - specialize (Hh _ Hf). unfold by_type in Hh. lia.
  - destruct (IH Hf Hg) as (l1 & l2 & -> & H1' & H2'). exists (h :: l1), l2. split_and!; [done|by right|done].
Qed.

(** [C38] The filters of a request, in whatever order Apache calls the functions of the hook
    and whatever the filters of the other modules: each module has its own filters at
    the locations where it is active, once, and no others; the filter that keeps the
    answer of mod_dup runs before the one that sends the duplicate, and the first
    filter of mod_compare before the one that compares; the input filter of mod_compare
    is never inserted. *)
Theorem filters_in_order loc order c :
  order ≡ₚ (fst <$> insert_filter (registered all_modules)) ->
  StronglySorted by_type (inputs c) -> StronglySorted by_type (outputs c) ->
  let c' := run_insert_filter (registered all_modules) loc order c in
  inputs c' ≡ₚ our_inputs loc ++ inputs c /\ outputs c' ≡ₚ our_outputs loc ++ outputs c /\
  StronglySorted by_type (inputs c') /\ StronglySorted by_type (outputs c') /\
  (dup_on loc = true ->
     before (Dup.gNameOutBody, AP_FTYPE_RESOURCE) (Dup.gNameOutHeaders, AP_FTYPE_TRANSCODE) (outputs c')) /\
  (compare_on loc = true ->
     before (Compare.gNameOut, AP_FTYPE_RESOURCE) (Compare.gNameOut2, AP_FTYPE_TRANSCODE) (outputs c')) /\
  ((Compare.gName, AP_FTYPE_RESOURCE) ∈ inputs c' -> (Compare.gName, AP_FTYPE_RESOURCE) ∈ inputs c).
Proof.
  intros Hp Hsi Hso. cbv zeta.
  destruct (Permutation_map_inv fst (table loc) Hp) as (es & -> & Hes).
  pose proof (table_adds loc) as Hall. rewrite Hes in Hall.
  destruct (run_adds _ loc es c Hall) as (Hi & Ho & Hsi' & Hso').
  assert (Hin : concat ((fun e => fst (snd e)) <$> es) ≡ₚ our_inputs loc).
  { rewrite <- Hes. unfold our_inputs. cbn. by rewrite app_nil_r. }
  assert (Hout : concat ((fun e => snd (snd e)) <$> es) ≡ₚ our_outputs loc).
  { rewrite <- Hes. unfold our_outputs. cbn. by destruct (dup_on loc), (compare_on loc). }
  rewrite Hin in Hi. rewrite Hout in Ho.
  change (run_insert_filter _ loc (map fst es) c) with (run_insert_filter (registered all_modules) loc (fst <$> es) c).
  split_and!; [done|done|auto|auto|..].
  - intros Hd. apply types_before; [auto|rewrite Ho; unfold our_outputs; rewrite Hd; set_solver..|done].
  - intros Hd. apply types_before; [auto|rewrite Ho; unfold our_outputs; rewrite Hd; set_solver..|done].
  - rewrite Hi. intros [Hc|Hc]%elem_of_app; [|done]. unfold our_inputs in Hc.
    destruct (dup_on loc), (migrate_on loc); cbn in Hc; set_solver.
Qed.
End Chains.

(** ** Evaluated on a location *)
Module HookExamples.
Import Reference.
#[local] Existing Instance boost_string.
#[local] Existing Instance literal_regex.

Fixpoint insert_by_type (f : filter_rec) (l : list filter_rec) : list filter_rec :=
  match l with
  | [] => [f]
  | g :: l' => if snd f <? snd g then f :: l else g :: insert_by_type f l'
  end.

#[local] Instance ordered_chain : FilterChain := insert_by_type.

Lemma insert_by_type_perm f l : insert_by_type f l ≡ₚ f :: l.
Proof. induction l as [|g l IH]; [done|]. cbn. destruct (snd f <? snd g); [done|]. rewrite IH. apply Permutation_swap. Qed.

#[local] Instance ordered_chain_laws : FilterChainLaws ordered_chain.
Proof.
  split; [apply insert_by_type_perm|]. intros f l Hl. unfold ap_add_filter, ordered_chain.
  induction Hl as [|g l Hl IH Hg]; cbn; [by repeat constructor|].
  destruct (Z.ltb_spec (snd f) (snd g)) as [Hlt|Hle].
  - constructor; [by constructor|]. constructor; [unfold by_type; lia|].
    eapply Forall_impl; [exact Hg|]. unfold by_type. intros h Hh. cbn in Hh. lia.
  - constructor; [done|]. rewrite insert_by_type_perm. by constructor.
Qed.

Definition both : Location :=
  mkLocation (set_dirName (Some "/p"%string) newDupConf) (set_mIsActive true (newCompareConf "/p"))
    Migrate.Migrate.createDirConfig.

(** mod_deflate is there first. *)
Definition deflate : Chains := mkChains [] [("DEFLATE"%string, 20)].

Definition last_first : list inserter := rev (fst <$> insert_filter (registered all_modules)).

Lemma filters_in_order_witness :
  let c := run_insert_filter (registered all_modules) both last_first deflate in
  c = mkChains [("Dup"%string, 20)]
        [("CompareOut", 10); ("DupOutBody", 10); ("DEFLATE", 20); ("CompareOut2", 40); ("DupOutHeaders", 40)]%string /\
  before ("DupOutBody"%string, 10) ("DupOutHeaders"%string, 40) (outputs c).
Proof.
  cbv zeta. split; [reflexivity|].
  apply (filters_in_order both last_first deflate); [|repeat constructor..|reflexivity].
  unfold last_first. symmetry. apply Permutation_rev.
Defined.
End HookExamples.
